(* ===== verification/_CoqProject ===== *)
-Q . S2P
Prelude.v
Types.v
Device.v
Smoltcp.v
Reference.v
Config.v
Manager.v
Core.v
Packet.v
Session.v
Flow.v
Invariant.v
Streams.v
StreamsCorrect.v
Wakeup.v
Runner.v
RunnerCorrect.v
UdpCorrect.v
CycleCorrect.v
Handle.v
HandleCorrect.v
Builder.v
System.v
ConfigKept.v
DevicesKept.v
OrderFree.v
SystemCorrect.v
FlowCorrect.v
Progress.v
Addresses.v
Waiting.v
TunProxy.v
TunProxyCorrect.v
Components.v
Traces.v
Theorems.v
Witnesses.v
