(* ===== verification/Prelude.v ===== *)
(** * way-netstack: a verification library

    way-netstack is a user-space network stack for transparent proxies: raw IP
    packets go in through a handle, a background task runs the smoltcp engine
    over virtual devices, and application sessions (TCP streams, UDP
    pseudo-sessions keyed by source and destination) come out. This library
    models the crate (src/src) and the transparent proxy that ships with it
    (src/examples/tun_proxy.rs), and proves the properties listed below.

    ** The program and its model

    - [lib.rs], [log.rs], [error.rs], [session/types.rs]: [Types.v].
    - [device/virtual_device.rs], the ingress and egress queues behind
      smoltcp's [Device] trait: [Device.v]. The engine reaches a device only
      through the trait, so the effect of a poll is the closure
      [device_steps] of the trait's operations.
    - smoltcp and tokio are not part of the repository: [Smoltcp.v] collects
      what the crate calls in the classes [Wire], [Engine] and [Tokio], and the
      documented behaviour it relies on in [WireLaws], [EngineLaws] and
      [TokioLaws]. [Reference.v] has executable instances and the proofs of
      their laws; only witnesses and concrete runs use it.
    - [builder.rs]: the configuration and the setters in [Config.v], [build] and
      [build_interface] in [Builder.v].
    - [session/manager.rs] (tables, UDP queues, reference counts of the shared
      UDP sockets): [Manager.v].
    - [core.rs] (interface slots, buffer budget, [Shared]): [Core.v].
    - the packet classifier at the end of [runner.rs]: [Packet.v].
    - [session/mod.rs], [stream/tcp.rs], [stream/udp.rs]: the objects in
      [Session.v], their methods in [Streams.v]. [recv] and [send], which hold
      no lock across their loops, are given both as one undisturbed turn and as
      atomic steps ([recv_step], [send_step]).
    - [runner.rs], one poll cycle (pre-pass, poll, post-pass, collection of
      egress packets): [Runner.v].
    - [handle.rs] and the ingress channel: [Handle.v].
    - [NetstackRunner::run], [poll_once] outside of the lock, and the
      application: [System.v], a transition system whose actions are the
      critical sections and the other observable steps.
    - [examples/tun_proxy.rs], the program that embeds the stack: [TunProxy.v].
      Its event loop, its relay tasks and the stack's runner are the actions of
      a transition system over the [World] of [System.v] and a log of system
      calls. The operating system is the class [Os], any function from the
      calls made so far to the next answer.

    ** How it is modelled

    Code that mutates state is a computation [M S A] of the state monad below,
    whose outcome is a result, a panic, or lack of fuel; [wp] is total
    correctness, so every specification also says that the code returns. A
    panic is what the source or a documented library assertion would raise: an
    unknown socket handle, a socket of another type, an index, an arithmetic
    overflow, [tcp::Socket::new] with a receive buffer over 1 GiB,
    [mpsc::channel] with a capacity beyond the semaphore's, a vector beyond
    [isize::MAX] bytes, a timeout that does not fit smoltcp's [Duration].
    [usize] arithmetic goes through [uadd] and [umul] at the width of
    the [Target], which panic or wrap as the build profile says. A [HashMap] is
    a [gmap] whose iteration order comes from [HashOrder]; the order may differ
    at every step. An [Arc<UdpQueue>] is an identifier into the store
    [queues], so the table entry and the session object share the queue.
    The critical sections under the mutex are atomic. Sessions, which are
    dropped by whoever holds them last, are tracked by the ghost list [live] of
    the invariant.

    Two loops carry fuel: [drain_socket] is given one more than the length of
    the receive buffer, [drain_ingress] one more than the number of queued
    packets ([drain_complete] in [Components.v] and theorem C18 show that this suffices).

    ** What is proved

    - [Invariant.v] states the invariant [Inv] and its frame lemmas;
      [StreamsCorrect.v], [RunnerCorrect.v], [UdpCorrect.v], [CycleCorrect.v],
      [HandleCorrect.v] and [SystemCorrect.v] show that every operation keeps it
      and what it computes; [ConfigKept.v] and [DevicesKept.v] which operations
      leave the configuration, the completion signal and the devices alone;
      [Wakeup.v] and [Waiting.v] what waiting tasks can rely on, the latter over
      whole executions of the system (entries that wait for their handshake,
      senders that wait for a cycle, writers that rely on the timer).
    - [Flow.v] is the abstract specification of the stack as a pipeline of
      queues, with its events and what it conserves; [FlowCorrect.v] shows that
      the running system refines it, through an abstraction function and the
      invariant [wiring] on channel ends and scratch buffers. [Progress.v] shows
      when the runner can step and that it serves what is queued, [OrderFree.v]
      that the order of map iteration does not matter, [Addresses.v] that the
      sessions of the application are typed by their flows.
    - [TunProxyCorrect.v] simulates the proxy by the running system, so that it
      inherits every property of reachable states, and follows its system calls.
    - [Components.v] has further results on single operations.
    - [Theorems.v] has the properties C1 to C40: safety and invariants of every
      reachable state of the system (C1 to C5), building (C6), the poll cycle
      and its passes (C7 to C10), packets and sessions from end to end (C11 to
      C14: refinement of the pipeline, exactly-once delivery in both directions
      and of sessions), typing of sessions (C15), independence of map order
      (C16), progress of the runner and its drain loop (C17, C18), the proxy
      (C19 to C22), routing and allocation (C23 to C25), the methods of sessions
      (C26 to C32), the handle and components (C33 to C35), and waiting and
      reclaiming (C36 to C40). C20, C32 and some of the last group state
      behaviour that the code's comments do not intend.
    - [Traces.v] runs the whole system on the reference engine, [Witnesses.v]
      applies the theorems to states of these runs.

    The hypotheses on the configuration ([sane_config]) are that its fields are
    machine integers, that the sockets of full session tables fit in a [usize],
    and that no single value is one for which a library call documents a panic:
    TCP buffers of at most 1 GiB, buffers a vector can hold, a channel capacity
    the semaphore accepts, a timeout that fits in 64 bits of microseconds.
    [builder.rs] checks none of these; the default configuration satisfies them.
    Beyond the documented panics, the engine's own operations, such as
    [Interface::poll], are taken to return, and the code to run inside a tokio
    runtime.

    ** What is not modelled

    Log output and [Debug] output; exhaustion of memory; the choice of the global allocator; poisoning
    of the mutex (which C1 excludes); the tests and the load generator in
    [examples/stress_test.rs], which drive the crate through its public
    interface. In the proxy, a system call that the program awaits is one step
    with the code before it, the cancellation of the relays by [abort_all] takes
    effect at once, and what the runtime drops after [main] returns is left out.
    Time is a parameter of each step, not a clock; that a waiting task is polled
    again after it is woken is left to tokio. *)
From stdpp Require Import base tactics list gmap strings numbers.

(** ** Results, outcomes and the effect monad *)

(** Rust's [Result<T, E>]. *)
Inductive result (T E : Type) : Type :=
| Ok (t : T)
| Err (e : E).
Arguments Ok {T E} t.
Arguments Err {T E} e.

(** The ways a call of the crate (or of a library function it relies on) can
    panic. *)
Inductive panic : Type :=
| NoSuchSocket        (* SocketSet::get_mut / remove on an unknown handle *)
| WrongSocketType     (* SocketSet::get_mut::<T> on a socket of another type *)
| IndexOutOfBounds    (* Vec indexing *)
| ArithOverflow       (* an arithmetic overflow with overflow checks on *)
| DanglingQueue       (* reading an [Arc<UdpQueue>] that was never allocated *)
| ReadBufOverflow     (* ReadBuf::advance past the initialised region *)
| PrefixTooLong       (* IpCidr::new with a prefix longer than the address *)
| AddressNotUnicast   (* Interface::update_ip_addrs with a non-unicast address *)
| CapacityOverflow    (* an allocation of more than isize::MAX bytes *)
| BufferTooLarge      (* tcp::Socket::new with a receive buffer over 1 GiB *)
| ChannelCapacity     (* mpsc::channel with no permits or too many *)
| ExpectFailed.       (* Result::expect or unwrap on an error *)

Inductive outcome (A : Type) : Type :=
| Done (a : A)
| Panic (why : panic)
| OutOfFuel.
Arguments Done {A} a.
Arguments Panic {A} why.
Arguments OutOfFuel {A}.

(** [M S A]: code that mutates a state [S], may panic, and returns an [A]. *)
Definition M (S A : Type) : Type := S → outcome (A * S).

#[global] Instance M_ret {S} : MRet (M S) := λ A a s, Done (a, s).
#[global] Instance M_bind {S} : MBind (M S) := λ A B f m s,
  match m s with
  | Done (a, s') => f a s'
  | Panic p => Panic p
  | OutOfFuel => OutOfFuel
  end.

Definition mpanic {S A} (p : panic) : M S A := λ _, Panic p.
Definition mget {S} : M S S := λ s, Done (s, s).
Definition mgets {S A} (f : S → A) : M S A := λ s, Done (f s, s).
Definition mmodify {S} (f : S → S) : M S unit := λ s, Done (tt, f s).

(** [for x in l { b = f(b, x) }] *)
Fixpoint mfold {S A B} (f : B → A → M S B) (l : list A) (b : B) : M S B :=
  match l with
  | [] => mret b
  | x :: l' => b' ← f b x; mfold f l' b'
  end.

(** [m?]: go on with the value, or return the error. *)
Definition mtry {S A B Er} (m : M S (result A Er)) (f : A → M S (result B Er)) : M S (result B Er) :=
  r ← m; match r with Ok a => f a | Err e => mret (Err e) end.

Notation "x ←? m ; k" := (mtry m (λ x, k))
  (at level 20, m at level 100, k at level 200, right associativity) : stdpp_scope.

(** Run a computation on a part of the state ([&mut self.field]). *)
Definition zoom {S T A} (proj : S → T) (upd : T → S → S) (m : M T A) : M S A := λ s,
  match m (proj s) with
  | Done (a, t) => Done (a, upd t s)
  | Panic p => Panic p
  | OutOfFuel => OutOfFuel
  end.

(** A closure that captures [env] by mutable reference: it runs on [env], which
    is passed in and out. *)
Definition run_closure {S Env A} (m : M Env A) (env : Env) : M S (A * Env) := λ s,
  match m env with
  | Done r => Done (r, s)
  | Panic p => Panic p
  | OutOfFuel => OutOfFuel
  end.

(** ** Total-correctness weakest preconditions

    [wp m Q s]: started in [s], [m] returns (it neither panics nor runs out of
    fuel) and its result and final state satisfy [Q]. *)
Definition wp {S A} (m : M S A) (Q : A → S → Prop) (s : S) : Prop :=
  match m s with
  | Done (a, s') => Q a s'
  | _ => False
  end.

Section wp_rules.
Context {S : Type}.

Lemma wp_ret {A} (a : A) (Q : A → S → Prop) s : Q a s → wp (mret a) Q s.
Proof. done. Qed.

Lemma wp_bind {A B} (m : M S A) (f : A → M S B) Q s :
  wp m (λ a s', wp (f a) Q s') s → wp (m ≫= f) Q s.
Proof.
  unfold wp, mbind, M_bind. destruct (m s) as [[a s']| |]; done.
Qed.

Lemma wp_mono {A} (m : M S A) (Q Q' : A → S → Prop) s :
  wp m Q s → (∀ a s', Q a s' → Q' a s') → wp m Q' s.
Proof. unfold wp. destruct (m s) as [[a s']| |]; naive_solver. Qed.

Lemma wp_get (Q : S → S → Prop) s : Q s s → wp mget Q s.
Proof. done. Qed.

Lemma wp_gets {A} (f : S → A) (Q : A → S → Prop) s : Q (f s) s → wp (mgets f) Q s.
Proof. done. Qed.

Lemma wp_modify (f : S → S) (Q : unit → S → Prop) s : Q tt (f s) → wp (mmodify f) Q s.
Proof. done. Qed.

(** The loop rule: the invariant speaks of the elements still to be visited. *)
Lemma wp_mfold {A B} (f : B → A → M S B) (I : list A → B → S → Prop) l b s :
  (∀ x rest b s, I (x :: rest) b s → wp (f b x) (I rest) s) →
  I l b s → wp (mfold f l b) (I []) s.
Proof.
  intros Hstep. revert b s. induction l as [|x l IH]; intros b s HI; simpl; [done|].
  apply wp_bind. eapply wp_mono; [by apply Hstep|]. simpl. auto.
Qed.

(** A computation with a [wp] is a [Done] whose result satisfies the
    postcondition, and conversely. *)
Lemma wp_done {A} (m : M S A) Q s :
  wp m Q s ↔ ∃ a s', m s = Done (a, s') ∧ Q a s'.
Proof.
  unfold wp. destruct (m s) as [[a s']| |]; split.
  - intros HQ. by exists a, s'.
  - by intros (? & ? & [= <- <-] & ?).
  - done.
  - by intros (? & ? & ? & _).
  - done.
  - by intros (? & ? & ? & _).
Qed.

Lemma wp_eq {A} (m : M S A) s a s' : wp m (λ x t, x = a ∧ t = s') s → m s = Done (a, s').
Proof. unfold wp. destruct (m s) as [[x t]| |]; [|done..]. by intros [-> ->]. Qed.

Lemma wp_elim {A} (m : M S A) Q s a s' : wp m Q s → m s = Done (a, s') → Q a s'.
Proof. unfold wp. intros HQ E. by rewrite E in HQ. Qed.

Lemma bind_done {A B} (m : M S A) (f : A → M S B) s a s' :
  m s = Done (a, s') → (m ≫= f) s = f a s'.
Proof. unfold mbind, M_bind. by intros ->. Qed.

Lemma wp_zoom {T A} (proj : S → T) upd (m : M T A) Q s :
  wp m (λ a t, Q a (upd t s)) (proj s) → wp (zoom proj upd m) Q s.
Proof. unfold wp, zoom. by destruct (m (proj s)) as [[a t]| |]. Qed.

Lemma wp_run_closure {Env A} (m : M Env A) env (Q : A * Env → S → Prop) s :
  wp m (λ a env', Q (a, env') s) env → wp (run_closure m env) Q s.
Proof. unfold wp, run_closure. by destruct (m env) as [[a env']| |]. Qed.

Lemma wp_conj {A} (m : M S A) (Q Q' : A → S → Prop) s :
  wp m Q s → wp m Q' s → wp m (λ a s', Q a s' ∧ Q' a s') s.
Proof. unfold wp. destruct (m s) as [[a s']| |]; naive_solver. Qed.
End wp_rules.

(** [wp_go] runs the structural rules as far as the computation is written
    with the primitives; calls of named operations are left to their rules. *)
Ltac wp_go :=
  repeat (cbv beta iota zeta delta [negb andb orb];
    lazymatch goal with
    | |- wp (mbind _ _) _ _ => apply wp_bind
    | |- wp (mret _) _ _ => apply wp_ret
    | |- wp mget _ _ => apply wp_get
    | |- wp (mgets _) _ _ => apply wp_gets
    | |- wp (mmodify _) _ _ => apply wp_modify
    | |- wp (zoom _ _ _) _ _ => apply wp_zoom
    | |- wp (run_closure _ _) _ _ => apply wp_run_closure
    end);
  cbv beta iota zeta delta [negb andb orb].

(** ** Observations that a computation keeps

    [keeps obs m]: whenever [m] returns, [obs] of the state is what it was. The
    rules are hints of the database [keeps], and [keeps_go] follows the
    structure of the computation. *)
Create HintDb keeps discriminated.

Definition keeps {S A X} (obs : S → X) (m : M S A) : Prop :=
  ∀ s a s', m s = Done (a, s') → obs s' = obs s.

Section keeps_rules.
Context {S X : Type} (obs : S → X).

Lemma keeps_ret {A} (a : A) : keeps obs (mret a).
Proof. by intros s a' s' [= <- <-]. Qed.

Lemma keeps_panic {A} p : keeps obs (mpanic (A := A) p).
Proof. by intros s a s'. Qed.

Lemma keeps_get : keeps obs mget.
Proof. by intros s a s' [= <- <-]. Qed.

Lemma keeps_gets {A} (f : S → A) : keeps obs (mgets f).
Proof. by intros s a s' [= <- <-]. Qed.

Lemma keeps_modify (f : S → S) : (∀ s, obs (f s) = obs s) → keeps obs (mmodify f).
Proof. by intros Hf s a s' [= <- <-]. Qed.

Lemma keeps_bind {A B} (m : M S A) (f : A → M S B) :
  keeps obs m → (∀ a, keeps obs (f a)) → keeps obs (m ≫= f).
Proof.
  intros Hm Hf s b s'. unfold mbind, M_bind. destruct (m s) as [[a s1]| |] eqn:Em; [|done..].
  intros Hb. apply Hm in Em. apply Hf in Hb. congruence.
Qed.

Lemma keeps_mfold {A B} (f : B → A → M S B) l b :
  (∀ b x, keeps obs (f b x)) → keeps obs (mfold f l b).
Proof.
  intros Hf. revert b. induction l as [|x l IH]; intros b; simpl; [apply keeps_ret|].
  by apply keeps_bind.
Qed.

Lemma keeps_zoom {T A} (proj : S → T) upd (m : M T A) {Y} (obs' : T → Y) (g : Y → S → X) :
  (∀ s, obs s = g (obs' (proj s)) s) → (∀ t s, obs (upd t s) = g (obs' t) s) →
  keeps obs' m → keeps obs (zoom proj upd m).
Proof.
  intros H1 H2 Hm s a s'. unfold zoom. destruct (m (proj s)) as [[a' t]| |] eqn:Em; [|done..].
  intros [= <- <-]. apply Hm in Em. by rewrite H2, Em, <- H1.
Qed.

Lemma keeps_run_closure {Env A} (m : M Env A) env : keeps obs (run_closure m env).
Proof. intros s a s'. unfold run_closure. destruct (m env); [|done..]. by intros [= _ <-]. Qed.
End keeps_rules.

#[export] Hint Resolve keeps_ret keeps_panic keeps_get keeps_gets keeps_run_closure : keeps.

(** A kept observation strengthens a postcondition. *)
Lemma wp_keeps {S A X} (obs : S → X) (m : M S A) Q s :
  keeps obs m → wp m Q s → wp m (λ a s', Q a s' ∧ obs s' = obs s) s.
Proof.
  intros Hk. unfold wp. destruct (m s) as [[a s']| |] eqn:Em; [|done..]. intros HQ.
  split; [done|]. by eapply Hk.
Qed.

Ltac keeps_go :=
  repeat (cbv beta iota zeta;
    lazymatch goal with
    | |- keeps _ (mbind _ _) => apply keeps_bind; [|intros ?]
    | |- keeps _ (mmodify _) => apply keeps_modify; by intros []
    | |- keeps _ (mfold _ _ _) => apply keeps_mfold; intros ? ?
    | |- keeps _ (match ?x with _ => _ end) => destruct x
    | |- keeps _ _ => solve [eauto with keeps]
    end).

(** ** Machine integers *)

(** The compilation target: the widths of [usize] and of C's [long], and whether
    arithmetic overflow panics (debug profile) or wraps (release profile). *)
Class Target : Type := {
  usize_bits : Z;
  c_long_bits : Z;
  overflow_checks : bool;
}.

Section usize.
Context `{T : Target}.
Local Open Scope Z_scope.

Definition usize_max : Z := 2 ^ usize_bits - 1.

Definition usize_of {S} (v : Z) : M S Z :=
  if bool_decide (v ≤ usize_max) then mret v
  else if overflow_checks then mpanic ArithOverflow
  else mret (v `mod` 2 ^ usize_bits).

Definition uadd {S} (a b : Z) : M S Z := usize_of (a + b).
Definition umul {S} (a b : Z) : M S Z := usize_of (a * b).
Definition saturating_sub (a b : Z) : Z := Z.max 0 (a - b).

(** [vec![x; n]] with elements of [size] bytes: an allocation is at most
    [isize::MAX] bytes long. *)
Definition isize_max : Z := 2 ^ (usize_bits - 1) - 1.

Definition vec_alloc {S} (n size : Z) : M S unit :=
  if bool_decide (n * size ≤ isize_max) then mret tt else mpanic CapacityOverflow.

Lemma usize_of_ok {S} v (s : S) : v ≤ usize_max → usize_of v s = Done (v, s).
Proof. intros H. unfold usize_of. by rewrite bool_decide_eq_true_2. Qed.

Lemma wp_uadd {S} a b (Q : Z → S → Prop) s :
  a + b ≤ usize_max → Q (a + b) s → wp (uadd a b) Q s.
Proof. intros H HQ. unfold wp, uadd. by rewrite usize_of_ok. Qed.

Lemma wp_umul {S} a b (Q : Z → S → Prop) s :
  a * b ≤ usize_max → Q (a * b) s → wp (umul a b) Q s.
Proof. intros H HQ. unfold wp, umul. by rewrite usize_of_ok. Qed.

Lemma wp_vec_alloc {S} n size (Q : unit → S → Prop) s :
  n * size ≤ isize_max → Q tt s → wp (vec_alloc n size) Q s.
Proof. intros H HQ. unfold vec_alloc. rewrite bool_decide_eq_true_2 by done. done. Qed.

Lemma saturating_sub_exact a b : b ≤ a → saturating_sub a b = a - b.
Proof. unfold saturating_sub. lia. Qed.
End usize.

(** The usual targets. *)
Definition debug64 : Target := {| usize_bits := 64; c_long_bits := 64; overflow_checks := true |}.
Definition release64 : Target := {| usize_bits := 64; c_long_bits := 64; overflow_checks := false |}.

(** ** Hash maps

    A Rust [HashMap] is a [gmap]; the order in which it is iterated is
    unspecified, so every loop over a map takes the order from this class. *)
Class HashOrder : Type := {
  hash_iter : ∀ {K V : Type} `{Countable K}, gmap K V → list (K * V);
  hash_iter_perm : ∀ {K V : Type} `{Countable K} (m : gmap K V),
    hash_iter m ≡ₚ map_to_list m;
}.

Definition std_order : HashOrder :=
  {| hash_iter := λ K V _ _ m, map_to_list m;
     hash_iter_perm := λ K V _ _ m, reflexivity _ |}.

Section hash_iter.
Context `{HO : HashOrder} {K V : Type} `{Countable K}.

Lemma elem_of_hash_iter (m : gmap K V) k v : (k, v) ∈ hash_iter m ↔ m !! k = Some v.
Proof. by rewrite hash_iter_perm, elem_of_map_to_list. Qed.

Lemma hash_iter_NoDup_fst (m : gmap K V) : NoDup (hash_iter m).*1.
Proof. rewrite hash_iter_perm. apply NoDup_fst_map_to_list. Qed.
End hash_iter.

(** ** Counting the entries of a map that satisfy a predicate *)
Section count.
Context {K V : Type} `{Countable K} (P : K → Prop) `{∀ k, Decision (P k)}.

Definition count_keys (m : gmap K V) : nat := size (filter (λ kv : K * V, P kv.1) m).

Lemma count_keys_empty : count_keys ∅ = 0.
Proof. unfold count_keys. by rewrite map_filter_empty, map_size_empty. Qed.

Lemma count_keys_insert_in m k v :
  m !! k = None → P k → count_keys (<[k:=v]> m) = S (count_keys m).
Proof.
  intros Hm HP. unfold count_keys. rewrite map_filter_insert_True by done.
  apply map_size_insert_None, map_lookup_filter_None. by left.
Qed.

Lemma count_keys_insert_out m k v :
  m !! k = None → ¬ P k → count_keys (<[k:=v]> m) = count_keys m.
Proof.
  intros Hm HP. unfold count_keys. rewrite map_filter_insert_False by done.
  by rewrite delete_id.
Qed.

Lemma count_keys_overwrite m k v :
  is_Some (m !! k) → count_keys (<[k:=v]> m) = count_keys m.
Proof.
  intros [w Hw]. unfold count_keys. destruct (decide (P k)) as [HP|HP].
  - rewrite map_filter_insert_True by done. apply map_size_insert_Some.
    exists w. by apply map_lookup_filter_Some.
  - rewrite map_filter_insert_False by done. rewrite map_filter_delete.
    rewrite delete_id; [done|]. apply map_lookup_filter_None. right.
    by intros x _.
Qed.

Lemma count_keys_delete m k v :
  m !! k = Some v →
  count_keys m = (if decide (P k) then 1 else 0) + count_keys (delete k m).
Proof.
  intros Hm. rewrite <- (insert_id m k v) at 1 by done.
  rewrite <- insert_delete_eq. case_decide.
  - by rewrite count_keys_insert_in by (by rewrite ?lookup_delete_eq).
  - by rewrite count_keys_insert_out by (by rewrite ?lookup_delete_eq).
Qed.

Lemma count_keys_pos m k v : m !! k = Some v → P k → 1 ≤ count_keys m.
Proof. intros Hm HP. rewrite (count_keys_delete m k v Hm), decide_True by done. lia. Qed.
End count.

(** A set built from a list has at most as many elements. *)
Lemma size_list_to_set_le {A} `{Countable A} (l : list A) :
  size (list_to_set l : gset A) ≤ length l.
Proof.
  induction l as [|x l IH]; [done|]. cbn [list_to_set length].
  rewrite size_union_alt, size_singleton.
  pose proof (subseteq_size (list_to_set l ∖ {[x]} : gset A) (list_to_set l)) as Hs.
  assert (size (list_to_set l ∖ {[x]} : gset A) ≤ size (list_to_set l : gset A)); [|lia].
  apply Hs. set_solver.
Qed.

(** An update that a projection does not see. *)
Lemma list_fmap_insert_same {A B} (f : A → B) (l : list A) (n : nat) x y :
  l !! n = Some x → f y = f x → f <$> <[n := y]> l = f <$> l.
Proof.
  intros Hn Hf. rewrite list_fmap_insert. apply list_insert_id.
  by rewrite list_lookup_fmap, Hn, Hf.
Qed.
