(* ===== verification/Types.v ===== *)
(** * Identifiers, log levels, errors and session keys

    The plain data of the crate: [lib.rs] ([InterfaceId]), [log.rs],
    [error.rs], [session/types.rs], and the endpoint types of [smoltcp::wire]
    and [std::net] that those files store. *)
From stdpp Require Import base gmap strings pretty.
From S2P Require Import Prelude.

(** ** lib.rs: interface identifiers *)

(** [pub struct InterfaceId(u16)] *)
Record InterfaceId : Type := mkInterfaceId { InterfaceId_0 : Z }.

Definition InterfaceId_new (raw : Z) : option InterfaceId := Some (mkInterfaceId raw).

Definition InterfaceId_get (self : InterfaceId) : Z := InterfaceId_0 self.

(** [write!(f, "if{}", self.0)] *)
Definition InterfaceId_fmt (self : InterfaceId) : string :=
  "if" +:+ pretty (InterfaceId_0 self).

#[global] Instance InterfaceId_eq_dec : EqDecision InterfaceId.
Proof. solve_decision. Defined.
#[global] Instance InterfaceId_countable : Countable InterfaceId.
Proof. by refine (inj_countable' InterfaceId_0 mkInterfaceId _); intros []. Defined.

(** Creating an identifier never fails, reading it back gives the raw value,
    and its display form tells identifiers apart. *)
Lemma InterfaceId_roundtrip raw :
  InterfaceId_get <$> InterfaceId_new raw = Some raw.
Proof. done. Qed.

Lemma InterfaceId_fmt_inj i j : InterfaceId_fmt i = InterfaceId_fmt j → i = j.
Proof.
  destruct i as [i], j as [j]. unfold InterfaceId_fmt; simpl. intros H.
  f_equal. by apply (inj pretty), (inj (String.append "if")).
Qed.

(** ** log.rs: log levels *)

Inductive LogLevel : Type :=
| LogLevel_None
| LogLevel_Error
| LogLevel_Warning
| LogLevel_Info
| LogLevel_Debug.

#[global] Instance LogLevel_eq_dec : EqDecision LogLevel.
Proof. solve_decision. Defined.

Definition ordinal (self : LogLevel) : Z :=
  match self with
  | LogLevel_None => 0
  | LogLevel_Error => 1
  | LogLevel_Warning => 2
  | LogLevel_Info => 3
  | LogLevel_Debug => 4
  end.

Definition includes (self lvl : LogLevel) : bool :=
  bool_decide (ordinal lvl ≤ ordinal self)%Z.

Definition enabled (configured lvl : LogLevel) : bool := includes configured lvl.

(** ** error.rs *)

Inductive NetstackError : Type :=
| InterfaceNotFound (id : InterfaceId)
| ChannelClosed
| ChannelFull
| SessionLimitReached
| InvalidPacket
| UnsupportedProtocol
| TcpNotOpen
| TcpBufferFull
| UdpNotOpen
| UdpBufferFull
| Internal (msg : string).

(** [#[derive(Debug)]] of the newtype, which the [{0:?}] below uses. *)
Definition InterfaceId_debug (self : InterfaceId) : string :=
  "InterfaceId(" +:+ pretty (InterfaceId_0 self) +:+ ")".

(** The [#[error("...")]] attributes ([thiserror]'s [Display]). *)
Definition NetstackError_fmt (self : NetstackError) : string :=
  match self with
  | InterfaceNotFound id => "interface " +:+ InterfaceId_debug id +:+ " is not registered"
  | ChannelClosed => "netstack channel is closed"
  | ChannelFull => "netstack ingress channel is full"
  | SessionLimitReached => "session limit reached"
  | InvalidPacket => "invalid IP packet"
  | UnsupportedProtocol => "unsupported protocol"
  | TcpNotOpen => "TCP stream is not open"
  | TcpBufferFull => "TCP send buffer full"
  | UdpNotOpen => "UDP session is not open"
  | UdpBufferFull => "UDP send buffer full"
  | Internal msg => "internal error: " +:+ msg
  end.

Definition is_udp_buffer_full (self : NetstackError) : bool :=
  match self with UdpBufferFull => true | _ => false end.

(** ** smoltcp::wire and std::net endpoint types *)

(** [smoltcp::wire::IpAddress]; an address is its 32- or 128-bit value. *)
Inductive IpAddress : Type :=
| Ipv4 (a : Z)
| Ipv6 (a : Z).

Record IpEndpoint : Type := mkIpEndpoint { addr : IpAddress; port : Z }.

(** [smoltcp::wire::IpListenEndpoint] *)
Record IpListenEndpoint : Type := mkIpListenEndpoint {
  listen_addr : option IpAddress;
  listen_port : Z;
}.

(** [std::net::IpAddr] and [std::net::SocketAddr] (built by [SocketAddr::new],
    so with zero flow info and scope id). *)
Inductive IpAddr : Type :=
| V4 (a : Z)
| V6 (a : Z).

Record SocketAddr : Type := mkSocketAddr { sa_ip : IpAddr; sa_port : Z }.

#[global] Instance IpAddress_eq_dec : EqDecision IpAddress.
Proof. solve_decision. Defined.
#[global] Instance IpAddress_countable : Countable IpAddress.
Proof.
  refine (inj_countable'
    (λ a, match a with Ipv4 x => inl x | Ipv6 x => inr x end)
    (λ s, match s with inl x => Ipv4 x | inr x => Ipv6 x end) _).
  by intros [].
Defined.
#[global] Instance IpEndpoint_eq_dec : EqDecision IpEndpoint.
Proof. solve_decision. Defined.
#[global] Instance IpEndpoint_countable : Countable IpEndpoint.
Proof.
  refine (inj_countable' (λ e, (addr e, port e)) (λ p, mkIpEndpoint p.1 p.2) _).
  by intros [].
Defined.

(** ** session/types.rs: session keys *)

Inductive Proto : Type :=
| Proto_Tcp
| Proto_Udp.

#[global] Instance Proto_eq_dec : EqDecision Proto.
Proof. solve_decision. Defined.
#[global] Instance Proto_countable : Countable Proto.
Proof.
  refine (inj_countable' (λ p, match p with Proto_Tcp => true | Proto_Udp => false end)
    (λ b : bool, if b then Proto_Tcp else Proto_Udp) _).
  by intros [].
Defined.

Record SessionKey : Type := mkSessionKey {
  interface : InterfaceId;
  proto : Proto;
  src : IpEndpoint;
  dst : IpEndpoint;
}.

Definition SessionKey_new (interface : InterfaceId) (proto : Proto) (src dst : IpEndpoint) : SessionKey :=
  {| interface := interface; proto := proto; src := src; dst := dst |}.

#[global] Instance SessionKey_eq_dec : EqDecision SessionKey.
Proof. solve_decision. Defined.
#[global] Instance SessionKey_countable : Countable SessionKey.
Proof.
  refine (inj_countable' (λ k, (interface k, proto k, src k, dst k))
    (λ '(i, p, s, d), mkSessionKey i p s d) _).
  by intros [].
Defined.

(** ** Properties of the log gate *)

(** The order [#[derive(Ord)]] gives: the position among the constructors. *)
Definition LogLevel_all : list LogLevel :=
  [LogLevel_None; LogLevel_Error; LogLevel_Warning; LogLevel_Info; LogLevel_Debug].

Lemma ordinal_inj l1 l2 : ordinal l1 = ordinal l2 → l1 = l2.
Proof. by destruct l1, l2. Qed.

(** [ordinal] is the constructor's position, so the hand-written order and the
    derived one agree. *)
Lemma ordinal_position l : LogLevel_all !! Z.to_nat (ordinal l) = Some l.
Proof. by destruct l. Qed.

Lemma includes_spec l1 l2 : includes l1 l2 = true ↔ (ordinal l2 ≤ ordinal l1)%Z.
Proof. unfold includes. by rewrite bool_decide_eq_true. Qed.

Lemma includes_refl l : includes l l = true.
Proof. by apply includes_spec. Qed.

Lemma includes_trans l1 l2 l3 :
  includes l1 l2 = true → includes l2 l3 = true → includes l1 l3 = true.
Proof. rewrite !includes_spec. lia. Qed.

Lemma includes_antisym l1 l2 :
  includes l1 l2 = true → includes l2 l1 = true → l1 = l2.
Proof. rewrite !includes_spec. intros ??. apply ordinal_inj. lia. Qed.
