(* ===== verification/Device.v ===== *)
(** * The virtual device

    [device/virtual_device.rs]: a [smoltcp::phy::Device] over two in-memory
    queues. [smoltcp] reaches the device only through the trait, so what a poll
    can do to it is the reflexive-transitive closure of the trait's
    operations, [device_steps]. *)
From stdpp Require Import base list relations.
From S2P Require Import Prelude Types.

(** Raw bytes ([bytes::Bytes], [Vec<u8>], [&[u8]]): a list of 8-bit values. *)
Abbreviation Bytes := (list Z).

Record VirtualDevice : Type := mkVirtualDevice {
  device_mtu : Z;
  ingress : list Bytes;
  egress : list Bytes;
}.

Definition VirtualDevice_new (mtu : Z) : VirtualDevice :=
  {| device_mtu := mtu; ingress := []; egress := [] |}.

Definition set_ingress (q : list Bytes) (self : VirtualDevice) : VirtualDevice :=
  {| device_mtu := device_mtu self; ingress := q; egress := egress self |}.

Definition set_egress (q : list Bytes) (self : VirtualDevice) : VirtualDevice :=
  {| device_mtu := device_mtu self; ingress := ingress self; egress := q |}.

Definition push_ingress (packet : Bytes) (self : VirtualDevice) : VirtualDevice :=
  set_ingress (ingress self ++ [packet]) self.

(** [struct RxToken { pkt: Bytes }] *)
Record RxToken : Type := mkRxToken { rx_pkt : Bytes }.

(** [RxToken::consume]: the closure sees the packet's bytes. *)
Definition rx_consume {R} (self : RxToken) (f : Bytes → R) : R := f (rx_pkt self).

(** [TxToken::consume]: the token borrows the device; the closure fills a
    zeroed buffer of [len] bytes in place, and the buffer is queued. *)
Definition tx_consume {R} (device : VirtualDevice) (len : nat) (f : Bytes → R * Bytes)
    : R * VirtualDevice :=
  let buf := replicate len 0%Z in
  let '(result, buf') := f buf in
  (result, set_egress (egress device ++ [buf']) device).

(** [Device::receive]: the receive token, and the device the transmit token
    borrows. *)
Definition receive (self : VirtualDevice) : option (RxToken * VirtualDevice) :=
  match ingress self with
  | [] => None
  | pkt :: rest => Some (mkRxToken pkt, set_ingress rest self)
  end.

(** [Device::transmit]: always a token on the device itself. *)
Definition transmit (self : VirtualDevice) : option VirtualDevice := Some self.

Inductive Medium : Type := Medium_Ip.

Record DeviceCapabilities : Type := mkDeviceCapabilities {
  medium : Medium;
  max_transmission_unit : Z;
  max_burst_size : option Z;
}.

Definition capabilities (self : VirtualDevice) : DeviceCapabilities :=
  {| medium := Medium_Ip;
     max_transmission_unit := device_mtu self;
     max_burst_size := None |}.

(** A closure given a mutable slice cannot change its length. *)
Definition slice_closure {R} (f : Bytes → R * Bytes) : Prop :=
  ∀ buf, length (f buf).2 = length buf.

(** One use of the trait by its client. *)
Inductive device_step : VirtualDevice → VirtualDevice → Prop :=
| device_receive d tok d' :
    receive d = Some (tok, d') → device_step d d'
| device_transmit R d d0 len (f : Bytes → R * Bytes) :
    transmit d = Some d0 → slice_closure f → device_step d (tx_consume d0 len f).2.

Definition device_steps : VirtualDevice → VirtualDevice → Prop := rtc device_step.

(** ** What a client of the trait can and cannot do *)

Lemma receive_fifo d pkt rest :
  ingress d = pkt :: rest →
  receive d = Some (mkRxToken pkt, set_ingress rest d).
Proof. unfold receive. by intros ->. Qed.

Lemma tx_consume_egress {R} d len (f : Bytes → R * Bytes) :
  egress (tx_consume d len f).2 = egress d ++ [(f (replicate len 0%Z)).2].
Proof. unfold tx_consume. by destruct (f _). Qed.

Lemma tx_consume_frame {R} d len (f : Bytes → R * Bytes) :
  ingress (tx_consume d len f).2 = ingress d ∧
  device_mtu (tx_consume d len f).2 = device_mtu d.
Proof. unfold tx_consume. by destruct (f _). Qed.

(** A poll consumes a prefix of the ingress queue in order, appends to the
    egress queue, and leaves the MTU alone. *)
Lemma device_steps_queues d d' :
  device_steps d d' →
  (∃ taken, ingress d = taken ++ ingress d') ∧
  (∃ sent, egress d' = egress d ++ sent) ∧
  device_mtu d' = device_mtu d.
Proof.
  induction 1 as [d|d d1 d' Hstep _ ((taken & Hi) & (sent & He) & Hm)].
  - split_and!; [by exists [] | by exists []; rewrite app_nil_r | done].
  - destruct Hstep as [d tok d1 Hr|R d d0 len f [= <-] Hf].
    + unfold receive in Hr. destruct (ingress d) as [|pkt rest] eqn:E; [done|].
      injection Hr as <- <-. simpl in *. split_and!; [|by eauto|done].
      exists (pkt :: taken). by rewrite Hi.
    + destruct (tx_consume_frame d len f) as [Hi' Hm'].
      rewrite tx_consume_egress in He. rewrite Hi' in Hi. rewrite Hm' in Hm.
      split_and!; [by eauto| |done].
      eexists. by rewrite He, <- app_assoc.
Qed.

Lemma push_ingress_queues packet d :
  ingress (push_ingress packet d) = ingress d ++ [packet] ∧
  egress (push_ingress packet d) = egress d.
Proof. done. Qed.
