(* ===== verification/Smoltcp.v ===== *)
(** * The interface to [smoltcp] and [tokio]

    The crate is a layer over two libraries that are not part of the
    repository. What it uses of them is collected in type classes: the
    operations ([Wire], [Engine], [Tokio]) are parameters of every definition,
    and the documented behaviour the crate relies on is stated as laws
    ([WireLaws], [EngineLaws], [TokioLaws]) that the theorems assume where they
    need them. [Reference.v] gives an executable instance of each class that
    satisfies the laws. *)
From stdpp Require Import base list gmap.
From S2P Require Import Prelude Types Device.

Local Open Scope Z_scope.

(** ** smoltcp::wire: packet parsing *)

Inductive IpProtocol : Type :=
| IpProtocol_Tcp
| IpProtocol_Udp
| IpProtocol_Other (n : Z).

Inductive TcpControl : Type :=
| TcpControl_None
| TcpControl_Psh
| TcpControl_Syn
| TcpControl_Fin
| TcpControl_Rst.

#[global] Instance TcpControl_eq_dec : EqDecision TcpControl.
Proof. solve_decision. Defined.

(** The fields of the parsed headers that the crate reads. *)
Record Ipv4Repr : Type := mkIpv4Repr {
  v4_src_addr : Z;
  v4_dst_addr : Z;
  v4_next_header : IpProtocol;
}.

Record Ipv6Repr : Type := mkIpv6Repr {
  v6_src_addr : Z;
  v6_dst_addr : Z;
  v6_next_header : IpProtocol;
}.

Record TcpRepr : Type := mkTcpRepr {
  tcp_src_port : Z;
  tcp_dst_port : Z;
  tcp_control : TcpControl;
  tcp_ack_number : option Z;
}.

Record UdpRepr : Type := mkUdpRepr {
  udp_src_port : Z;
  udp_dst_port : Z;
}.

Class Wire : Type := {
  ChecksumCapabilities : Type;
  ChecksumCapabilities_ignored : ChecksumCapabilities;
  Ipv4Packet : Type;
  Ipv4Packet_new_checked : Bytes → option Ipv4Packet;
  Ipv4Packet_payload : Ipv4Packet → Bytes;
  Ipv4Repr_parse : Ipv4Packet → ChecksumCapabilities → option Ipv4Repr;
  Ipv6Packet : Type;
  Ipv6Packet_new_checked : Bytes → option Ipv6Packet;
  Ipv6Packet_payload : Ipv6Packet → Bytes;
  Ipv6Repr_parse : Ipv6Packet → option Ipv6Repr;
  TcpPacket : Type;
  TcpPacket_new_checked : Bytes → option TcpPacket;
  TcpRepr_parse :
    TcpPacket → IpAddress → IpAddress → ChecksumCapabilities → option TcpRepr;
  UdpPacket : Type;
  UdpPacket_new_checked : Bytes → option UdpPacket;
  UdpRepr_parse :
    UdpPacket → IpAddress → IpAddress → ChecksumCapabilities → option UdpRepr;
  (** [impl From<IpAddress> for IpAddr] *)
  IpAddr_from : IpAddress → IpAddr;
}.

(** Documented behaviour of the parsers: a header with an absent destination
    port is rejected, and the address conversion keeps the address. *)
Class WireLaws `{W : Wire} : Prop := {
  TcpRepr_parse_dst_port p s d c r :
    TcpRepr_parse p s d c = Some r → tcp_dst_port r ≠ 0;
  UdpRepr_parse_dst_port p s d c r :
    UdpRepr_parse p s d c = Some r → udp_dst_port r ≠ 0;
  IpAddr_from_v4 a : IpAddr_from (Ipv4 a) = V4 a;
  IpAddr_from_v6 a : IpAddr_from (Ipv6 a) = V6 a;
}.

(** ** smoltcp::socket, smoltcp::iface, smoltcp::time *)

(** [smoltcp::socket::tcp::State] *)
Inductive State : Type :=
| State_Closed
| State_Listen
| State_SynSent
| State_SynReceived
| State_Established
| State_FinWait1
| State_FinWait2
| State_CloseWait
| State_Closing
| State_LastAck
| State_TimeWait.

#[global] Instance State_eq_dec : EqDecision State.
Proof. solve_decision. Defined.

Inductive TcpRecvError : Type := TcpRecv_InvalidState | TcpRecv_Finished.
Inductive TcpSendError : Type := TcpSend_InvalidState.
Inductive TcpListenError : Type := Listen_InvalidState | Listen_Unaddressable.
Inductive UdpBindError : Type := Bind_InvalidState | Bind_Unaddressable.
Inductive UdpRecvError : Type := UdpRecv_Exhausted | UdpRecv_Truncated.
Inductive UdpSendError : Type := UdpSend_Unaddressable | UdpSend_BufferFull.

(** [smoltcp::iface::SocketHandle]: an opaque index. *)
Abbreviation SocketHandle := nat (only parsing).
(** [smoltcp::time::Instant] and [Duration] in microseconds;
    [std::time::Duration] in nanoseconds. *)
Abbreviation Instant := Z (only parsing).
Abbreviation Duration := Z (only parsing).
Abbreviation StdDuration := Z (only parsing).
(** [std::task::Waker]: the identity of the task it wakes. *)
Abbreviation Waker := nat (only parsing).
(** [smoltcp::wire::IpCidr] *)
Abbreviation IpCidr := (IpAddress * Z)%type (only parsing).

(** [smoltcp::socket::Socket], with the socket kinds the build enables. *)
Inductive Socket (T U : Type) : Type :=
| Socket_Tcp (s : T)
| Socket_Udp (s : U).
Arguments Socket_Tcp {T U} s.
Arguments Socket_Udp {T U} s.

Class Engine : Type := {
  (** [smoltcp::socket::tcp::Socket] *)
  TcpSocket : Type;
  tcp_new : Z → Z → TcpSocket;
  tcp_listen : TcpSocket → IpListenEndpoint → result TcpSocket TcpListenError;
  tcp_state : TcpSocket → State;
  tcp_is_open : TcpSocket → bool;
  tcp_close : TcpSocket → TcpSocket;
  tcp_recv_slice : TcpSocket → Z → result Bytes TcpRecvError * TcpSocket;
  tcp_send_slice : TcpSocket → Bytes → result Z TcpSendError * TcpSocket;
  (** The number of octets queued in the transmit buffer. Not called by the
      crate. *)
  tcp_send_queue : TcpSocket → Z;
  tcp_register_recv_waker : TcpSocket → Waker → TcpSocket;
  tcp_register_send_waker : TcpSocket → Waker → TcpSocket;
  (** [smoltcp::socket::udp::Socket]; a packet buffer is given by its number
      of metadata slots and of payload bytes. *)
  UdpSocket : Type;
  (** [size_of::<udp::PacketMetadata>()] *)
  udp_metadata_size : Z;
  udp_new : Z * Z → Z * Z → UdpSocket;
  udp_bind : UdpSocket → IpEndpoint → result UdpSocket UdpBindError;
  udp_recv : UdpSocket → result (Bytes * IpEndpoint) UdpRecvError * UdpSocket;
  udp_send_slice : UdpSocket → Bytes → IpEndpoint → result unit UdpSendError * UdpSocket;
  (** The receive buffer of a UDP socket, oldest first: what the successive
      calls of [recv] give until the buffer is exhausted ([None]: a datagram
      that is reported as truncated). Not called by the crate. *)
  udp_rx : UdpSocket → list (option (Bytes * IpEndpoint));
  (** [smoltcp::iface::SocketSet] *)
  SocketSet : Type;
  socket_set_new : SocketSet;
  socket_add : SocketSet → Socket TcpSocket UdpSocket → SocketHandle * SocketSet;
  socket_get : SocketSet → SocketHandle → option (Socket TcpSocket UdpSocket);
  socket_set : SocketSet → SocketHandle → Socket TcpSocket UdpSocket → SocketSet;
  socket_remove : SocketSet → SocketHandle → option (Socket TcpSocket UdpSocket * SocketSet);
  (** [smoltcp::iface::Interface] *)
  Interface : Type;
  iface_new : Z → VirtualDevice → Instant → Interface;
  iface_set_any_ip : Interface → bool → Interface;
  iface_any_ip : Interface → bool;
  (** [IpCidr::new] ([None]: it panics). *)
  IpCidr_new : IpAddress → Z → option IpCidr;
  (** The capacity of the address table ([IFACE_MAX_ADDR_COUNT]), the table,
      and its update through a closure ([None]: it panics). *)
  iface_max_addr_count : nat;
  iface_ip_addrs : Interface → list IpCidr;
  iface_update_ip_addrs : Interface → (list IpCidr → list IpCidr) → option Interface;
  (** [IpAddress::is_unicast] *)
  ip_is_unicast : IpAddress → bool;
  (** The routing table, a list of at most [IFACE_MAX_ROUTE_COUNT] networks with
      their gateways, and the default routes ([None]: the table is full). *)
  iface_max_route_count : nat;
  iface_routes : Interface → list (IpCidr * IpAddress);
  iface_add_default_ipv4_route : Interface → Z → option Interface;
  iface_add_default_ipv6_route : Interface → Z → option Interface;
  iface_poll :
    Interface → Instant → VirtualDevice → SocketSet → Interface * VirtualDevice * SocketSet;
  iface_poll_delay : Interface → Instant → SocketSet → option Duration;
  (** [smoltcp::time] *)
  instant_sub : Instant → Instant → Duration;
  duration_from : StdDuration → Duration;
  duration_into : Duration → StdDuration;
}.

(** [tcp::Socket::new] panics if the receive buffer exceeds 1 GiB. *)
Definition tcp_socket_new `{E : Engine} {S} (rx tx : Z) : M S TcpSocket :=
  if bool_decide (rx ≤ 2 ^ 30) then mret (tcp_new rx tx) else mpanic BufferTooLarge.

Lemma wp_tcp_socket_new `{E : Engine} {S} rx tx (Q : TcpSocket → S → Prop) s :
  rx ≤ 2 ^ 30 → Q (tcp_new rx tx) s → wp (tcp_socket_new rx tx) Q s.
Proof. intros H HQ. unfold tcp_socket_new. by rewrite bool_decide_eq_true_2. Qed.

(** [smoltcp::time::Duration::from] on a [std::time::Duration] computes the
    number of microseconds in a [u64]. *)
Definition u64_max : Z := 2 ^ 64 - 1.

Definition smoltcp_duration `{T : Target, E : Engine} {S} (d : StdDuration) : M S Duration :=
  if overflow_checks && bool_decide (u64_max < d `div` 1000) then mpanic ArithOverflow
  else mret (duration_from d).

Lemma wp_smoltcp_duration `{T : Target, E : Engine} {S} d (Q : Duration → S → Prop) s :
  d `div` 1000 ≤ u64_max → Q (duration_from d) s → wp (smoltcp_duration d) Q s.
Proof.
  intros H HQ. unfold smoltcp_duration. rewrite (bool_decide_eq_false_2 (_ < _)) by lia.
  by rewrite andb_false_r.
Qed.

(** The networks of the default routes. *)
Definition default_v4 : IpCidr := (Ipv4 0, 0).
Definition default_v6 : IpCidr := (Ipv6 0, 0).

(** The kind of the socket behind a handle, if any. *)
Inductive SocketKind : Type := Kind_Tcp | Kind_Udp.

Definition socket_kind {T U} (s : Socket T U) : SocketKind :=
  match s with Socket_Tcp _ => Kind_Tcp | Socket_Udp _ => Kind_Udp end.

(** Documented behaviour of the engine that the crate relies on. *)
Class EngineLaws `{E : Engine} : Prop := {
  (** A socket set: adding gives an unused handle, removing frees it, and no
      operation on one handle affects another. *)
  socket_get_new h : socket_get socket_set_new h = None;
  socket_add_fresh ss s h ss' :
    socket_add ss s = (h, ss') → socket_get ss h = None;
  socket_get_add ss s h ss' h' :
    socket_add ss s = (h, ss') →
    socket_get ss' h' = if decide (h' = h) then Some s else socket_get ss h';
  socket_get_set ss h s h' :
    is_Some (socket_get ss h) →
    socket_get (socket_set ss h s) h' = if decide (h' = h) then Some s else socket_get ss h';
  socket_remove_some ss h s :
    socket_get ss h = Some s →
    ∃ ss', socket_remove ss h = Some (s, ss') ∧
      ∀ h', socket_get ss' h' = if decide (h' = h) then None else socket_get ss h';
  (** A poll works on the sockets of the set in place: it adds, removes and
      retypes none. It reaches the device only through the [Device] trait. *)
  iface_poll_kind i now d ss i' d' ss' h :
    iface_poll i now d ss = (i', d', ss') →
    socket_kind <$> socket_get ss' h = socket_kind <$> socket_get ss h;
  iface_poll_device i now d ss i' d' ss' :
    iface_poll i now d ss = (i', d', ss') → device_steps d d';
  (** Listening fails only on an open socket or an unspecified port; a new
      socket, and one in the CLOSED state, is not open. *)
  tcp_listen_ok s ep :
    tcp_is_open s = false → listen_port ep ≠ 0 → ∃ s', tcp_listen s ep = Ok s';
  tcp_new_not_open rx tx : tcp_is_open (tcp_new rx tx) = false;
  tcp_closed_not_open s : tcp_state s = State_Closed → tcp_is_open s = false;
  (** Binding a fresh socket fails only on an unspecified port. *)
  udp_bind_new b1 b2 ep :
    port ep ≠ 0 → ∃ s, udp_bind (udp_new b1 b2) ep = Ok s;
  (** [recv] dequeues the oldest datagram, or reports that there is none. *)
  udp_recv_nil s : udp_rx s = [] → udp_recv s = (Err UdpRecv_Exhausted, s);
  udp_recv_some s m q :
    udp_rx s = Some m :: q → ∃ s', udp_recv s = (Ok m, s') ∧ udp_rx s' = q;
  udp_recv_truncated s q :
    udp_rx s = None :: q → ∃ s', udp_recv s = (Err UdpRecv_Truncated, s') ∧ udp_rx s' = q;
  (** [recv_slice] fills at most the slice it is given, [send_slice] takes at
      most the slice it is given. *)
  tcp_recv_slice_len s n data s' :
    tcp_recv_slice s n = (Ok data, s') → 0 ≤ n → Z.of_nat (length data) ≤ n;
  tcp_send_slice_len s data n s' :
    tcp_send_slice s data = (Ok n, s') → 0 ≤ n ≤ Z.of_nat (length data);
  (** What [send_slice] takes is queued in the transmit buffer. *)
  tcp_send_queue_nonneg s : 0 ≤ tcp_send_queue s;
  tcp_send_slice_queue s data n s' :
    tcp_send_slice s data = (Ok n, s') → tcp_send_queue s' = tcp_send_queue s + n;
  (** A metadata slot is a small record. *)
  udp_metadata_small : 0 ≤ udp_metadata_size ≤ 1024;
  (** A prefix is at most as long as the address; a new interface has no
      address, the update is applied, and it is accepted if every address is
      unicast. *)
  IpCidr_new_v4 a prefix : 0 ≤ prefix ≤ 32 → IpCidr_new (Ipv4 a) prefix = Some (Ipv4 a, prefix);
  IpCidr_new_v6 a prefix : 0 ≤ prefix ≤ 128 → IpCidr_new (Ipv6 a) prefix = Some (Ipv6 a, prefix);
  iface_new_addrs seed d now : iface_ip_addrs (iface_new seed d now) = [];
  iface_any_ip_addrs i b : iface_ip_addrs (iface_set_any_ip i b) = iface_ip_addrs i;
  iface_update_addrs i f :
    Forall (λ c, ip_is_unicast c.1 = true) (f (iface_ip_addrs i)) →
    ∃ i', iface_update_ip_addrs i f = Some i' ∧ iface_ip_addrs i' = f (iface_ip_addrs i) ∧
      iface_any_ip i' = iface_any_ip i ∧ iface_routes i' = iface_routes i;
  (** The flag that accepts packets to any address. *)
  iface_any_ip_set i b : iface_any_ip (iface_set_any_ip i b) = b;
  (** A new interface has no route; a default route that is not there yet is
      appended if there is room, and changes nothing else. *)
  iface_new_routes seed d now : iface_routes (iface_new seed d now) = [];
  iface_any_ip_routes i b : iface_routes (iface_set_any_ip i b) = iface_routes i;
  iface_route_v4 i gw :
    default_v4 ∉ (iface_routes i).*1 →
    match iface_add_default_ipv4_route i gw with
    | Some i' => (length (iface_routes i) < iface_max_route_count)%nat ∧
        iface_routes i' = iface_routes i ++ [(default_v4, Ipv4 gw)] ∧
        iface_ip_addrs i' = iface_ip_addrs i ∧ iface_any_ip i' = iface_any_ip i
    | None => (iface_max_route_count ≤ length (iface_routes i))%nat
    end;
  iface_route_v6 i gw :
    default_v6 ∉ (iface_routes i).*1 →
    match iface_add_default_ipv6_route i gw with
    | Some i' => (length (iface_routes i) < iface_max_route_count)%nat ∧
        iface_routes i' = iface_routes i ++ [(default_v6, Ipv6 gw)] ∧
        iface_ip_addrs i' = iface_ip_addrs i ∧ iface_any_ip i' = iface_any_ip i
    | None => (iface_max_route_count ≤ length (iface_routes i))%nat
    end;
  (** An address that is not unspecified and below the multicast range is
      unicast. *)
  ip_unicast_v4 a : 0 < a < 224 * 2 ^ 24 → ip_is_unicast (Ipv4 a) = true;
  ip_unicast_v6 a : 0 < a < 255 * 2 ^ 120 → ip_is_unicast (Ipv6 a) = true;
  (** Time. *)
  instant_sub_le t0 t1 : t0 ≤ t1 → instant_sub t1 t0 = t1 - t0;
  duration_from_nonneg d : 0 ≤ d → 0 ≤ duration_from d;
}.

(** ** tokio: notifications and channels *)

Inductive TrySendError : Type := TrySend_Full | TrySend_Closed.
Inductive TryRecvError : Type := TryRecv_Empty | TryRecv_Disconnected.

(** [tokio::sync::Notify]: [notified] creates a future; [notify_waiters]
    completes the futures created before it and stores no permit.
    [tokio::sync::mpsc]: a channel is one object with a sending and a receiving
    end; [send().await] is a [try_send] that waits while the channel is full,
    [recv().await] a [try_recv] that waits while it is empty. *)
Class Tokio : Type := {
  Notify : Type;
  Notified : Type;
  notify_new : Notify;
  notify_waiters : Notify → Notify;
  notified : Notify → Notified;
  notified_ready : Notify → Notified → bool;
  Chan : Type → Type;
  chan_bounded : ∀ {A}, Z → Chan A;
  chan_unbounded : ∀ {A}, Chan A;
  chan_try_send : ∀ {A}, Chan A → A → result (Chan A) TrySendError;
  chan_try_recv : ∀ {A}, Chan A → result (A * Chan A) TryRecvError;
  (** Dropping the last sender; dropping the receiver. *)
  chan_drop_tx : ∀ {A}, Chan A → Chan A;
  chan_drop_rx : ∀ {A}, Chan A → Chan A;
  (** The queued messages, oldest first; the capacity, if it is bounded; whether
      the receiver and a sender still exist. Not called by the crate. *)
  chan_items : ∀ {A}, Chan A → list A;
  chan_capacity : ∀ {A}, Chan A → option Z;
  chan_has_rx : ∀ {A}, Chan A → bool;
  chan_has_tx : ∀ {A}, Chan A → bool;
}.

(** [mpsc::channel] panics without a permit and above [Semaphore::MAX_PERMITS],
    which is [usize::MAX >> 3]. *)
Definition max_permits `{T : Target} : Z := Z.shiftr usize_max 3.

Definition mpsc_channel `{T : Target, K : Tokio} {S A} (cap : Z) : M S (Chan A) :=
  if bool_decide (0 < cap ≤ max_permits) then mret (chan_bounded cap) else mpanic ChannelCapacity.

Lemma wp_mpsc_channel `{T : Target, K : Tokio} {S A} cap (Q : Chan A → S → Prop) s :
  0 < cap ≤ max_permits → Q (chan_bounded cap) s → wp (mpsc_channel cap) Q s.
Proof. intros H HQ. unfold mpsc_channel. by rewrite bool_decide_eq_true_2. Qed.

Definition chan_ends `{K : Tokio} {A} (c : Chan A) : option Z * bool * bool :=
  (chan_capacity c, chan_has_rx c, chan_has_tx c).

(** There is room for another message. *)
Definition chan_room `{K : Tokio} {A} (c : Chan A) : bool :=
  match chan_capacity c with
  | Some cap => bool_decide (Z.of_nat (length (chan_items c)) < cap)
  | None => true
  end.

Class TokioLaws `{K : Tokio} : Prop := {
  (** A future is not complete when it is created ... *)
  notified_fresh n : notified_ready n (notified n) = false;
  (** ... the next [notify_waiters] completes it ... *)
  notified_woken n : notified_ready (notify_waiters n) (notified n) = true;
  (** ... and it stays complete. *)
  notified_stable n f :
    notified_ready n f = true → notified_ready (notify_waiters n) f = true;
  (** Channels are first-in first-out; a failed operation changes nothing; the
      messages left go with the receiver. *)
  chan_bounded_items A cap : chan_items (chan_bounded (A := A) cap) = [];
  chan_unbounded_items A : chan_items (chan_unbounded (A := A)) = [];
  chan_send_items A (c : Chan A) x c' :
    chan_try_send c x = Ok c' → chan_items c' = chan_items c ++ [x];
  chan_recv_items A (c : Chan A) :
    match chan_try_recv c with
    | Ok (x, c') => chan_items c = x :: chan_items c'
    | Err _ => chan_items c = []
    end;
  chan_drop_tx_items A (c : Chan A) : chan_items (chan_drop_tx c) = chan_items c;
  chan_drop_rx_items A (c : Chan A) : chan_items (chan_drop_rx c) = [];
  (** A message is refused because the receiver is gone or the channel is full;
      [recv] ends when it is empty and the last sender is gone. *)
  chan_send_answer A (c : Chan A) x :
    match chan_try_send c x with
    | Ok _ => chan_has_rx c = true ∧ chan_room c = true
    | Err TrySend_Full => chan_has_rx c = true ∧ chan_room c = false
    | Err TrySend_Closed => chan_has_rx c = false
    end;
  chan_recv_answer A (c : Chan A) e :
    chan_try_recv c = Err e → e = if chan_has_tx c then TryRecv_Empty else TryRecv_Disconnected;
  (** The ends change only when one is dropped. *)
  chan_bounded_ends A cap : chan_ends (chan_bounded (A := A) cap) = (Some cap, true, true);
  chan_unbounded_ends A : chan_ends (chan_unbounded (A := A)) = (None, true, true);
  chan_send_ends A (c : Chan A) x c' : chan_try_send c x = Ok c' → chan_ends c' = chan_ends c;
  chan_recv_ends A (c : Chan A) x c' : chan_try_recv c = Ok (x, c') → chan_ends c' = chan_ends c;
  chan_drop_tx_ends A (c : Chan A) :
    chan_ends (chan_drop_tx c) = (chan_capacity c, chan_has_rx c, false);
  chan_drop_rx_ends A (c : Chan A) :
    chan_ends (chan_drop_rx c) = (chan_capacity c, false, chan_has_tx c);
}.
