(* ===== verification/Reference.v ===== *)
(** * A reference engine

    Executable instances of the interfaces of [Smoltcp.v], with the proofs of
    their laws: a header parser, a small engine with the TCP states that the
    crate distinguishes, and notifications and channels. The theorems of the
    development hold for every instance that satisfies the laws; this one
    shows that the laws can be satisfied together and runs the witnesses. Its
    engine does not retransmit and does not encode the packets it sends. *)
From stdpp Require Import base list gmap numbers.
From S2P Require Import Prelude Types Device Smoltcp.

Local Open Scope Z_scope.

(** ** Header parsing *)

Definition byte_at (b : Bytes) (n : nat) : Z := nth n b 0.

(** A big-endian field. *)
Definition field (b : Bytes) (off len : nat) : Z :=
  foldl (λ acc x, acc * 256 + x) 0 (take len (drop off b)).

Definition protocol_of (n : Z) : IpProtocol :=
  if bool_decide (n = 6) then IpProtocol_Tcp
  else if bool_decide (n = 17) then IpProtocol_Udp else IpProtocol_Other n.

Definition ref_ipv4_checked (b : Bytes) : option Bytes :=
  let hlen := Z.land (byte_at b 0) 15 * 4 in
  if bool_decide (20 ≤ hlen ≤ Z.of_nat (length b)) then Some b else None.
Definition ref_ipv4_payload (b : Bytes) : Bytes := drop (Z.to_nat (Z.land (byte_at b 0) 15 * 4)) b.
Definition ref_ipv4_parse (b : Bytes) (_ : unit) : option Ipv4Repr :=
  Some (mkIpv4Repr (field b 12 4) (field b 16 4) (protocol_of (byte_at b 9))).

Definition ref_ipv6_checked (b : Bytes) : option Bytes :=
  if bool_decide (40 ≤ length b)%nat then Some b else None.
Definition ref_ipv6_parse (b : Bytes) : option Ipv6Repr :=
  Some (mkIpv6Repr (field b 8 16) (field b 24 16) (protocol_of (byte_at b 6))).

Definition ref_tcp_checked (b : Bytes) : option Bytes :=
  let hlen := Z.shiftr (byte_at b 12) 4 * 4 in
  if bool_decide (20 ≤ hlen ≤ Z.of_nat (length b)) then Some b else None.
Definition ref_tcp_payload (b : Bytes) : Bytes := drop (Z.to_nat (Z.shiftr (byte_at b 12) 4 * 4)) b.
Definition ref_tcp_parse (b : Bytes) (_ _ : IpAddress) (_ : unit) : option TcpRepr :=
  let flags := byte_at b 13 in
  control ← match Z.testbit flags 1, Z.testbit flags 0, Z.testbit flags 2 with
            | true, false, false => Some TcpControl_Syn
            | false, true, false => Some TcpControl_Fin
            | false, false, true => Some TcpControl_Rst
            | false, false, false => Some (if Z.testbit flags 3 then TcpControl_Psh else TcpControl_None)
            | _, _, _ => None
            end;
  if bool_decide (field b 0 2 = 0 ∨ field b 2 2 = 0) then None
  else Some (mkTcpRepr (field b 0 2) (field b 2 2) control
               (if Z.testbit flags 4 then Some (field b 8 4) else None)).

Definition ref_udp_checked (b : Bytes) : option Bytes :=
  if bool_decide (8 ≤ length b)%nat then Some b else None.
Definition ref_udp_parse (b : Bytes) (_ _ : IpAddress) (_ : unit) : option UdpRepr :=
  if bool_decide (field b 2 2 = 0) then None else Some (mkUdpRepr (field b 0 2) (field b 2 2)).

#[global] Instance ref_wire : Wire := {|
  ChecksumCapabilities := unit;
  ChecksumCapabilities_ignored := tt;
  Ipv4Packet := Bytes;
  Ipv4Packet_new_checked := ref_ipv4_checked;
  Ipv4Packet_payload := ref_ipv4_payload;
  Ipv4Repr_parse := ref_ipv4_parse;
  Ipv6Packet := Bytes;
  Ipv6Packet_new_checked := ref_ipv6_checked;
  Ipv6Packet_payload := drop 40;
  Ipv6Repr_parse := ref_ipv6_parse;
  TcpPacket := Bytes;
  TcpPacket_new_checked := ref_tcp_checked;
  TcpRepr_parse := ref_tcp_parse;
  UdpPacket := Bytes;
  UdpPacket_new_checked := ref_udp_checked;
  UdpRepr_parse := ref_udp_parse;
  IpAddr_from := λ a, match a with Ipv4 x => V4 x | Ipv6 x => V6 x end;
|}.

#[global] Instance ref_wire_laws : WireLaws.
Proof.
  constructor; simpl; try done.
  - intros p s d c r (ctl & _ & Hr)%bind_Some. case_bool_decide as Hp; [done|].
    injection Hr as <-. simpl. naive_solver.
  - intros p s d c r. unfold ref_udp_parse. case_bool_decide; [done|]. by intros [= <-].
Qed.

(** ** Sockets *)

Record RefTcp : Type := mkRefTcp {
  rt_state : State;
  rt_local : option IpListenEndpoint;
  rt_remote : option IpEndpoint;
  rt_rx : Bytes;
  rt_tx : Bytes;
  rt_tx_cap : Z;
  rt_recv_waker : option Waker;
  rt_send_waker : option Waker;
}.

Record RefUdp : Type := mkRefUdp {
  ru_local : option IpEndpoint;
  ru_rx : list (option (Bytes * IpEndpoint));
  ru_tx : list (Bytes * IpEndpoint);
  ru_rx_cap : Z;
  ru_tx_cap : Z;
}.

Definition ref_set_state (st : State) (t : RefTcp) : RefTcp :=
  mkRefTcp st (rt_local t) (rt_remote t) (rt_rx t) (rt_tx t) (rt_tx_cap t) (rt_recv_waker t) (rt_send_waker t).

Definition ref_tcp_is_open (t : RefTcp) : bool := bool_decide (rt_state t ≠ State_Closed).

Definition ref_tcp_listen (t : RefTcp) (ep : IpListenEndpoint) : result RefTcp TcpListenError :=
  if bool_decide (listen_port ep = 0) then Err Listen_Unaddressable
  else if ref_tcp_is_open t then Err Listen_InvalidState
  else Ok (mkRefTcp State_Listen (Some ep) None [] [] (rt_tx_cap t) None None).

Definition ref_tcp_close (t : RefTcp) : RefTcp :=
  match rt_state t with
  | State_Listen | State_SynSent => ref_set_state State_Closed t
  | State_SynReceived | State_Established => ref_set_state State_FinWait1 t
  | State_CloseWait => ref_set_state State_LastAck t
  | _ => t
  end.

Definition ref_tcp_recv (t : RefTcp) (n : Z) : result Bytes TcpRecvError * RefTcp :=
  match rt_state t, rt_rx t with
  | (State_Established | State_FinWait1 | State_FinWait2), rx | _, (_ :: _) as rx =>
      (Ok (take (Z.to_nat n) rx),
       mkRefTcp (rt_state t) (rt_local t) (rt_remote t) (drop (Z.to_nat n) rx) (rt_tx t) (rt_tx_cap t)
         (rt_recv_waker t) (rt_send_waker t))
  | (State_CloseWait | State_LastAck | State_Closing | State_TimeWait), [] => (Err TcpRecv_Finished, t)
  | _, [] => (Err TcpRecv_InvalidState, t)
  end.

Definition ref_tcp_send (t : RefTcp) (data : Bytes) : result Z TcpSendError * RefTcp :=
  match rt_state t with
  | State_Established | State_CloseWait =>
      let n := Z.min (Z.of_nat (length data)) (Z.max 0 (rt_tx_cap t - Z.of_nat (length (rt_tx t)))) in
      (Ok n, mkRefTcp (rt_state t) (rt_local t) (rt_remote t) (rt_rx t) (rt_tx t ++ take (Z.to_nat n) data)
               (rt_tx_cap t) (rt_recv_waker t) (rt_send_waker t))
  | _ => (Err TcpSend_InvalidState, t)
  end.

Definition ref_udp_bind (u : RefUdp) (ep : IpEndpoint) : result RefUdp UdpBindError :=
  if bool_decide (port ep = 0) then Err Bind_Unaddressable
  else match ru_local u with
       | Some _ => Err Bind_InvalidState
       | None => Ok (mkRefUdp (Some ep) (ru_rx u) (ru_tx u) (ru_rx_cap u) (ru_tx_cap u))
       end.

Definition ref_udp_recv (u : RefUdp) : result (Bytes * IpEndpoint) UdpRecvError * RefUdp :=
  match ru_rx u with
  | [] => (Err UdpRecv_Exhausted, u)
  | x :: rest =>
      (match x with Some m => Ok m | None => Err UdpRecv_Truncated end,
       mkRefUdp (ru_local u) rest (ru_tx u) (ru_rx_cap u) (ru_tx_cap u))
  end.

Definition ref_udp_send (u : RefUdp) (data : Bytes) (ep : IpEndpoint) : result unit UdpSendError * RefUdp :=
  if bool_decide (port ep = 0) then (Err UdpSend_Unaddressable, u)
  else if bool_decide (ru_tx_cap u ≤ Z.of_nat (length (ru_tx u))) then (Err UdpSend_BufferFull, u)
  else (Ok tt, mkRefUdp (ru_local u) (ru_rx u) (ru_tx u ++ [(data, ep)]) (ru_rx_cap u) (ru_tx_cap u)).

(** ** The socket set: a table of slots, handles are indices *)

Abbreviation RefSock := (Socket RefTcp RefUdp) (only parsing).
Abbreviation RefSet := (list (option RefSock)) (only parsing).

Definition ref_get (ss : RefSet) (h : SocketHandle) : option RefSock := mjoin (ss !! h).
Definition ref_add (ss : RefSet) (s : RefSock) : SocketHandle * RefSet := (length ss, ss ++ [Some s]).
Definition ref_set (ss : RefSet) (h : SocketHandle) (s : RefSock) : RefSet := <[h := Some s]> ss.
Definition ref_remove (ss : RefSet) (h : SocketHandle) : option (RefSock * RefSet) :=
  s ← ref_get ss h; Some (s, <[h := None]> ss).

(** ** Delivering a packet *)

Definition ref_listens (t : RefTcp) (dst : IpEndpoint) : bool :=
  match rt_local t with
  | Some l => bool_decide (listen_port l = port dst) &&
              match listen_addr l with Some a => bool_decide (a = addr dst) | None => true end
  | None => false
  end.

(** A segment for a connection. *)
Definition ref_connected (src dst : IpEndpoint) (r : TcpRepr) (payload : Bytes) (s : RefSock) : option RefSock :=
  match s with
  | Socket_Tcp t =>
      if bool_decide (rt_remote t = Some src) && ref_listens t dst then
        if bool_decide (tcp_control r = TcpControl_Rst ∧ rt_state t = State_SynReceived) then
          Some (Socket_Tcp (mkRefTcp State_Listen (rt_local t) None [] [] (rt_tx_cap t)
            (rt_recv_waker t) (rt_send_waker t)))
        else
        let t := mkRefTcp (rt_state t) (rt_local t) (rt_remote t) (rt_rx t ++ payload) (rt_tx t) (rt_tx_cap t)
                   (rt_recv_waker t) (rt_send_waker t) in
        Some (Socket_Tcp (ref_set_state
          match tcp_control r, rt_state t with
          | TcpControl_Rst, _ => State_Closed
          | TcpControl_Syn, st => st
          | TcpControl_Fin, (State_SynReceived | State_Established) => State_CloseWait
          | TcpControl_Fin, (State_FinWait1 | State_FinWait2) => State_TimeWait
          | _, State_SynReceived => State_Established
          | _, State_FinWait1 => State_FinWait2
          | _, State_LastAck => State_Closed
          | _, st => st
          end t))
      else None
  | Socket_Udp _ => None
  end.

(** A segment that opens a connection. *)
Definition ref_opened (src dst : IpEndpoint) (r : TcpRepr) (s : RefSock) : option RefSock :=
  match s with
  | Socket_Tcp t =>
      if bool_decide (rt_state t = State_Listen) && ref_listens t dst &&
         bool_decide (tcp_control r = TcpControl_Syn) && bool_decide (tcp_ack_number r = None)
      then Some (Socket_Tcp (mkRefTcp State_SynReceived (rt_local t) (Some src) [] [] (rt_tx_cap t)
                   (rt_recv_waker t) (rt_send_waker t)))
      else None
  | Socket_Udp _ => None
  end.

(** A datagram; one that does not fit in the receive buffer is dropped. *)
Definition ref_datagram (src dst : IpEndpoint) (payload : Bytes) (s : RefSock) : option RefSock :=
  match s with
  | Socket_Udp u =>
      if bool_decide (ru_local u = Some dst) then
        Some (Socket_Udp (if bool_decide (Z.of_nat (length (ru_rx u)) < ru_rx_cap u)
          then mkRefUdp (ru_local u) (ru_rx u ++ [Some (payload, src)]) (ru_tx u) (ru_rx_cap u) (ru_tx_cap u)
          else u))
      else None
  | Socket_Tcp _ => None
  end.

(** The first socket that takes the packet gets it. *)
Fixpoint ref_first (f : RefSock → option RefSock) (ss : RefSet) : option RefSet :=
  match ss with
  | [] => None
  | o :: rest =>
      match s ← o; f s with
      | Some s' => Some (Some s' :: rest)
      | None => cons o <$> ref_first f rest
      end
  end.

Definition ref_transport (src dst : IpAddress) (nh : IpProtocol) (b : Bytes) (ss : RefSet) : RefSet * list Bytes :=
  match nh with
  | IpProtocol_Tcp =>
      match r ← ref_tcp_checked b; ref_tcp_parse r src dst tt with
      | Some r =>
          let s := mkIpEndpoint src (tcp_src_port r) in
          let d := mkIpEndpoint dst (tcp_dst_port r) in
          match ref_first (ref_connected s d r (ref_tcp_payload b)) ss with
          | Some ss' => (ss', [])
          | None => match ref_first (ref_opened s d r) ss with
                    | Some ss' => (ss', [[tcp_dst_port r; tcp_src_port r; 18]])
                    | None => (ss, [])
                    end
          end
      | None => (ss, [])
      end
  | IpProtocol_Udp =>
      match r ← ref_udp_checked b; ref_udp_parse r src dst tt with
      | Some r =>
          (default ss (ref_first (ref_datagram (mkIpEndpoint src (udp_src_port r))
            (mkIpEndpoint dst (udp_dst_port r)) (drop 8 b)) ss), [])
      | None => (ss, [])
      end
  | IpProtocol_Other _ => (ss, [])
  end.

Definition ref_input (pkt : Bytes) (ss : RefSet) : RefSet * list Bytes :=
  if bool_decide (Z.shiftr (byte_at pkt 0) 4 = 4) then
    match p ← ref_ipv4_checked pkt; ref_ipv4_parse p tt with
    | Some r => ref_transport (Ipv4 (v4_src_addr r)) (Ipv4 (v4_dst_addr r)) (v4_next_header r) (ref_ipv4_payload pkt) ss
    | None => (ss, [])
    end
  else if bool_decide (Z.shiftr (byte_at pkt 0) 4 = 6) then
    match p ← ref_ipv6_checked pkt; ref_ipv6_parse p with
    | Some r => ref_transport (Ipv6 (v6_src_addr r)) (Ipv6 (v6_dst_addr r)) (v6_next_header r) (drop 40 pkt) ss
    | None => (ss, [])
    end
  else (ss, []).

(** What a socket sends, and the socket afterwards. *)
Definition ref_flush (s : RefSock) : RefSock * list Bytes :=
  match s with
  | Socket_Tcp t =>
      (Socket_Tcp (mkRefTcp (rt_state t) (rt_local t) (rt_remote t) (rt_rx t) [] (rt_tx_cap t)
         (rt_recv_waker t) (rt_send_waker t)),
       match rt_tx t with [] => [] | tx => [tx] end)
  | Socket_Udp u =>
      (Socket_Udp (mkRefUdp (ru_local u) (ru_rx u) [] (ru_rx_cap u) (ru_tx_cap u)), (ru_tx u).*1)
  end.

(** ** The poll *)

Definition ref_transmit (d : VirtualDevice) (pkt : Bytes) : VirtualDevice :=
  match transmit d with
  | Some d' => (tx_consume d' (length pkt) (λ buf, (tt, take (length buf) (pkt ++ buf)))).2
  | None => d
  end.

Fixpoint ref_ingress (fuel : nat) (d : VirtualDevice) (ss : RefSet) : VirtualDevice * RefSet :=
  match fuel, receive d with
  | S fuel', Some (tok, d1) =>
      let '(ss', replies) := ref_input (rx_consume tok (λ b, b)) ss in
      ref_ingress fuel' (foldl ref_transmit d1 replies) ss'
  | _, _ => (d, ss)
  end.

Definition ref_outgoing (ss : RefSet) : list Bytes :=
  mjoin ((λ o, match o with Some s => (ref_flush s).2 | None => [] end) <$> ss).
Definition ref_flushed (ss : RefSet) : RefSet :=
  (λ o : option RefSock, match o with Some s => Some (ref_flush s).1 | None => None end) <$> ss.

Definition ref_poll (d : VirtualDevice) (ss : RefSet) : VirtualDevice * RefSet :=
  let '(d1, ss1) := ref_ingress (length (ingress d)) d ss in
  (foldl ref_transmit d1 (ref_outgoing ss1), ref_flushed ss1).

(** The interface keeps its addresses, its flag and its routes; a poll is due at
    once while a socket has something to send. *)
Record RefIface : Type := mkRefIface {
  ri_addrs : list IpCidr;
  ri_any_ip : bool;
  ri_routes : list (IpCidr * IpAddress);
}.

(** The route of a network is replaced, or appended if there is room for it. *)
Definition ref_add_route (network : IpCidr) (i : RefIface) (gw : IpAddress) : option RefIface :=
  let others := filter (λ r, r.1 ≠ network) (ri_routes i) in
  if bool_decide (length others < 2)%nat
  then Some (mkRefIface (ri_addrs i) (ri_any_ip i) (others ++ [(network, gw)])) else None.

Definition ref_unicast (a : IpAddress) : bool :=
  match a with
  | Ipv4 x => bool_decide (x < 224 * 2 ^ 24)
  | Ipv6 x => bool_decide (x < 255 * 2 ^ 120)
  end.

Definition ref_poll_delay (ss : RefSet) : option Duration :=
  match ref_outgoing ss with [] => None | _ => Some 0 end.

#[global] Instance ref_engine : Engine := {|
  TcpSocket := RefTcp;
  tcp_new := λ rx tx, mkRefTcp State_Closed None None [] [] tx None None;
  tcp_listen := ref_tcp_listen;
  tcp_state := rt_state;
  tcp_is_open := ref_tcp_is_open;
  tcp_close := ref_tcp_close;
  tcp_recv_slice := ref_tcp_recv;
  tcp_send_slice := ref_tcp_send;
  tcp_send_queue := λ t, Z.of_nat (length (rt_tx t));
  tcp_register_recv_waker := λ t w,
    mkRefTcp (rt_state t) (rt_local t) (rt_remote t) (rt_rx t) (rt_tx t) (rt_tx_cap t) (Some w) (rt_send_waker t);
  tcp_register_send_waker := λ t w,
    mkRefTcp (rt_state t) (rt_local t) (rt_remote t) (rt_rx t) (rt_tx t) (rt_tx_cap t) (rt_recv_waker t) (Some w);
  UdpSocket := RefUdp;
  udp_metadata_size := 64;
  udp_new := λ rx tx, mkRefUdp None [] [] rx.1 tx.1;
  udp_bind := ref_udp_bind;
  udp_recv := ref_udp_recv;
  udp_send_slice := ref_udp_send;
  udp_rx := ru_rx;
  SocketSet := RefSet;
  socket_set_new := [];
  socket_add := ref_add;
  socket_get := ref_get;
  socket_set := ref_set;
  socket_remove := ref_remove;
  Interface := RefIface;
  iface_new := λ _ _ _, mkRefIface [] false [];
  iface_set_any_ip := λ i b, mkRefIface (ri_addrs i) b (ri_routes i);
  iface_any_ip := ri_any_ip;
  IpCidr_new := λ a prefix,
    if bool_decide (0 ≤ prefix ≤ match a with Ipv4 _ => 32 | Ipv6 _ => 128 end) then Some (a, prefix) else None;
  iface_max_addr_count := 8;
  iface_ip_addrs := ri_addrs;
  iface_update_ip_addrs := λ i f,
    if forallb (λ c, ref_unicast c.1) (f (ri_addrs i))
    then Some (mkRefIface (f (ri_addrs i)) (ri_any_ip i) (ri_routes i)) else None;
  ip_is_unicast := ref_unicast;
  iface_max_route_count := 2;
  iface_routes := ri_routes;
  iface_add_default_ipv4_route := λ i gw, ref_add_route default_v4 i (Ipv4 gw);
  iface_add_default_ipv6_route := λ i gw, ref_add_route default_v6 i (Ipv6 gw);
  iface_poll := λ i _ d ss, let '(d', ss') := ref_poll d ss in (i, d', ss');
  iface_poll_delay := λ _ _ ss, ref_poll_delay ss;
  instant_sub := λ t1 t0, Z.abs (t1 - t0);
  duration_from := λ d, d / 1000;
  duration_into := λ d, d * 1000;
|}.

(** ** The laws of the engine *)

Lemma ref_get_add ss s h' : ref_get (ss ++ [Some s]) h' = if decide (h' = length ss) then Some s else ref_get ss h'.
Proof.
  unfold ref_get. case_decide as Hh.
  - subst h'. by rewrite list_lookup_middle.
  - destruct (decide (h' < length ss)%nat); [by rewrite lookup_app_l|].
    rewrite lookup_ge_None_2 by (rewrite length_app; simpl; lia).
    by rewrite lookup_ge_None_2 by lia.
Qed.

Lemma ref_get_insert ss h o h' :
  is_Some (ref_get ss h) → ref_get (<[h := o]> ss) h' = if decide (h' = h) then o else ref_get ss h'.
Proof.
  intros [s Hs]. unfold ref_get in *. destruct (ss !! h) as [x|] eqn:Eh; [|done].
  case_decide as Hh.
  - subst h'. by rewrite list_lookup_insert_eq by (by eapply lookup_lt_Some).
  - by rewrite list_lookup_insert_ne.
Qed.

(** The kinds of the sockets of a set. *)
Definition ref_kinds (ss : RefSet) : list (option SocketKind) := fmap (M := option) socket_kind <$> ss.

Lemma ref_kinds_get ss ss' h :
  ref_kinds ss' = ref_kinds ss → socket_kind <$> ref_get ss' h = socket_kind <$> ref_get ss h.
Proof.
  intros Hk. apply (f_equal (lookup h)) in Hk. unfold ref_kinds in Hk. rewrite !list_lookup_fmap in Hk.
  unfold ref_get. destruct (ss' !! h) as [[]|], (ss !! h) as [[]|]; simpl in *; congruence.
Qed.

Lemma ref_kinds_cons o ss : ref_kinds (o :: ss) = (socket_kind <$> o) :: ref_kinds ss.
Proof. done. Qed.

Lemma ref_first_kinds f ss ss' :
  (∀ s s', f s = Some s' → socket_kind s' = socket_kind s) →
  ref_first f ss = Some ss' → ref_kinds ss' = ref_kinds ss.
Proof.
  intros Hf. revert ss'. induction ss as [|[s|] ss IH]; intros ss'; simpl; [done|..].
  - destruct (f s) as [s'|] eqn:Es; simpl.
    + intros [= <-]. rewrite !ref_kinds_cons. simpl. by rewrite (Hf s s').
    + intros (x & Hx & ->)%fmap_Some. by rewrite !ref_kinds_cons, (IH x Hx).
  - intros (x & Hx & ->)%fmap_Some. by rewrite !ref_kinds_cons, (IH x Hx).
Qed.

Lemma ref_connected_kind s0 d0 r p s s' : ref_connected s0 d0 r p s = Some s' → socket_kind s' = socket_kind s.
Proof. destruct s as [t|u]; simpl; [|done]. destruct (_ && _); [|done]. case_bool_decide; by intros [= <-]. Qed.

Lemma ref_opened_kind s0 d0 r s s' : ref_opened s0 d0 r s = Some s' → socket_kind s' = socket_kind s.
Proof. destruct s as [t|u]; simpl; [|done]. destruct (_ && _); [|done]. by intros [= <-]. Qed.

Lemma ref_datagram_kind s0 d0 p s s' : ref_datagram s0 d0 p s = Some s' → socket_kind s' = socket_kind s.
Proof. destruct s as [t|u]; simpl; [done|]. case_bool_decide; [|done]. by intros [= <-]. Qed.

Lemma ref_transport_kinds src dst nh b ss : ref_kinds (ref_transport src dst nh b ss).1 = ref_kinds ss.
Proof.
  unfold ref_transport. destruct nh; simpl; [| |done].
  - destruct (ref_tcp_checked b ≫= _) as [r|]; [|done].
    destruct (ref_first (ref_connected _ _ _ _) ss) as [ss'|] eqn:E1.
    + eapply ref_first_kinds; [|exact E1]. intros ??. apply ref_connected_kind.
    + destruct (ref_first (ref_opened _ _ _) ss) as [ss'|] eqn:E2; [|done].
      eapply ref_first_kinds; [|exact E2]. intros ??. apply ref_opened_kind.
  - destruct (ref_udp_checked b ≫= _) as [r|]; [|done]. simpl.
    destruct (ref_first _ ss) as [ss'|] eqn:E1; [|done].
    eapply ref_first_kinds; [|exact E1]. intros ??. apply ref_datagram_kind.
Qed.

Lemma ref_input_kinds pkt ss : ref_kinds (ref_input pkt ss).1 = ref_kinds ss.
Proof.
  unfold ref_input. repeat case_bool_decide; [| |done].
  - destruct (ref_ipv4_checked pkt ≫= _); [apply ref_transport_kinds|done].
  - destruct (ref_ipv6_checked pkt ≫= _); [apply ref_transport_kinds|done].
Qed.

Lemma ref_transmits_steps d pkts : device_steps d (foldl ref_transmit d pkts).
Proof.
  revert d. induction pkts as [|p pkts IH]; intros d; simpl; [done|].
  eapply rtc_l; [|apply IH]. unfold ref_transmit. simpl.
  apply (device_transmit unit d d (length p) (λ buf, (tt, take (length buf) (p ++ buf)))); [done|].
  intros buf. simpl. rewrite length_take, length_app. lia.
Qed.

Lemma ref_ingress_ok fuel d ss :
  device_steps d (ref_ingress fuel d ss).1 ∧ ref_kinds (ref_ingress fuel d ss).2 = ref_kinds ss.
Proof.
  revert d ss. induction fuel as [|fuel IH]; intros d ss; simpl; [done|].
  destruct (receive d) as [[tok d1]|] eqn:Er; [|done].
  pose proof (ref_input_kinds (rx_consume tok (λ b, b)) ss) as Hk.
  destruct (ref_input _ ss) as [ss' replies]. simpl in Hk.
  destruct (IH (foldl ref_transmit d1 replies) ss') as [IH1 IH2]. split; [|congruence].
  eapply rtc_l; [by eapply device_receive|]. etrans; [apply ref_transmits_steps|done].
Qed.

Lemma ref_poll_ok d ss :
  device_steps d (ref_poll d ss).1 ∧ ref_kinds (ref_poll d ss).2 = ref_kinds ss.
Proof.
  unfold ref_poll. destruct (ref_ingress_ok (length (ingress d)) d ss) as [H1 H2].
  destruct (ref_ingress _ d ss) as [d1 ss1]. simpl in *. split.
  - etrans; [done|apply ref_transmits_steps].
  - rewrite <- H2. unfold ref_kinds, ref_flushed. rewrite <- list_fmap_compose.
    apply list_fmap_ext. intros n [[t|u]|] _; done.
Qed.

Lemma ref_add_route_new network i gw :
  network ∉ (ri_routes i).*1 →
  match ref_add_route network i gw with
  | Some i' => (length (ri_routes i) < 2)%nat ∧ ri_routes i' = ri_routes i ++ [(network, gw)] ∧
      ri_addrs i' = ri_addrs i ∧ ri_any_ip i' = ri_any_ip i
  | None => (2 ≤ length (ri_routes i))%nat
  end.
Proof.
  intros Hn. unfold ref_add_route.
  assert (filter (λ r, r.1 ≠ network) (ri_routes i) = ri_routes i) as ->.
  { revert Hn. generalize (ri_routes i). intros l. induction l as [|r l IH]; [done|]. intros Hn. simpl in Hn.
    apply not_elem_of_cons in Hn as [Hr Hl]. rewrite filter_cons_True by done. by rewrite IH. }
  case_bool_decide; [done|lia].
Qed.

#[global] Instance ref_engine_laws : EngineLaws.
Proof.
  constructor; simpl.
  - intros h. unfold ref_get. by rewrite lookup_nil.
  - intros ss s h ss' [= <- <-]. unfold ref_get. by rewrite lookup_ge_None_2.
  - intros ss s h ss' h' [= <- <-]. apply ref_get_add.
  - intros ss h s h'. apply ref_get_insert.
  - intros ss h s Hs. unfold ref_remove. rewrite Hs. simpl. eexists. split; [done|].
    intros h'. apply ref_get_insert. by eexists.
  - intros i now d ss i' d' ss' h. pose proof (ref_poll_ok d ss) as [_ Hk].
    destruct (ref_poll d ss). intros [= <- <- <-]. by apply ref_kinds_get.
  - intros i now d ss i' d' ss'. pose proof (ref_poll_ok d ss) as [Hd _].
    destruct (ref_poll d ss). by intros [= <- <- <-].
  - intros s ep Ho Hp. unfold ref_tcp_listen. rewrite bool_decide_eq_false_2, Ho by done. by eexists.
  - done.
  - intros s Hs. unfold ref_tcp_is_open. by rewrite Hs.
  - intros b1 b2 ep Hp. unfold ref_udp_bind. rewrite bool_decide_eq_false_2 by done. by eexists.
  - intros s Hs. unfold ref_udp_recv. by rewrite Hs.
  - intros s m q Hs. unfold ref_udp_recv. rewrite Hs. by eexists.
  - intros s q Hs. unfold ref_udp_recv. rewrite Hs. by eexists.
  - intros s n data s' Hr Hn. unfold ref_tcp_recv in Hr.
    assert (∀ rx : Bytes, Z.of_nat (length (take (Z.to_nat n) rx)) ≤ n) as Hlen.
    { intros rx. rewrite length_take. lia. }
    destruct (rt_state s), (rt_rx s); try done; injection Hr as <- _; apply Hlen.
  - intros s data n s' Hs. unfold ref_tcp_send in Hs. destruct (rt_state s); try done; injection Hs as <- _; lia.
  - intros s. lia.
  - intros s data n s' Hs. unfold ref_tcp_send in Hs.
    destruct (rt_state s); try done; injection Hs as <- <-; simpl; rewrite length_app, length_take; lia.
  - done.
  - intros a prefix Hp. by rewrite bool_decide_eq_true_2.
  - intros a prefix Hp. by rewrite bool_decide_eq_true_2.
  - done.
  - done.
  - intros i f Hf. assert (forallb (λ c, ref_unicast c.1) (f (ri_addrs i)) = true) as ->; [|by eexists].
    apply forallb_forall. intros c Hc. apply (proj1 (Forall_forall _ _) Hf c). done.
  - done.
  - done.
  - done.
  - intros i gw. apply ref_add_route_new.
  - intros i gw. apply ref_add_route_new.
  - intros a Ha. apply bool_decide_eq_true. lia.
  - intros a Ha. apply bool_decide_eq_true. lia.
  - intros t0 t1 Ht. lia.
  - intros d Hd. by apply Z.div_pos.
Qed.

(** ** Notifications and channels *)

(** A notification is a counter, a future the value it was created at. *)
Record RefChan (A : Type) : Type := mkRefChan {
  rc_cap : option Z;
  rc_items : list A;
  rc_tx : bool;
  rc_rx : bool;
}.
Arguments mkRefChan {A}.
Arguments rc_cap {A}.
Arguments rc_items {A}.
Arguments rc_tx {A}.
Arguments rc_rx {A}.

Definition ref_chan_send {A} (c : RefChan A) (x : A) : result (RefChan A) TrySendError :=
  if negb (rc_rx c) then Err TrySend_Closed
  else if match rc_cap c with Some n => bool_decide (n ≤ Z.of_nat (length (rc_items c))) | None => false end
  then Err TrySend_Full
  else Ok (mkRefChan (rc_cap c) (rc_items c ++ [x]) (rc_tx c) (rc_rx c)).

Definition ref_chan_recv {A} (c : RefChan A) : result (A * RefChan A) TryRecvError :=
  match rc_items c with
  | x :: rest => Ok (x, mkRefChan (rc_cap c) rest (rc_tx c) (rc_rx c))
  | [] => Err (if rc_tx c then TryRecv_Empty else TryRecv_Disconnected)
  end.

#[global] Instance ref_tokio : Tokio := {|
  Notify := nat;
  Notified := nat;
  notify_new := O;
  notify_waiters := S;
  notified := λ n, n;
  notified_ready := λ n f, bool_decide (f < n)%nat;
  Chan := RefChan;
  chan_bounded := λ A cap, mkRefChan (Some cap) [] true true;
  chan_unbounded := λ A, mkRefChan None [] true true;
  chan_try_send := @ref_chan_send;
  chan_try_recv := @ref_chan_recv;
  chan_drop_tx := λ A c, mkRefChan (rc_cap c) (rc_items c) false (rc_rx c);
  chan_drop_rx := λ A c, mkRefChan (rc_cap c) [] (rc_tx c) false;
  chan_items := @rc_items;
  chan_capacity := @rc_cap;
  chan_has_rx := @rc_rx;
  chan_has_tx := @rc_tx;
|}.

#[global] Instance ref_tokio_laws : TokioLaws.
Proof.
  constructor; simpl; try done.
  - intros n. apply bool_decide_eq_false. lia.
  - intros n. apply bool_decide_eq_true. lia.
  - intros n f. rewrite !bool_decide_eq_true. lia.
  - intros A c x c'. unfold ref_chan_send. destruct (negb _); [done|].
    destruct (rc_cap c); [case_bool_decide; [done|]|]; by intros [= <-].
  - intros A c. unfold ref_chan_recv. by destruct (rc_items c).
  - intros A c x. unfold ref_chan_send, chan_room. simpl. destruct (rc_rx c); [|done]. simpl.
    destruct (rc_cap c) as [n|]; [|done]. case_bool_decide.
    + split; [done|]. apply bool_decide_eq_false. lia.
    + split; [done|]. apply bool_decide_eq_true. lia.
  - intros A c e. unfold ref_chan_recv. destruct (rc_items c); [|done]. by intros [= <-].
  - intros A c x c'. unfold ref_chan_send. destruct (negb _); [done|].
    destruct (rc_cap c) eqn:Ec; [case_bool_decide; [done|]|]; intros [= <-]; unfold chan_ends; simpl; by rewrite Ec.
  - intros A c x c'. unfold ref_chan_recv. destruct (rc_items c); [done|]. by intros [= _ <-].
Qed.
