(* ===== verification/Config.v ===== *)
(** * Configuration

    [builder.rs]: the tunables of a stack ([NetstackConfig]), the static
    configuration of an interface ([InterfaceConfig]), the chained setters of
    [NetstackBuilder], [add_interface], and the allocator tuning that [build]
    applies first. The rest of [build] is in [Builder.v]. *)
From stdpp Require Import base list.
From S2P Require Import Prelude Types Smoltcp.

Local Open Scope Z_scope.

Record NetstackConfig : Type := mkNetstackConfig {
  cfg_mtu : Z;
  cfg_tcp_buffer_size : Z;
  cfg_tcp_max_connections : Z;
  cfg_tcp_pool_size : Z;
  cfg_udp_session_timeout : StdDuration;
  cfg_udp_max_sessions : Z;
  cfg_channel_capacity : Z;
  cfg_log_level : LogLevel;
  cfg_udp_buffer_packets : Z;
  cfg_udp_buffer_bytes : Z;
  cfg_max_buffer_bytes : option Z;
  cfg_mimalloc_purge_delay : option StdDuration;
  cfg_mimalloc_large_os_pages : bool;
  cfg_mimalloc_allow_thp : bool;
}.

(** [Duration::from_secs] / [from_millis] / [as_millis], on nanoseconds. *)
Definition from_secs (s : Z) : StdDuration := s * 1000000000.
Definition from_millis (ms : Z) : StdDuration := ms * 1000000.
Definition as_millis (d : StdDuration) : Z := d / 1000000.

Definition NetstackConfig_default : NetstackConfig := {|
  cfg_mtu := 1500;
  cfg_tcp_buffer_size := 16 * 1024;
  cfg_tcp_max_connections := 4096;
  cfg_tcp_pool_size := 4096;
  cfg_udp_session_timeout := from_secs 30;
  cfg_udp_max_sessions := 4096;
  cfg_channel_capacity := 2048;
  cfg_log_level := LogLevel_Info;
  cfg_udp_buffer_packets := 16;
  cfg_udp_buffer_bytes := 16 * 1024;
  cfg_max_buffer_bytes := None;
  cfg_mimalloc_purge_delay := None;
  cfg_mimalloc_large_os_pages := false;
  cfg_mimalloc_allow_thp := true;
|}.

Record InterfaceConfig : Type := mkInterfaceConfig {
  ipv4_addrs : list (Z * Z);
  ipv6_addrs : list (Z * Z);
  ipv4_gateway : option Z;
  ipv6_gateway : option Z;
}.

Definition InterfaceConfig_default : InterfaceConfig :=
  {| ipv4_addrs := []; ipv6_addrs := []; ipv4_gateway := None; ipv6_gateway := None |}.

Definition InterfaceConfig_new (ipv4 prefix : Z) : InterfaceConfig :=
  {| ipv4_addrs := [(ipv4, prefix)];
     ipv6_addrs := ipv6_addrs InterfaceConfig_default;
     ipv4_gateway := ipv4_gateway InterfaceConfig_default;
     ipv6_gateway := ipv6_gateway InterfaceConfig_default |}.

Definition InterfaceConfig_new_ipv6 (ipv6 prefix : Z) : InterfaceConfig :=
  {| ipv4_addrs := ipv4_addrs InterfaceConfig_default;
     ipv6_addrs := [(ipv6, prefix)];
     ipv4_gateway := ipv4_gateway InterfaceConfig_default;
     ipv6_gateway := ipv6_gateway InterfaceConfig_default |}.

Definition InterfaceConfig_ipv4 (self : InterfaceConfig) (a prefix : Z) : InterfaceConfig :=
  {| ipv4_addrs := ipv4_addrs self ++ [(a, prefix)];
     ipv6_addrs := ipv6_addrs self;
     ipv4_gateway := ipv4_gateway self;
     ipv6_gateway := ipv6_gateway self |}.

Definition InterfaceConfig_ipv6 (self : InterfaceConfig) (a prefix : Z) : InterfaceConfig :=
  {| ipv4_addrs := ipv4_addrs self;
     ipv6_addrs := ipv6_addrs self ++ [(a, prefix)];
     ipv4_gateway := ipv4_gateway self;
     ipv6_gateway := ipv6_gateway self |}.

Definition InterfaceConfig_gateway_ipv4 (self : InterfaceConfig) (gw : Z) : InterfaceConfig :=
  {| ipv4_addrs := ipv4_addrs self;
     ipv6_addrs := ipv6_addrs self;
     ipv4_gateway := Some gw;
     ipv6_gateway := ipv6_gateway self |}.

Definition InterfaceConfig_gateway_ipv6 (self : InterfaceConfig) (gw : Z) : InterfaceConfig :=
  {| ipv4_addrs := ipv4_addrs self;
     ipv6_addrs := ipv6_addrs self;
     ipv4_gateway := ipv4_gateway self;
     ipv6_gateway := Some gw |}.

Record NetstackBuilder : Type := mkNetstackBuilder {
  config : NetstackConfig;
  interfaces : list (InterfaceId * InterfaceConfig);
}.

Definition NetstackBuilder_new : NetstackBuilder :=
  {| config := NetstackConfig_default; interfaces := [] |}.

Definition with_config (f : NetstackConfig → NetstackConfig) (self : NetstackBuilder) : NetstackBuilder :=
  {| config := f (config self); interfaces := interfaces self |}.

Definition NetstackBuilder_mtu (mtu : Z) (self : NetstackBuilder) : NetstackBuilder :=
  with_config (λ c, {|
    cfg_mtu := mtu;
    cfg_tcp_buffer_size := cfg_tcp_buffer_size c;
    cfg_tcp_max_connections := cfg_tcp_max_connections c;
    cfg_tcp_pool_size := cfg_tcp_pool_size c;
    cfg_udp_session_timeout := cfg_udp_session_timeout c;
    cfg_udp_max_sessions := cfg_udp_max_sessions c;
    cfg_channel_capacity := cfg_channel_capacity c;
    cfg_log_level := cfg_log_level c;
    cfg_udp_buffer_packets := cfg_udp_buffer_packets c;
    cfg_udp_buffer_bytes := cfg_udp_buffer_bytes c;
    cfg_max_buffer_bytes := cfg_max_buffer_bytes c;
    cfg_mimalloc_purge_delay := cfg_mimalloc_purge_delay c;
    cfg_mimalloc_large_os_pages := cfg_mimalloc_large_os_pages c;
    cfg_mimalloc_allow_thp := cfg_mimalloc_allow_thp c |}) self.

Definition NetstackBuilder_tcp_buffer_size (size : Z) (self : NetstackBuilder) : NetstackBuilder :=
  with_config (λ c, {|
    cfg_mtu := cfg_mtu c;
    cfg_tcp_buffer_size := size;
    cfg_tcp_max_connections := cfg_tcp_max_connections c;
    cfg_tcp_pool_size := cfg_tcp_pool_size c;
    cfg_udp_session_timeout := cfg_udp_session_timeout c;
    cfg_udp_max_sessions := cfg_udp_max_sessions c;
    cfg_channel_capacity := cfg_channel_capacity c;
    cfg_log_level := cfg_log_level c;
    cfg_udp_buffer_packets := cfg_udp_buffer_packets c;
    cfg_udp_buffer_bytes := cfg_udp_buffer_bytes c;
    cfg_max_buffer_bytes := cfg_max_buffer_bytes c;
    cfg_mimalloc_purge_delay := cfg_mimalloc_purge_delay c;
    cfg_mimalloc_large_os_pages := cfg_mimalloc_large_os_pages c;
    cfg_mimalloc_allow_thp := cfg_mimalloc_allow_thp c |}) self.

Definition NetstackBuilder_tcp_max_connections (n : Z) (self : NetstackBuilder) : NetstackBuilder :=
  with_config (λ c, {|
    cfg_mtu := cfg_mtu c;
    cfg_tcp_buffer_size := cfg_tcp_buffer_size c;
    cfg_tcp_max_connections := n;
    cfg_tcp_pool_size := cfg_tcp_pool_size c;
    cfg_udp_session_timeout := cfg_udp_session_timeout c;
    cfg_udp_max_sessions := cfg_udp_max_sessions c;
    cfg_channel_capacity := cfg_channel_capacity c;
    cfg_log_level := cfg_log_level c;
    cfg_udp_buffer_packets := cfg_udp_buffer_packets c;
    cfg_udp_buffer_bytes := cfg_udp_buffer_bytes c;
    cfg_max_buffer_bytes := cfg_max_buffer_bytes c;
    cfg_mimalloc_purge_delay := cfg_mimalloc_purge_delay c;
    cfg_mimalloc_large_os_pages := cfg_mimalloc_large_os_pages c;
    cfg_mimalloc_allow_thp := cfg_mimalloc_allow_thp c |}) self.

Definition NetstackBuilder_tcp_socket_pool (n : Z) (self : NetstackBuilder) : NetstackBuilder :=
  with_config (λ c, {|
    cfg_mtu := cfg_mtu c;
    cfg_tcp_buffer_size := cfg_tcp_buffer_size c;
    cfg_tcp_max_connections := cfg_tcp_max_connections c;
    cfg_tcp_pool_size := n;
    cfg_udp_session_timeout := cfg_udp_session_timeout c;
    cfg_udp_max_sessions := cfg_udp_max_sessions c;
    cfg_channel_capacity := cfg_channel_capacity c;
    cfg_log_level := cfg_log_level c;
    cfg_udp_buffer_packets := cfg_udp_buffer_packets c;
    cfg_udp_buffer_bytes := cfg_udp_buffer_bytes c;
    cfg_max_buffer_bytes := cfg_max_buffer_bytes c;
    cfg_mimalloc_purge_delay := cfg_mimalloc_purge_delay c;
    cfg_mimalloc_large_os_pages := cfg_mimalloc_large_os_pages c;
    cfg_mimalloc_allow_thp := cfg_mimalloc_allow_thp c |}) self.

Definition NetstackBuilder_udp_session_timeout (timeout : StdDuration) (self : NetstackBuilder) : NetstackBuilder :=
  with_config (λ c, {|
    cfg_mtu := cfg_mtu c;
    cfg_tcp_buffer_size := cfg_tcp_buffer_size c;
    cfg_tcp_max_connections := cfg_tcp_max_connections c;
    cfg_tcp_pool_size := cfg_tcp_pool_size c;
    cfg_udp_session_timeout := timeout;
    cfg_udp_max_sessions := cfg_udp_max_sessions c;
    cfg_channel_capacity := cfg_channel_capacity c;
    cfg_log_level := cfg_log_level c;
    cfg_udp_buffer_packets := cfg_udp_buffer_packets c;
    cfg_udp_buffer_bytes := cfg_udp_buffer_bytes c;
    cfg_max_buffer_bytes := cfg_max_buffer_bytes c;
    cfg_mimalloc_purge_delay := cfg_mimalloc_purge_delay c;
    cfg_mimalloc_large_os_pages := cfg_mimalloc_large_os_pages c;
    cfg_mimalloc_allow_thp := cfg_mimalloc_allow_thp c |}) self.

Definition NetstackBuilder_udp_max_sessions (n : Z) (self : NetstackBuilder) : NetstackBuilder :=
  with_config (λ c, {|
    cfg_mtu := cfg_mtu c;
    cfg_tcp_buffer_size := cfg_tcp_buffer_size c;
    cfg_tcp_max_connections := cfg_tcp_max_connections c;
    cfg_tcp_pool_size := cfg_tcp_pool_size c;
    cfg_udp_session_timeout := cfg_udp_session_timeout c;
    cfg_udp_max_sessions := n;
    cfg_channel_capacity := cfg_channel_capacity c;
    cfg_log_level := cfg_log_level c;
    cfg_udp_buffer_packets := cfg_udp_buffer_packets c;
    cfg_udp_buffer_bytes := cfg_udp_buffer_bytes c;
    cfg_max_buffer_bytes := cfg_max_buffer_bytes c;
    cfg_mimalloc_purge_delay := cfg_mimalloc_purge_delay c;
    cfg_mimalloc_large_os_pages := cfg_mimalloc_large_os_pages c;
    cfg_mimalloc_allow_thp := cfg_mimalloc_allow_thp c |}) self.

Definition NetstackBuilder_channel_capacity (n : Z) (self : NetstackBuilder) : NetstackBuilder :=
  with_config (λ c, {|
    cfg_mtu := cfg_mtu c;
    cfg_tcp_buffer_size := cfg_tcp_buffer_size c;
    cfg_tcp_max_connections := cfg_tcp_max_connections c;
    cfg_tcp_pool_size := cfg_tcp_pool_size c;
    cfg_udp_session_timeout := cfg_udp_session_timeout c;
    cfg_udp_max_sessions := cfg_udp_max_sessions c;
    cfg_channel_capacity := n;
    cfg_log_level := cfg_log_level c;
    cfg_udp_buffer_packets := cfg_udp_buffer_packets c;
    cfg_udp_buffer_bytes := cfg_udp_buffer_bytes c;
    cfg_max_buffer_bytes := cfg_max_buffer_bytes c;
    cfg_mimalloc_purge_delay := cfg_mimalloc_purge_delay c;
    cfg_mimalloc_large_os_pages := cfg_mimalloc_large_os_pages c;
    cfg_mimalloc_allow_thp := cfg_mimalloc_allow_thp c |}) self.

Definition NetstackBuilder_log_level (level : LogLevel) (self : NetstackBuilder) : NetstackBuilder :=
  with_config (λ c, {|
    cfg_mtu := cfg_mtu c;
    cfg_tcp_buffer_size := cfg_tcp_buffer_size c;
    cfg_tcp_max_connections := cfg_tcp_max_connections c;
    cfg_tcp_pool_size := cfg_tcp_pool_size c;
    cfg_udp_session_timeout := cfg_udp_session_timeout c;
    cfg_udp_max_sessions := cfg_udp_max_sessions c;
    cfg_channel_capacity := cfg_channel_capacity c;
    cfg_log_level := level;
    cfg_udp_buffer_packets := cfg_udp_buffer_packets c;
    cfg_udp_buffer_bytes := cfg_udp_buffer_bytes c;
    cfg_max_buffer_bytes := cfg_max_buffer_bytes c;
    cfg_mimalloc_purge_delay := cfg_mimalloc_purge_delay c;
    cfg_mimalloc_large_os_pages := cfg_mimalloc_large_os_pages c;
    cfg_mimalloc_allow_thp := cfg_mimalloc_allow_thp c |}) self.

Definition NetstackBuilder_udp_buffer (packets bytes : Z) (self : NetstackBuilder) : NetstackBuilder :=
  with_config (λ c, {|
    cfg_mtu := cfg_mtu c;
    cfg_tcp_buffer_size := cfg_tcp_buffer_size c;
    cfg_tcp_max_connections := cfg_tcp_max_connections c;
    cfg_tcp_pool_size := cfg_tcp_pool_size c;
    cfg_udp_session_timeout := cfg_udp_session_timeout c;
    cfg_udp_max_sessions := cfg_udp_max_sessions c;
    cfg_channel_capacity := cfg_channel_capacity c;
    cfg_log_level := cfg_log_level c;
    cfg_udp_buffer_packets := packets;
    cfg_udp_buffer_bytes := bytes;
    cfg_max_buffer_bytes := cfg_max_buffer_bytes c;
    cfg_mimalloc_purge_delay := cfg_mimalloc_purge_delay c;
    cfg_mimalloc_large_os_pages := cfg_mimalloc_large_os_pages c;
    cfg_mimalloc_allow_thp := cfg_mimalloc_allow_thp c |}) self.

Definition NetstackBuilder_max_buffer_bytes (limit : option Z) (self : NetstackBuilder) : NetstackBuilder :=
  with_config (λ c, {|
    cfg_mtu := cfg_mtu c;
    cfg_tcp_buffer_size := cfg_tcp_buffer_size c;
    cfg_tcp_max_connections := cfg_tcp_max_connections c;
    cfg_tcp_pool_size := cfg_tcp_pool_size c;
    cfg_udp_session_timeout := cfg_udp_session_timeout c;
    cfg_udp_max_sessions := cfg_udp_max_sessions c;
    cfg_channel_capacity := cfg_channel_capacity c;
    cfg_log_level := cfg_log_level c;
    cfg_udp_buffer_packets := cfg_udp_buffer_packets c;
    cfg_udp_buffer_bytes := cfg_udp_buffer_bytes c;
    cfg_max_buffer_bytes := limit;
    cfg_mimalloc_purge_delay := cfg_mimalloc_purge_delay c;
    cfg_mimalloc_large_os_pages := cfg_mimalloc_large_os_pages c;
    cfg_mimalloc_allow_thp := cfg_mimalloc_allow_thp c |}) self.

Definition NetstackBuilder_mimalloc_purge_delay (delay : StdDuration) (self : NetstackBuilder) : NetstackBuilder :=
  with_config (λ c, {|
    cfg_mtu := cfg_mtu c;
    cfg_tcp_buffer_size := cfg_tcp_buffer_size c;
    cfg_tcp_max_connections := cfg_tcp_max_connections c;
    cfg_tcp_pool_size := cfg_tcp_pool_size c;
    cfg_udp_session_timeout := cfg_udp_session_timeout c;
    cfg_udp_max_sessions := cfg_udp_max_sessions c;
    cfg_channel_capacity := cfg_channel_capacity c;
    cfg_log_level := cfg_log_level c;
    cfg_udp_buffer_packets := cfg_udp_buffer_packets c;
    cfg_udp_buffer_bytes := cfg_udp_buffer_bytes c;
    cfg_max_buffer_bytes := cfg_max_buffer_bytes c;
    cfg_mimalloc_purge_delay := Some delay;
    cfg_mimalloc_large_os_pages := cfg_mimalloc_large_os_pages c;
    cfg_mimalloc_allow_thp := cfg_mimalloc_allow_thp c |}) self.

Definition NetstackBuilder_mimalloc_large_os_pages (enabled : bool) (self : NetstackBuilder) : NetstackBuilder :=
  with_config (λ c, {|
    cfg_mtu := cfg_mtu c;
    cfg_tcp_buffer_size := cfg_tcp_buffer_size c;
    cfg_tcp_max_connections := cfg_tcp_max_connections c;
    cfg_tcp_pool_size := cfg_tcp_pool_size c;
    cfg_udp_session_timeout := cfg_udp_session_timeout c;
    cfg_udp_max_sessions := cfg_udp_max_sessions c;
    cfg_channel_capacity := cfg_channel_capacity c;
    cfg_log_level := cfg_log_level c;
    cfg_udp_buffer_packets := cfg_udp_buffer_packets c;
    cfg_udp_buffer_bytes := cfg_udp_buffer_bytes c;
    cfg_max_buffer_bytes := cfg_max_buffer_bytes c;
    cfg_mimalloc_purge_delay := cfg_mimalloc_purge_delay c;
    cfg_mimalloc_large_os_pages := enabled;
    cfg_mimalloc_allow_thp := cfg_mimalloc_allow_thp c |}) self.

Definition NetstackBuilder_mimalloc_allow_thp (enabled : bool) (self : NetstackBuilder) : NetstackBuilder :=
  with_config (λ c, {|
    cfg_mtu := cfg_mtu c;
    cfg_tcp_buffer_size := cfg_tcp_buffer_size c;
    cfg_tcp_max_connections := cfg_tcp_max_connections c;
    cfg_tcp_pool_size := cfg_tcp_pool_size c;
    cfg_udp_session_timeout := cfg_udp_session_timeout c;
    cfg_udp_max_sessions := cfg_udp_max_sessions c;
    cfg_channel_capacity := cfg_channel_capacity c;
    cfg_log_level := cfg_log_level c;
    cfg_udp_buffer_packets := cfg_udp_buffer_packets c;
    cfg_udp_buffer_bytes := cfg_udp_buffer_bytes c;
    cfg_max_buffer_bytes := cfg_max_buffer_bytes c;
    cfg_mimalloc_purge_delay := cfg_mimalloc_purge_delay c;
    cfg_mimalloc_large_os_pages := cfg_mimalloc_large_os_pages c;
    cfg_mimalloc_allow_thp := enabled |}) self.

(** [interfaces.iter().any(|(i, _)| *i == id)] *)
Definition has_interface (id : InterfaceId) (l : list (InterfaceId * InterfaceConfig)) : bool :=
  existsb (λ p, bool_decide (p.1 = id)) l.

Definition add_interface (id : InterfaceId) (spec : InterfaceConfig) (self : NetstackBuilder)
    : result NetstackBuilder NetstackError :=
  if has_interface id (interfaces self) then Err (InterfaceNotFound id)
  else Ok {| config := config self; interfaces := interfaces self ++ [(id, spec)] |}.

(** ** Allocator tuning *)

Inductive mi_option_t : Type :=
| mi_option_purge_delay
| mi_option_allow_large_os_pages
| mi_option_allow_thp.

(** [as c_long]: truncation to two's complement at the width of C's [long]. *)
Definition as_c_long `{T : Target} (v : Z) : Z :=
  let w := v `mod` 2 ^ c_long_bits in
  if bool_decide (w < 2 ^ (c_long_bits - 1)) then w else w - 2 ^ c_long_bits.

(** The [MiMalloc::option_set] calls, in order (with the [allocator] feature
    on; without it the function is empty). *)
Definition apply_mimalloc_tuning `{T : Target} (cfg : NetstackConfig) : list (mi_option_t * Z) :=
  (match cfg_mimalloc_purge_delay cfg with
   | Some delay => [(mi_option_purge_delay, as_c_long (as_millis delay))]
   | None => []
   end) ++
  [(mi_option_allow_large_os_pages, as_c_long (if cfg_mimalloc_large_os_pages cfg then 1 else 0));
   (mi_option_allow_thp, as_c_long (if cfg_mimalloc_allow_thp cfg then 1 else 0))].

(** ** The cost of a socket in the buffer budget *)

(** What [alloc_tcp] charges for a TCP socket and [alloc_udp] for a shared UDP
    socket, as a function of the configuration. *)
Definition tcp_socket_cost (c : NetstackConfig) : Z := 2 * cfg_tcp_buffer_size c.
Definition udp_socket_cost (c : NetstackConfig) : Z :=
  Z.max (cfg_udp_buffer_packets c) 1 * 64 + Z.max (cfg_udp_buffer_bytes c) (cfg_mtu c).

(** A configuration whose fields are [usize] values, for which the sockets of a
    full session table fit in a [usize], and which stays within what the
    libraries accept: a receive buffer of at most 1 GiB, buffers that can be
    allocated, a channel that tokio can create, a timeout that fits in 64 bits of
    microseconds. *)
Record sane_config `{T : Target} (c : NetstackConfig) : Prop := {
  sane_tcp_buffer : 0 ≤ cfg_tcp_buffer_size c;
  sane_tcp_window : cfg_tcp_buffer_size c ≤ 2 ^ 30;
  sane_tcp_alloc : cfg_tcp_buffer_size c ≤ isize_max;
  sane_udp_alloc : Z.max (cfg_udp_buffer_bytes c) (cfg_mtu c) ≤ isize_max;
  sane_udp_packets : Z.max (cfg_udp_buffer_packets c) 1 * 1024 ≤ isize_max;
  sane_channel : Z.max (cfg_channel_capacity c) 1 ≤ max_permits;
  sane_timeout_u64 : cfg_udp_session_timeout c `div` 1000 ≤ u64_max;
  sane_tcp_max : 0 ≤ cfg_tcp_max_connections c;
  sane_udp_max : 0 ≤ cfg_udp_max_sessions c < usize_max;
  sane_pool : 0 ≤ cfg_tcp_pool_size c;
  sane_udp_bytes : 0 ≤ cfg_udp_buffer_bytes c;
  sane_timeout : 0 ≤ cfg_udp_session_timeout c;
  sane_limit : from_option (Z.le 0) True (cfg_max_buffer_bytes c);
  sane_total :
    tcp_socket_cost c * (cfg_tcp_max_connections c + 1) +
    udp_socket_cost c * (cfg_udp_max_sessions c + 1) ≤ usize_max;
}.

Lemma default_config_sane : sane_config (T := debug64) NetstackConfig_default.
Proof. by constructor. Qed.

Lemma has_interface_spec id l : has_interface id l = true ↔ id ∈ l.*1.
Proof.
  unfold has_interface. rewrite existsb_exists, list_elem_of_fmap. split.
  - intros ([i s] & Hin & Hi). apply bool_decide_eq_true in Hi as <-.
    exists (i, s). by rewrite list_elem_of_In.
  - intros ([i s] & -> & Hin). exists (i, s). rewrite bool_decide_eq_true.
    by rewrite <- list_elem_of_In.
Qed.

(** The interface identifiers of a builder stay distinct. *)
Lemma add_interface_NoDup id spec b b' :
  NoDup (interfaces b).*1 → add_interface id spec b = Ok b' → NoDup (interfaces b').*1.
Proof.
  intros Hnd. unfold add_interface. destruct (has_interface id _) eqn:E; [done|].
  intros [= <-]. simpl. rewrite fmap_app. apply NoDup_app. split_and!; [done| |].
  - simpl. intros i Hi Hi'. apply list_elem_of_singleton in Hi' as ->.
    apply has_interface_spec in Hi. congruence.
  - apply NoDup_singleton.
Qed.
