(* ===== verification/Manager.v ===== *)
(** * The session manager

    [session/manager.rs]: the receive queue of a UDP pseudo-session, the
    entries of the two session tables, and the reference-counted table of
    shared UDP sockets (one per interface and destination endpoint). *)
From stdpp Require Import base gmap.
From S2P Require Import Prelude Types Device Smoltcp.

Local Open Scope Z_scope.

(** An [Arc<UdpQueue>] is shared by the manager's entry and by the session
    object of the application: both hold the same identifier of a queue in the
    store of queues. *)
Abbreviation QueueId := nat (only parsing).

Inductive TcpState : Type :=
| TcpState_Pending
| TcpState_Established
| TcpState_Closed.

#[global] Instance TcpState_eq_dec : EqDecision TcpState.
Proof. solve_decision. Defined.

Record TcpEntry : Type := mkTcpEntry {
  handle : SocketHandle;
  state : TcpState;
  orphaned : bool;
}.

Record UdpEntry : Type := mkUdpEntry {
  socket : SocketHandle;
  queue : QueueId;
  last_activity : Instant;
}.

Record SessionManager : Type := mkSessionManager {
  tcp : gmap SessionKey TcpEntry;
  udp : gmap SessionKey UdpEntry;
  udp_dst_sockets : gmap (InterfaceId * IpEndpoint) (SocketHandle * Z);
}.

(** [#[derive(Default)]] *)
Definition SessionManager_default : SessionManager :=
  {| tcp := ∅; udp := ∅; udp_dst_sockets := ∅ |}.

Definition set_tcp (t : gmap SessionKey TcpEntry) (m : SessionManager) : SessionManager :=
  {| tcp := t; udp := udp m; udp_dst_sockets := udp_dst_sockets m |}.
Definition set_udp (u : gmap SessionKey UdpEntry) (m : SessionManager) : SessionManager :=
  {| tcp := tcp m; udp := u; udp_dst_sockets := udp_dst_sockets m |}.
Definition set_udp_dst_sockets (d : gmap (InterfaceId * IpEndpoint) (SocketHandle * Z))
    (m : SessionManager) : SessionManager :=
  {| tcp := tcp m; udp := udp m; udp_dst_sockets := d |}.

(** ** The receive queue *)
Section UdpQueue.
Context `{K : Tokio}.

Record UdpQueue : Type := mkUdpQueue {
  inner : list Bytes;
  notify : Notify;
  closed : bool;
}.

Definition UdpQueue_new : UdpQueue :=
  {| inner := []; notify := notify_new; closed := false |}.

Definition push (data : Bytes) : M UdpQueue unit :=
  mmodify (λ q, {| inner := inner q ++ [data]; notify := notify q; closed := closed q |});;
  mmodify (λ q, {| inner := inner q; notify := notify_waiters (notify q); closed := closed q |}).

Definition pop : M UdpQueue (option Bytes) :=
  q ← mget;
  match inner q with
  | [] => mret None
  | data :: rest =>
      mmodify (λ q, {| inner := rest; notify := notify q; closed := closed q |});;
      mret (Some data)
  end.

Definition mark_closed : M UdpQueue unit :=
  mmodify (λ q, {| inner := inner q; notify := notify q; closed := true |});;
  mmodify (λ q, {| inner := inner q; notify := notify_waiters (notify q); closed := closed q |}).

Definition is_closed : M UdpQueue bool := mgets closed.

(** The queue is a FIFO: datagrams come out in the order they went in, and
    closing it loses none of them. *)
Fixpoint push_all (l : list Bytes) : M UdpQueue unit :=
  match l with
  | [] => mret tt
  | d :: l' => push d;; push_all l'
  end.

Fixpoint pop_n (n : nat) : M UdpQueue (list (option Bytes)) :=
  match n with
  | O => mret []
  | S n' => d ← pop; l ← pop_n n'; mret (d :: l)
  end.

Lemma push_all_inner l q :
  wp (push_all l) (λ _ q', inner q' = inner q ++ l ∧ closed q' = closed q) q.
Proof.
  revert q. induction l as [|d l IH]; intros q; simpl.
  - apply wp_ret. by rewrite app_nil_r.
  - unfold push. wp_go. eapply wp_mono; [apply IH|]. simpl. intros _ q' [-> ->].
    by rewrite <- app_assoc.
Qed.

Lemma pop_n_inner n q :
  n = length (inner q) →
  wp (pop_n n) (λ l q', l = Some <$> inner q ∧ inner q' = [] ∧ closed q' = closed q) q.
Proof.
  revert q. induction n as [|n IH]; intros q Hn; simpl.
  - apply wp_ret. by destruct (inner q).
  - unfold pop. destruct (inner q) as [|d rest] eqn:E; [done|]. wp_go. rewrite E.
    wp_go. simpl. eapply wp_mono; [apply IH; by injection Hn|].
    intros l q' (-> & ? & ?). by wp_go.
Qed.
End UdpQueue.

(** ** The tables *)
Section SessionManager.
Context `{T : Target}.

Definition get_tcp (self : SessionManager) (key : SessionKey) : option TcpEntry := tcp self !! key.

Definition get_udp (self : SessionManager) (key : SessionKey) : option UdpEntry := udp self !! key.

(** The [create] closure captures an environment [env] (the socket set of the
    interface) by mutable reference. *)
Definition udp_socket_for {Env} (interface : InterfaceId) (dst : IpEndpoint)
    (create : M Env (option SocketHandle)) (env : Env)
    : M SessionManager (option SocketHandle * Env) :=
  self ← mget;
  match udp_dst_sockets self !! (interface, dst) with
  | Some (handle, _) => mret (Some handle, env)
  | None =>
      '(created, env') ← run_closure create env;
      match created with
      | None => mret (None, env')
      | Some handle =>
          mmodify (λ m, set_udp_dst_sockets (<[(interface, dst) := (handle, 0)]> (udp_dst_sockets m)) m);;
          mret (Some handle, env')
      end
  end.

Definition udp_socket_retain (interface : InterfaceId) (dst : IpEndpoint) : M SessionManager unit :=
  self ← mget;
  match udp_dst_sockets self !! (interface, dst) with
  | Some (h, count) =>
      count' ← uadd count 1;
      mmodify (λ m, set_udp_dst_sockets (<[(interface, dst) := (h, count')]> (udp_dst_sockets m)) m)
  | None => mret tt
  end.

Definition udp_socket_release (interface : InterfaceId) (dst : IpEndpoint) : M SessionManager bool :=
  self ← mget;
  match udp_dst_sockets self !! (interface, dst) with
  | Some (h, count) =>
      let count' := saturating_sub count 1 in
      mmodify (λ m, set_udp_dst_sockets (<[(interface, dst) := (h, count')]> (udp_dst_sockets m)) m);;
      if bool_decide (count' = 0) then
        mmodify (λ m, set_udp_dst_sockets (delete (interface, dst) (udp_dst_sockets m)) m);;
        mret true
      else mret false
  | None => mret false
  end.

(** ** The reference counts

    The abstract view of the table of shared sockets: a destination has a
    socket exactly when some session uses it, and the count is the number of
    those sessions. *)
Definition uses (i : InterfaceId) (d : IpEndpoint) (k : SessionKey) : Prop :=
  interface k = i ∧ dst k = d.

#[global] Instance uses_dec i d k : Decision (uses i d k).
Proof. unfold uses. apply _. Defined.

Definition refcount (u : gmap SessionKey UdpEntry) (i : InterfaceId) (d : IpEndpoint) : Z :=
  Z.of_nat (count_keys (uses i d) u).

Record refs_ok (m : SessionManager) : Prop := {
  refs_count i d h c :
    udp_dst_sockets m !! (i, d) = Some (h, c) → c = refcount (udp m) i d ∧ 1 ≤ c;
  refs_entry k e :
    udp m !! k = Some e → ∃ c, udp_dst_sockets m !! (interface k, dst k) = Some (socket e, c);
}.

Lemma refs_ok_default : refs_ok SessionManager_default.
Proof. by constructor. Qed.

Lemma uses_self k : uses (interface k) (dst k) k.
Proof. done. Qed.

Lemma refs_ok_none m i d :
  refs_ok m → udp_dst_sockets m !! (i, d) = None → refcount (udp m) i d = 0.
Proof.
  intros [_ He] Hn. unfold refcount, count_keys.
  destruct (decide (filter (λ kv : SessionKey * UdpEntry, uses i d kv.1) (udp m) = ∅)) as [->|Hne].
  { by rewrite map_size_empty. }
  apply map_choose in Hne as (k & e & Hk).
  apply map_lookup_filter_Some in Hk as [Hk [<- <-]].
  simpl in Hn. apply He in Hk as [c Hk]. congruence.
Qed.

(** Two sessions with the same destination share one socket. *)
Lemma refs_ok_shared m k1 k2 e1 e2 :
  refs_ok m → udp m !! k1 = Some e1 → udp m !! k2 = Some e2 →
  interface k1 = interface k2 → dst k1 = dst k2 → socket e1 = socket e2.
Proof.
  intros [_ He] H1 H2 Hi Hd. apply He in H1 as [c1 H1]. apply He in H2 as [c2 H2].
  rewrite Hi, Hd, H2 in H1. by injection H1.
Qed.

(** The operations, on every branch. *)
Lemma wp_udp_socket_for {Env} i d (create : M Env (option SocketHandle)) env Q m :
  match udp_dst_sockets m !! (i, d) with
  | Some (h, _) => Q (Some h, env) m
  | None =>
      wp create (λ created env',
        match created with
        | Some h => Q (Some h, env') (set_udp_dst_sockets (<[(i, d) := (h, 0)]> (udp_dst_sockets m)) m)
        | None => Q (None, env') m
        end) env
  end → wp (udp_socket_for i d create env) Q m.
Proof.
  intros HQ. unfold udp_socket_for. wp_go.
  destruct (udp_dst_sockets m !! (i, d)) as [[h c]|]; [by wp_go|].
  wp_go. eapply wp_mono; [exact HQ|]. cbv beta. intros [h|] env' HQ'; by wp_go.
Qed.

Lemma wp_udp_socket_retain i d h c Q m :
  udp_dst_sockets m !! (i, d) = Some (h, c) → c < usize_max →
  Q tt (set_udp_dst_sockets (<[(i, d) := (h, c + 1)]> (udp_dst_sockets m)) m) →
  wp (udp_socket_retain i d) Q m.
Proof.
  intros E Hc HQ. unfold udp_socket_retain. wp_go. rewrite E. wp_go.
  apply wp_uadd; [lia|]. by wp_go.
Qed.

Lemma wp_udp_socket_release i d h c Q m :
  udp_dst_sockets m !! (i, d) = Some (h, c) → 1 ≤ c →
  Q (bool_decide (c = 1))
    (set_udp_dst_sockets
       (if bool_decide (c = 1) then delete (i, d) (udp_dst_sockets m)
        else <[(i, d) := (h, c - 1)]> (udp_dst_sockets m)) m) →
  wp (udp_socket_release i d) Q m.
Proof.
  intros E Hc HQ. unfold udp_socket_release. wp_go. rewrite E. wp_go.
  rewrite saturating_sub_exact by done. repeat case_bool_decide; try lia; wp_go; [|done].
  unfold set_udp_dst_sockets in *. simpl. by rewrite delete_insert_eq.
Qed.

Lemma refcount_insert u i d k e :
  u !! k = None →
  refcount (<[k:=e]> u) i d = (if decide (uses i d k) then 1 else 0) + refcount u i d.
Proof.
  intros Hk. unfold refcount. case_decide.
  - rewrite count_keys_insert_in by done. lia.
  - by rewrite count_keys_insert_out.
Qed.

Lemma refcount_delete u i d k e :
  u !! k = Some e →
  refcount u i d = (if decide (uses i d k) then 1 else 0) + refcount (delete k u) i d.
Proof.
  intros Hk. unfold refcount. rewrite (count_keys_delete (uses i d) u k e Hk).
  case_decide; lia.
Qed.

Lemma refcount_overwrite u i d k e :
  is_Some (u !! k) → refcount (<[k:=e]> u) i d = refcount u i d.
Proof. intros Hk. unfold refcount. by rewrite count_keys_overwrite. Qed.

Lemma refcount_nonneg u i d : 0 ≤ refcount u i d.
Proof. unfold refcount. lia. Qed.

Lemma refcount_le_size u i d : refcount u i d ≤ Z.of_nat (size u).
Proof.
  unfold refcount, count_keys. apply inj_le. by apply map_subseteq_size, map_filter_subseteq.
Qed.

(** Entering a session: the socket is the shared one and its count goes up by
    one. *)
Lemma refs_ok_enter m k e c :
  refs_ok m → udp m !! k = None →
  match udp_dst_sockets m !! (interface k, dst k) with
  | Some (h, c0) => socket e = h ∧ c = c0 + 1
  | None => c = 1
  end →
  refs_ok (set_udp (<[k:=e]> (udp m))
    (set_udp_dst_sockets (<[(interface k, dst k) := (socket e, c)]> (udp_dst_sockets m)) m)).
Proof.
  intros Hok Hk Hc. pose proof Hok as [Hcnt Hent]. constructor; simpl.
  - intros i d h c' Hl. rewrite refcount_insert by done.
    destruct (decide ((interface k, dst k) = (i, d))) as [[= <- <-]|Hne].
    + rewrite lookup_insert_eq in Hl. injection Hl as <- <-.
      rewrite decide_True by done.
      destruct (udp_dst_sockets m !! _) as [[h0 c0]|] eqn:E.
      * destruct Hc as [? ->]. apply Hcnt in E as [-> ?]. lia.
      * subst c. rewrite (refs_ok_none m) by done. lia.
    + rewrite lookup_insert_ne in Hl by done. rewrite decide_False.
      * by apply Hcnt in Hl.
      * intros [<- <-]. by apply Hne.
  - intros k' e' Hl. destruct (decide (k = k')) as [<-|Hne].
    + rewrite lookup_insert_eq in Hl. injection Hl as <-. exists c. apply lookup_insert_eq.
    + rewrite lookup_insert_ne in Hl by done. apply Hent in Hl as [c' Hl].
      destruct (decide ((interface k, dst k) = (interface k', dst k'))) as [Heq|Hneq].
      * rewrite <- Heq in Hl |- *. rewrite Hl in Hc. destruct Hc as [<- ->].
        exists (c' + 1). apply lookup_insert_eq.
      * exists c'. by rewrite lookup_insert_ne.
Qed.

(** Leaving: the count goes down by one, and the shared socket goes away with
    the last session. *)
Lemma refs_ok_leave m k e h c :
  refs_ok m → udp m !! k = Some e → udp_dst_sockets m !! (interface k, dst k) = Some (h, c) →
  refs_ok (set_udp_dst_sockets
    (if bool_decide (c = 1) then delete (interface k, dst k) (udp_dst_sockets m)
     else <[(interface k, dst k) := (h, c - 1)]> (udp_dst_sockets m))
    (set_udp (delete k (udp m)) m)).
Proof.
  intros [Hcnt Hent] Hk Hd. pose proof (Hcnt _ _ _ _ Hd) as [Hc Hpos].
  assert (∀ k' e', delete k (udp m) !! k' = Some e' → k' ≠ k ∧ udp m !! k' = Some e') as Hdel.
  { intros k' e' Hl. by apply lookup_delete_Some in Hl as [? ?]. }
  rewrite (refcount_delete _ _ _ _ _ Hk), decide_True in Hc by done.
  constructor; simpl.
  - intros i d h' c' Hl.
    destruct (decide ((interface k, dst k) = (i, d))) as [[= <- <-]|Hne].
    + case_bool_decide; simplify_map_eq; lia.
    + case_bool_decide; simplify_map_eq; apply Hcnt in Hl as [-> ?];
        (rewrite (refcount_delete _ i d _ _ Hk) in *; rewrite decide_False in *
          by (intros [<- <-]; by apply Hne)); lia.
  - intros k' e' [Hne Hl]%Hdel. pose proof (Hent _ _ Hl) as [c' Hl'].
    destruct (decide ((interface k, dst k) = (interface k', dst k'))) as [Heq|Hneq].
    + rewrite <- Heq in *. rewrite Hd in Hl'. injection Hl' as Hs <-.
      case_bool_decide as Hc1.
      * exfalso. assert (1 ≤ refcount (delete k (udp m)) (interface k) (dst k)); [|lia].
        unfold refcount. apply (inj_le 1). eapply (count_keys_pos _ _ k' e').
        { by rewrite lookup_delete_ne. }
        injection Heq as ? ?. done.
      * exists (c - 1). rewrite lookup_insert_eq. by rewrite Hs.
    + exists c'. case_bool_decide; by simplify_map_eq.
Qed.

(** Updating an entry in place (its activity stamp) changes no count. *)
Lemma refs_ok_touch m k e e' :
  refs_ok m → udp m !! k = Some e → socket e' = socket e →
  refs_ok (set_udp (<[k:=e']> (udp m)) m).
Proof.
  intros [Hcnt Hent] Hk Hs. constructor; simpl.
  - intros i d h c Hl. rewrite refcount_overwrite by (by eexists). by apply (Hcnt i d h).
  - intros k' e'' Hl. destruct (decide (k = k')) as [<-|Hne].
    + rewrite lookup_insert_eq in Hl. injection Hl as <-. rewrite Hs. by apply Hent.
    + rewrite lookup_insert_ne in Hl by done. by apply Hent.
Qed.

(** There are at most as many shared sockets as sessions. *)
Lemma refs_ok_size m : refs_ok m → (size (udp_dst_sockets m) ≤ size (udp m))%nat.
Proof.
  intros Hok.
  rewrite <- (size_dom (udp_dst_sockets m)), <- (size_dom (udp m)).
  set (f := λ k : SessionKey, (interface k, dst k)).
  transitivity (size (set_map (D := gset _) f (dom (udp m)) : gset (InterfaceId * IpEndpoint))).
  - apply subseteq_size. intros [i d] Hd. apply elem_of_dom in Hd as [[h c] Hd].
    apply elem_of_map. destruct (refs_count m Hok _ _ _ _ Hd) as [Hc Hpos].
    unfold refcount, count_keys in Hc.
    destruct (decide (filter (λ kv : SessionKey * UdpEntry, uses i d kv.1) (udp m) = ∅)) as [He|Hne].
    { rewrite He, map_size_empty in Hc. lia. }
    apply map_choose in Hne as (k & e & Hk).
    apply map_lookup_filter_Some in Hk as [Hk [<- <-]].
    exists k. split; [done|]. apply elem_of_dom. by eexists.
  - unfold set_map. etrans; [apply size_list_to_set_le|]. by rewrite length_fmap.
Qed.
End SessionManager.
