(* ===== verification/Core.v ===== *)
(** * The shared state

    [core.rs]: the state behind the mutex ([Core]), the interface slots, the
    buffer budget, and [Shared]. Every critical section of the crate is a
    computation on [Shared] that runs without interference. *)
From stdpp Require Import base list gmap.
From S2P Require Import Prelude Types Device Smoltcp Config Manager.

Local Open Scope Z_scope.

Section Core.
Context `{T : Target, E : Engine, K : Tokio}.

(** [InterfaceSlot] *)
Record InterfaceSlot : Type := mkInterfaceSlot {
  id : InterfaceId;
  iface : Interface;
  device : VirtualDevice;
  sockets : SocketSet;
  tcp_pool : list TcpSocket;
  tcp_pool_max : Z;
  mtu : Z;
  tcp_buffer_size : Z;
}.

Definition InterfaceSlot_new (id : InterfaceId) (iface : Interface) (device : VirtualDevice)
    (sockets : SocketSet) (tcp_pool_max mtu tcp_buffer_size : Z) : InterfaceSlot :=
  {| id := id; iface := iface; device := device; sockets := sockets;
     tcp_pool := [];
     tcp_pool_max := tcp_pool_max; mtu := mtu; tcp_buffer_size := tcp_buffer_size |}.

(** The accessor [buffer_size()] of the field [tcp_buffer_size]. *)
Definition buffer_size (self : InterfaceSlot) : Z := tcp_buffer_size self.

Definition set_device (d : VirtualDevice) (s : InterfaceSlot) : InterfaceSlot :=
  {| id := id s; iface := iface s; device := d; sockets := sockets s; tcp_pool := tcp_pool s;
     tcp_pool_max := tcp_pool_max s; mtu := mtu s; tcp_buffer_size := tcp_buffer_size s |}.
Definition set_sockets (ss : SocketSet) (s : InterfaceSlot) : InterfaceSlot :=
  {| id := id s; iface := iface s; device := device s; sockets := ss; tcp_pool := tcp_pool s;
     tcp_pool_max := tcp_pool_max s; mtu := mtu s; tcp_buffer_size := tcp_buffer_size s |}.
Definition set_tcp_pool (p : list TcpSocket) (s : InterfaceSlot) : InterfaceSlot :=
  {| id := id s; iface := iface s; device := device s; sockets := sockets s; tcp_pool := p;
     tcp_pool_max := tcp_pool_max s; mtu := mtu s; tcp_buffer_size := tcp_buffer_size s |}.
Definition set_iface (i : Interface) (s : InterfaceSlot) : InterfaceSlot :=
  {| id := id s; iface := i; device := device s; sockets := sockets s; tcp_pool := tcp_pool s;
     tcp_pool_max := tcp_pool_max s; mtu := mtu s; tcp_buffer_size := tcp_buffer_size s |}.

(** [Core] *)
Record Core : Type := mkCore {
  slots : list InterfaceSlot;
  manager : SessionManager;
  core_config : NetstackConfig;
  buffer_bytes : Z;
}.

Definition set_slots (l : list InterfaceSlot) (c : Core) : Core :=
  {| slots := l; manager := manager c; core_config := core_config c; buffer_bytes := buffer_bytes c |}.
Definition set_manager (m : SessionManager) (c : Core) : Core :=
  {| slots := slots c; manager := m; core_config := core_config c; buffer_bytes := buffer_bytes c |}.
Definition set_buffer_bytes (b : Z) (c : Core) : Core :=
  {| slots := slots c; manager := manager c; core_config := core_config c; buffer_bytes := b |}.

(** [slots.iter().find(|slot| slot.id == id)], with the slot's position. *)
Definition find_slot (l : list InterfaceSlot) (i : InterfaceId) : option (nat * InterfaceSlot) :=
  list_find (λ s, id s = i) l.

Definition slot (self : Core) (i : InterfaceId) : option InterfaceSlot :=
  snd <$> find_slot (slots self) i.

(** [slot_mut] gives the slot to be written back at its position. *)
Definition slot_mut (self : Core) (i : InterfaceId) : option (nat * InterfaceSlot) :=
  find_slot (slots self) i.

Definition reserve_buffer (bytes : Z) : M Core bool :=
  self ← mget;
  refused ←
    match cfg_max_buffer_bytes (core_config self) with
    | Some limit => total ← uadd (buffer_bytes self) bytes; mret (bool_decide (limit < total))
    | None => mret false
    end;
  if (refused : bool) then mret false
  else
    total ← uadd (buffer_bytes self) bytes;
    mmodify (set_buffer_bytes total);;
    mret true.

Definition release_buffer (bytes : Z) : M Core unit :=
  mmodify (λ self, set_buffer_bytes (saturating_sub (buffer_bytes self) bytes) self).

(** [Shared], plus the store of the [Arc<UdpQueue>]s. *)
Record Shared : Type := mkShared {
  core : Core;
  poll_notify : Notify;
  poll_done : Notify;
  queues : gmap QueueId UdpQueue;
  next_queue : QueueId;
}.

Definition Shared_new (c : Core) : Shared :=
  {| core := c; poll_notify := notify_new; poll_done := notify_new;
     queues := ∅; next_queue := O |}.

Definition set_core (c : Core) (s : Shared) : Shared :=
  {| core := c; poll_notify := poll_notify s; poll_done := poll_done s;
     queues := queues s; next_queue := next_queue s |}.
Definition set_queues (q : gmap QueueId UdpQueue) (s : Shared) : Shared :=
  {| core := core s; poll_notify := poll_notify s; poll_done := poll_done s;
     queues := q; next_queue := next_queue s |}.

Definition notify_poll : M Shared unit :=
  mmodify (λ s,
    {| core := core s; poll_notify := notify_waiters (poll_notify s); poll_done := poll_done s;
       queues := queues s; next_queue := next_queue s |}).

Definition notify_poll_done : M Shared unit :=
  mmodify (λ s,
    {| core := core s; poll_notify := poll_notify s; poll_done := notify_waiters (poll_done s);
       queues := queues s; next_queue := next_queue s |}).

(** ** Access to the parts of [Shared] *)

Definition on_core {A} (m : M Core A) : M Shared A := zoom core set_core m.

Definition on_manager {A} (m : M SessionManager A) : M Shared A :=
  on_core (zoom manager set_manager m).

(** [core.slots[i]] and its update in place. *)
Definition slot_at (i : nat) : M Shared InterfaceSlot :=
  s ← mget;
  match slots (core s) !! i with
  | Some sl => mret sl
  | None => mpanic IndexOutOfBounds
  end.

Definition put_slot (i : nat) (sl : InterfaceSlot) : M Shared unit :=
  mmodify (λ s, set_core (set_slots (<[i := sl]> (slots (core s))) (core s)) s).

(** [SocketSet::get_mut::<tcp::Socket>] and [::<udp::Socket>]. *)
Definition get_tcp_socket (ss : SocketSet) (h : SocketHandle) : M Shared TcpSocket :=
  match socket_get ss h with
  | Some (Socket_Tcp s) => mret s
  | Some (Socket_Udp _) => mpanic WrongSocketType
  | None => mpanic NoSuchSocket
  end.

Definition get_udp_socket (ss : SocketSet) (h : SocketHandle) : M Shared UdpSocket :=
  match socket_get ss h with
  | Some (Socket_Udp s) => mret s
  | Some (Socket_Tcp _) => mpanic WrongSocketType
  | None => mpanic NoSuchSocket
  end.

(** [SocketSet::remove] *)
Definition remove_socket (ss : SocketSet) (h : SocketHandle)
    : M Shared (Socket TcpSocket UdpSocket * SocketSet) :=
  match socket_remove ss h with
  | Some r => mret r
  | None => mpanic NoSuchSocket
  end.

(** [Arc::new(UdpQueue::new())] *)
Definition alloc_queue : M Shared QueueId :=
  s ← mget;
  let q := next_queue s in
  mmodify (λ s,
    {| core := core s; poll_notify := poll_notify s; poll_done := poll_done s;
       queues := <[q := UdpQueue_new]> (queues s); next_queue := S q |});;
  mret q.

(** A method call on the queue behind an [Arc]. *)
Definition on_queue {A} (q : QueueId) (m : M UdpQueue A) : M Shared A :=
  s ← mget;
  match queues s !! q with
  | Some uq =>
      match m uq with
      | Done (a, uq') => mmodify (set_queues (<[q := uq']> (queues s)));; mret a
      | Panic p => mpanic p
      | OutOfFuel => λ _, OutOfFuel
      end
  | None => mpanic DanglingQueue
  end.

(** ** The buffer budget *)

(** Whether a total respects the configured cap. *)
Definition within (limit : option Z) (total : Z) : bool :=
  match limit with Some l => bool_decide (total ≤ l) | None => true end.

(** [reserve_buffer] on every branch, when the sum fits in a [usize]. *)
Lemma wp_reserve_buffer bytes (Q : bool → Core → Prop) c :
  buffer_bytes c + bytes ≤ usize_max →
  (if within (cfg_max_buffer_bytes (core_config c)) (buffer_bytes c + bytes)
   then Q true (set_buffer_bytes (buffer_bytes c + bytes) c) else Q false c) →
  wp (reserve_buffer bytes) Q c.
Proof.
  intros Hov HQ. unfold reserve_buffer. wp_go.
  destruct (cfg_max_buffer_bytes (core_config c)) as [limit|]; simpl in HQ.
  - wp_go. apply wp_uadd; [done|]. wp_go.
    repeat case_bool_decide; try (exfalso; lia); wp_go; [|done].
    apply wp_uadd; [done|]. by wp_go.
  - wp_go. apply wp_uadd; [done|]. by wp_go.
Qed.

Lemma wp_release_buffer bytes (Q : unit → Core → Prop) c :
  Q tt (set_buffer_bytes (saturating_sub (buffer_bytes c) bytes) c) →
  wp (release_buffer bytes) Q c.
Proof. done. Qed.

(** ** Slots *)

Lemma find_slot_Some l i n sl :
  find_slot l i = Some (n, sl) → l !! n = Some sl ∧ id sl = i.
Proof. unfold find_slot. intros (? & ? & _)%list_find_Some. done. Qed.

Lemma find_slot_unique (l : list InterfaceSlot) (n : nat) sl :
  NoDup (id <$> l) → l !! n = Some sl → find_slot l (id sl) = Some (n, sl).
Proof.
  intros Hnd Hn. unfold find_slot. apply list_find_Some. split_and!; [done..|].
  intros j y Hj Hlt Hid.
  assert (j = n); [|lia].
  eapply NoDup_lookup; [exact Hnd| |]; rewrite list_lookup_fmap; [by rewrite Hj|].
  rewrite Hn. simpl. by rewrite Hid.
Qed.

Lemma find_slot_insert (l : list InterfaceSlot) (n : nat) sl sl' i :
  l !! n = Some sl → id sl' = id sl →
  find_slot (<[n:=sl']> l) i =
    match find_slot l i with
    | Some (m, s) => Some (m, if decide (m = n) then sl' else s)
    | None => None
    end.
Proof.
  intros Hn Hid. unfold find_slot.
  destruct (list_find _ l) as [[m s]|] eqn:Ef.
  - apply list_find_Some in Ef as (Hm & <- & Hbefore). apply list_find_Some.
    pose proof (lookup_lt_Some _ _ _ Hm).
    case_decide as Hmn.
    + subst m. rewrite Hn in Hm. injection Hm as ->. rewrite list_lookup_insert_eq by done.
      split_and!; [done..|]. intros j y Hj Hlt. rewrite list_lookup_insert_ne in Hj by lia.
      eauto.
    + rewrite list_lookup_insert_ne by done. split_and!; [done..|].
      intros j y Hj Hlt. destruct (decide (n = j)) as [<-|Hne].
      * rewrite list_lookup_insert_eq in Hj by (by eapply lookup_lt_Some).
        injection Hj as <-. rewrite Hid. by eapply Hbefore.
      * rewrite list_lookup_insert_ne in Hj by done. by eapply Hbefore.
  - apply list_find_None in Ef. apply list_find_None.
    apply Forall_forall. intros y Hy. apply list_elem_of_lookup in Hy as [j Hj].
    rewrite Forall_lookup in Ef. destruct (decide (n = j)) as [<-|Hne].
    + rewrite list_lookup_insert_eq in Hj by (by eapply lookup_lt_Some).
      injection Hj as <-. rewrite Hid. by eapply Ef.
    + rewrite list_lookup_insert_ne in Hj by done. by eapply Ef.
Qed.

Lemma ids_insert (l : list InterfaceSlot) (n : nat) sl sl' :
  l !! n = Some sl → id sl' = id sl → id <$> <[n:=sl']> l = id <$> l.
Proof. intros Hn Hid. by eapply list_fmap_insert_same. Qed.

(** ** The sockets of an interface *)

(** The socket that a handle of an interface denotes. *)
Definition sock_of (l : list InterfaceSlot) (i : InterfaceId) (h : SocketHandle)
    : option (Socket TcpSocket UdpSocket) :=
  '(_, sl) ← find_slot l i; socket_get (sockets sl) h.

Lemma sock_of_insert (l : list InterfaceSlot) (n : nat) sl sl' i h :
  NoDup (id <$> l) → l !! n = Some sl → id sl' = id sl →
  sock_of (<[n:=sl']> l) i h =
    if decide (i = id sl) then socket_get (sockets sl') h else sock_of l i h.
Proof.
  intros Hnd Hn Hid. unfold sock_of. rewrite (find_slot_insert l n sl) by done.
  case_decide as Hi.
  - subst i. rewrite (find_slot_unique l n sl) by done. simpl. by rewrite decide_True.
  - destruct (find_slot l i) as [[m s]|] eqn:Ef; [|done]. simpl.
    apply find_slot_Some in Ef as [Hm <-]. rewrite decide_False; [done|].
    intros ->. congruence.
Qed.

Lemma sock_of_slot (l : list InterfaceSlot) (n : nat) sl h :
  NoDup (id <$> l) → l !! n = Some sl → sock_of l (id sl) h = socket_get (sockets sl) h.
Proof. intros Hnd Hn. unfold sock_of. by rewrite (find_slot_unique l n sl). Qed.

(** Writing a part back unchanged. *)
Lemma set_core_id s : set_core (core s) s = s.
Proof. by destruct s. Qed.

Lemma set_queues_id s : set_queues (queues s) s = s.
Proof. by destruct s. Qed.

(** ** Rules for the accessors *)

Lemma wp_slot_at i sl (Q : InterfaceSlot → Shared → Prop) s :
  slots (core s) !! i = Some sl → Q sl s → wp (slot_at i) Q s.
Proof. intros Hi HQ. unfold slot_at. wp_go. rewrite Hi. by wp_go. Qed.

Lemma wp_get_tcp_socket ss h sk (Q : TcpSocket → Shared → Prop) s :
  socket_get ss h = Some (Socket_Tcp sk) → Q sk s → wp (get_tcp_socket ss h) Q s.
Proof. intros Hg HQ. unfold get_tcp_socket. rewrite Hg. by wp_go. Qed.

Lemma wp_get_udp_socket ss h sk (Q : UdpSocket → Shared → Prop) s :
  socket_get ss h = Some (Socket_Udp sk) → Q sk s → wp (get_udp_socket ss h) Q s.
Proof. intros Hg HQ. unfold get_udp_socket. rewrite Hg. by wp_go. Qed.

Lemma wp_on_queue {A} q uq (m : M UdpQueue A) (Q : A → Shared → Prop) s :
  queues s !! q = Some uq →
  wp m (λ a uq', Q a (set_queues (<[q := uq']> (queues s)) s)) uq →
  wp (on_queue q m) Q s.
Proof.
  intros Hq Hm. unfold on_queue. wp_go. rewrite Hq. unfold wp in Hm.
  destruct (m uq) as [[a uq']| |]; [|done..]. by wp_go.
Qed.
End Core.
