(* ===== verification/Packet.v ===== *)
(** * Packet classification

    The free functions at the end of [runner.rs]: the pre-pass looks at each
    queued IP packet, finds its endpoints and transport protocol, and whether
    it opens a TCP connection. *)
From stdpp Require Import base decidable option list.
From S2P Require Import Prelude Types Device Smoltcp.

Local Open Scope Z_scope.

(** [enum L4] *)
Inductive L4 : Type :=
| L4_Tcp (syn : bool)
| L4_Udp.

Section Packet.
Context `{W : Wire}.

Definition dispatch_l4 (src_ip dst_ip : IpAddress) (next_header : IpProtocol)
    (payload : Bytes) (caps : ChecksumCapabilities) : option (IpEndpoint * IpEndpoint * L4) :=
  match next_header with
  | IpProtocol_Tcp =>
      tcp ← TcpPacket_new_checked payload;
      repr ← TcpRepr_parse tcp src_ip dst_ip caps;
      let src := {| addr := src_ip; port := tcp_src_port repr |} in
      let dst := {| addr := dst_ip; port := tcp_dst_port repr |} in
      let syn := bool_decide (tcp_control repr = TcpControl_Syn) &&
                 bool_decide (tcp_ack_number repr = None) in
      Some (src, dst, L4_Tcp syn)
  | IpProtocol_Udp =>
      udp ← UdpPacket_new_checked payload;
      repr ← UdpRepr_parse udp src_ip dst_ip caps;
      let src := {| addr := src_ip; port := udp_src_port repr |} in
      let dst := {| addr := dst_ip; port := udp_dst_port repr |} in
      Some (src, dst, L4_Udp)
  | _ => None
  end.

Definition parse_l4 (pkt : Bytes) : option (IpEndpoint * IpEndpoint * L4) :=
  first ← head pkt;
  let version := Z.shiftr first 4 in
  let caps := ChecksumCapabilities_ignored in
  if bool_decide (version = 4) then
    v4 ← Ipv4Packet_new_checked pkt;
    repr ← Ipv4Repr_parse v4 caps;
    let src_ip := Ipv4 (v4_src_addr repr) in
    let dst_ip := Ipv4 (v4_dst_addr repr) in
    let payload := Ipv4Packet_payload v4 in
    dispatch_l4 src_ip dst_ip (v4_next_header repr) payload caps
  else if bool_decide (version = 6) then
    v6 ← Ipv6Packet_new_checked pkt;
    repr ← Ipv6Repr_parse v6;
    let src_ip := Ipv6 (v6_src_addr repr) in
    let dst_ip := Ipv6 (v6_dst_addr repr) in
    let payload := Ipv6Packet_payload v6 in
    dispatch_l4 src_ip dst_ip (v6_next_header repr) payload caps
  else None.

Definition to_socket_addr (ep : IpEndpoint) : SocketAddr :=
  {| sa_ip := IpAddr_from (addr ep); sa_port := port ep |}.

(** ** Properties *)

Lemma dispatch_l4_dst_port `{!WireLaws} s d nh payload caps src dst l4 :
  dispatch_l4 s d nh payload caps = Some (src, dst, l4) → port dst ≠ 0.
Proof.
  destruct nh; simpl; [| |done].
  - intros (tcp & _ & (repr & Hr & [= <- <- <-])%bind_Some)%bind_Some.
    by eapply TcpRepr_parse_dst_port.
  - intros (udp & _ & (repr & Hr & [= <- <- <-])%bind_Some)%bind_Some.
    by eapply UdpRepr_parse_dst_port.
Qed.

(** A classified packet has a destination port: the sockets opened for it can
    be bound. *)
Lemma parse_l4_dst_port `{!WireLaws} pkt src dst l4 :
  parse_l4 pkt = Some (src, dst, l4) → port dst ≠ 0.
Proof.
  unfold parse_l4. intros (b & _ & Hp)%bind_Some. revert Hp.
  repeat case_bool_decide; [| |done];
    intros (v & _ & (repr & _ & Hd)%bind_Some)%bind_Some;
    by eapply dispatch_l4_dst_port.
Qed.

Lemma dispatch_l4_addr s d nh payload caps src dst l4 :
  dispatch_l4 s d nh payload caps = Some (src, dst, l4) → addr src = s ∧ addr dst = d.
Proof.
  destruct nh; simpl; [| |done];
    intros (p & _ & (repr & _ & [= <- <- <-])%bind_Some)%bind_Some; done.
Qed.

(** Both endpoints of a classified packet are of the address family that the
    first nibble of the packet announces. *)
Definition family (a : IpAddress) : Z := match a with Ipv4 _ => 4 | Ipv6 _ => 6 end.

Lemma parse_l4_family pkt src dst l4 :
  parse_l4 pkt = Some (src, dst, l4) →
  ∃ b, head pkt = Some b ∧ family (addr src) = Z.shiftr b 4 ∧ family (addr dst) = Z.shiftr b 4.
Proof.
  unfold parse_l4. intros (b & Hb & Hp)%bind_Some. exists b. split; [done|]. revert Hp.
  case_bool_decide as H4; [rewrite H4|case_bool_decide as H6; [rewrite H6|done]];
    intros (v & _ & (repr & _ & Hd)%bind_Some)%bind_Some;
    by apply dispatch_l4_addr in Hd as [-> ->].
Qed.

(** The socket address identifies the endpoint. *)
Lemma to_socket_addr_inj `{!WireLaws} e1 e2 :
  to_socket_addr e1 = to_socket_addr e2 → e1 = e2.
Proof.
  destruct e1 as [[a|a] p], e2 as [[b|b] q]; unfold to_socket_addr; simpl;
    rewrite ?IpAddr_from_v4, ?IpAddr_from_v6; congruence.
Qed.
End Packet.
