(* ===== verification/Session.v ===== *)
(** * Session objects

    [session/mod.rs] and the data of [stream/tcp.rs] and [stream/udp.rs]: what
    the application receives from [accept]. The [Arc<Shared>] they hold is the
    state the operations run on, so it is not a field here. *)
From stdpp Require Import base decidable option list.
From S2P Require Import Prelude Types Device Smoltcp Manager.

Record WayTcpStream : Type := mkWayTcpStream {
  ts_interface : InterfaceId;
  ts_key : SessionKey;
  ts_handle : SocketHandle;
  ts_src_addr : SocketAddr;
  ts_dst_addr : SocketAddr;
}.

Definition WayTcpStream_new (interface : InterfaceId) (key : SessionKey) (handle : SocketHandle)
    (src_addr dst_addr : SocketAddr) : WayTcpStream :=
  {| ts_interface := interface; ts_key := key; ts_handle := handle;
     ts_src_addr := src_addr; ts_dst_addr := dst_addr |}.

Record WayUdpSession : Type := mkWayUdpSession {
  us_interface : InterfaceId;
  us_key : SessionKey;
  us_socket : SocketHandle;
  us_queue : QueueId;
  us_src_addr : SocketAddr;
  us_dst_addr : SocketAddr;
}.

Definition WayUdpSession_new (interface : InterfaceId) (key : SessionKey) (socket : SocketHandle)
    (queue : QueueId) (src_addr dst_addr : SocketAddr) : WayUdpSession :=
  {| us_interface := interface; us_key := key; us_socket := socket; us_queue := queue;
     us_src_addr := src_addr; us_dst_addr := dst_addr |}.

(** The accessors [src_addr], [dst_addr] and [interface_id] of both objects. *)
Definition tcp_src_addr (self : WayTcpStream) : SocketAddr := ts_src_addr self.
Definition tcp_dst_addr (self : WayTcpStream) : SocketAddr := ts_dst_addr self.
Definition tcp_interface_id (self : WayTcpStream) : InterfaceId := ts_interface self.
Definition udp_src_addr (self : WayUdpSession) : SocketAddr := us_src_addr self.
Definition udp_dst_addr (self : WayUdpSession) : SocketAddr := us_dst_addr self.
Definition udp_interface_id (self : WayUdpSession) : InterfaceId := us_interface self.

Inductive Session : Type :=
| Session_Tcp (s : WayTcpStream)
| Session_Udp (s : WayUdpSession).

#[global] Instance SocketAddr_eq_dec : EqDecision SocketAddr.
Proof. unfold EqDecision, Decision. repeat decide equality. Defined.
#[global] Instance WayTcpStream_eq_dec : EqDecision WayTcpStream.
Proof. solve_decision. Defined.
#[global] Instance WayUdpSession_eq_dec : EqDecision WayUdpSession.
Proof. solve_decision. Defined.
#[global] Instance Session_eq_dec : EqDecision Session.
Proof. solve_decision. Defined.

(** [handle.rs]: the packets exchanged with the application. *)
Record EgressPacket : Type := mkEgressPacket {
  ep_interface_id : InterfaceId;
  ep_data : Bytes;
}.

Record IngressPacket : Type := mkIngressPacket {
  ip_interface : InterfaceId;
  ip_data : Bytes;
}.
