(* ===== verification/Flow.v ===== *)
(** * The packet pipeline

    What the stack promises about packets and sessions, without sockets, tables
    or budgets: an abstract system of queues. A packet that [send_ip_packet]
    accepts goes through the ingress channel and the queue of its interface to
    the engine; the packets that a cycle produces go through the runner's
    buffer and the egress channel to the application; so do the sessions,
    through the accept channel. The events of an execution are what the two
    ends see. [FlowCorrect.v] shows that the running system refines it. *)
From stdpp Require Import base list sets.
From S2P Require Import Prelude Types Device Smoltcp Session.

(** The packets of a list for an interface, in order. *)
Definition received_on (i : InterfaceId) (pkts : list IngressPacket) : list Bytes :=
  ip_data <$> filter (λ p, ip_interface p = i) pkts.

Lemma received_on_app i l1 l2 : received_on i (l1 ++ l2) = received_on i l1 ++ received_on i l2.
Proof. unfold received_on. by rewrite filter_app, fmap_app. Qed.

Module Pipeline.

(** ** Events *)

Inductive event : Type :=
| Sent (pkt : IngressPacket)                  (* send_ip_packet returned Ok *)
| Polled (taken : list (InterfaceId * list Bytes)) (out : list EgressPacket) (new : list Session)
                                              (* a cycle, with what the engine took *)
| Delivered (pkt : EgressPacket)              (* read from the egress receiver *)
| Handed (session : Session)                  (* returned by accept *)
| Egress_dropped
| Handle_dropped.

Definition sent (evs : list event) : list IngressPacket :=
  omap (λ e, match e with Sent p => Some p | _ => None end) evs.
Definition polled_on (i : InterfaceId) (evs : list event) : list Bytes :=
  evs ≫= λ e, match e with
              | Polled taken _ _ => taken ≫= λ t, if decide (t.1 = i) then t.2 else []
              | _ => []
              end.
Definition emitted (evs : list event) : list EgressPacket :=
  evs ≫= λ e, match e with Polled _ out _ => out | _ => [] end.
Definition opened (evs : list event) : list Session :=
  evs ≫= λ e, match e with Polled _ _ new => new | _ => [] end.
Definition delivered (evs : list event) : list EgressPacket :=
  omap (λ e, match e with Delivered p => Some p | _ => None end) evs.
Definition handed (evs : list event) : list Session :=
  omap (λ e, match e with Handed x => Some x | _ => None end) evs.

Arguments sent !evs /.
Arguments polled_on i !evs /.
Arguments emitted !evs /.
Arguments opened !evs /.
Arguments delivered !evs /.
Arguments handed !evs /.

(** ** The abstract state and its steps *)

Record state : Type := mkState {
  queued : list IngressPacket;                    (* the ingress channel *)
  devices : list (InterfaceId * list Bytes);      (* the ingress queues *)
  out : list EgressPacket;                        (* produced, not yet forwarded *)
  egress : list EgressPacket;                     (* the egress channel *)
  egress_open : bool;
  new : list Session;                             (* opened, not yet forwarded *)
  accepting : list Session;                       (* the accept channel *)
  accept_open : bool;
}.

Definition feed (pkt : IngressPacket) (d : InterfaceId * list Bytes) : InterfaceId * list Bytes :=
  (d.1, d.2 ++ received_on d.1 [pkt]).

(** What the engine takes is a prefix of each queue. *)
Definition takes (d t d' : InterfaceId * list Bytes) : Prop :=
  t.1 = d.1 ∧ d'.1 = d.1 ∧ d.2 = t.2 ++ d'.2.

Inductive step : state → list event → state → Prop :=
| step_idle p : step p [] p
| step_send pkt q d o e eo n a ao :
    ip_interface pkt ∈ d.*1 →
    step (mkState q d o e eo n a ao) [Sent pkt] (mkState (q ++ [pkt]) d o e eo n a ao)
| step_feed pkt q d o e eo n a ao :
    step (mkState (pkt :: q) d o e eo n a ao) [] (mkState q (feed pkt <$> d) o e eo n a ao)
| step_poll q d taken d' o' n' e eo n a ao :
    Forall3 takes d taken d' → (eo = true → n = []) →
    step (mkState q d [] e eo n a ao) [Polled taken o' n'] (mkState q d' o' e eo n' a ao)
| step_forward pkt q d o e n a ao :
    step (mkState q d (pkt :: o) e true n a ao) [] (mkState q d o (e ++ [pkt]) true n a ao)
| step_lose q d o e n a ao :
    step (mkState q d o e false n a ao) [] (mkState q d [] e false n a ao)
| step_offer x q d e eo n a :
    step (mkState q d [] e eo (x :: n) a true) [] (mkState q d [] e eo n (a ++ [x]) true)
| step_refuse x q d e eo n a :
    step (mkState q d [] e eo (x :: n) a false) [] (mkState q d [] e eo n a false)
| step_deliver pkt q d o e eo n a ao :
    step (mkState q d o (pkt :: e) eo n a ao) [Delivered pkt] (mkState q d o e eo n a ao)
| step_hand x q d o e eo n a ao :
    step (mkState q d o e eo n (x :: a) ao) [Handed x] (mkState q d o e eo n a ao)
| step_drop_egress q d o e eo n a ao :
    step (mkState q d o e eo n a ao) [Egress_dropped] (mkState q d o [] false n a ao)
| step_drop_handle q d o e eo n a ao :
    step (mkState q d o e eo n a ao) [Handle_dropped] (mkState q d o e eo n [] false)
| step_stop d e eo n a :
    step (mkState [] d [] e eo n a false) [] (mkState [] d [] e eo [] a false).

(** Executions from a stack with the interfaces [ids] and nothing in it. *)
Definition start (ids : list InterfaceId) : state :=
  mkState [] ((λ i, (i, [])) <$> ids) [] [] true [] [] true.

Inductive exec (ids : list InterfaceId) : list event → state → Prop :=
| exec_start : exec ids [] (start ids)
| exec_step evs p evs' p' : exec ids evs p → step p evs' p' → exec ids (evs ++ evs') p'.

(** ** Projections of a concatenation *)

Lemma sent_app l1 l2 : sent (l1 ++ l2) = sent l1 ++ sent l2.
Proof. apply omap_app. Qed.
Lemma delivered_app l1 l2 : delivered (l1 ++ l2) = delivered l1 ++ delivered l2.
Proof. apply omap_app. Qed.
Lemma handed_app l1 l2 : handed (l1 ++ l2) = handed l1 ++ handed l2.
Proof. apply omap_app. Qed.
Lemma polled_on_app i l1 l2 : polled_on i (l1 ++ l2) = polled_on i l1 ++ polled_on i l2.
Proof. apply bind_app. Qed.
Lemma emitted_app l1 l2 : emitted (l1 ++ l2) = emitted l1 ++ emitted l2.
Proof. apply bind_app. Qed.
Lemma opened_app l1 l2 : opened (l1 ++ l2) = opened l1 ++ opened l2.
Proof. apply bind_app. Qed.

(** Unfolds the projections of the events of a step. *)
Ltac events_simpl :=
  rewrite ?sent_app, ?delivered_app, ?handed_app, ?polled_on_app, ?emitted_app, ?opened_app;
  simpl; rewrite ?app_nil_r.

(** ** Packets that come in *)

Lemma takes_ids d t d' : Forall3 takes d t d' → d'.*1 = d.*1 ∧ t.*1 = d.*1.
Proof. induction 1 as [|?????? (? & ? & ?) _ [IH1 IH2]]; rewrite ?fmap_cons; [done|]. split; f_equal; done. Qed.

Lemma exec_ids ids evs p : exec ids evs p → (devices p).*1 = ids.
Proof.
  induction 1 as [|evs p evs' p' _ IH Hs]; [simpl; rewrite <- list_fmap_compose; apply list_fmap_id|].
  rewrite <- IH. destruct Hs; simpl; try done.
  - by rewrite <- list_fmap_compose.
  - by apply takes_ids in H as [? _].
Qed.

(** What the engine took from the queue of interface [i]. *)
Lemma taken_on i (t : list (InterfaceId * list Bytes)) q :
  NoDup t.*1 → (i, q) ∈ t → (t ≫= λ x, if decide (x.1 = i) then x.2 else []) = q.
Proof.
  intros Hnd Hin. induction t as [|[j q'] t IH]; [by apply not_elem_of_nil in Hin|].
  rewrite bind_cons. simpl. apply NoDup_cons in Hnd as [Hj Hnd]. simpl in *.
  apply elem_of_cons in Hin as [[= <- <-]|Hin].
  - rewrite decide_True by done. rewrite <- (app_nil_r q) at 2. f_equal.
    clear IH Hnd. induction t as [|[k r] t IH]; [done|]. rewrite bind_cons. simpl in *.
    rewrite decide_False, IH by set_solver. done.
  - rewrite decide_False, IH; [done..|]. intros ->. apply Hj. by apply (list_elem_of_fmap_2 fst) in Hin.
Qed.

Record ingress_ok (evs : list event) (p : state) : Prop := {
  ids_distinct : NoDup (devices p).*1;
  ingress_conserved i q : (i, q) ∈ devices p →
    received_on i (sent evs) = polled_on i evs ++ q ++ received_on i (queued p);
}.

Lemma ingress_ok_poll evs q d taken d' o o' e eo n n' a ao :
  Forall3 takes d taken d' → ingress_ok evs (mkState q d o e eo n a ao) →
  ingress_ok (evs ++ [Polled taken o' n']) (mkState q d' o' e eo n' a ao).
Proof.
  intros Ht [Hnd Hc]. simpl in *. destruct (takes_ids _ _ _ Ht) as [H1 H2].
  constructor; simpl; [by rewrite H1|]. intros i l' Hin. apply list_elem_of_lookup in Hin as [k Hk].
  destruct (Forall3_lookup_r _ _ _ _ _ _ Ht Hk) as ([j l] & [j' l1] & Hl & Hl1 & (E1 & E2 & E3)).
  simpl in *. subst j' j l. events_simpl.
  rewrite (taken_on i taken l1), <- !app_assoc; [|by rewrite H2|by eapply list_elem_of_lookup_2].
  rewrite (Hc i (l1 ++ l')) by (by eapply list_elem_of_lookup_2). by rewrite <- app_assoc.
Qed.

Lemma step_ingress evs p evs' p' : ingress_ok evs p → step p evs' p' → ingress_ok (evs ++ evs') p'.
Proof.
  intros [Hnd Hc] Hs. destruct Hs; simpl in *;
    try (constructor; simpl; [done|]; intros i l Hin; events_simpl; by apply Hc).
  - constructor; simpl; [done|]. intros i l Hin. events_simpl.
    rewrite !received_on_app, (Hc i l Hin), <- !app_assoc. done.
  - constructor; simpl; [by rewrite <- list_fmap_compose|]. intros i l' Hin. events_simpl.
    apply list_elem_of_fmap in Hin as ([j l] & [= -> ->] & Hin). simpl.
    rewrite (Hc j l Hin), <- (app_assoc l), <- received_on_app. done.
  - by apply (ingress_ok_poll _ _ d _ _ [] _ _ _ n).
  - constructor; simpl; [done|]. intros i l Hin. rewrite app_nil_r. by rewrite (Hc i l Hin).
Qed.

(** Every packet accepted for an interface is taken by the engine, or waits in
    the queue of the interface or in the channel, once and in order. *)
Lemma exec_ingress ids evs p : NoDup ids → exec ids evs p → ingress_ok evs p.
Proof.
  intros Hnd. induction 1 as [|evs p evs' p' _ IH Hs]; [|by eapply step_ingress].
  constructor; simpl.
  - rewrite <- list_fmap_compose. simpl. by rewrite list_fmap_id.
  - intros i q (j & [= -> ->] & _)%list_elem_of_fmap. done.
Qed.

(** ** Packets that go out *)

Definition egress_ok (evs : list event) (p : state) : Prop :=
  if egress_open p then emitted evs = delivered evs ++ egress p ++ out p
  else egress p = [] ∧ delivered evs `prefix_of` emitted evs.

Lemma step_egress evs p evs' p' : egress_ok evs p → step p evs' p' → egress_ok (evs ++ evs') p'.
Proof.
  intros He Hs. unfold egress_ok in *. destruct Hs; simpl in *; try destruct eo; events_simpl; try done.
  - by rewrite He, app_nil_r, <- app_assoc.
  - destruct He as [-> [l Hl]]. split; [done|]. exists (l ++ o'). by rewrite Hl, <- app_assoc.
  - by rewrite He, <- app_assoc.
  - by rewrite He, app_nil_r.
  - by rewrite He, app_nil_r.
  - by rewrite He, <- app_assoc.
  - by destruct He.
  - split; [done|]. rewrite He. by apply prefix_app_r.
  - by destruct He.
  - by rewrite He, app_nil_r.
Qed.

(** While the egress receiver exists, what the cycles produced is what the
    application has read and what is on its way, in order; and in every case
    the application reads a prefix of what was produced. *)
Lemma exec_egress ids evs p : exec ids evs p → egress_ok evs p.
Proof. induction 1 as [|evs p evs' p' _ IH Hs]; [done|]. by eapply step_egress. Qed.

Lemma step_egress_open p evs p' :
  step p evs p' → egress_open p = true → Egress_dropped ∉ evs → egress_open p' = true.
Proof. destruct 1; simpl; try done. intros _ Hn. destruct Hn. by left. Qed.

Lemma exec_egress_open ids evs p : exec ids evs p → Egress_dropped ∉ evs → egress_open p = true.
Proof.
  induction 1 as [|evs p evs' p' _ IH Hs]; [done|]. rewrite not_elem_of_app. intros [H1 H2].
  eapply step_egress_open; eauto.
Qed.

(** ** Sessions *)

Definition sessions_ok (evs : list event) (p : state) : Prop :=
  handed evs ++ accepting p ++ new p `sublist_of` opened evs ∧
  (egress_open p = true → accept_open p = true → opened evs = handed evs ++ accepting p ++ new p).

Lemma step_sessions evs p evs' p' : sessions_ok evs p → step p evs' p' → sessions_ok (evs ++ evs') p'.
Proof.
  intros [H1 H2] Hs. unfold sessions_ok in *.
  destruct Hs; simpl in *; events_simpl; try done; (split; [|try done]).
  - rewrite app_assoc. apply sublist_app; [|done]. etrans; [|exact H1].
    rewrite app_assoc. by apply sublist_inserts_r.
  - intros -> ->. rewrite H2, H0 by done. by rewrite app_nil_r, <- app_assoc.
  - by rewrite <- app_assoc.
  - intros. rewrite H2 by done. by rewrite <- app_assoc.
  - etrans; [|exact H1]. do 2 (apply sublist_app; [done|]). by apply sublist_cons.
  - by rewrite <- app_assoc.
  - intros. rewrite H2 by done. by rewrite <- app_assoc.
  - etrans; [|exact H1]. apply sublist_app; [done|]. by apply sublist_inserts_l.
  - etrans; [|exact H1]. apply sublist_app; [done|]. by apply sublist_inserts_r.
Qed.

(** Sessions are handed over at most once, in the order in which they were
    opened, and while both receivers exist none is lost. *)
Lemma exec_sessions ids evs p : exec ids evs p → sessions_ok evs p.
Proof. induction 1 as [|evs p evs' p' _ IH Hs]; [done|]. by eapply step_sessions. Qed.

Lemma step_accept_open p evs p' :
  step p evs p' → accept_open p = true → Handle_dropped ∉ evs → accept_open p' = true.
Proof. destruct 1; simpl; try done. intros _ Hn. destruct Hn. by left. Qed.

Lemma exec_accept_open ids evs p : exec ids evs p → Handle_dropped ∉ evs → accept_open p = true.
Proof.
  induction 1 as [|evs p evs' p' _ IH Hs]; [done|]. rewrite not_elem_of_app. intros [H1 H2].
  eapply step_accept_open; eauto.
Qed.
End Pipeline.
