(* ===== verification/Invariant.v ===== *)
(** * The state invariant

    What holds of [Shared] and of the session objects outside of it whenever
    the lock is free: interface identifiers are distinct and carry the
    configuration; every handle in the tables denotes a live socket of the
    right kind that no other entry denotes; the reference counts of the shared
    UDP sockets are exact; queues are open exactly while their session is
    registered; the buffer budget is exact and within its cap; every session
    object still has what its methods need. *)
From stdpp Require Import base list gmap.
From S2P Require Import Prelude Types Device Smoltcp Config Manager Core Session.

Local Open Scope Z_scope.

(** ** Socket kinds seen from the tables *)

Abbreviation Kinds := (InterfaceId → SocketHandle → option SocketKind) (only parsing).

Definition kinds_upd (k : Kinds) (i : InterfaceId) (h : SocketHandle) (v : option SocketKind) : Kinds :=
  λ i' h', if decide (i' = i ∧ h' = h) then v else k i' h'.

Definition kinds_eq : relation Kinds :=
  pointwise_relation _ (pointwise_relation _ eq).

Lemma kinds_upd_eq k i h v : kinds_upd k i h v i h = v.
Proof. unfold kinds_upd. by rewrite decide_True. Qed.

Lemma kinds_upd_ne k i h v i' h' :
  ¬ (i' = i ∧ h' = h) → kinds_upd k i h v i' h' = k i' h'.
Proof. intros Hne. unfold kinds_upd. by rewrite decide_False. Qed.

(** ** The tables *)

Record mgr_ok (kinds : Kinds) (m : SessionManager) : Prop := {
  mgr_tcp k e : tcp m !! k = Some e →
    proto k = Proto_Tcp ∧ kinds (interface k) (handle e) = Some Kind_Tcp ∧
    (orphaned e = true → state e ≠ TcpState_Pending);
  mgr_tcp_inj k1 k2 e1 e2 : tcp m !! k1 = Some e1 → tcp m !! k2 = Some e2 →
    interface k1 = interface k2 → handle e1 = handle e2 → k1 = k2;
  mgr_dst i d h c : udp_dst_sockets m !! (i, d) = Some (h, c) → kinds i h = Some Kind_Udp;
  mgr_dst_inj i d1 d2 h c1 c2 :
    udp_dst_sockets m !! (i, d1) = Some (h, c1) →
    udp_dst_sockets m !! (i, d2) = Some (h, c2) → d1 = d2;
  mgr_udp k e : udp m !! k = Some e → proto k = Proto_Udp;
  mgr_refs : refs_ok m;
}.

#[global] Instance mgr_ok_proper : Proper (kinds_eq ==> eq ==> iff) mgr_ok.
Proof.
  assert (∀ k k' m, kinds_eq k k' → mgr_ok k m → mgr_ok k' m) as Himp.
  { intros k k' m Hk [H1 H2 H3 H4 H5 H6]. constructor; [|exact H2| |exact H4|exact H5|exact H6].
    - intros key e Hl. rewrite <- (Hk _ _). by apply H1.
    - intros i d h c Hl. rewrite <- (Hk _ _). by eapply H3. }
  intros k k' Hk m _ <-. split; apply Himp; [done|]. intros i h. symmetry. apply Hk.
Qed.

Lemma mgr_ok_default kinds : mgr_ok kinds SessionManager_default.
Proof. by constructor. Qed.

(** A handle that some entry denotes is not that of another one, so what
    happens at a handle that no entry denotes is invisible. *)
Lemma mgr_ok_fresh kinds m i h v :
  mgr_ok kinds m → kinds i h = None → mgr_ok (kinds_upd kinds i h v) m.
Proof.
  intros [H1 H2 H3 H4 H5 H6] Hn. constructor; [|done| |done..].
  - intros k e Hl. rewrite kinds_upd_ne; [by apply H1|].
    intros [<- <-]. apply H1 in Hl as (_ & Hl & _). congruence.
  - intros i' d h' c Hl. rewrite kinds_upd_ne; [by eapply H3|].
    intros [<- <-]. apply H3 in Hl. congruence.
Qed.

Lemma mgr_ok_enter_tcp kinds m k h :
  mgr_ok kinds m → tcp m !! k = None → kinds (interface k) h = None → proto k = Proto_Tcp →
  mgr_ok (kinds_upd kinds (interface k) h (Some Kind_Tcp))
    (set_tcp (<[k := {| handle := h; state := TcpState_Pending; orphaned := false |}]> (tcp m)) m).
Proof.
  intros Hok Hk Hn Hp. pose proof (mgr_ok_fresh _ _ _ _ (Some Kind_Tcp) Hok Hn) as [H1 H2 H3 H4 H5 H6].
  assert (∀ k' e, tcp m !! k' = Some e → interface k' = interface k → handle e ≠ h) as Hfresh.
  { intros k' e Hl Hi <-. apply (mgr_tcp _ _ Hok) in Hl as (_ & Hl & _). congruence. }
  constructor; simpl; [| |done..|by destruct H6; constructor].
  - intros k' e Hl. destruct (decide (k = k')) as [<-|Hne].
    + rewrite lookup_insert_eq in Hl. injection Hl as <-. by rewrite kinds_upd_eq.
    + rewrite lookup_insert_ne in Hl by done. by apply H1.
  - intros k1 k2 e1 e2 Hl1 Hl2 Hi Hh. apply lookup_insert_Some in Hl1, Hl2.
    destruct Hl1 as [[<- <-]|[Hne1 Hl1]], Hl2 as [[<- <-]|[Hne2 Hl2]]; simpl in *.
    + done.
    + exfalso. by eapply Hfresh.
    + exfalso. by eapply Hfresh.
    + by eapply H2.
Qed.

Lemma mgr_ok_leave_tcp kinds m k e :
  mgr_ok kinds m → tcp m !! k = Some e →
  mgr_ok (kinds_upd kinds (interface k) (handle e) None) (set_tcp (delete k (tcp m)) m).
Proof.
  intros [H1 H2 H3 H4 H5 H6] Hk. constructor; simpl; [| | |done..|by destruct H6; constructor].
  - intros k' e' [Hne Hl]%lookup_delete_Some. rewrite kinds_upd_ne; [by apply H1|].
    intros [Hi Hh]. apply Hne. by eapply H2.
  - intros k1 k2 e1 e2 [_ Hl1]%lookup_delete_Some [_ Hl2]%lookup_delete_Some. by eapply H2.
  - intros i d h c Hl. rewrite kinds_upd_ne; [by eapply H3|]. intros [-> ->].
    apply H3 in Hl. apply H1 in Hk as (_ & Hk & _). congruence.
Qed.

Lemma mgr_ok_update_tcp kinds m k e e' :
  mgr_ok kinds m → tcp m !! k = Some e → handle e' = handle e →
  (orphaned e' = true → state e' ≠ TcpState_Pending) →
  mgr_ok kinds (set_tcp (<[k := e']> (tcp m)) m).
Proof.
  intros [H1 H2 H3 H4 H5 H6] Hk Hh Ho.
  assert (∀ k' x, <[k:=e']> (tcp m) !! k' = Some x →
    ∃ x', tcp m !! k' = Some x' ∧ handle x = handle x' ∧
      (orphaned x = true → state x ≠ TcpState_Pending)) as Hl.
  { intros k' x [[<- <-]|[Hne Hl]]%lookup_insert_Some; [by eauto|].
    exists x. split_and!; [done..|]. by apply H1 in Hl as (_ & _ & ?). }
  constructor; simpl; [| |done..|by destruct H6; constructor].
  - intros k' x (x' & Hx' & -> & ?)%Hl. apply H1 in Hx' as (? & ? & _). done.
  - intros k1 k2 x1 x2 (y1 & Hy1 & Hh1 & _)%Hl (y2 & Hy2 & Hh2 & _)%Hl Hi He.
    eapply H2; [done..|]. congruence.
Qed.

Lemma mgr_ok_enter_udp kinds m k e c :
  mgr_ok kinds m → udp m !! k = None → proto k = Proto_Udp →
  match udp_dst_sockets m !! (interface k, dst k) with
  | Some (h, c0) => socket e = h ∧ c = c0 + 1
  | None => c = 1 ∧ kinds (interface k) (socket e) = None
  end →
  mgr_ok (kinds_upd kinds (interface k) (socket e) (Some Kind_Udp))
    (set_udp (<[k := e]> (udp m))
      (set_udp_dst_sockets (<[(interface k, dst k) := (socket e, c)]> (udp_dst_sockets m)) m)).
Proof.
  intros Hok Hk Hp Hc.
  assert (mgr_ok (kinds_upd kinds (interface k) (socket e) (Some Kind_Udp)) m) as [H1 H2 H3 H4 H5 H6].
  { destruct (udp_dst_sockets m !! _) as [[h c0]|] eqn:Ed.
    - destruct Hc as [<- ->]. apply (mgr_dst _ _ Hok) in Ed.
      revert Hok. apply mgr_ok_proper; [|done]. intros i h.
      unfold kinds_upd. case_decide as Hih; [|done]. by destruct Hih as [-> ->].
    - destruct Hc as [_ Hn]. by apply mgr_ok_fresh. }
  constructor; simpl; [done|done| | | |].
  - intros i d h c' [[[= <- <-] [= <- <-]]|[Hne Hl]]%lookup_insert_Some.
    + by rewrite kinds_upd_eq.
    + by eapply H3.
  - intros i d1 d2 h c1 c2 Hl1 Hl2. apply lookup_insert_Some in Hl1, Hl2.
    assert (∀ d c', udp_dst_sockets m !! (interface k, d) = Some (socket e, c') → d = dst k) as Hd.
    { intros d c' Hl. destruct (udp_dst_sockets m !! (interface k, dst k)) as [[h0 c0]|] eqn:Ed.
      - destruct Hc as [<- _]. by eapply (mgr_dst_inj _ _ Hok).
      - destruct Hc as [_ Hn]. apply (mgr_dst _ _ Hok) in Hl. congruence. }
    destruct Hl1 as [[[= <- <-] [= <- <-]]|[Hne1 Hl1]], Hl2 as [[[= <-] [= <-]]|[Hne2 Hl2]].
    + done.
    + symmetry. by eapply Hd.
    + subst. by eapply Hd.
    + by eapply H4.
  - intros k' e' [[<- <-]|[Hne Hl]]%lookup_insert_Some; [done|]. by eapply H5.
  - apply refs_ok_enter; [done..|]. destruct (udp_dst_sockets m !! _) as [[h c0]|]; [done|].
    by destruct Hc.
Qed.

Lemma mgr_ok_leave_udp kinds m k e c :
  mgr_ok kinds m → udp m !! k = Some e →
  udp_dst_sockets m !! (interface k, dst k) = Some (socket e, c) →
  mgr_ok (if bool_decide (c = 1) then kinds_upd kinds (interface k) (socket e) None else kinds)
    (set_udp_dst_sockets
       (if bool_decide (c = 1) then delete (interface k, dst k) (udp_dst_sockets m)
        else <[(interface k, dst k) := (socket e, c - 1)]> (udp_dst_sockets m))
       (set_udp (delete k (udp m)) m)).
Proof.
  intros Hok Hk Hd. pose proof Hok as [H1 H2 H3 H4 H5 H6].
  pose proof (refs_ok_leave m k e _ _ H6 Hk Hd) as Hrefs.
  assert (∀ k' e', delete k (udp m) !! k' = Some e' → proto k' = Proto_Udp) as H5'.
  { intros k' e' [_ Hl]%lookup_delete_Some. by eapply H5. }
  case_bool_decide as Hc; (constructor; simpl; [| done | | | done | done]).
  - intros k' e' Hl. rewrite kinds_upd_ne; [by apply H1|]. intros [Hi Hh].
    apply H1 in Hl as (_ & Hl & _). rewrite Hi, Hh in Hl. apply H3 in Hd. congruence.
  - intros i d h c' [Hne Hl]%lookup_delete_Some. rewrite kinds_upd_ne; [by eapply H3|].
    intros [-> ->]. apply Hne. f_equal. by eapply H4.
  - intros i d1 d2 h c1 c2 [_ Hl1]%lookup_delete_Some [_ Hl2]%lookup_delete_Some. by eapply H4.
  - done.
  - intros i d h c' [[[= <- <-] [= <- <-]]|[Hne Hl]]%lookup_insert_Some; by eapply H3.
  - intros i d1 d2 h c1 c2 Hl1 Hl2. apply lookup_insert_Some in Hl1, Hl2.
    destruct Hl1 as [[[= <- <-] [= <- <-]]|[Hne1 Hl1]], Hl2 as [[[= <-] [= <-]]|[Hne2 Hl2]];
      subst; try done; by eapply H4.
Qed.

Lemma mgr_ok_touch_udp kinds m k e e' :
  mgr_ok kinds m → udp m !! k = Some e → socket e' = socket e →
  mgr_ok kinds (set_udp (<[k := e']> (udp m)) m).
Proof.
  intros [H1 H2 H3 H4 H5 H6] Hk Hs. constructor; simpl; [done..| |by eapply refs_ok_touch].
  intros k' x [[<- <-]|[Hne Hl]]%lookup_insert_Some; [by eapply H5|by eapply H5].
Qed.

(** ** Receive queues *)
Section queues.
Context `{K : Tokio}.

Record queues_ok (qs : gmap QueueId UdpQueue) (next : QueueId) (u : gmap SessionKey UdpEntry) : Prop := {
  queues_bound q uq : qs !! q = Some uq → (q < next)%nat;
  queues_open k e : u !! k = Some e → ∃ uq, qs !! queue e = Some uq ∧ closed uq = false;
  queues_inj k1 k2 e1 e2 : u !! k1 = Some e1 → u !! k2 = Some e2 → queue e1 = queue e2 → k1 = k2;
}.

Lemma queues_ok_empty : queues_ok ∅ 0 ∅.
Proof. by constructor. Qed.

Lemma queues_ok_old qs next u k e : queues_ok qs next u → u !! k = Some e → queue e ≠ next.
Proof.
  intros [H1 H2 _] Hk. apply H2 in Hk as (uq & Hq & _). apply H1 in Hq. lia.
Qed.

Lemma queues_ok_enter qs next u k e :
  queues_ok qs next u → u !! k = None → queue e = next →
  queues_ok (<[next := UdpQueue_new]> qs) (S next) (<[k := e]> u).
Proof.
  intros Hok Hk He. pose proof Hok as [H1 H2 H3]. constructor.
  - intros q uq [[<- _]|[_ Hq%H1]]%lookup_insert_Some; lia.
  - intros k' e' [[<- <-]|[Hne Hl]]%lookup_insert_Some.
    + rewrite He, lookup_insert_eq. by eexists.
    + rewrite lookup_insert_ne; [by eapply H2|]. intros Heq. by eapply queues_ok_old.
  - intros k1 k2 e1 e2 [[<- <-]|[Hne1 Hl1]]%lookup_insert_Some
      [[<- <-]|[Hne2 Hl2]]%lookup_insert_Some Hq; [done| | |by eapply H3];
      exfalso; eapply queues_ok_old; eauto; congruence.
Qed.

Lemma queues_ok_leave qs next u k e uq uq' :
  queues_ok qs next u → u !! k = Some e → qs !! queue e = Some uq →
  queues_ok (<[queue e := uq']> qs) next (delete k u).
Proof.
  intros [H1 H2 H3] Hk Hq. constructor.
  - intros q x [[<- _]|[_ Hx%H1]]%lookup_insert_Some; [by eapply H1|done].
  - intros k' e' [Hne Hl]%lookup_delete_Some. rewrite lookup_insert_ne; [by eapply H2|].
    intros Heq. apply Hne. by eapply H3.
  - intros k1 k2 e1 e2 [_ Hl1]%lookup_delete_Some [_ Hl2]%lookup_delete_Some. by eapply H3.
Qed.

Lemma queues_ok_update qs next u q uq uq' :
  queues_ok qs next u → qs !! q = Some uq → closed uq' = closed uq →
  queues_ok (<[q := uq']> qs) next u.
Proof.
  intros [H1 H2 H3] Hq Hc. constructor; [| |done].
  - intros q' x [[<- _]|[_ Hx%H1]]%lookup_insert_Some; [by eapply H1|done].
  - intros k e Hk. apply H2 in Hk as (x & Hx & Hcx).
    destruct (decide (q = queue e)) as [->|Hne].
    + rewrite lookup_insert_eq. eexists. split; [done|]. congruence.
    + rewrite lookup_insert_ne by done. by eexists.
Qed.

Lemma queues_ok_touch qs next u k e e' :
  queues_ok qs next u → u !! k = Some e → queue e' = queue e →
  queues_ok qs next (<[k := e']> u).
Proof.
  intros [H1 H2 H3] Hk Hq.
  assert (∀ k' x, <[k:=e']> u !! k' = Some x → ∃ y, u !! k' = Some y ∧ queue x = queue y) as Hl.
  { intros k' x [[<- <-]|[Hne Hl]]%lookup_insert_Some; by eauto. }
  constructor; [done| |].
  - intros k' x (y & Hy & ->)%Hl. by eapply H2.
  - intros k1 k2 x1 x2 (y1 & Hy1 & ->)%Hl (y2 & Hy2 & ->)%Hl. by eapply H3.
Qed.

(** ** Session objects *)

(** [live] lists the session objects that exist outside of [Shared]: in the
    hands of the application, in the accept channel, or in the runner's
    scratch buffer. *)
Definition session_tcp_key (s : Session) : option SessionKey :=
  match s with Session_Tcp t => Some (ts_key t) | Session_Udp _ => None end.

(** A TCP stream owns its entry: same handle, not orphaned, past the
    handshake. *)
Definition tcp_stream_ok (m : SessionManager) (t : WayTcpStream) : Prop :=
  ts_interface t = interface (ts_key t) ∧
  ∃ e, tcp m !! ts_key t = Some e ∧ handle e = ts_handle t ∧
    orphaned e = false ∧ state e ≠ TcpState_Pending.

(** A UDP session has its queue, and while the queue is open it has its entry
    and thus its socket. *)
Definition udp_session_ok (qs : gmap QueueId UdpQueue) (m : SessionManager) (u : WayUdpSession) : Prop :=
  us_interface u = interface (us_key u) ∧
  ∃ uq, qs !! us_queue u = Some uq ∧
    (closed uq = false →
       ∃ e, udp m !! us_key u = Some e ∧ queue e = us_queue u ∧ socket e = us_socket u).

Record live_ok (qs : gmap QueueId UdpQueue) (m : SessionManager) (live : list Session) : Prop := {
  live_tcp t : Session_Tcp t ∈ live → tcp_stream_ok m t;
  live_tcp_NoDup : NoDup (omap session_tcp_key live);
  live_udp u : Session_Udp u ∈ live → udp_session_ok qs m u;
}.

Lemma live_ok_nil qs m : live_ok qs m [].
Proof.
  constructor; simpl; [by intros ? ?%not_elem_of_nil|constructor|by intros ? ?%not_elem_of_nil].
Qed.

Lemma elem_of_session_keys t (live : list Session) :
  Session_Tcp t ∈ live → ts_key t ∈ omap session_tcp_key live.
Proof. intros Hin. apply list_elem_of_omap. by eexists. Qed.

(** Changes to the tables that leave the entries of the live objects alone. *)
Lemma live_ok_mono qs qs' m m' live :
  live_ok qs m live →
  (∀ t, tcp_stream_ok m t → tcp_stream_ok m' t) →
  (∀ u, udp_session_ok qs m u → udp_session_ok qs' m' u) →
  live_ok qs' m' live.
Proof. intros [H1 H2 H3] Ht Hu. constructor; auto. Qed.

Lemma live_ok_insert_tcp qs m live k e e' :
  live_ok qs m live →
  match tcp m !! k with
  | Some e0 => e0 = e ∧ handle e' = handle e ∧ orphaned e' = orphaned e ∧
      (state e ≠ TcpState_Pending → state e' ≠ TcpState_Pending)
  | None => True
  end →
  live_ok qs (set_tcp (<[k := e']> (tcp m)) m) live.
Proof.
  intros Hok Hk. eapply live_ok_mono; [done| |done].
  intros t (Hi & x & Hx & Hh & Ho & Hs). split; [done|]. simpl.
  destruct (decide (k = ts_key t)) as [->|Hne].
  - rewrite Hx in Hk. destruct Hk as (-> & Hh' & Ho' & Hs').
    rewrite lookup_insert_eq. exists e'. split_and!; [done|congruence..|auto].
  - rewrite lookup_insert_ne by done. by exists x.
Qed.

Lemma live_ok_leave_tcp qs m live k e :
  live_ok qs m live → tcp m !! k = Some e → orphaned e = true →
  live_ok qs (set_tcp (delete k (tcp m)) m) live.
Proof.
  intros Hok Hk Ho. eapply live_ok_mono; [done| |done].
  intros t (Hi & x & Hx & Hh & Ho' & Hs). split; [done|]. simpl. exists x.
  rewrite lookup_delete_ne; [done|]. intros ->. congruence.
Qed.

Lemma live_ok_accept_tcp qs m live k e t :
  live_ok qs m live → tcp m !! k = Some e → state e = TcpState_Pending → orphaned e = false →
  ts_interface t = interface k → ts_key t = k → ts_handle t = handle e →
  live_ok qs (set_tcp (<[k := {| handle := handle e; state := TcpState_Established;
                                 orphaned := orphaned e |}]> (tcp m)) m) (live ++ [Session_Tcp t]).
Proof.
  intros Hok Hk Hs Ho Hi <- Hh.
  assert (ts_key t ∉ omap session_tcp_key live) as Hnew.
  { intros ([t'|] & Hin & [= Ht'])%list_elem_of_omap.
    destruct (live_tcp _ _ _ Hok t' Hin) as (_ & x & Hx & _ & _ & Hs'). congruence. }
  destruct (live_ok_insert_tcp qs m live (ts_key t) e
    {| handle := handle e; state := TcpState_Established; orphaned := orphaned e |}) as [H1 H2 H3];
    [done|by rewrite Hk|].
  constructor.
  - intros t' [Hin|[= ->]%list_elem_of_singleton]%elem_of_app; [by apply H1|].
    split; [done|]. simpl. rewrite lookup_insert_eq. by eexists.
  - rewrite omap_app. apply NoDup_app. split_and!; [done| |apply NoDup_singleton].
    simpl. by intros k Hin ->%list_elem_of_singleton.
  - intros u [Hin|[=]%list_elem_of_singleton]%elem_of_app. by apply H3.
Qed.

(** Dropping an object. *)
Lemma live_ok_sublist qs m live live' :
  live_ok qs m live → live' `sublist_of` live → live_ok qs m live'.
Proof.
  intros [H1 H2 H3] Hsub.
  assert (∀ x, x ∈ live' → x ∈ live) as Hin by (intros x Hx; by eapply elem_of_sublist).
  constructor; [by auto| |by auto].
  eapply sublist_NoDup; [done|]. clear -Hsub. induction Hsub; simpl; [done|..].
  - destruct (session_tcp_key x); [by apply sublist_skip|done].
  - destruct (session_tcp_key x); [by apply sublist_cons|done].
Qed.

Lemma live_ok_drop_tcp qs m l1 t l2 e :
  live_ok qs m (l1 ++ Session_Tcp t :: l2) → tcp m !! ts_key t = Some e →
  live_ok qs (set_tcp (<[ts_key t := {| handle := handle e; state := state e; orphaned := true |}]> (tcp m)) m)
    (l1 ++ l2).
Proof.
  intros Hok Hk.
  assert (live_ok qs m (l1 ++ l2)) as [H1 H2 H3].
  { eapply live_ok_sublist; [done|]. apply sublist_app; [done|]. by apply sublist_cons. }
  assert (∀ t', Session_Tcp t' ∈ l1 ++ l2 → ts_key t ≠ ts_key t') as Hne.
  { intros t' Hin Heq. pose proof (live_tcp_NoDup _ _ _ Hok) as Hnd.
    rewrite omap_app in Hnd. simpl in Hnd.
    rewrite <- Permutation_middle in Hnd. apply NoDup_cons in Hnd as [Hnd _].
    apply Hnd. rewrite Heq, <- omap_app. by apply elem_of_session_keys. }
  constructor; [|done|done].
  intros t' Hin. pose proof (Hne t' Hin). apply H1 in Hin as (Hi & x & Hx & ? & ? & ?).
  split; [done|]. simpl. rewrite lookup_insert_ne by done. by exists x.
Qed.

Lemma live_ok_enter_udp qs next m m' live k e :
  live_ok qs m live → queues_ok qs next (udp m) → udp m !! k = None → queue e = next →
  tcp m' = tcp m → udp m' = <[k := e]> (udp m) →
  live_ok (<[next := UdpQueue_new]> qs) m' live ∧
  ∀ u, us_interface u = interface k → us_key u = k → us_queue u = next → us_socket u = socket e →
    live_ok (<[next := UdpQueue_new]> qs) m' (live ++ [Session_Udp u]).
Proof.
  intros Hok Hq Hk He Ht Hu.
  assert (live_ok (<[next := UdpQueue_new]> qs) m' live) as Hok'.
  { eapply live_ok_mono; [done|intros t; unfold tcp_stream_ok; by rewrite Ht|].
    intros u (Hi & uq & Huq & Hopen). split; [done|]. exists uq. split.
    - rewrite lookup_insert_ne; [done|]. intros Heq. apply (queues_bound _ _ _ Hq) in Huq. lia.
    - intros Hc. apply Hopen in Hc as (x & Hx & Hxq & Hxs). exists x. split_and!; [|done..].
      rewrite Hu, lookup_insert_ne; [done|]. intros ->. congruence. }
  split; [done|]. intros u Hi Huk Huq Hus. destruct Hok' as [H1 H2 H3]. constructor.
  - intros t [Hin|[=]%list_elem_of_singleton]%elem_of_app. by apply H1.
  - rewrite omap_app. simpl. by rewrite app_nil_r.
  - intros u' [Hin|[= ->]%list_elem_of_singleton]%elem_of_app; [by apply H3|].
    split; [congruence|]. rewrite Huq, lookup_insert_eq. eexists. split; [done|]. intros _.
    rewrite Huk, Hu, lookup_insert_eq. eexists. split_and!; [done|congruence..].
Qed.

Lemma live_ok_leave_udp qs next m m' live k e uq' :
  live_ok qs m live → queues_ok qs next (udp m) → udp m !! k = Some e → closed uq' = true →
  tcp m' = tcp m → udp m' = delete k (udp m) →
  live_ok (<[queue e := uq']> qs) m' live.
Proof.
  intros Hok Hq Hk Hc Ht Hu. eapply live_ok_mono; [done|intros t; unfold tcp_stream_ok; by rewrite Ht|].
  intros u (Hi & uq & Huq & Hopen). split; [done|].
  destruct (decide (queue e = us_queue u)) as [Heq|Hne].
  - rewrite Heq, lookup_insert_eq. eexists. split; [done|]. congruence.
  - rewrite lookup_insert_ne by done. exists uq. split; [done|]. intros Hcu.
    apply Hopen in Hcu as (x & Hx & Hxq & Hxs). exists x. split_and!; [|done..].
    rewrite Hu, lookup_delete_ne; [done|]. intros ->. congruence.
Qed.

Lemma live_ok_queue qs m live q uq uq' :
  live_ok qs m live → qs !! q = Some uq → closed uq' = closed uq →
  live_ok (<[q := uq']> qs) m live.
Proof.
  intros Hok Hq Hc. eapply live_ok_mono; [done..|].
  intros u (Hi & x & Hx & Hopen). split; [done|].
  destruct (decide (q = us_queue u)) as [->|Hne].
  - rewrite lookup_insert_eq. eexists. split; [done|]. rewrite Hq in Hx. injection Hx as <-.
    by rewrite Hc.
  - rewrite lookup_insert_ne by done. by exists x.
Qed.

Lemma live_ok_touch_udp qs m live k e e' :
  live_ok qs m live → udp m !! k = Some e → socket e' = socket e → queue e' = queue e →
  live_ok qs (set_udp (<[k := e']> (udp m)) m) live.
Proof.
  intros Hok Hk Hs Hq. eapply live_ok_mono; [done..|].
  intros u (Hi & x & Hx & Hopen). split; [done|]. exists x. split; [done|].
  intros Hc. apply Hopen in Hc as (y & Hy & Hyq & Hys). simpl.
  destruct (decide (k = us_key u)) as [->|Hne].
  - rewrite lookup_insert_eq. exists e'. rewrite Hk in Hy. injection Hy as <-.
    split_and!; [done|congruence..].
  - rewrite lookup_insert_ne by done. by exists y.
Qed.
End queues.

(** ** The invariant *)
Section Inv.
Context `{T : Target, E : Engine, K : Tokio}.

Definition kind_of (l : list InterfaceSlot) : Kinds := λ i h, socket_kind <$> sock_of l i h.

Record slot_ok (cfg : NetstackConfig) (sl : InterfaceSlot) : Prop := {
  slot_mtu : mtu sl = cfg_mtu cfg;
  slot_buffer : tcp_buffer_size sl = cfg_tcp_buffer_size cfg;
  slot_pool_max : tcp_pool_max sl = cfg_tcp_pool_size cfg;
  slot_pool : Z.of_nat (length (tcp_pool sl)) ≤ cfg_tcp_pool_size cfg;
  slot_pool_closed : Forall (λ sk, tcp_is_open sk = false) (tcp_pool sl);
}.

Record slots_ok (cfg : NetstackConfig) (l : list InterfaceSlot) : Prop := {
  slots_ids : NoDup (id <$> l);
  slots_cfg : Forall (slot_ok cfg) l;
}.

(** The bytes that the registered sockets are charged. *)
Definition charged (cfg : NetstackConfig) (m : SessionManager) : Z :=
  tcp_socket_cost cfg * Z.of_nat (size (tcp m)) +
  udp_socket_cost cfg * Z.of_nat (size (udp_dst_sockets m)).

(** [extra] is the budget of sockets that are already gone but whose bytes
    the post-pass gives back only at its end; it is zero between critical
    sections. *)
Record Inv (extra : Z) (live : list Session) (s : Shared) : Prop := {
  inv_sane : sane_config (core_config (core s));
  inv_slots : slots_ok (core_config (core s)) (slots (core s));
  inv_mgr : mgr_ok (kind_of (slots (core s))) (manager (core s));
  inv_queues : queues_ok (queues s) (next_queue s) (udp (manager (core s)));
  inv_live : live_ok (queues s) (manager (core s)) live;
  inv_extra : 0 ≤ extra;
  inv_budget : buffer_bytes (core s) = charged (core_config (core s)) (manager (core s)) + extra;
  inv_tcp_max : Z.of_nat (size (tcp (manager (core s)))) ≤ cfg_tcp_max_connections (core_config (core s));
  inv_udp_max : Z.of_nat (size (udp (manager (core s)))) ≤ cfg_udp_max_sessions (core_config (core s));
  inv_limit : within (cfg_max_buffer_bytes (core_config (core s))) (buffer_bytes (core s)) = true;
  inv_bytes : buffer_bytes (core s) ≤ usize_max;
}.

(** *** Slots *)

Lemma slots_ok_lookup cfg l n sl : slots_ok cfg l → l !! n = Some sl → slot_ok cfg sl.
Proof. intros [_ HF] Hn. by eapply Forall_lookup_1. Qed.

Lemma slots_ok_insert cfg l n sl sl' :
  slots_ok cfg l → l !! n = Some sl → id sl' = id sl → slot_ok cfg sl' →
  slots_ok cfg (<[n := sl']> l).
Proof.
  intros [Hnd HF] Hn Hid Hok. constructor.
  - by rewrite (ids_insert l n sl).
  - by apply Forall_insert.
Qed.

Lemma slot_ok_ext cfg sl sl' :
  slot_ok cfg sl → mtu sl' = mtu sl → tcp_buffer_size sl' = tcp_buffer_size sl →
  tcp_pool_max sl' = tcp_pool_max sl → tcp_pool sl' `sublist_of` tcp_pool sl →
  slot_ok cfg sl'.
Proof.
  intros [H1 H2 H3 H4 H5] ??? Hsub. constructor; [congruence..| |].
  - apply sublist_length in Hsub. lia.
  - rewrite Forall_forall in *. intros sk Hsk. by apply H5, (elem_of_sublist (tcp_pool sl')).
Qed.

Lemma kind_of_insert (l : list InterfaceSlot) (n : nat) sl sl' i h :
  NoDup (id <$> l) → l !! n = Some sl → id sl' = id sl →
  kind_of (<[n := sl']> l) i h =
    if decide (i = id sl) then socket_kind <$> socket_get (sockets sl') h else kind_of l i h.
Proof.
  intros Hnd Hn Hid. unfold kind_of. rewrite (sock_of_insert l n sl) by done. by case_decide.
Qed.

Lemma kind_of_slot (l : list InterfaceSlot) (n : nat) sl h :
  NoDup (id <$> l) → l !! n = Some sl →
  kind_of l (id sl) h = socket_kind <$> socket_get (sockets sl) h.
Proof. intros Hnd Hn. unfold kind_of. by rewrite (sock_of_slot l n sl). Qed.

(** Replacing a slot by one whose sockets have the same kinds. *)
Lemma kind_of_same (l : list InterfaceSlot) (n : nat) sl sl' :
  NoDup (id <$> l) → l !! n = Some sl → id sl' = id sl →
  (∀ h, socket_kind <$> socket_get (sockets sl') h = socket_kind <$> socket_get (sockets sl) h) →
  kinds_eq (kind_of (<[n := sl']> l)) (kind_of l).
Proof.
  intros Hnd Hn Hid Hk i h. rewrite (kind_of_insert l n sl) by done.
  case_decide as Hi; [|done]. subst i. by rewrite (kind_of_slot l n sl), Hk.
Qed.

Section laws.
Context `{!EngineLaws}.

Lemma kind_of_add (l : list InterfaceSlot) (n : nat) sl sk h ss sl' :
  NoDup (id <$> l) → l !! n = Some sl → socket_add (sockets sl) sk = (h, ss) →
  id sl' = id sl → sockets sl' = ss →
  kind_of l (id sl) h = None ∧
  kinds_eq (kind_of (<[n := sl']> l)) (kinds_upd (kind_of l) (id sl) h (Some (socket_kind sk))).
Proof.
  intros Hnd Hn Ha Hid Hss. split.
  - rewrite (kind_of_slot l n sl) by done. by erewrite socket_add_fresh.
  - intros i h'. rewrite (kind_of_insert l n sl) by done. unfold kinds_upd.
    rewrite Hss, (socket_get_add _ _ _ _ h' Ha). case_decide as Hi.
    + subst i. rewrite (kind_of_slot l n sl) by done. repeat case_decide; naive_solver.
    + rewrite decide_False; [done|]. naive_solver.
Qed.

Lemma kind_of_remove (l : list InterfaceSlot) (n : nat) sl h ss sl' :
  NoDup (id <$> l) → l !! n = Some sl → id sl' = id sl → sockets sl' = ss →
  (∀ h', socket_get ss h' = if decide (h' = h) then None else socket_get (sockets sl) h') →
  kinds_eq (kind_of (<[n := sl']> l)) (kinds_upd (kind_of l) (id sl) h None).
Proof.
  intros Hnd Hn Hid Hss Hg i h'. rewrite (kind_of_insert l n sl) by done. unfold kinds_upd.
  rewrite Hss, Hg. case_decide as Hi.
  - subst i. rewrite (kind_of_slot l n sl) by done. repeat case_decide; naive_solver.
  - rewrite decide_False; [done|]. naive_solver.
Qed.

Lemma kind_of_set (l : list InterfaceSlot) (n : nat) sl h sk0 sk :
  NoDup (id <$> l) → l !! n = Some sl → socket_get (sockets sl) h = Some sk0 →
  socket_kind sk = socket_kind sk0 →
  kinds_eq (kind_of (<[n := set_sockets (socket_set (sockets sl) h sk) sl]> l)) (kind_of l).
Proof.
  intros Hnd Hn Hg Hk. apply (kind_of_same _ _ sl); [done..|]. intros h'. simpl.
  rewrite socket_get_set by (by eexists). case_decide as Hh; [|done].
  subst h'. rewrite Hg. simpl. by rewrite Hk.
Qed.
End laws.

(** A handle of a known kind: the slot, and the socket in it. *)
Lemma kind_of_Some l i h k :
  kind_of l i h = Some k →
  ∃ n sl sk, find_slot l i = Some (n, sl) ∧ l !! n = Some sl ∧ id sl = i ∧
    socket_get (sockets sl) h = Some sk ∧ socket_kind sk = k.
Proof.
  unfold kind_of, sock_of. destruct (find_slot l i) as [[n sl]|] eqn:Ef; [|done]. simpl.
  intros Hk. apply fmap_Some in Hk as (sk & Hsk & ->).
  destruct (find_slot_Some _ _ _ _ Ef) as [Hn Hid]. by exists n, sl, sk.
Qed.

Lemma kind_of_tcp l i h :
  kind_of l i h = Some Kind_Tcp →
  ∃ n sl sk, find_slot l i = Some (n, sl) ∧ l !! n = Some sl ∧ id sl = i ∧
    socket_get (sockets sl) h = Some (Socket_Tcp sk).
Proof. intros (n & sl & [sk|sk] & ? & ? & ? & ? & [=])%kind_of_Some. by exists n, sl, sk. Qed.

Lemma kind_of_udp l i h :
  kind_of l i h = Some Kind_Udp →
  ∃ n sl sk, find_slot l i = Some (n, sl) ∧ l !! n = Some sl ∧ id sl = i ∧
    socket_get (sockets sl) h = Some (Socket_Udp sk).
Proof. intros (n & sl & [sk|sk] & ? & ? & ? & ? & [=])%kind_of_Some. by exists n, sl, sk. Qed.

(** *** Frames *)

(** Changes to the slots that keep identifiers, settings and socket kinds. *)
Lemma Inv_slots extra live s l' :
  Inv extra live s → slots_ok (core_config (core s)) l' →
  kinds_eq (kind_of l') (kind_of (slots (core s))) →
  Inv extra live (set_core (set_slots l' (core s)) s).
Proof.
  intros [H1 H2 H3 H4 H5 H6 H7 H8 H9 H10 H11] Hl Hk. constructor; simpl; try done.
  revert H3. by apply mgr_ok_proper.
Qed.

(** A slot replaced in place. *)
Lemma Inv_put_slot extra live s (n : nat) sl sl' :
  Inv extra live s → slots (core s) !! n = Some sl → id sl' = id sl →
  slot_ok (core_config (core s)) sl' →
  (∀ h, socket_kind <$> socket_get (sockets sl') h = socket_kind <$> socket_get (sockets sl) h) →
  Inv extra live (set_core (set_slots (<[n := sl']> (slots (core s))) (core s)) s).
Proof.
  intros HI Hn Hid Hok Hk. pose proof (slots_ids _ _ (inv_slots _ _ _ HI)) as Hnd.
  apply Inv_slots; [done|eapply slots_ok_insert; eauto using inv_slots|].
  by apply (kind_of_same _ _ sl).
Qed.

(** Notifications. *)
Lemma Inv_notify extra live s n1 n2 :
  Inv extra live s →
  Inv extra live {| core := core s; poll_notify := n1; poll_done := n2;
                    queues := queues s; next_queue := next_queue s |}.
Proof. by intros []. Qed.

(** An update of a queue that does not close or reopen it. *)
Lemma Inv_queue extra live s q uq uq' :
  Inv extra live s → queues s !! q = Some uq → closed uq' = closed uq →
  Inv extra live (set_queues (<[q := uq']> (queues s)) s).
Proof.
  intros [] Hq Hc. constructor; simpl; try done.
  - by eapply queues_ok_update.
  - by eapply live_ok_queue.
Qed.

(** Fewer live objects. *)
Lemma Inv_sublist extra live live' s :
  Inv extra live s → live' `sublist_of` live → Inv extra live' s.
Proof. intros [] Hsub. constructor; try done. by eapply live_ok_sublist. Qed.

(** The order of the live objects does not matter. *)
#[global] Instance live_ok_Permutation : Proper (eq ==> eq ==> (≡ₚ) ==> iff) live_ok.
Proof.
  assert (∀ qs m l l', l ≡ₚ l' → live_ok qs m l → live_ok qs m l') as Himp.
  { intros qs m l l' Hp [H1 H2 H3]. constructor.
    - intros t Hin. apply H1. by rewrite Hp.
    - by rewrite <- Hp.
    - intros u Hin. apply H3. by rewrite Hp. }
  intros qs _ <- m _ <- l l' Hp. split; by apply Himp.
Qed.

#[global] Instance Inv_Permutation extra : Proper ((≡ₚ) ==> eq ==> iff) (Inv extra).
Proof.
  intros l l' Hp s _ <-. split; intros []; constructor; try done; [by rewrite <- Hp|by rewrite Hp].
Qed.

(** *** What a step leaves alone *)

(** The part of a slot that allocating and freeing sockets does not touch. *)
Definition slot_shape (sl : InterfaceSlot) : InterfaceId * VirtualDevice := (id sl, device sl).

(** The configuration, the identifiers of the slots and their devices. *)
Definition frame : relation Shared := λ s s',
  core_config (core s') = core_config (core s) ∧
  slot_shape <$> slots (core s') = slot_shape <$> slots (core s).

#[global] Instance frame_preorder : PreOrder frame.
Proof.
  split; [done|]. intros s1 s2 s3 [H1 H2] [H3 H4]. split; congruence.
Qed.

Lemma frame_slots s l' :
  slot_shape <$> l' = slot_shape <$> slots (core s) →
  frame s (set_core (set_slots l' (core s)) s).
Proof. done. Qed.

Lemma frame_lookup s s' (n : nat) sl :
  frame s s' → slots (core s) !! n = Some sl →
  ∃ sl', slots (core s') !! n = Some sl' ∧ id sl' = id sl ∧ device sl' = device sl.
Proof.
  intros [_ Hf] Hn.
  assert ((slot_shape <$> slots (core s')) !! n = Some (slot_shape sl)) as Hs.
  { by rewrite Hf, list_lookup_fmap, Hn. }
  rewrite list_lookup_fmap in Hs. apply fmap_Some in Hs as (sl' & Hn' & Hs).
  injection Hs as Hid Hd. by exists sl'.
Qed.

(** Giving back budget. *)
Lemma Inv_release extra x live s :
  Inv (extra + x) live s → 0 ≤ extra → 0 ≤ x →
  Inv extra live (set_core (set_buffer_bytes (saturating_sub (buffer_bytes (core s)) x) (core s)) s).
Proof.
  intros HI He Hx. pose proof HI as [H1 H2 H3 H4 H5 H6 H7 H8 H9 H10 H11].
  assert (0 ≤ charged (core_config (core s)) (manager (core s))).
  { unfold charged. destruct H1. unfold tcp_socket_cost, udp_socket_cost. nia. }
  rewrite saturating_sub_exact by lia. constructor; simpl; try done; [lia| |lia].
  unfold within in *. destruct (cfg_max_buffer_bytes _); [|done].
  rewrite bool_decide_eq_true in *. lia.
Qed.

(** *** Budget arithmetic *)

Lemma udp_socket_cost_pos c : sane_config c → 64 ≤ udp_socket_cost c.
Proof. intros []. unfold udp_socket_cost. lia. Qed.

Lemma tcp_socket_cost_nonneg c : sane_config c → 0 ≤ tcp_socket_cost c.
Proof. intros []. unfold tcp_socket_cost. lia. Qed.

(** With one more socket of either kind than the registered ones, the total
    still fits in a [usize]. *)
Lemma charged_bound cfg m :
  sane_config cfg → refs_ok m →
  Z.of_nat (size (tcp m)) ≤ cfg_tcp_max_connections cfg →
  Z.of_nat (size (udp m)) ≤ cfg_udp_max_sessions cfg →
  charged cfg m + tcp_socket_cost cfg + udp_socket_cost cfg ≤ usize_max.
Proof.
  intros Hs Hr Ht Hu. pose proof (refs_ok_size m Hr). pose proof (udp_socket_cost_pos _ Hs).
  pose proof (tcp_socket_cost_nonneg _ Hs). pose proof (sane_total _ Hs).
  unfold charged. nia.
Qed.

Lemma charged_nonneg cfg m : sane_config cfg → 0 ≤ charged cfg m.
Proof.
  intros Hs. pose proof (udp_socket_cost_pos _ Hs). pose proof (tcp_socket_cost_nonneg _ Hs).
  unfold charged. nia.
Qed.
End Inv.
