(* ===== verification/Streams.v ===== *)
(** * Session objects: operations

    [stream/tcp.rs] and [stream/udp.rs]. Each method locks the core for its
    whole body (or for [try_send], [pop], ...), so each definition here is one
    atomic step on [Shared]; the [.await] points of [recv] and [send] are where
    a [Poll_Pending] result is returned. *)
From stdpp Require Import base list gmap strings.
From S2P Require Import Prelude Types Device Smoltcp Config Manager Core Packet Session.

Local Open Scope Z_scope.

Inductive Poll (A : Type) : Type :=
| Poll_Ready (a : A)
| Poll_Pending.
Arguments Poll_Ready {A} a.
Arguments Poll_Pending {A}.

Inductive ErrorKind : Type := NotConnected | BrokenPipe.

Record io_Error : Type := mkIoError { error_kind : ErrorKind; error_msg : string }.

(** [tokio::io::ReadBuf]: the filled part and the capacity. *)
Record ReadBuf : Type := mkReadBuf { rb_filled : Bytes; rb_capacity : Z }.

Definition rb_remaining (b : ReadBuf) : Z := rb_capacity b - Z.of_nat (length (rb_filled b)).

Inductive SendOutcome : Type :=
| SendOutcome_Sent
| SendOutcome_Full
| SendOutcome_Failed (e : NetstackError).

Section Streams.
Context `{T : Target, W : Wire, E : Engine, K : Tokio}.

(** [buf.advance(n)] after the first [n] bytes of the unfilled part were
    written. *)
Definition rb_advance (b : ReadBuf) (data : Bytes) : M Shared ReadBuf :=
  if bool_decide (Z.of_nat (length data) ≤ rb_remaining b)
  then mret {| rb_filled := rb_filled b ++ data; rb_capacity := rb_capacity b |}
  else mpanic ReadBufOverflow.

(** Writing back a socket that was borrowed with [get_mut]. *)
Definition put_tcp_socket (i : nat) (sl : InterfaceSlot) (h : SocketHandle) (sock : TcpSocket)
    : M Shared unit :=
  put_slot i (set_sockets (socket_set (sockets sl) h (Socket_Tcp sock)) sl).

Definition put_udp_socket (i : nat) (sl : InterfaceSlot) (h : SocketHandle) (sock : UdpSocket)
    : M Shared unit :=
  put_slot i (set_sockets (socket_set (sockets sl) h (Socket_Udp sock)) sl).

(** ** WayTcpStream *)

Definition interface_gone : io_Error :=
  {| error_kind := NotConnected; error_msg := "interface is gone" |}.

Definition poll_read (this : WayTcpStream) (cx : Waker) (buf : ReadBuf)
    : M Shared (Poll (result unit io_Error) * ReadBuf) :=
  s ← mget;
  match slot_mut (core s) (ts_interface this) with
  | None => mret (Poll_Ready (Err interface_gone), buf)
  | Some (i, sl) =>
      sock ← get_tcp_socket (sockets sl) (ts_handle this);
      match tcp_recv_slice sock (rb_remaining buf) with
      | (Ok data, sock) =>
          if bool_decide (0 < Z.of_nat (length data)) then
            put_tcp_socket i sl (ts_handle this) sock;;
            buf' ← rb_advance buf data;
            mret (Poll_Ready (Ok tt), buf')
          else
            put_tcp_socket i sl (ts_handle this) (tcp_register_recv_waker sock cx);;
            notify_poll;;
            mret (Poll_Pending, buf)
      | (Err TcpRecv_Finished, sock) =>
          put_tcp_socket i sl (ts_handle this) sock;;
          mret (Poll_Ready (Ok tt), buf)
      | (Err TcpRecv_InvalidState, sock) =>
          if negb (tcp_is_open sock) then
            put_tcp_socket i sl (ts_handle this) sock;;
            mret (Poll_Ready (Ok tt), buf)
          else
            put_tcp_socket i sl (ts_handle this) (tcp_register_recv_waker sock cx);;
            notify_poll;;
            mret (Poll_Pending, buf)
      end
  end.

Definition poll_write (this : WayTcpStream) (cx : Waker) (data : Bytes)
    : M Shared (Poll (result Z io_Error)) :=
  s ← mget;
  match slot_mut (core s) (ts_interface this) with
  | None => mret (Poll_Ready (Err interface_gone))
  | Some (i, sl) =>
      sock ← get_tcp_socket (sockets sl) (ts_handle this);
      match tcp_send_slice sock data with
      | (Ok n, sock) =>
          if bool_decide (0 < n) then
            put_tcp_socket i sl (ts_handle this) sock;;
            mret (Poll_Ready (Ok n))
          else
            put_tcp_socket i sl (ts_handle this) (tcp_register_send_waker sock cx);;
            notify_poll;;
            mret Poll_Pending
      | (Err TcpSend_InvalidState, sock) =>
          if negb (tcp_is_open sock) then
            put_tcp_socket i sl (ts_handle this) sock;;
            mret (Poll_Ready (Err {| error_kind := BrokenPipe; error_msg := "connection closed" |}))
          else
            put_tcp_socket i sl (ts_handle this) (tcp_register_send_waker sock cx);;
            notify_poll;;
            mret Poll_Pending
      end
  end.

Definition poll_flush (this : WayTcpStream) (cx : Waker) : M Shared (Poll (result unit io_Error)) :=
  mret (Poll_Ready (Ok tt)).

(** The common part of [poll_shutdown] and [drop]: start a graceful close. *)
Definition close_socket (ifc : InterfaceId) (h : SocketHandle) : M Shared unit :=
  s ← mget;
  match slot_mut (core s) ifc with
  | None => mret tt
  | Some (i, sl) =>
      sock ← get_tcp_socket (sockets sl) h;
      if tcp_is_open sock then put_tcp_socket i sl h (tcp_close sock) else mret tt
  end.

Definition poll_shutdown (this : WayTcpStream) (cx : Waker) : M Shared (Poll (result unit io_Error)) :=
  close_socket (ts_interface this) (ts_handle this);;
  notify_poll;;
  mret (Poll_Ready (Ok tt)).

Definition tcp_drop (this : WayTcpStream) : M Shared unit :=
  s ← mget;
  (if bool_decide (is_Some (tcp (manager (core s)) !! ts_key this)) then
     close_socket (ts_interface this) (ts_handle this);;
     on_manager (mmodify (λ m,
       match tcp m !! ts_key this with
       | Some entry =>
           set_tcp (<[ts_key this := {| handle := handle entry; state := state entry; orphaned := true |}]> (tcp m)) m
       | None => m
       end))
   else mret tt);;
  notify_poll.

(** ** WayUdpSession *)

(** One turn of the loop of [recv] without interference; [Poll_Pending] is the
    [.await] on the queue's notification. *)
Definition recv (this : WayUdpSession) : M Shared (Poll (option Bytes)) :=
  data ← on_queue (us_queue this) pop;
  match data with
  | Some data => mret (Poll_Ready (Some data))
  | None =>
      c ← on_queue (us_queue this) is_closed;
      if (c : bool) then mret (Poll_Ready None) else mret Poll_Pending
  end.

Definition try_send (this : WayUdpSession) (payload : Bytes) (target : IpEndpoint)
    : M Shared SendOutcome :=
  c ← on_queue (us_queue this) is_closed;
  if (c : bool) then mret (SendOutcome_Failed UdpNotOpen)
  else
    s ← mget;
    match slot_mut (core s) (us_interface this) with
    | None => mret (SendOutcome_Failed (Internal "interface is gone"))
    | Some (i, sl) =>
        sock ← get_udp_socket (sockets sl) (us_socket this);
        let '(r, sock') := udp_send_slice sock payload target in
        put_udp_socket i sl (us_socket this) sock';;
        match r with
        | Ok _ => mret SendOutcome_Sent
        | Err UdpSend_BufferFull => mret SendOutcome_Full
        | Err UdpSend_Unaddressable => mret (SendOutcome_Failed UdpNotOpen)
        end
    end.

(** One turn of the loop of [send] without interference; [Poll_Pending] is the
    [.await] on [poll_done]. *)
Definition send (this : WayUdpSession) (payload : Bytes)
    : M Shared (Poll (result unit NetstackError)) :=
  let target := {| addr := addr (src (us_key this)); port := port (src (us_key this)) |} in
  outcome ← try_send this payload target;
  match outcome with
  | SendOutcome_Sent => notify_poll;; mret (Poll_Ready (Ok tt))
  | SendOutcome_Full => notify_poll;; mret Poll_Pending
  | SendOutcome_Failed e => mret (Poll_Ready (Err e))
  end.

(** *** The two loops, one atomic step at a time

    [recv] and [send] hold no lock across their steps, so other tasks run
    between them. A step at a [Wait] is a poll of the notification. *)

Inductive RecvPc : Type :=
| Recv_Pop                       (* self.queue.pop() *)
| Recv_Check                     (* self.queue.is_closed() *)
| Recv_Subscribe                 (* self.queue.notify.notified() *)
| Recv_Wait (f : Notified)       (* .await *)
| Recv_Return (r : option Bytes).

Definition recv_step (this : WayUdpSession) (pc : RecvPc) : M Shared RecvPc :=
  match pc with
  | Recv_Pop =>
      data ← on_queue (us_queue this) pop;
      mret (match data with Some data => Recv_Return (Some data) | None => Recv_Check end)
  | Recv_Check =>
      c ← on_queue (us_queue this) is_closed;
      mret (if c : bool then Recv_Return None else Recv_Subscribe)
  | Recv_Subscribe =>
      f ← on_queue (us_queue this) (mgets (λ q, notified (notify q)));
      mret (Recv_Wait f)
  | Recv_Wait f =>
      ready ← on_queue (us_queue this) (mgets (λ q, notified_ready (notify q) f));
      mret (if ready : bool then Recv_Pop else Recv_Wait f)
  | Recv_Return r => mret (Recv_Return r)
  end.

Inductive SendPc : Type :=
| Send_Try                       (* self.try_send(&payload, target) *)
| Send_Sent                      (* self.shared.notify_poll(), then return *)
| Send_Nudge                     (* self.shared.notify_poll() *)
| Send_Subscribe                 (* self.shared.poll_done.notified() *)
| Send_Wait (f : Notified)       (* .await *)
| Send_Return (r : result unit NetstackError).

Definition send_step (this : WayUdpSession) (payload : Bytes) (pc : SendPc) : M Shared SendPc :=
  let target := {| addr := addr (src (us_key this)); port := port (src (us_key this)) |} in
  match pc with
  | Send_Try =>
      outcome ← try_send this payload target;
      mret (match outcome with
            | SendOutcome_Sent => Send_Sent
            | SendOutcome_Full => Send_Nudge
            | SendOutcome_Failed e => Send_Return (Err e)
            end)
  | Send_Sent => notify_poll;; mret (Send_Return (Ok tt))
  | Send_Nudge => notify_poll;; mret Send_Subscribe
  | Send_Subscribe => f ← mgets (λ s, notified (poll_done s)); mret (Send_Wait f)
  | Send_Wait f =>
      ready ← mgets (λ s, notified_ready (poll_done s) f);
      mret (if ready : bool then Send_Try else Send_Wait f)
  | Send_Return r => mret (Send_Return r)
  end.

(** What the timeout sweep and [drop] do with an entry they found: take it out
    of the table, close its queue, give up the reference on the shared socket
    and, if that was the last one, remove the socket. The result is the budget
    to give back, when a socket was removed. *)
Definition leave_udp_session (ifc : InterfaceId) (key : SessionKey) (entry : UdpEntry)
    : M Shared (option Z) :=
  on_manager (mmodify (λ m, set_udp (delete key (udp m)) m));;
  on_queue (queue entry) mark_closed;;
  released ← on_manager (udp_socket_release ifc (dst key));
  if negb released then mret None
  else
    s ← mget;
    match find_slot (slots (core s)) ifc with
    | None => mret None
    | Some (i, sl) =>
        let mtu := mtu sl in
        '(_, ss) ← remove_socket (sockets sl) (socket entry);
        put_slot i (set_sockets ss sl);;
        meta ← umul (Z.max (cfg_udp_buffer_packets (core_config (core s))) 1) 64;
        udp_per_socket_bytes ← uadd meta (Z.max (cfg_udp_buffer_bytes (core_config (core s))) mtu);
        mret (Some udp_per_socket_bytes)
    end.

Definition udp_drop (this : WayUdpSession) : M Shared unit :=
  s ← mget;
  (match udp (manager (core s)) !! us_key this with
   | None => mret tt
   | Some entry =>
       left ← leave_udp_session (us_interface this) (us_key this) entry;
       match left with
       | None => mret tt
       | Some udp_per_socket_bytes => on_core (release_buffer udp_per_socket_bytes)
       end
   end);;
  notify_poll.

(** [Drop] of a session. *)
Definition session_drop (session : Session) : M Shared unit :=
  match session with
  | Session_Tcp t => tcp_drop t
  | Session_Udp u => udp_drop u
  end.

(** Dropping a collection of sessions. *)
Definition drop_all (sessions : list Session) : M Shared unit :=
  mfold (λ _ session, session_drop session) sessions tt.
End Streams.
