(* ===== verification/StreamsCorrect.v ===== *)
(** * Session objects: correctness

    Every method of a live session object runs to completion (no panic), keeps
    the invariant, and has the result that [smoltcp]'s answer calls for. *)
From stdpp Require Import base list gmap strings.
From S2P Require Import Prelude Types Device Smoltcp Config Manager Core Packet Session Invariant Streams.

Local Open Scope Z_scope.

Section StreamsCorrect.
Context `{T : Target, W : Wire, E : Engine, K : Tokio, !EngineLaws}.

(** The socket of a live TCP stream. *)
Lemma live_tcp_socket extra live s t :
  Inv extra live s → Session_Tcp t ∈ live →
  ∃ n sl sk, slot_mut (core s) (ts_interface t) = Some (n, sl) ∧
    slots (core s) !! n = Some sl ∧ id sl = ts_interface t ∧
    socket_get (sockets sl) (ts_handle t) = Some (Socket_Tcp sk).
Proof.
  intros HI Hin. destruct (live_tcp _ _ _ (inv_live _ _ _ HI) _ Hin) as (Hi & e & He & Hh & _).
  apply (mgr_tcp _ _ (inv_mgr _ _ _ HI)) in He as (_ & Hk & _).
  rewrite Hh, <- Hi in Hk. by apply kind_of_tcp in Hk.
Qed.

(** Writing a socket back keeps the invariant. *)
Lemma Inv_put_socket extra live s (n : nat) sl h sk0 sk :
  Inv extra live s → slots (core s) !! n = Some sl → socket_get (sockets sl) h = Some sk0 →
  socket_kind sk = socket_kind sk0 →
  Inv extra live (set_core (set_slots
    (<[n := set_sockets (socket_set (sockets sl) h sk) sl]> (slots (core s))) (core s)) s).
Proof.
  intros HI Hn Hg Hk. pose proof (inv_slots _ _ _ HI) as Hs.
  apply Inv_slots; [done| |].
  - eapply slots_ok_insert; [done..|]. by eapply slot_ok_ext; [eapply slots_ok_lookup|..].
  - eapply kind_of_set; [apply Hs|done..].
Qed.

Lemma wp_put_tcp_socket extra live n sl h sk0 sk Q s :
  Inv extra live s → slots (core s) !! n = Some sl →
  socket_get (sockets sl) h = Some (Socket_Tcp sk0) →
  (∀ s', Inv extra live s' → manager (core s') = manager (core s) →
    sock_of (slots (core s')) (id sl) h = Some (Socket_Tcp sk) → Q tt s') →
  wp (put_tcp_socket n sl h sk) Q s.
Proof.
  intros HI Hn Hg HQ. unfold put_tcp_socket, put_slot. wp_go. apply HQ; [by eapply Inv_put_socket|done|].
  simpl. rewrite (sock_of_insert _ n sl) by (done || apply (inv_slots _ _ _ HI)).
  rewrite decide_True by done. simpl. rewrite socket_get_set by (by eexists). by rewrite decide_True.
Qed.

Lemma wp_put_udp_socket extra live n sl h sk0 sk Q s :
  Inv extra live s → slots (core s) !! n = Some sl →
  socket_get (sockets sl) h = Some (Socket_Udp sk0) →
  (∀ s', Inv extra live s' → manager (core s') = manager (core s) → Q tt s') →
  wp (put_udp_socket n sl h sk) Q s.
Proof.
  intros HI Hn Hg HQ. unfold put_udp_socket, put_slot. wp_go. apply HQ; [|done].
  by eapply Inv_put_socket.
Qed.

Lemma wp_notify_poll extra live Q s :
  Inv extra live s → (∀ s', Inv extra live s' → core s' = core s → Q tt s') →
  wp notify_poll Q s.
Proof. intros HI HQ. unfold notify_poll. wp_go. apply HQ; [by apply Inv_notify|done]. Qed.

(** ** TCP *)

(** What [poll_read] must answer, given what the socket answers. *)
Definition read_spec (r : result Bytes TcpRecvError) (open : bool) (buf : ReadBuf)
    (res : Poll (result unit io_Error)) (buf' : ReadBuf) : Prop :=
  match r with
  | Ok [] => res = Poll_Pending ∧ buf' = buf
  | Ok data => res = Poll_Ready (Ok tt) ∧
      buf' = {| rb_filled := rb_filled buf ++ data; rb_capacity := rb_capacity buf |}
  | Err TcpRecv_Finished => res = Poll_Ready (Ok tt) ∧ buf' = buf
  | Err TcpRecv_InvalidState =>
      res = (if open then Poll_Pending else Poll_Ready (Ok tt)) ∧ buf' = buf
  end.

(** A pending call leaves its waker with the socket. *)
Definition parked {A} (res : Poll A) (register : TcpSocket → TcpSocket) (sk : TcpSocket) : TcpSocket :=
  match res with Poll_Pending => register sk | Poll_Ready _ => sk end.

Lemma wp_poll_read extra live s t cx buf n sl sk :
  Inv extra live s → slot_mut (core s) (ts_interface t) = Some (n, sl) →
  slots (core s) !! n = Some sl → socket_get (sockets sl) (ts_handle t) = Some (Socket_Tcp sk) →
  0 ≤ rb_remaining buf →
  wp (poll_read t cx buf) (λ rb s', Inv extra live s' ∧ manager (core s') = manager (core s) ∧
    sock_of (slots (core s')) (ts_interface t) (ts_handle t) = Some (Socket_Tcp
      (parked rb.1 (λ sk, tcp_register_recv_waker sk cx) (tcp_recv_slice sk (rb_remaining buf)).2)) ∧
    read_spec (tcp_recv_slice sk (rb_remaining buf)).1
      (tcp_is_open (tcp_recv_slice sk (rb_remaining buf)).2) buf rb.1 rb.2) s.
Proof.
  intros HI Hsl Hn Hg Hbuf. destruct (find_slot_Some _ _ _ _ Hsl) as [_ <-].
  unfold poll_read. wp_go. rewrite Hsl. wp_go. eapply wp_get_tcp_socket; [done|].
  destruct (tcp_recv_slice sk (rb_remaining buf)) as [[data|[|]] sk'] eqn:Er; simpl.
  - apply tcp_recv_slice_len in Er; [|done].
    case_bool_decide as Hlen; wp_go; (eapply wp_put_tcp_socket; [done..|]);
      intros s1 HI1 Hm1 Hk1; wp_go.
    + unfold rb_advance. rewrite bool_decide_eq_true_2 by done. wp_go.
      by destruct data.
    + eapply wp_notify_poll; [done|]. intros s2 HI2 Hc2. wp_go. rewrite Hc2.
      split_and!; [done..|]. destruct data; [done|]. simpl in Hlen. lia.
  - destruct (tcp_is_open sk'); wp_go; (eapply wp_put_tcp_socket; [done..|]);
      intros s1 HI1 Hm1 Hk1; wp_go; [|done].
    eapply wp_notify_poll; [done|]. intros s2 HI2 Hc2. wp_go. rewrite Hc2. done.
  - wp_go. eapply wp_put_tcp_socket; [done..|]. intros s1 HI1 Hm1 Hk1. by wp_go.
Qed.

(** The buffer never overflows. *)
Lemma read_spec_fits sk open buf res buf' :
  0 ≤ rb_remaining buf → read_spec (tcp_recv_slice sk (rb_remaining buf)).1 open buf res buf' →
  0 ≤ rb_remaining buf'.
Proof.
  intros Hbuf. destruct (tcp_recv_slice sk (rb_remaining buf)) as [[data|[|]] sk'] eqn:Er; simpl;
    [|by intros [_ ->]..].
  apply tcp_recv_slice_len in Er; [|done]. destruct data as [|x data]; intros [_ ->]; [done|].
  unfold rb_remaining in *. cbn [rb_filled rb_capacity]. rewrite length_app. lia.
Qed.

(** What [poll_write] must answer. *)
Definition write_spec (r : result Z TcpSendError) (open : bool) (res : Poll (result Z io_Error)) : Prop :=
  match r with
  | Ok n => res = if bool_decide (0 < n) then Poll_Ready (Ok n) else Poll_Pending
  | Err TcpSend_InvalidState =>
      res = if open then Poll_Pending
            else Poll_Ready (Err {| error_kind := BrokenPipe; error_msg := "connection closed" |})
  end.

Lemma wp_poll_write extra live s t cx data n sl sk :
  Inv extra live s → slot_mut (core s) (ts_interface t) = Some (n, sl) →
  slots (core s) !! n = Some sl → socket_get (sockets sl) (ts_handle t) = Some (Socket_Tcp sk) →
  wp (poll_write t cx data) (λ r s', Inv extra live s' ∧ manager (core s') = manager (core s) ∧
    sock_of (slots (core s')) (ts_interface t) (ts_handle t) = Some (Socket_Tcp
      (parked r (λ sk, tcp_register_send_waker sk cx) (tcp_send_slice sk data).2)) ∧
    write_spec (tcp_send_slice sk data).1 (tcp_is_open (tcp_send_slice sk data).2) r) s.
Proof.
  intros HI Hsl Hn Hg. destruct (find_slot_Some _ _ _ _ Hsl) as [_ <-].
  unfold poll_write. wp_go. rewrite Hsl. wp_go. eapply wp_get_tcp_socket; [done|].
  destruct (tcp_send_slice sk data) as [[k|[]] sk'] eqn:Er; simpl.
  - case_bool_decide as Hlen; wp_go; (eapply wp_put_tcp_socket; [done..|]);
      intros s1 HI1 Hm1 Hk1; wp_go; [done|].
    eapply wp_notify_poll; [done|]. intros s2 HI2 Hc2. wp_go. by rewrite Hc2.
  - destruct (tcp_is_open sk'); wp_go; (eapply wp_put_tcp_socket; [done..|]);
      intros s1 HI1 Hm1 Hk1; wp_go; [|done].
    eapply wp_notify_poll; [done|]. intros s2 HI2 Hc2. wp_go. by rewrite Hc2.
Qed.

(** What closing does to a socket. *)
Definition closed_socket (sk : TcpSocket) : TcpSocket := if tcp_is_open sk then tcp_close sk else sk.

Lemma wp_close_socket extra live s ifc h n sl sk (Q : unit → Shared → Prop) :
  Inv extra live s → slot_mut (core s) ifc = Some (n, sl) →
  slots (core s) !! n = Some sl → socket_get (sockets sl) h = Some (Socket_Tcp sk) →
  (∀ s', Inv extra live s' → manager (core s') = manager (core s) →
    sock_of (slots (core s')) ifc h = Some (Socket_Tcp (closed_socket sk)) → Q tt s') →
  wp (close_socket ifc h) Q s.
Proof.
  intros HI Hsl Hn Hg HQ. destruct (find_slot_Some _ _ _ _ Hsl) as [_ <-].
  unfold close_socket, closed_socket in *. wp_go. rewrite Hsl. wp_go.
  eapply wp_get_tcp_socket; [done|]. destruct (tcp_is_open sk).
  - by eapply wp_put_tcp_socket.
  - wp_go. apply HQ; [done..|]. by rewrite (sock_of_slot _ n) by (done || apply (inv_slots _ _ _ HI)).
Qed.

Lemma wp_poll_shutdown extra live s t cx n sl sk :
  Inv extra live s → slot_mut (core s) (ts_interface t) = Some (n, sl) →
  slots (core s) !! n = Some sl → socket_get (sockets sl) (ts_handle t) = Some (Socket_Tcp sk) →
  wp (poll_shutdown t cx) (λ r s', Inv extra live s' ∧ manager (core s') = manager (core s) ∧
    r = Poll_Ready (Ok tt) ∧
    sock_of (slots (core s')) (ts_interface t) (ts_handle t) = Some (Socket_Tcp (closed_socket sk))) s.
Proof.
  intros HI Hsl Hn Hg. unfold poll_shutdown. wp_go. eapply wp_close_socket; [done..|].
  intros s1 HI1 Hm1 Hk1. wp_go. eapply wp_notify_poll; [done|]. intros s2 HI2 Hc2. wp_go. by rewrite Hc2.
Qed.

(** Dropping a stream closes its socket and orphans its entry. *)
Lemma wp_tcp_drop extra l1 t l2 s :
  Inv extra (l1 ++ Session_Tcp t :: l2) s →
  wp (tcp_drop t) (λ _ s', Inv extra (l1 ++ l2) s' ∧
    ∃ e sk, tcp (manager (core s)) !! ts_key t = Some e ∧
      manager (core s') = set_tcp (<[ts_key t := {| handle := handle e; state := state e; orphaned := true |}]>
        (tcp (manager (core s)))) (manager (core s)) ∧
      sock_of (slots (core s)) (ts_interface t) (ts_handle t) = Some (Socket_Tcp sk) ∧
      sock_of (slots (core s')) (ts_interface t) (ts_handle t) = Some (Socket_Tcp (closed_socket sk))) s.
Proof.
  intros HI. assert (Session_Tcp t ∈ l1 ++ Session_Tcp t :: l2) as Hin by set_solver.
  destruct (live_tcp_socket _ _ _ _ HI Hin) as (n & sl & sk & Hsl & Hn & Hid & Hg).
  destruct (live_tcp _ _ _ (inv_live _ _ _ HI) _ Hin) as (Hi & e & He & Hh & Ho & Hs).
  unfold tcp_drop. wp_go. rewrite bool_decide_eq_true_2 by (by eexists). wp_go.
  eapply wp_close_socket; [done..|]. intros s1 HI1 Hm1 Hk1. unfold on_manager, on_core. wp_go.
  rewrite Hm1, He.
  eapply (wp_notify_poll extra (l1 ++ l2)).
  - pose proof (inv_mgr _ _ _ HI1) as Hmgr1. pose proof HI1 as [C1 C2 C3 C4 C5 C6 C7 C8 C9 C10 C11].
    rewrite Hm1 in *. constructor; simpl; try done.
    + by eapply mgr_ok_update_tcp.
    + eapply live_ok_drop_tcp; [|done]. done.
    + rewrite C7. unfold charged. simpl.
      rewrite map_size_insert_Some by (by eexists). done.
    + by rewrite map_size_insert_Some by (by eexists).
  - intros s2 HI2 Hc2. split; [done|]. exists e, sk. rewrite Hc2. split_and!; [done..| |done].
    rewrite <- Hid. by rewrite (sock_of_slot _ n) by (done || apply (inv_slots _ _ _ HI)).
Qed.

(** ** UDP *)

(** The socket of a session whose queue is open. *)
Lemma live_udp_socket extra live s u uq :
  Inv extra live s → Session_Udp u ∈ live → queues s !! us_queue u = Some uq → closed uq = false →
  ∃ n sl sk, slot_mut (core s) (us_interface u) = Some (n, sl) ∧
    slots (core s) !! n = Some sl ∧ id sl = us_interface u ∧
    socket_get (sockets sl) (us_socket u) = Some (Socket_Udp sk).
Proof.
  intros HI Hin Hq Hc. destruct (live_udp _ _ _ (inv_live _ _ _ HI) _ Hin) as (Hi & x & Hx & Ho).
  rewrite Hq in Hx. injection Hx as <-. apply Ho in Hc as (e & He & _ & Hs).
  apply (refs_entry _ (mgr_refs _ _ (inv_mgr _ _ _ HI))) in He as [c Hd].
  apply (mgr_dst _ _ (inv_mgr _ _ _ HI)) in Hd. rewrite Hs, <- Hi in Hd.
  by apply kind_of_udp in Hd.
Qed.

Lemma wp_is_closed extra live s q uq (Q : bool → Shared → Prop) :
  Inv extra live s → queues s !! q = Some uq → Q (closed uq) s → wp (on_queue q is_closed) Q s.
Proof.
  intros HI Hq HQ. eapply wp_on_queue; [done|]. unfold is_closed. wp_go.
  by rewrite insert_id, set_queues_id by done.
Qed.

(** What [recv] must answer, given the queue. *)
Definition recv_spec (uq : UdpQueue) (res : Poll (option Bytes)) (uq' : UdpQueue) : Prop :=
  closed uq' = closed uq ∧
  match inner uq with
  | data :: rest => res = Poll_Ready (Some data) ∧ inner uq' = rest
  | [] => res = (if closed uq then Poll_Ready None else Poll_Pending) ∧ inner uq' = []
  end.

Lemma wp_recv extra live s u uq :
  Inv extra live s → queues s !! us_queue u = Some uq →
  wp (recv u) (λ r s', Inv extra live s' ∧ core s' = core s ∧
    ∃ uq', queues s' = <[us_queue u := uq']> (queues s) ∧ recv_spec uq r uq') s.
Proof.
  intros HI Hq. unfold recv. wp_go. eapply wp_on_queue; [done|]. unfold pop. wp_go.
  destruct (inner uq) as [|data rest] eqn:Ei; wp_go.
  - rewrite insert_id, set_queues_id by done.
    eapply wp_is_closed; [done..|]. destruct (closed uq) eqn:Ec; wp_go.
    all: split_and!; [done..|]; exists uq; rewrite insert_id by done; unfold recv_spec;
      by rewrite Ei, Ec.
  - split_and!; [by eapply Inv_queue|done|]. eexists. split; [done|].
    unfold recv_spec. by rewrite Ei.
Qed.

(** What [try_send] must answer, given the state of the queue and what the
    socket answers. *)
Definition send_outcome (closed : bool) (r : result unit UdpSendError) : SendOutcome :=
  if closed then SendOutcome_Failed UdpNotOpen
  else match r with
       | Ok _ => SendOutcome_Sent
       | Err UdpSend_BufferFull => SendOutcome_Full
       | Err UdpSend_Unaddressable => SendOutcome_Failed UdpNotOpen
       end.

Lemma wp_try_send extra live s u payload target :
  Inv extra live s → Session_Udp u ∈ live →
  wp (try_send u payload target) (λ r s', Inv extra live s' ∧ manager (core s') = manager (core s) ∧
    queues s' = queues s ∧
    ∃ uq, queues s !! us_queue u = Some uq ∧
      if closed uq then r = SendOutcome_Failed UdpNotOpen ∧ s' = s
      else ∃ sk, sock_of (slots (core s)) (us_interface u) (us_socket u) = Some (Socket_Udp sk) ∧
        r = send_outcome false (udp_send_slice sk payload target).1) s.
Proof.
  intros HI Hin. destruct (live_udp _ _ _ (inv_live _ _ _ HI) _ Hin) as (_ & uq & Hq & _).
  unfold try_send. wp_go. eapply wp_is_closed; [done..|].
  destruct (closed uq) eqn:Ec; wp_go.
  { split_and!; [done..|]. exists uq. by rewrite Ec. }
  destruct (live_udp_socket _ _ _ _ _ HI Hin Hq Ec) as (n & sl & sk & Hsl & Hn & Hid & Hg).
  rewrite Hsl. wp_go. eapply wp_get_udp_socket; [done|].
  destruct (udp_send_slice sk payload target) as [r sk'] eqn:Es. wp_go.
  unfold put_udp_socket, put_slot. wp_go.
  assert (∃ uq0, queues s !! us_queue u = Some uq0 ∧ closed uq0 = false ∧
    sock_of (slots (core s)) (us_interface u) (us_socket u) = Some (Socket_Udp sk)) as (uq0 & H1 & H2 & H3).
  { exists uq. split_and!; [done..|]. unfold sock_of, slot_mut in *. by rewrite Hsl. }
  destruct r as [[]|[|]]; wp_go; (split_and!; [by eapply Inv_put_socket|done..|]; exists uq0;
    rewrite H2; split; [done|]; exists sk; split; [done|]; by rewrite Es).
Qed.

(** The state after a registered session left: its entry is gone, its queue is
    closed, the count of its shared socket is lowered. *)
Definition leave_udp (s : Shared) (l' : list InterfaceSlot) (dsts : gmap (InterfaceId * IpEndpoint) (SocketHandle * Z))
    (k : SessionKey) (e : UdpEntry) (uq' : UdpQueue) : Shared :=
  set_core {| slots := l';
    manager := set_udp_dst_sockets dsts (set_udp (delete k (udp (manager (core s)))) (manager (core s)));
    core_config := core_config (core s); buffer_bytes := buffer_bytes (core s) |}
    (set_queues (<[queue e := uq']> (queues s)) s).

(** The invariant there; [x] is the budget that the removed socket frees. *)
Lemma Inv_leave_udp extra x live s l' dsts k e uq' kinds' :
  Inv extra live s → udp (manager (core s)) !! k = Some e → closed uq' = true →
  slots_ok (core_config (core s)) l' → kinds_eq (kind_of l') kinds' →
  mgr_ok kinds' (set_udp_dst_sockets dsts (set_udp (delete k (udp (manager (core s)))) (manager (core s)))) →
  0 ≤ x → udp_socket_cost (core_config (core s)) * Z.of_nat (size (udp_dst_sockets (manager (core s)))) =
    udp_socket_cost (core_config (core s)) * Z.of_nat (size dsts) + x →
  Inv (extra + x) live (leave_udp s l' dsts k e uq').
Proof.
  intros HI Hk Hc Hl Hkinds Hmgr Hx Hsz. pose proof HI as [C1 C2 C3 C4 C5 C6 C7 C8 C9 C10 C11].
  assert (size (delete k (udp (manager (core s)))) ≤ size (udp (manager (core s))))%nat as Hle.
  { apply map_subseteq_size, delete_subseteq. }
  constructor; simpl; try done.
  - by rewrite Hkinds.
  - destruct (queues_open _ _ _ C4 _ _ Hk) as (uq & Huq & _). by eapply queues_ok_leave.
  - by eapply live_ok_leave_udp.
  - lia.
  - rewrite C7. unfold charged. simpl. lia.
  - lia.
Qed.

(** The last session of a socket takes the socket with it, another one leaves
    it to the others. *)
Lemma Inv_leave_udp_last extra live s (n : nat) sl ss k e uq' :
  Inv extra live s → udp (manager (core s)) !! k = Some e → closed uq' = true →
  udp_dst_sockets (manager (core s)) !! (interface k, dst k) = Some (socket e, 1) →
  slots (core s) !! n = Some sl → id sl = interface k →
  (∀ h, socket_get ss h = if decide (h = socket e) then None else socket_get (sockets sl) h) →
  Inv (extra + udp_socket_cost (core_config (core s))) live
    (leave_udp s (<[n := set_sockets ss sl]> (slots (core s)))
      (delete (interface k, dst k) (udp_dst_sockets (manager (core s)))) k e uq').
Proof.
  intros HI Hk Hc Hd Hn Hid Hg. pose proof (inv_slots _ _ _ HI) as Hs.
  pose proof (mgr_ok_leave_udp _ _ _ _ _ (inv_mgr _ _ _ HI) Hk Hd) as Hmgr.
  rewrite !bool_decide_eq_true_2 in Hmgr by done.
  eapply Inv_leave_udp; [done..| | |exact Hmgr| |].
  - eapply slots_ok_insert; [done..|]. by eapply slot_ok_ext; [eapply slots_ok_lookup|..].
  - rewrite <- Hid. by apply kind_of_remove with (ss := ss); [apply Hs|..].
  - pose proof (udp_socket_cost_pos _ (inv_sane _ _ _ HI)). lia.
  - rewrite map_size_delete_Some by (by eexists).
    assert (size (udp_dst_sockets (manager (core s))) ≠ 0)%nat.
    { apply map_size_non_empty_iff. intros He. by rewrite He in Hd. }
    rewrite Nat2Z.inj_pred, <- Z.sub_1_r by lia. ring.
Qed.

Lemma Inv_leave_udp_shared extra live s k e uq' c :
  Inv extra live s → udp (manager (core s)) !! k = Some e → closed uq' = true →
  udp_dst_sockets (manager (core s)) !! (interface k, dst k) = Some (socket e, c) → c ≠ 1 →
  Inv (extra + 0) live (leave_udp s (slots (core s))
    (<[(interface k, dst k) := (socket e, c - 1)]> (udp_dst_sockets (manager (core s)))) k e uq').
Proof.
  intros HI Hk Hc Hd Hc1. pose proof (mgr_ok_leave_udp _ _ _ _ _ (inv_mgr _ _ _ HI) Hk Hd) as Hmgr.
  rewrite !bool_decide_eq_false_2 in Hmgr by done.
  eapply Inv_leave_udp; [done..|apply HI|done|exact Hmgr|done|].
  rewrite map_size_insert_Some by (by eexists). lia.
Qed.

(** Taking a registered session out of the tables. *)
Lemma wp_leave_udp_session extra live s k e :
  Inv extra live s → udp (manager (core s)) !! k = Some e →
  wp (leave_udp_session (interface k) k e) (λ r s',
    Inv (extra + from_option (λ x, x) 0 r) live s' ∧ frame s s' ∧
    udp (manager (core s')) = delete k (udp (manager (core s))) ∧
    tcp (manager (core s')) = tcp (manager (core s)) ∧
    (∃ uq uq', queues s !! queue e = Some uq ∧ inner uq' = inner uq ∧ closed uq' = true ∧
      queues s' = <[queue e := uq']> (queues s)) ∧
    (∀ x, r = Some x → x = udp_socket_cost (core_config (core s)))) s.
Proof.
  intros HI Hk. pose proof HI as [C1 C2 C3 C4 C5 C6 C7 C8 C9 C10 C11].
  pose proof (mgr_refs _ _ C3) as Hrefs. destruct (refs_entry _ Hrefs _ _ Hk) as [c Hd].
  destruct (refs_count _ Hrefs _ _ _ _ Hd) as [Hc Hpos].
  destruct (queues_open _ _ _ C4 _ _ Hk) as (uq & Huq & Hopen).
  destruct (kind_of_udp _ _ _ (mgr_dst _ _ C3 _ _ _ _ Hd)) as (n & sl & sk & Hsl & Hn & Hid & Hg).
  pose proof (charged_bound _ _ C1 Hrefs C8 C9). pose proof (charged_nonneg _ (manager (core s)) C1).
  pose proof (tcp_socket_cost_nonneg _ C1). pose proof (sane_udp_bytes _ C1).
  unfold leave_udp_session, on_manager, on_core. wp_go. eapply wp_on_queue; [done|]. unfold mark_closed. wp_go.
  eapply wp_udp_socket_release; [done..|]. simpl.
  set (uq' := {| inner := inner uq; notify := notify_waiters (notify uq); closed := true |}).
  case_bool_decide as Hc1; wp_go.
  - simpl. rewrite Hsl. wp_go. unfold remove_socket, put_slot.
    destruct (socket_remove_some _ _ _ Hg) as (ss & Hrem & Hget). rewrite Hrem. wp_go.
    apply wp_umul; [unfold udp_socket_cost in *; lia|]. wp_go. simpl.
    rewrite (slot_mtu _ _ (slots_ok_lookup _ _ _ _ C2 Hn)).
    apply wp_uadd; [unfold udp_socket_cost in *; lia|]. wp_go.
    split_and!; [|split; [done|]|done|done|by exists uq, uq'|by intros x [= <-]].
    + rewrite Hc1 in Hd. by apply (Inv_leave_udp_last extra live s n sl ss k e uq').
    + simpl. by eapply list_fmap_insert_same.
  - split_and!; [|done..|by exists uq, uq'|done].
    by apply (Inv_leave_udp_shared extra live s k e uq' c).
Qed.

(** What [send] must answer: only a full buffer makes it wait. *)
Definition send_spec (o : SendOutcome) (r : Poll (result unit NetstackError)) : Prop :=
  r = match o with
      | SendOutcome_Sent => Poll_Ready (Ok tt)
      | SendOutcome_Full => Poll_Pending
      | SendOutcome_Failed e => Poll_Ready (Err e)
      end.

Lemma wp_send extra live s u payload :
  Inv extra live s → Session_Udp u ∈ live →
  wp (send u payload) (λ r s', Inv extra live s' ∧ manager (core s') = manager (core s) ∧
    ∃ uq, queues s !! us_queue u = Some uq ∧
      if closed uq then r = Poll_Ready (Err UdpNotOpen)
      else ∃ sk, sock_of (slots (core s)) (us_interface u) (us_socket u) = Some (Socket_Udp sk) ∧
        send_spec (send_outcome false (udp_send_slice sk payload (src (us_key u))).1) r) s.
Proof.
  intros HI Hin. unfold send.
  replace {| addr := addr (src (us_key u)); port := port (src (us_key u)) |} with (src (us_key u))
    by (by destruct (src (us_key u))).
  apply wp_bind. eapply wp_mono; [by apply wp_try_send|]. simpl.
  intros o s1 (HI1 & Hm1 & Hq1 & uq & Huq & Ho).
  assert (∀ r, send_spec o r → (if closed uq then r = Poll_Ready (Err UdpNotOpen)
    else ∃ sk, sock_of (slots (core s)) (us_interface u) (us_socket u) = Some (Socket_Udp sk) ∧
      send_spec (send_outcome false (udp_send_slice sk payload (src (us_key u))).1) r)) as Hr.
  { intros r Hr. destruct (closed uq).
    - destruct Ho as [-> _]. done.
    - destruct Ho as (sk & Hsk & ->). by exists sk. }
  destruct o; wp_go; try (eapply wp_notify_poll; [done|]; intros s2 HI2 Hm2; wp_go);
    (split_and!; [done|congruence|]; exists uq; split; [done|]; by apply Hr).
Qed.

(** Dropping a session removes the entry registered under its key, if any, and
    gives the budget of the shared socket back with the last one. *)
Lemma wp_udp_drop extra l1 u l2 s :
  Inv extra (l1 ++ Session_Udp u :: l2) s →
  wp (udp_drop u) (λ _ s', Inv extra (l1 ++ l2) s' ∧
    udp (manager (core s')) = delete (us_key u) (udp (manager (core s))) ∧
    tcp (manager (core s')) = tcp (manager (core s))) s.
Proof.
  intros HI0. assert (Session_Udp u ∈ l1 ++ Session_Udp u :: l2) as Hin by set_solver.
  destruct (live_udp _ _ _ (inv_live _ _ _ HI0) _ Hin) as (Hi & _).
  assert (Inv extra (l1 ++ l2) s) as HI.
  { eapply Inv_sublist; [done|]. apply sublist_app; [done|]. by apply sublist_cons. }
  unfold udp_drop. wp_go. destruct (udp (manager (core s)) !! us_key u) as [e|] eqn:Hk; wp_go.
  - rewrite Hi. eapply wp_mono; [by apply wp_leave_udp_session|]. simpl.
    intros [x|] s1 (HI1 & _ & Hu & Ht & _ & Hx); simpl in HI1; wp_go.
    + unfold on_core, release_buffer. wp_go.
      eapply (wp_notify_poll extra (l1 ++ l2)).
      * apply Inv_release; [done|by eapply inv_extra|].
        rewrite (Hx x) by done. pose proof (udp_socket_cost_pos _ (inv_sane _ _ _ HI)). lia.
      * intros s2 HI2 Hm2. split_and!; [done|by rewrite Hm2..].
    + rewrite Z.add_0_r in HI1. eapply wp_notify_poll; [done|].
      intros s2 HI2 Hm2. split_and!; [done|by rewrite Hm2..].
  - eapply wp_notify_poll; [done|]. intros s2 HI2 ->. split_and!; [done| |done].
    by rewrite delete_id.
Qed.

(** ** The loops of [recv] and [send], step by step *)

Lemma live_udp_queue extra live s u :
  Inv extra live s → Session_Udp u ∈ live → ∃ uq, queues s !! us_queue u = Some uq.
Proof.
  intros HI Hin. destruct (live_udp _ _ _ (inv_live _ _ _ HI) _ Hin) as (_ & uq & Hq & _). by exists uq.
Qed.

(** Reading a queue leaves everything as it is. *)
Lemma wp_queue_gets {A} q uq (f : UdpQueue → A) (Q : A → Shared → Prop) s :
  queues s !! q = Some uq → Q (f uq) s → wp (on_queue q (mgets f)) Q s.
Proof.
  intros Hq HQ. eapply wp_on_queue; [done|]. wp_go. by rewrite insert_id, set_queues_id by done.
Qed.

Lemma wp_recv_step extra live s u pc :
  Inv extra live s → Session_Udp u ∈ live →
  wp (recv_step u pc) (λ _ s', Inv extra live s' ∧ core s' = core s) s.
Proof.
  intros HI Hin. destruct (live_udp_queue _ _ _ _ HI Hin) as (uq & Hq).
  destruct pc; unfold recv_step; wp_go; try done.
  - eapply wp_on_queue; [done|]. unfold pop. wp_go.
    destruct (inner uq) as [|d rest]; wp_go; (split; [by eapply Inv_queue|done]).
  - eapply wp_is_closed; [done..|]. by wp_go.
  - eapply wp_queue_gets; [done|]. by wp_go.
  - eapply wp_queue_gets; [done|]. by wp_go.
Qed.

Lemma wp_send_step extra live s u payload pc :
  Inv extra live s → Session_Udp u ∈ live →
  wp (send_step u payload pc) (λ _ s', Inv extra live s' ∧ manager (core s') = manager (core s)) s.
Proof.
  intros HI Hin. destruct pc; unfold send_step; wp_go; try done.
  - eapply wp_mono; [by apply (wp_try_send extra live)|]. cbv beta. intros o s1 (HI1 & Hm1 & _). by wp_go.
  - eapply wp_notify_poll; [done|]. intros s1 HI1 Hc1. wp_go. by rewrite Hc1.
  - eapply wp_notify_poll; [done|]. intros s1 HI1 Hc1. wp_go. by rewrite Hc1.
Qed.

(** ** Dropping sessions *)

Lemma wp_session_drop extra l1 x l2 s :
  Inv extra (l1 ++ x :: l2) s → wp (session_drop x) (λ _ s', Inv extra (l1 ++ l2) s') s.
Proof.
  intros HI. destruct x as [t|u]; simpl; (eapply wp_mono; [by first [apply wp_tcp_drop|apply wp_udp_drop]|]);
    by intros _ s' [? _].
Qed.

Lemma wp_drop_all extra l1 l l2 s :
  Inv extra (l1 ++ l ++ l2) s → wp (drop_all l) (λ _ s', Inv extra (l1 ++ l2) s') s.
Proof.
  intros HI. unfold drop_all.
  eapply wp_mono; [apply (wp_mfold _ (λ rest _ s', Inv extra (l1 ++ rest ++ l2) s'))|].
  - intros x rest [] s1 HI1. by apply wp_session_drop.
  - done.
  - by intros [] s'.
Qed.
End StreamsCorrect.
