(* ===== verification/Wakeup.v ===== *)
(** * Waiting for notifications

    [Notify::notify_waiters] completes the futures that exist when it is
    called and stores no permit. A task that waits must therefore create its
    future before it looks at the condition. This file states what the loops
    of [WayUdpSession::recv] and [send] guarantee, and the interleavings in
    which a notification falls into the gap between their test and their
    [notified()]. *)
From stdpp Require Import base list gmap.
From S2P Require Import Prelude Types Device Smoltcp Config Manager Core Packet Session Streams.

Local Open Scope Z_scope.

Section Wakeup.
Context `{T : Target, W : Wire, E : Engine, K : Tokio, !TokioLaws}.

Definition with_queue (q : QueueId) (uq : UdpQueue) (s : Shared) : Shared :=
  set_queues (<[q := uq]> (queues s)) s.

(** The runner's side: a datagram is pushed to the queue of a session, or the
    queue is closed. *)
Definition push_step (u : WayUdpSession) (data : Bytes) : M Shared unit := on_queue (us_queue u) (push data).
Definition close_step (u : WayUdpSession) : M Shared unit := on_queue (us_queue u) mark_closed.

(** The receiver runs alone for [n] steps. *)
Fixpoint recv_steps (n : nat) (u : WayUdpSession) (pc : RecvPc) : M Shared RecvPc :=
  match n with
  | O => mret pc
  | S n' => pc' ← recv_step u pc; recv_steps n' u pc'
  end.

(** ** Without interference *)

(** The atomic turn [recv] is the loop run until it returns or waits. *)
Lemma recv_steps_turn u s uq :
  queues s !! us_queue u = Some uq →
  recv u s =
    match recv_steps 3 u Recv_Pop s with
    | Done (Recv_Return r, s') => Done (Poll_Ready r, s')
    | Done (_, s') => Done (Poll_Pending, s')
    | Panic p => Panic p
    | OutOfFuel => OutOfFuel
    end.
Proof.
  intros Hq. unfold recv_steps, recv, recv_step, on_queue, pop, is_closed, mbind, M_bind, mget, mgets, mmodify, mret, M_ret.
  rewrite Hq. simpl. destruct (inner uq) as [|d rest] eqn:Ei; simpl.
  - rewrite insert_id by done. rewrite set_queues_id, Hq.
    rewrite insert_id by done. rewrite set_queues_id.
    destruct (closed uq) eqn:Ec; [done|]. rewrite Hq. rewrite insert_id by done. by rewrite set_queues_id.
  - done.
Qed.

(** ** One step, as an equation *)

Lemma on_queue_done {A} q uq uq' (m : M UdpQueue A) a s :
  queues s !! q = Some uq → m uq = Done (a, uq') → on_queue q m s = Done (a, with_queue q uq' s).
Proof.
  intros Hq Hm. unfold on_queue, mbind, M_bind, mget. by rewrite Hq, Hm.
Qed.

Lemma with_queue_id q uq s : queues s !! q = Some uq → with_queue q uq s = s.
Proof. intros Hq. unfold with_queue. rewrite insert_id by done. apply set_queues_id. Qed.

Lemma with_queue_lookup q uq s : queues (with_queue q uq s) !! q = Some uq.
Proof. apply lookup_insert_eq. Qed.

Lemma push_step_done u d uq s :
  queues s !! us_queue u = Some uq →
  push_step u d s = Done (tt, with_queue (us_queue u)
    {| inner := inner uq ++ [d]; notify := notify_waiters (notify uq); closed := closed uq |} s).
Proof. intros Hq. by apply (on_queue_done _ uq). Qed.

Lemma close_step_done u uq s :
  queues s !! us_queue u = Some uq →
  close_step u s = Done (tt, with_queue (us_queue u)
    {| inner := inner uq; notify := notify_waiters (notify uq); closed := true |} s).
Proof. intros Hq. by apply (on_queue_done _ uq). Qed.

Lemma recv_pop_done u uq s :
  queues s !! us_queue u = Some uq →
  recv_step u Recv_Pop s =
    match inner uq with
    | d :: rest => Done (Recv_Return (Some d), with_queue (us_queue u)
        {| inner := rest; notify := notify uq; closed := closed uq |} s)
    | [] => Done (Recv_Check, s)
    end.
Proof.
  intros Hq. unfold recv_step, mbind, M_bind, pop, mbind, M_bind.
  destruct (inner uq) as [|d rest] eqn:Ei.
  - rewrite (on_queue_done _ uq uq _ None) by (done || (unfold mget; by rewrite Ei)).
    by rewrite with_queue_id.
  - erewrite (on_queue_done _ uq _ _ (Some d)); [|done|unfold mget; by rewrite Ei]. done.
Qed.

Lemma recv_check_done u uq s :
  queues s !! us_queue u = Some uq →
  recv_step u Recv_Check s = Done (if closed uq then Recv_Return None else Recv_Subscribe, s).
Proof.
  intros Hq. unfold recv_step, mbind, M_bind. rewrite (on_queue_done _ uq uq _ (closed uq)) by done.
  by rewrite with_queue_id.
Qed.

Lemma recv_subscribe_done u uq s :
  queues s !! us_queue u = Some uq →
  recv_step u Recv_Subscribe s = Done (Recv_Wait (notified (notify uq)), s).
Proof.
  intros Hq. unfold recv_step, mbind, M_bind. rewrite (on_queue_done _ uq uq _ (notified (notify uq))) by done.
  by rewrite with_queue_id.
Qed.

Lemma recv_wait_done u uq f s :
  queues s !! us_queue u = Some uq →
  recv_step u (Recv_Wait f) s = Done (if notified_ready (notify uq) f then Recv_Pop else Recv_Wait f, s).
Proof.
  intros Hq. unfold recv_step, mbind, M_bind.
  rewrite (on_queue_done _ uq uq _ (notified_ready (notify uq) f)) by done. by rewrite with_queue_id.
Qed.

Lemma recv_steps_S n u pc s pc' s' :
  recv_step u pc s = Done (pc', s') → recv_steps (S n) u pc s = recv_steps n u pc' s'.
Proof. intros Hs. simpl. unfold mbind, M_bind. by rewrite Hs. Qed.

(** A receiver whose future is not complete stays where it is. *)
Lemma recv_stuck n u uq f s :
  queues s !! us_queue u = Some uq → notified_ready (notify uq) f = false →
  recv_steps n u (Recv_Wait f) s = Done (Recv_Wait f, s).
Proof.
  intros Hq Hf. induction n as [|n IH]; [done|].
  rewrite (recv_steps_S _ _ _ _ (Recv_Wait f) s); [done|]. by rewrite (recv_wait_done u uq), Hf.
Qed.

(** ** A receiver that waits is woken *)

(** Once the receiver has its future, a pushed datagram is returned and a
    closed queue ends the wait. *)
Lemma recv_woken_push u uq d s :
  queues s !! us_queue u = Some uq → inner uq = [] →
  ∃ s1 s2, push_step u d s = Done (tt, s1) ∧
    recv_steps 2 u (Recv_Wait (notified (notify uq))) s1 = Done (Recv_Return (Some d), s2).
Proof.
  intros Hq Hi. do 2 eexists. split; [by apply push_step_done|].
  set (uq' := {| inner := inner uq ++ [d]; notify := notify_waiters (notify uq); closed := closed uq |}).
  pose proof (with_queue_lookup (us_queue u) uq' s) as Hl.
  erewrite recv_steps_S; [|rewrite (recv_wait_done u uq') by done; simpl; by rewrite notified_woken].
  erewrite recv_steps_S; [|rewrite (recv_pop_done u uq') by done; simpl; by rewrite Hi]. done.
Qed.

Lemma recv_woken_close u uq s :
  queues s !! us_queue u = Some uq → inner uq = [] →
  ∃ s1 s2, close_step u s = Done (tt, s1) ∧
    recv_steps 3 u (Recv_Wait (notified (notify uq))) s1 = Done (Recv_Return None, s2).
Proof.
  intros Hq Hi. do 2 eexists. split; [by apply close_step_done|].
  set (uq' := {| inner := inner uq; notify := notify_waiters (notify uq); closed := true |}).
  pose proof (with_queue_lookup (us_queue u) uq' s) as Hl.
  erewrite recv_steps_S; [|rewrite (recv_wait_done u uq') by done; simpl; by rewrite notified_woken].
  erewrite recv_steps_S; [|rewrite (recv_pop_done u uq') by done; simpl; by rewrite Hi].
  erewrite recv_steps_S; [|by rewrite (recv_check_done u uq')]. done.
Qed.

(** ** The gap *)

(** The runner pushes a datagram after the receiver found the queue empty and
    open, and before it called [notified()]. *)
Definition gap_schedule (u : WayUdpSession) (data : Bytes) : M Shared RecvPc :=
  pc ← recv_steps 2 u Recv_Pop;
  push_step u data;;
  recv_step u pc.

(** The receiver then waits with a datagram in its queue, however often it is
    polled. *)
Lemma recv_gap u uq d s :
  queues s !! us_queue u = Some uq → inner uq = [] → closed uq = false →
  ∃ f s' uq', gap_schedule u d s = Done (Recv_Wait f, s') ∧
    queues s' !! us_queue u = Some uq' ∧ inner uq' = [d] ∧
    ∀ n, recv_steps n u (Recv_Wait f) s' = Done (Recv_Wait f, s').
Proof.
  intros Hq Hi Hc. unfold gap_schedule, mbind, M_bind.
  assert (recv_steps 2 u Recv_Pop s = Done (Recv_Subscribe, s)) as ->.
  { erewrite recv_steps_S; [|by rewrite (recv_pop_done u uq), Hi].
    erewrite recv_steps_S; [|by rewrite (recv_check_done u uq), Hc]. done. }
  rewrite (push_step_done u d uq) by done.
  set (uq' := {| inner := inner uq ++ [d]; notify := notify_waiters (notify uq); closed := closed uq |}).
  pose proof (with_queue_lookup (us_queue u) uq' s) as Hl.
  rewrite (recv_subscribe_done u uq') by done. do 3 eexists. split_and!; [done|exact Hl|by simpl; rewrite Hi|].
  intros n. apply (recv_stuck _ _ uq'); [done|]. apply notified_fresh.
Qed.

(** ** The sender *)

Fixpoint send_steps (n : nat) (u : WayUdpSession) (payload : Bytes) (pc : SendPc) : M Shared SendPc :=
  match n with
  | O => mret pc
  | S n' => pc' ← send_step u payload pc; send_steps n' u payload pc'
  end.

Lemma send_stuck n u payload f s :
  notified_ready (poll_done s) f = false →
  send_steps n u payload (Send_Wait f) s = Done (Send_Wait f, s).
Proof.
  intros Hf. induction n as [|n IH]; [done|]. simpl.
  unfold mbind, M_bind, mgets, mret, M_ret. by rewrite Hf.
Qed.

(** ** The runner *)

(** A write that the socket takes notifies nobody. *)
Lemma poll_write_quiet t cx data s n s' :
  poll_write t cx data s = Done (Poll_Ready (Ok n), s') → poll_notify s' = poll_notify s.
Proof.
  unfold poll_write, mbind, M_bind, mget, mret, M_ret. destruct (slot_mut _ _) as [[i sl]|]; [|done].
  unfold get_tcp_socket, put_tcp_socket, put_slot, mmodify, notify_poll, mpanic.
  destruct (socket_get _ _) as [[sk|]|]; [|done..]. unfold mret, M_ret.
  destruct (tcp_send_slice sk data) as [[k|[]] sk']; [|by destruct (negb _)].
  case_bool_decide; [|done]. by intros [= <- <-].
Qed.
End Wakeup.
