(* ===== verification/Runner.v ===== *)
(** * The runner

    [runner.rs]: one poll cycle of the background task, as computations on
    [Shared]. The critical section of [poll_once] is [poll_locked]: the
    pre-pass that allocates sockets for new flows, the poll of every
    interface, the post-pass (TCP life cycle, UDP redistribution, timeout
    sweep) and the collection of the packets to send. Log messages are not
    modelled; nothing else depends on them. *)
From stdpp Require Import base list gmap.
From S2P Require Import Prelude Types Device Smoltcp Config Manager Core Packet Session Streams.

Local Open Scope Z_scope.

(** [Iterator::min] on durations. *)
Definition list_min (l : list Z) : option Z :=
  match l with [] => None | x :: l' => Some (foldl Z.min x l') end.

Lemma list_min_Some l d : list_min l = Some d → d ∈ l ∧ ∀ x, x ∈ l → d ≤ x.
Proof.
  destruct l as [|y l]; [done|]. simpl. intros [= <-].
  assert (∀ l y, (foldl Z.min y l = y ∨ foldl Z.min y l ∈ l) ∧ foldl Z.min y l ≤ y ∧
    ∀ x, x ∈ l → foldl Z.min y l ≤ x) as Hf.
  { clear. induction l as [|z l IH]; intros y; simpl; [split_and!; [by left|lia|set_solver]|].
    destruct (IH (Z.min y z)) as (H1 & H2 & H3). split_and!; [|lia|].
    - destruct H1 as [->|H1]; [|right; by right].
      destruct (Z.min_spec y z) as [[_ ->]|[_ ->]]; [by left|right; by left].
    - intros x [->|Hx]%elem_of_cons; [lia|by apply H3]. }
  destruct (Hf l y) as (H1 & H2 & H3). split; [destruct H1 as [->|H1]; [by left|by right]|].
  intros x [->|Hx]%elem_of_cons; [done|by apply H3].
Qed.

Section Runner.
Context `{T : Target, HO : HashOrder, W : Wire, E : Engine, K : Tokio}.

(** ** Waiting *)

Definition queue_ingress (pkt : IngressPacket) : M Shared unit :=
  s ← mget;
  match slot_mut (core s) (ip_interface pkt) with
  | Some (i, sl) => put_slot i (set_device (push_ingress (ip_data pkt) (device sl)) sl)
  | None => mret tt
  end.

Definition next_poll_delay (now : Instant) (s : Shared) : option StdDuration :=
  list_min (duration_into <$>
    omap (λ sl, iface_poll_delay (iface sl) now (sockets sl)) (slots (core s))).

(** The [sleep] that [run] creates from the delay. *)
Definition sleep_duration (delay : option StdDuration) : StdDuration :=
  match delay with
  | Some d => if bool_decide (d = 0) then from_secs 3600 else d
  | None => from_secs 3600
  end.

(** ** The pre-pass *)

Definition alloc_tcp (i : nat) (key : SessionKey) : M Shared unit :=
  sl ← slot_at i;
  let buf_size := buffer_size sl in
  need ← umul 2 buf_size;
  reserved ← on_core (reserve_buffer need);
  if negb reserved then mret tt
  else
    sl ← slot_at i;
    '(sock, pool) ←
      match tcp_pool sl with
      | s :: rest => mret (s, rest)
      | [] =>
          vec_alloc buf_size 1;;
          vec_alloc buf_size 1;;
          sock ← tcp_socket_new buf_size buf_size;
          mret (sock, [])
      end;
    put_slot i (set_tcp_pool pool sl);;
    let listen_endpoint :=
      {| listen_addr := Some (addr (dst key)); listen_port := port (dst key) |} in
    match tcp_listen sock listen_endpoint with
    | Err _ => on_core (release_buffer need)
    | Ok sock' =>
        sl ← slot_at i;
        let '(h, ss) := socket_add (sockets sl) (Socket_Tcp sock') in
        put_slot i (set_sockets ss sl);;
        on_manager (mmodify (λ m,
          set_tcp (<[key := {| handle := h; state := TcpState_Pending; orphaned := false |}]> (tcp m)) m))
    end.

(** The closure that [alloc_udp] gives to [udp_socket_for]; it captures the
    socket set of the slot. *)
Definition create_udp_socket (packets bytes : Z) (key : SessionKey) : M SocketSet (option SocketHandle) :=
  vec_alloc packets udp_metadata_size;;
  vec_alloc bytes 1;;
  vec_alloc packets udp_metadata_size;;
  vec_alloc bytes 1;;
  let sock := udp_new (packets, bytes) (packets, bytes) in
  let endpoint := {| addr := addr (dst key); port := port (dst key) |} in
  match udp_bind sock endpoint with
  | Err _ => mret None
  | Ok sock' =>
      ss ← mget;
      let '(h, ss') := socket_add ss (Socket_Udp sock') in
      mmodify (λ _, ss');;
      mret (Some h)
  end.

Definition alloc_udp (i : nat) (key : SessionKey) (now : Instant) : M Shared (option Session) :=
  s ← mget;
  let cfg := core_config (core s) in
  sl ← slot_at i;
  let packets := Z.max (cfg_udp_buffer_packets cfg) 1 in
  let bytes := Z.max (cfg_udp_buffer_bytes cfg) (mtu sl) in
  meta ← umul packets 64;
  udp_per_socket_bytes ← uadd meta bytes;
  let fresh := bool_decide (udp_dst_sockets (manager (core s)) !! (interface key, dst key) = None) in
  reserved ← (if fresh then on_core (reserve_buffer udp_per_socket_bytes) else mret true);
  if fresh && negb reserved then mret None
  else
    sl ← slot_at i;
    '(created, ss) ← on_manager (udp_socket_for (id sl) (dst key)
                       (create_udp_socket packets bytes key) (sockets sl));
    put_slot i (set_sockets ss sl);;
    match created with
    | None => mret None
    | Some h =>
        on_manager (udp_socket_retain (id sl) (dst key));;
        q ← alloc_queue;
        on_manager (mmodify (λ m,
          set_udp (<[key := {| socket := h; queue := q; last_activity := now |}]> (udp m)) m));;
        mret (Some (Session_Udp (WayUdpSession_new (interface key) key h q
                (to_socket_addr (src key)) (to_socket_addr (dst key)))))
    end.

(** The body of the loop over the queued packets of slot [i]. *)
Definition pre_pass_packet (now : Instant) (i : nat) (accepted : list Session) (pkt : Bytes)
    : M Shared (list Session) :=
  s ← mget;
  let max_tcp := cfg_tcp_max_connections (core_config (core s)) in
  let max_udp := cfg_udp_max_sessions (core_config (core s)) in
  match parse_l4 pkt with
  | None => mret accepted
  | Some (src, dst, L4_Tcp true) =>
      sl ← slot_at i;
      let key := SessionKey_new (id sl) Proto_Tcp src dst in
      if bool_decide (is_Some (get_tcp (manager (core s)) key)) then mret accepted
      else if bool_decide (max_tcp ≤ Z.of_nat (size (tcp (manager (core s))))) then mret accepted
      else alloc_tcp i key;; mret accepted
  | Some (src, dst, L4_Tcp false) => mret accepted
  | Some (src, dst, L4_Udp) =>
      sl ← slot_at i;
      let key := SessionKey_new (id sl) Proto_Udp src dst in
      if bool_decide (is_Some (get_udp (manager (core s)) key)) then mret accepted
      else if bool_decide (max_udp ≤ Z.of_nat (size (udp (manager (core s))))) then mret accepted
      else
        r ← alloc_udp i key now;
        match r with
        | Some session => mret (accepted ++ [session])
        | None => mret accepted
        end
  end.

(** One iteration of the outer loop: take the packets out of the device, look
    at each, put them back. *)
Definition pre_pass_slot (now : Instant) (accepted : list Session) (i : nat) : M Shared (list Session) :=
  sl ← slot_at i;
  let packet_sets := ingress (device sl) in
  put_slot i (set_device (set_ingress [] (device sl)) sl);;
  accepted' ← mfold (pre_pass_packet now i) packet_sets accepted;
  sl ← slot_at i;
  put_slot i (set_device (set_ingress (ingress (device sl) ++ packet_sets) (device sl)) sl);;
  mret accepted'.

Definition pre_pass (now : Instant) (accepted : list Session) : M Shared (list Session) :=
  s ← mget;
  mfold (pre_pass_slot now) (seq 0 (length (slots (core s)))) accepted.

(** ** The poll *)

Definition poll_slot (now : Instant) (sl : InterfaceSlot) : InterfaceSlot :=
  let '(ifc, dev, ss) := iface_poll (iface sl) now (device sl) (sockets sl) in
  set_iface ifc (set_device dev (set_sockets ss sl)).

Definition poll_interfaces (now : Instant) : M Shared unit :=
  mmodify (λ s, set_core (set_slots (poll_slot now <$> slots (core s)) (core s)) s).

(** ** The post-pass: TCP *)

(** The life cycle of an entry, given the state of its socket: the new entry
    state and whether the session is accepted now. *)
Definition tcp_next_state (st : TcpState) (sock : State) : TcpState * bool :=
  match st with
  | TcpState_Pending =>
      if bool_decide (sock = State_Established) then (TcpState_Established, true)
      else (TcpState_Pending, false)
  | TcpState_Established =>
      if bool_decide (sock = State_Closed) || bool_decide (sock = State_TimeWait) ||
         bool_decide (sock = State_Listen)
      then (TcpState_Closed, false)
      else (TcpState_Established, false)
  | TcpState_Closed => (TcpState_Closed, false)
  end.

Definition tcp_stream_of (key : SessionKey) (entry : TcpEntry) : WayTcpStream :=
  WayTcpStream_new (interface key) key (handle entry)
    (to_socket_addr (src key)) (to_socket_addr (dst key)).

Definition tcp_transition (acc : list Session * list SessionKey) (kv : SessionKey * TcpEntry)
    : M Shared (list Session * list SessionKey) :=
  let '(accepted, tcp_reap) := acc in
  let '(key, entry) := kv in
  s ← mget;
  match find_slot (slots (core s)) (interface key) with
  | None => mret (accepted, tcp_reap)
  | Some (_, sl) =>
      sock ← get_tcp_socket (sockets sl) (handle entry);
      let '(st', accept) := tcp_next_state (state entry) (tcp_state sock) in
      on_manager (mmodify (λ m,
        set_tcp (<[key := {| handle := handle entry; state := st'; orphaned := orphaned entry |}]> (tcp m)) m));;
      let accepted' :=
        if accept then accepted ++ [Session_Tcp (tcp_stream_of key entry)] else accepted in
      let tcp_reap' :=
        if orphaned entry && bool_decide (tcp_state sock = State_Closed)
        then tcp_reap ++ [key] else tcp_reap in
      mret (accepted', tcp_reap')
  end.

Definition tcp_transitions (accepted : list Session) : M Shared (list Session * list SessionKey) :=
  s ← mget;
  mfold tcp_transition (hash_iter (tcp (manager (core s)))) (accepted, []).

Definition tcp_reap_one (released_total : Z) (key : SessionKey) : M Shared Z :=
  s ← mget;
  match tcp (manager (core s)) !! key with
  | None => mret released_total
  | Some entry =>
      on_manager (mmodify (λ m, set_tcp (delete key (tcp m)) m));;
      match find_slot (slots (core s)) (interface key) with
      | None => mret released_total
      | Some (i, sl) =>
          let size := buffer_size sl in
          '(removed, ss) ← remove_socket (sockets sl) (handle entry);
          let sl := set_sockets ss sl in
          let sl :=
            match removed with
            | Socket_Tcp sock =>
                if bool_decide (Z.of_nat (length (tcp_pool sl)) < tcp_pool_max sl)
                then set_tcp_pool (tcp_pool sl ++ [sock]) sl else sl
            | Socket_Udp _ => sl
            end in
          put_slot i sl;;
          twice ← umul 2 size;
          uadd released_total twice
      end
  end.

(** ** The post-pass: UDP *)

(** [loop { match socket.recv() ... }] *)
Fixpoint drain_socket (fuel : nat) (ifc : InterfaceId) (bound : IpEndpoint) (sock : UdpSocket)
    (routed : list (SessionKey * Bytes)) : M Shared (UdpSocket * list (SessionKey * Bytes)) :=
  match fuel with
  | O => λ _, OutOfFuel
  | S fuel' =>
      match udp_recv sock with
      | (Ok (payload, endpoint), sock') =>
          let src := {| addr := addr endpoint; port := port endpoint |} in
          let key := SessionKey_new ifc Proto_Udp src bound in
          drain_socket fuel' ifc bound sock' (routed ++ [(key, payload)])
      | (Err UdpRecv_Exhausted, sock') => mret (sock', routed)
      | (Err UdpRecv_Truncated, sock') => drain_socket fuel' ifc bound sock' routed
      end
  end.

Definition drain_one (i : nat) (routed : list (SessionKey * Bytes)) (hb : SocketHandle * IpEndpoint)
    : M Shared (list (SessionKey * Bytes)) :=
  let '(h, bound) := hb in
  sl ← slot_at i;
  sock ← get_udp_socket (sockets sl) h;
  '(sock', routed') ← drain_socket (S (length (udp_rx sock))) (id sl) bound sock routed;
  put_slot i (set_sockets (socket_set (sockets sl) h (Socket_Udp sock')) sl);;
  mret routed'.

(** The shared sockets of an interface, in the iteration order of the map. *)
Definition dst_sockets_of (m : SessionManager) (i : InterfaceId) : list (SocketHandle * IpEndpoint) :=
  (λ kv : InterfaceId * IpEndpoint * (SocketHandle * Z), (kv.2.1, kv.1.2)) <$>
    filter (λ kv, kv.1.1 = i) (hash_iter (udp_dst_sockets m)).

Definition drain_slot (routed : list (SessionKey * Bytes)) (i : nat) : M Shared (list (SessionKey * Bytes)) :=
  s ← mget;
  sl ← slot_at i;
  mfold (drain_one i) (dst_sockets_of (manager (core s)) (id sl)) routed.

Definition drain_udp : M Shared (list (SessionKey * Bytes)) :=
  s ← mget;
  mfold drain_slot (seq 0 (length (slots (core s)))) [].

Definition route_one (now : Instant) (_ : unit) (kd : SessionKey * Bytes) : M Shared unit :=
  let '(key, data) := kd in
  s ← mget;
  match udp (manager (core s)) !! key with
  | Some entry =>
      on_queue (queue entry) (push data);;
      on_manager (mmodify (λ m,
        set_udp (<[key := {| socket := socket entry; queue := queue entry; last_activity := now |}]> (udp m)) m))
  | None => mret tt
  end.

Definition expired_keys (now : Instant) (timeout : Duration) (m : SessionManager) : list SessionKey :=
  (filter (λ kv : SessionKey * UdpEntry, timeout < instant_sub now (last_activity kv.2))
     (hash_iter (udp m))).*1.

Definition udp_expire_one (released_total : Z) (key : SessionKey) : M Shared Z :=
  s ← mget;
  match udp (manager (core s)) !! key with
  | None => mret released_total
  | Some entry =>
      left ← leave_udp_session (interface key) key entry;
      match left with
      | None => mret released_total
      | Some cost => uadd released_total cost
      end
  end.

Definition post_pass (now : Instant) (accepted : list Session) : M Shared (list Session) :=
  s ← mget;
  let timeout := cfg_udp_session_timeout (core_config (core s)) in
  '(accepted, tcp_reap) ← tcp_transitions accepted;
  released_total ← mfold tcp_reap_one tcp_reap 0;
  routed ← drain_udp;
  mfold (route_one now) routed tt;;
  timeout ← smoltcp_duration timeout;
  s ← mget;
  released_total ←
    mfold udp_expire_one (expired_keys now timeout (manager (core s))) released_total;
  on_core (release_buffer released_total);;
  mret accepted.

(** ** One cycle *)

Definition collect_egress : M Shared (list EgressPacket) :=
  s ← mget;
  mmodify (λ s, set_core (set_slots
    ((λ sl, set_device (set_egress [] (device sl)) sl) <$> slots (core s)) (core s)) s);;
  mret (mjoin ((λ sl, mkEgressPacket (id sl) <$> egress (device sl)) <$> slots (core s))).

(** The critical section of [poll_once]. *)
Definition poll_locked (now : Instant) : M Shared (list Session * list EgressPacket) :=
  accepted ← pre_pass now [];
  poll_interfaces now;;
  accepted ← post_pass now accepted;
  out ← collect_egress;
  mret (accepted, out).
End Runner.
