(* ===== verification/RunnerCorrect.v ===== *)
(** * The runner: correctness

    A poll cycle keeps the invariant and never panics, for every iteration
    order of the hash maps; and what each of its parts does to the tables. *)
From stdpp Require Import base list gmap.
From S2P Require Import Prelude Types Device Smoltcp Config Manager Core Packet Session Invariant Streams StreamsCorrect Runner.

Local Open Scope Z_scope.

Section RunnerCorrect.
Context `{T : Target, HO : HashOrder, W : Wire, E : Engine, K : Tokio, !EngineLaws, !WireLaws}.

(** ** The pre-pass *)

Definition pending_entry (h : SocketHandle) : TcpEntry :=
  {| handle := h; state := TcpState_Pending; orphaned := false |}.

Lemma Inv_enter_tcp live s (i : nat) sl sl' sk h ss key :
  Inv 0 live s → slots (core s) !! i = Some sl → interface key = id sl → proto key = Proto_Tcp →
  tcp (manager (core s)) !! key = None →
  Z.of_nat (size (tcp (manager (core s)))) < cfg_tcp_max_connections (core_config (core s)) →
  within (cfg_max_buffer_bytes (core_config (core s)))
    (buffer_bytes (core s) + tcp_socket_cost (core_config (core s))) = true →
  socket_add (sockets sl) (Socket_Tcp sk) = (h, ss) →
  id sl' = id sl → sockets sl' = ss → slot_ok (core_config (core s)) sl' →
  Inv 0 live (set_core {| slots := <[i := sl']> (slots (core s));
    manager := set_tcp (<[key := pending_entry h]> (tcp (manager (core s)))) (manager (core s));
    core_config := core_config (core s);
    buffer_bytes := buffer_bytes (core s) + tcp_socket_cost (core_config (core s)) |} s).
Proof.
  intros HI Hn Hi Hp Hk Hmax Hlim Ha Hid Hss Hok. pose proof HI as [C1 C2 C3 C4 C5 C6 C7 C8 C9 C10 C11].
  destruct (kind_of_add _ _ _ _ _ _ sl' (slots_ids _ _ C2) Hn Ha Hid Hss) as [Hfresh Hkinds].
  constructor; simpl; try done.
  - by eapply slots_ok_insert.
  - eapply mgr_ok_proper; [exact Hkinds|done|]. rewrite <- Hi in *. by apply mgr_ok_enter_tcp.
  - eapply live_ok_insert_tcp with (e := pending_entry h); [done|]. by rewrite Hk.
  - rewrite C7. unfold charged. simpl. rewrite map_size_insert_None by done. lia.
  - rewrite map_size_insert_None by done. lia.
  - pose proof (charged_bound _ _ C1 (mgr_refs _ _ C3) C8 C9).
    pose proof (udp_socket_cost_pos _ C1). lia.
Qed.

Definition alloc_tcp_post (s : Shared) (key : SessionKey) (live : list Session) (s' : Shared) : Prop :=
  Inv 0 live s' ∧ frame s s' ∧ queues s' = queues s ∧
  if within (cfg_max_buffer_bytes (core_config (core s)))
       (buffer_bytes (core s) + tcp_socket_cost (core_config (core s)))
  then ∃ h, manager (core s') =
    set_tcp (<[key := pending_entry h]> (tcp (manager (core s)))) (manager (core s)) ∧
    buffer_bytes (core s') = buffer_bytes (core s) + tcp_socket_cost (core_config (core s))
  else s' = s.

Lemma wp_alloc_tcp live s (i : nat) sl key :
  Inv 0 live s → slots (core s) !! i = Some sl → interface key = id sl → proto key = Proto_Tcp →
  tcp (manager (core s)) !! key = None → port (dst key) ≠ 0 →
  Z.of_nat (size (tcp (manager (core s)))) < cfg_tcp_max_connections (core_config (core s)) →
  wp (alloc_tcp i key) (λ _, alloc_tcp_post s key live) s.
Proof.
  intros HI Hn Hi Hp Hk Hport Hmax. pose proof HI as [C1 C2 C3 C4 C5 C6 C7 C8 C9 C10 C11].
  pose proof (slots_ok_lookup _ _ _ _ C2 Hn) as Hslok.
  pose proof (charged_bound _ _ C1 (mgr_refs _ _ C3) C8 C9) as Hb.
  pose proof (udp_socket_cost_pos _ C1). pose proof (charged_nonneg _ (manager (core s)) C1).
  unfold alloc_tcp, alloc_tcp_post, on_core. wp_go. eapply wp_slot_at; [done|]. unfold buffer_size.
  rewrite (slot_buffer _ _ Hslok). wp_go.
  apply wp_umul; [unfold tcp_socket_cost in *; lia|]. fold (tcp_socket_cost (core_config (core s))).
  wp_go. apply wp_reserve_buffer; [lia|].
  destruct (within _ (_ + _)) eqn:Hlim; wp_go; last by rewrite set_core_id.
  eapply wp_slot_at; [done|]. wp_go.
  eapply (wp_mono _ (λ sp s', s' = set_core _ s ∧ sp.2 `sublist_of` tcp_pool sl ∧ tcp_is_open sp.1 = false)).
  { pose proof (slot_pool_closed _ _ Hslok) as Hcl. pose proof (sane_tcp_alloc _ C1).
    destruct Hcl; wp_go; [|by split_and!; [|apply sublist_cons|]].
    apply wp_vec_alloc; [lia|]. wp_go. apply wp_vec_alloc; [lia|]. wp_go.
    apply wp_tcp_socket_new; [by apply sane_tcp_window|]. wp_go. split_and!; [done..|apply tcp_new_not_open]. }
  cbv beta. intros [sock pool] s1 (-> & Hpool & Hnew). simpl in Hpool, Hnew. unfold put_slot. wp_go. simpl.
  edestruct (tcp_listen_ok sock) as [sock' Hlisten]; [done| |rewrite Hlisten]; [done|].
  wp_go. eapply wp_slot_at.
  { simpl. apply list_lookup_insert_eq. by eapply lookup_lt_Some. }
  simpl. destruct (socket_add (sockets sl) (Socket_Tcp sock')) as [h ss] eqn:Ea.
  wp_go. unfold on_manager, on_core. wp_go. simpl. rewrite list_insert_insert_eq.
  split_and!; [| |done|by exists h].
  - apply (Inv_enter_tcp live s i sl (set_sockets ss (set_tcp_pool pool sl)) sock' h ss); try done.
    by eapply slot_ok_ext.
  - split; [done|]. simpl. by eapply list_fmap_insert_same.
Qed.

(** The session object and the entry of a new UDP flow. *)
Definition udp_session_of (key : SessionKey) (h : SocketHandle) (q : QueueId) : WayUdpSession :=
  WayUdpSession_new (interface key) key h q (to_socket_addr (src key)) (to_socket_addr (dst key)).

Definition udp_entry_of (h : SocketHandle) (q : QueueId) (now : Instant) : UdpEntry :=
  {| socket := h; queue := q; last_activity := now |}.

(** The state after a UDP session was entered. *)
Definition enter_udp (s : Shared) (l' : list InterfaceSlot) (h : SocketHandle) (c bytes : Z)
    (key : SessionKey) (now : Instant) : Shared :=
  {| core := {|
       slots := l';
       manager := set_udp (<[key := udp_entry_of h (next_queue s) now]> (udp (manager (core s))))
         (set_udp_dst_sockets (<[(interface key, dst key) := (h, c)]> (udp_dst_sockets (manager (core s))))
            (manager (core s)));
       core_config := core_config (core s);
       buffer_bytes := bytes |};
     poll_notify := poll_notify s; poll_done := poll_done s;
     queues := <[next_queue s := UdpQueue_new]> (queues s); next_queue := S (next_queue s) |}.

Lemma Inv_enter_udp live s l' h c bytes key now :
  Inv 0 live s → udp (manager (core s)) !! key = None → proto key = Proto_Udp →
  Z.of_nat (size (udp (manager (core s)))) < cfg_udp_max_sessions (core_config (core s)) →
  slots_ok (core_config (core s)) l' →
  kinds_eq (kind_of l') (kinds_upd (kind_of (slots (core s))) (interface key) h (Some Kind_Udp)) →
  match udp_dst_sockets (manager (core s)) !! (interface key, dst key) with
  | Some (h0, c0) => h = h0 ∧ c = c0 + 1 ∧ bytes = buffer_bytes (core s)
  | None => c = 1 ∧ kind_of (slots (core s)) (interface key) h = None ∧
      bytes = buffer_bytes (core s) + udp_socket_cost (core_config (core s)) ∧
      within (cfg_max_buffer_bytes (core_config (core s))) bytes = true
  end →
  Inv 0 (live ++ [Session_Udp (udp_session_of key h (next_queue s))]) (enter_udp s l' h c bytes key now).
Proof.
  intros HI Hk Hp Hmax Hl Hkinds Hd. pose proof HI as [C1 C2 C3 C4 C5 C6 C7 C8 C9 C10 C11].
  constructor; simpl; try done.
  - eapply mgr_ok_proper; [exact Hkinds|done|].
    apply (mgr_ok_enter_udp _ _ key (udp_entry_of h (next_queue s) now)); [done..|].
    destruct (udp_dst_sockets _ !! _) as [[h0 c0]|]; naive_solver.
  - by apply queues_ok_enter.
  - eapply live_ok_enter_udp with (k := key) (e := udp_entry_of h (next_queue s) now)
      (m := manager (core s)); try done.
  - unfold charged. simpl. destruct (udp_dst_sockets _ !! _) as [[h0 c0]|] eqn:Ed.
    + destruct Hd as (-> & -> & ->). rewrite C7. unfold charged.
      by rewrite map_size_insert_Some by (by eexists).
    + destruct Hd as (-> & _ & -> & _). rewrite C7, map_size_insert_None by done. unfold charged. lia.
  - rewrite map_size_insert_None by done. lia.
  - destruct (udp_dst_sockets _ !! _) as [[h0 c0]|]; naive_solver.
  - pose proof (charged_bound _ _ C1 (mgr_refs _ _ C3) C8 C9). pose proof (tcp_socket_cost_nonneg _ C1).
    destruct (udp_dst_sockets _ !! _) as [[h0 c0]|]; naive_solver lia.
Qed.

Definition alloc_udp_post (s : Shared) (key : SessionKey) (now : Instant) (live : list Session)
    (r : option Session) (s' : Shared) : Prop :=
  frame s s' ∧
  match r with
  | None => Inv 0 live s' ∧ manager (core s') = manager (core s) ∧ queues s' = queues s ∧
      udp_dst_sockets (manager (core s)) !! (interface key, dst key) = None ∧
      within (cfg_max_buffer_bytes (core_config (core s)))
        (buffer_bytes (core s) + udp_socket_cost (core_config (core s))) = false
  | Some sess => ∃ h q,
      sess = Session_Udp (udp_session_of key h q) ∧ Inv 0 (live ++ [sess]) s' ∧
      tcp (manager (core s')) = tcp (manager (core s)) ∧
      udp (manager (core s')) = <[key := udp_entry_of h q now]> (udp (manager (core s))) ∧
      queues s !! q = None ∧ queues s' = <[q := UdpQueue_new]> (queues s) ∧
      buffer_bytes (core s) ≤ buffer_bytes (core s')
  end.

Lemma alloc_udp_enter_post live s l' h c bytes key now :
  Inv 0 live s →
  Inv 0 (live ++ [Session_Udp (udp_session_of key h (next_queue s))]) (enter_udp s l' h c bytes key now) →
  slot_shape <$> l' = slot_shape <$> slots (core s) → buffer_bytes (core s) ≤ bytes →
  alloc_udp_post s key now live (Some (Session_Udp (udp_session_of key h (next_queue s))))
    (enter_udp s l' h c bytes key now).
Proof.
  intros HI HI' Hs Hb. split; [done|]. exists h, (next_queue s). split_and!; try done.
  destruct (queues s !! next_queue s) eqn:Eq; [|done].
  apply (queues_bound _ _ _ (inv_queues _ _ _ HI)) in Eq. lia.
Qed.

(** The closure adds a bound socket; its buffers can be allocated. *)
Lemma wp_create_udp_socket cfg key Q ss :
  sane_config cfg → port (dst key) ≠ 0 →
  (∀ sk, let '(h, ss') := socket_add ss (Socket_Udp sk) in Q (Some h) ss') →
  wp (create_udp_socket (Z.max (cfg_udp_buffer_packets cfg) 1) (Z.max (cfg_udp_buffer_bytes cfg) (cfg_mtu cfg)) key)
    Q ss.
Proof.
  intros Hs Hport HQ. pose proof (sane_udp_alloc _ Hs). pose proof (sane_udp_packets _ Hs).
  pose proof udp_metadata_small.
  assert (Z.max (cfg_udp_buffer_packets cfg) 1 * udp_metadata_size ≤ isize_max) by nia.
  unfold create_udp_socket. wp_go.
  do 2 (apply wp_vec_alloc; [done|]; wp_go; apply wp_vec_alloc; [lia|]; wp_go).
  edestruct udp_bind_new as [sk Hbind]; [|rewrite Hbind]; [done|]. wp_go. specialize (HQ sk).
  destruct (socket_add ss (Socket_Udp sk)). by wp_go.
Qed.

Lemma wp_alloc_udp live s (i : nat) sl key now :
  Inv 0 live s → slots (core s) !! i = Some sl → interface key = id sl → proto key = Proto_Udp →
  udp (manager (core s)) !! key = None → port (dst key) ≠ 0 →
  Z.of_nat (size (udp (manager (core s)))) < cfg_udp_max_sessions (core_config (core s)) →
  wp (alloc_udp i key now) (alloc_udp_post s key now live) s.
Proof.
  intros HI Hn Hi Hp Hk Hport Hmax. pose proof HI as [C1 C2 C3 C4 C5 C6 C7 C8 C9 C10 C11].
  pose proof (slots_ok_lookup _ _ _ _ C2 Hn) as Hslok. pose proof (sane_udp_bytes _ C1).
  pose proof (charged_bound _ _ C1 (mgr_refs _ _ C3) C8 C9) as Hb.
  pose proof (udp_socket_cost_pos _ C1). pose proof (tcp_socket_cost_nonneg _ C1).
  pose proof (charged_nonneg _ (manager (core s)) C1). pose proof (sane_udp_max _ C1).
  unfold alloc_udp, on_core. wp_go. eapply wp_slot_at; [done|]. wp_go. rewrite (slot_mtu _ _ Hslok).
  apply wp_umul; [unfold udp_socket_cost in *; lia|]. wp_go.
  apply wp_uadd; [unfold udp_socket_cost in *; lia|]. fold (udp_socket_cost (core_config (core s))).
  destruct (udp_dst_sockets (manager (core s)) !! (interface key, dst key)) as [[h c]|] eqn:Ed.
  - rewrite bool_decide_eq_false_2 by done. wp_go. eapply wp_slot_at; [done|].
    unfold on_manager, on_core. wp_go. rewrite <- Hi.
    apply wp_udp_socket_for. rewrite Ed. unfold put_slot. wp_go.
    eapply wp_udp_socket_retain; [done| |].
    { apply (refs_count _ (mgr_refs _ _ C3)) in Ed as [-> _].
      pose proof (refcount_le_size (udp (manager (core s))) (interface key) (dst key)). lia. }
    unfold alloc_queue. wp_go.
    apply (alloc_udp_enter_post live s (<[i := set_sockets (sockets sl) sl]> (slots (core s)))
      h (c + 1) (buffer_bytes (core s)) key now); [done| |by eapply list_fmap_insert_same|done].
    apply Inv_enter_udp; try done.
    + eapply slots_ok_insert; [done..|]. by eapply slot_ok_ext.
    + intros i' h'. rewrite (kind_of_same _ _ sl _ (slots_ids _ _ C2)) by done.
      unfold kinds_upd. case_decide as Hih; [|done]. destruct Hih as [-> ->].
      by apply (mgr_dst _ _ C3) in Ed.
    + by rewrite Ed.
  - rewrite bool_decide_eq_true_2 by done. wp_go. apply wp_reserve_buffer; [lia|].
    destruct (within _ (_ + _)) eqn:Hlim; wp_go; last by rewrite set_core_id.
    eapply wp_slot_at; [done|]. unfold on_manager, on_core. wp_go. rewrite <- Hi.
    apply wp_udp_socket_for. simpl. rewrite Ed.
    apply (wp_create_udp_socket (core_config (core s))); [done..|]. intros sk.
    destruct (socket_add (sockets sl) (Socket_Udp sk)) as [h ss] eqn:Ea.
    unfold put_slot. wp_go. eapply wp_udp_socket_retain; [apply lookup_insert_eq|lia|].
    unfold alloc_queue. wp_go. simpl. rewrite insert_insert_eq.
    destruct (kind_of_add _ _ _ _ _ _ (set_sockets ss sl) (slots_ids _ _ C2) Hn Ea) as [Hfresh Hkinds]; [done..|].
    rewrite <- Hi in *.
    apply (alloc_udp_enter_post live s (<[i := set_sockets ss sl]> (slots (core s)))
      h 1 (buffer_bytes (core s) + udp_socket_cost (core_config (core s))) key now);
      [done| |by eapply list_fmap_insert_same|lia].
    apply Inv_enter_udp; try done; [|by rewrite Ed].
    eapply slots_ok_insert; [done..|]. by eapply slot_ok_ext.
Qed.

(** Tables and budget only grow during the pre-pass. *)
Definition grows : relation Shared := λ s s',
  core_config (core s') = core_config (core s) ∧
  tcp (manager (core s)) ⊆ tcp (manager (core s')) ∧
  udp (manager (core s)) ⊆ udp (manager (core s')) ∧
  buffer_bytes (core s) ≤ buffer_bytes (core s').

#[global] Instance grows_preorder : PreOrder grows.
Proof.
  split; [done|]. intros s1 s2 s3 (? & ? & ? & ?) (? & ? & ? & ?).
  split_and!; [congruence|by etrans..|lia].
Qed.

(** A packet that opens a flow was given a session, unless one of the
    configured limits stands in the way. *)
Definition flow_admitted (s : Shared) (ifc : InterfaceId) (pkt : Bytes) : Prop :=
  let cfg := core_config (core s) in
  match parse_l4 pkt with
  | Some (src, dst, L4_Tcp true) =>
      is_Some (get_tcp (manager (core s)) (SessionKey_new ifc Proto_Tcp src dst)) ∨
      cfg_tcp_max_connections cfg ≤ Z.of_nat (size (tcp (manager (core s)))) ∨
      within (cfg_max_buffer_bytes cfg) (buffer_bytes (core s) + tcp_socket_cost cfg) = false
  | Some (src, dst, L4_Udp) =>
      is_Some (get_udp (manager (core s)) (SessionKey_new ifc Proto_Udp src dst)) ∨
      cfg_udp_max_sessions cfg ≤ Z.of_nat (size (udp (manager (core s)))) ∨
      within (cfg_max_buffer_bytes cfg) (buffer_bytes (core s) + udp_socket_cost cfg) = false
  | _ => True
  end.

Lemma within_mono limit x y : x ≤ y → within limit x = false → within limit y = false.
Proof. destruct limit; simpl; [|done]. rewrite !bool_decide_eq_false. lia. Qed.

Lemma flow_admitted_mono s s' ifc pkt : grows s s' → flow_admitted s ifc pkt → flow_admitted s' ifc pkt.
Proof.
  intros (Hc & Ht & Hu & Hb). unfold flow_admitted, get_tcp, get_udp. rewrite Hc.
  pose proof (map_subseteq_size _ _ Ht). pose proof (map_subseteq_size _ _ Hu).
  destruct (parse_l4 pkt) as [[[src dst] [[|]|]]|]; try done;
    (intros [[e He]|[Hmax|Hlim]];
      [left; exists e; by eapply lookup_weaken|right; left; lia|right; right;
       eapply within_mono; [|done]; lia]).
Qed.

(** The sessions that are handed over for the UDP entries between two tables:
    one for each entry that is new, with its socket and its queue. *)
Definition entry_session (k : SessionKey) (e : UdpEntry) : Session :=
  Session_Udp (udp_session_of k (socket e) (queue e)).

Record sessions_opened (u u' : gmap SessionKey UdpEntry) (new : list Session) : Prop := {
  opened_each k e : u' !! k = Some e → u !! k = None → entry_session k e ∈ new;
  opened_only x : x ∈ new → ∃ k e, x = entry_session k e ∧ u !! k = None ∧ u' !! k = Some e;
  opened_once : NoDup new;
}.

Lemma entry_session_key k e k' e' : entry_session k e = entry_session k' e' → k = k'.
Proof. by intros [= _ ->]. Qed.

Lemma sessions_opened_nil u : sessions_opened u u [].
Proof. constructor; [congruence|by intros x ?%not_elem_of_nil|constructor]. Qed.

Lemma sessions_opened_one u k e :
  u !! k = None → sessions_opened u (<[k := e]> u) [entry_session k e].
Proof.
  intros Hk. constructor; [| |apply NoDup_singleton].
  - intros k' e' [[-> ->]|[Hne He]]%lookup_insert_Some Hn; [by apply list_elem_of_singleton|congruence].
  - intros x ->%list_elem_of_singleton. exists k, e. by rewrite lookup_insert_eq.
Qed.

Lemma sessions_opened_app u1 u2 u3 l1 l2 :
  u1 ⊆ u2 → u2 ⊆ u3 → sessions_opened u1 u2 l1 → sessions_opened u2 u3 l2 → sessions_opened u1 u3 (l1 ++ l2).
Proof.
  intros H12 H23 [E1 O1 N1] [E2 O2 N2]. constructor.
  - intros k e Hk Hn. apply elem_of_app. destruct (u2 !! k) as [e2|] eqn:Hk2; [left|right; by apply E2].
    rewrite (lookup_weaken _ _ _ _ Hk2 H23) in Hk. injection Hk as <-. by apply E1.
  - intros x [(k & e & -> & Hn & Hk)%O1|(k & e & -> & Hn & Hk)%O2]%elem_of_app; exists k, e; split_and!; try done.
    + by eapply lookup_weaken.
    + destruct (u1 !! k) eqn:Hk1; [|done]. by rewrite (lookup_weaken _ _ _ _ Hk1 H12) in Hn.
  - apply NoDup_app. split_and!; [done| |done].
    intros x (k & e & -> & _ & Hk)%O1 (k' & e' & Heq & Hn & _)%O2.
    apply entry_session_key in Heq as ->. congruence.
Qed.

Definition pre_pass_post (s : Shared) (live : list Session) (acc acc' : list Session) (s' : Shared) : Prop :=
  ∃ new, acc' = acc ++ new ∧ Inv 0 (live ++ new) s' ∧ grows s s' ∧
    sessions_opened (udp (manager (core s))) (udp (manager (core s'))) new.

Lemma pre_pass_post_refl s live acc : Inv 0 live s → pre_pass_post s live acc acc s.
Proof. intros HI. exists []. rewrite !app_nil_r. split_and!; [done..|apply sessions_opened_nil]. Qed.

Lemma pre_pass_post_trans s live acc new s1 acc2 s2 :
  Inv 0 (live ++ new) s1 → grows s s1 →
  sessions_opened (udp (manager (core s))) (udp (manager (core s1))) new →
  pre_pass_post s1 (live ++ new) (acc ++ new) acc2 s2 → pre_pass_post s live acc acc2 s2.
Proof.
  intros HI1 Hg1 Ho1 (new2 & -> & HI2 & Hg2 & Ho2). exists (new ++ new2).
  rewrite <- !app_assoc in *. split_and!; [done..|by etrans|].
  eapply sessions_opened_app; [apply Hg1|apply Hg2|done..].
Qed.

Lemma wp_pre_pass_packet live s now (i : nat) sl acc pkt :
  Inv 0 live s → slots (core s) !! i = Some sl →
  wp (pre_pass_packet now i acc pkt) (λ acc' s',
    pre_pass_post s live acc acc' s' ∧ frame s s' ∧ flow_admitted s' (id sl) pkt) s.
Proof.
  intros HI Hn. unfold pre_pass_packet. wp_go.
  pose proof (pre_pass_post_refl s live acc HI) as Hrefl.
  destruct (parse_l4 pkt) as [[[src dst] l4]|] eqn:Ep; [|wp_go; unfold flow_admitted; by rewrite Ep].
  pose proof (parse_l4_dst_port _ _ _ _ Ep) as Hport.
  destruct l4 as [[|]|]; [|wp_go; unfold flow_admitted; by rewrite Ep|];
    wp_go; (eapply wp_slot_at; [done|]); wp_go; set (key := SessionKey_new _ _ _ _);
    (case_bool_decide as Hreg; [wp_go; split_and!; [done..|]; unfold flow_admitted; rewrite Ep; by auto|]);
    (case_bool_decide as Hfull; [wp_go; split_and!; [done..|]; unfold flow_admitted; rewrite Ep; by auto|]);
    apply eq_None_not_Some in Hreg; wp_go.
  - eapply wp_mono; [eapply (wp_alloc_tcp live s i sl key); try done; lia|]. simpl.
    intros _ s1 (HI1 & Hf & Hq & Hw). wp_go.
    destruct (within _ _) eqn:Hlim.
    + destruct Hw as (h & Hm & Hb). split_and!; [|done|].
      * exists []. rewrite !app_nil_r. unfold grows. split_and!; [done|done|apply Hf|..].
        -- rewrite Hm. simpl. by apply insert_subseteq.
        -- by rewrite Hm.
        -- pose proof (tcp_socket_cost_nonneg _ (inv_sane _ _ _ HI)). lia.
        -- rewrite Hm. apply sessions_opened_nil.
      * unfold flow_admitted, get_tcp. rewrite Ep, Hm. left. simpl.
        rewrite lookup_insert_eq. by eexists.
    + subst s1. split_and!; [done..|]. unfold flow_admitted. rewrite Ep. auto.
  - eapply wp_mono; [eapply (wp_alloc_udp live s i sl key); try done; lia|]. simpl.
    intros [sess|] s1 [Hf Hr]; wp_go.
    + destruct Hr as (h & q & -> & HI1 & Ht & Hu & Hq & Hq' & Hb). split_and!; [|done|].
      * eexists [_]. unfold grows. split_and!; [done|done|apply Hf| | |done|].
        -- by rewrite Ht.
        -- rewrite Hu. by apply insert_subseteq.
        -- rewrite Hu. by apply (sessions_opened_one _ key (udp_entry_of h q now)).
      * unfold flow_admitted, get_udp. rewrite Ep, Hu. left. rewrite lookup_insert_eq. by eexists.
    + destruct Hr as (HI1 & Hm & Hq & Hd & Hlim).
      assert (buffer_bytes (core s1) = buffer_bytes (core s)) as Hbb.
      { rewrite (inv_budget _ _ _ HI), (inv_budget _ _ _ HI1), Hm. by rewrite (proj1 Hf). }
      split_and!; [|done|].
      * exists []. rewrite !app_nil_r. unfold grows.
        split_and!; [done|done|apply Hf|by rewrite Hm|by rewrite Hm|lia|rewrite Hm; apply sessions_opened_nil].
      * unfold flow_admitted. rewrite Ep. right; right. by rewrite Hbb, (proj1 Hf).
Qed.

(** The loop over the queued packets of one interface. *)
Lemma wp_pre_pass_packets live s now (i : nat) sl acc pkts :
  Inv 0 live s → slots (core s) !! i = Some sl →
  wp (mfold (pre_pass_packet now i) pkts acc) (λ acc' s',
    pre_pass_post s live acc acc' s' ∧ frame s s' ∧
    ∀ pkt, pkt ∈ pkts → flow_admitted s' (id sl) pkt) s.
Proof.
  intros HI Hn.
  eapply wp_mono; [apply (wp_mfold _ (λ rest acc' s', pre_pass_post s live acc acc' s' ∧ frame s s' ∧
    ∀ pkt, pkt ∈ pkts → pkt ∈ rest ∨ flow_admitted s' (id sl) pkt))|].
  - intros pkt rest acc1 s1 (Hp & Hf & Hadm). destruct Hp as (new & -> & HI1 & Hg1 & Ho1).
    destruct (frame_lookup _ _ _ _ Hf Hn) as (sl1 & Hn1 & Hid1 & _).
    eapply wp_mono; [by apply (wp_pre_pass_packet (live ++ new) s1 now i sl1)|]. simpl.
    intros acc2 s2 (Hp2 & Hf2 & Hadm2). rewrite Hid1 in Hadm2.
    split_and!; [by eapply pre_pass_post_trans|by etrans|].
    destruct Hp2 as (_ & _ & _ & Hg2 & _). intros pkt' Hin.
    destruct (Hadm pkt' Hin) as [[->|Hin']%elem_of_cons|Ha]; [by right|by left|].
    right. by eapply flow_admitted_mono.
  - split_and!; [by apply pre_pass_post_refl|done|auto].
  - simpl. intros acc' s' (Hp & Hf & Hadm). split_and!; [done..|].
    intros pkt Hin. by destruct (Hadm pkt Hin) as [?%not_elem_of_nil|].
Qed.

(** Looking at the packets of an interface puts them back unchanged. *)
Lemma wp_pre_pass_slot live s now (i : nat) sl acc :
  Inv 0 live s → slots (core s) !! i = Some sl →
  wp (pre_pass_slot now acc i) (λ acc' s',
    pre_pass_post s live acc acc' s' ∧ frame s s' ∧
    ∀ pkt, pkt ∈ ingress (device sl) → flow_admitted s' (id sl) pkt) s.
Proof.
  intros HI Hn. pose proof (slots_ok_lookup _ _ _ _ (inv_slots _ _ _ HI) Hn) as Hslok.
  unfold pre_pass_slot. wp_go. eapply wp_slot_at; [done|]. unfold put_slot. wp_go.
  set (sl0 := set_device (set_ingress [] (device sl)) sl).
  set (s0 := set_core _ _).
  assert (Inv 0 live s0) as HI0.
  { apply (Inv_put_slot 0 live s i sl); [done..|by eapply slot_ok_ext|done]. }
  assert (slots (core s0) !! i = Some sl0) as Hn0.
  { apply list_lookup_insert_eq. by eapply lookup_lt_Some. }
  eapply wp_mono; [by apply (wp_pre_pass_packets live s0 now i sl0)|].
  intros acc1 s1 (Hp1 & Hf1 & Hadm). destruct (frame_lookup _ _ _ _ Hf1 Hn0) as (sl1 & Hn1 & Hid1 & Hd1).
  cbv beta. wp_go. eapply wp_slot_at; [done|]. wp_go. rewrite Hd1.
  destruct Hp1 as (new & -> & HI1 & Hg1 & Ho1). split_and!.
  - exists new. split_and!; [done| |done|done].
    apply (Inv_put_slot 0 _ s1 i sl1); [done..| |done].
    eapply slot_ok_ext; [by eapply slots_ok_lookup; [eapply inv_slots|]|done..].
  - split; [apply Hf1|]. simpl. rewrite list_fmap_insert, (proj2 Hf1). simpl.
    rewrite list_fmap_insert, list_insert_insert_eq. apply list_insert_id.
    rewrite list_lookup_fmap, Hn. simpl. unfold slot_shape. simpl. rewrite Hid1.
    by destruct sl as [? ? [] ? ? ? ? ?].
  - intros pkt Hin. eapply flow_admitted_mono; [|by apply Hadm]. done.
Qed.

(** The pre-pass as a whole: no panic, the invariant is kept, every packet is
    still queued where it was, and every flow that a packet opens is admitted
    unless a limit is reached. *)
Lemma wp_pre_pass live s now acc :
  Inv 0 live s →
  wp (pre_pass now acc) (λ acc' s',
    pre_pass_post s live acc acc' s' ∧ frame s s' ∧
    ∀ (i : nat) sl pkt, slots (core s) !! i = Some sl → pkt ∈ ingress (device sl) →
      flow_admitted s' (id sl) pkt) s.
Proof.
  intros HI. unfold pre_pass. wp_go.
  eapply wp_mono; [apply (wp_mfold _ (λ rest acc' s', pre_pass_post s live acc acc' s' ∧ frame s s' ∧
    Forall (λ i, i < length (slots (core s)))%nat rest ∧
    ∀ (i : nat) sl pkt, slots (core s) !! i = Some sl → pkt ∈ ingress (device sl) →
      i ∈ rest ∨ flow_admitted s' (id sl) pkt))|].
  - intros i rest acc1 s1 (Hp & Hf & Hlt & Hadm). apply Forall_cons in Hlt as [Hi Hlt].
    destruct (lookup_lt_is_Some_2 _ _ Hi) as [sl Hn].
    destruct (frame_lookup _ _ _ _ Hf Hn) as (sl1 & Hn1 & Hid1 & Hd1).
    destruct Hp as (new & -> & HI1 & Hg1 & Ho1).
    eapply wp_mono; [by apply (wp_pre_pass_slot (live ++ new) s1 now i sl1)|]. simpl.
    intros acc2 s2 (Hp2 & Hf2 & Hadm2). split_and!; [by eapply pre_pass_post_trans|by etrans|done|].
    destruct Hp2 as (_ & _ & _ & Hg2 & _). intros j slj pkt Hj Hin.
    destruct (Hadm j slj pkt Hj Hin) as [[->|Hin']%elem_of_cons|Ha]; [|by left|].
    + right. rewrite Hn in Hj. injection Hj as ->. rewrite <- Hid1. apply Hadm2. by rewrite Hd1.
    + right. by eapply flow_admitted_mono.
  - split_and!; [by apply pre_pass_post_refl|done| |].
    + apply Forall_forall. intros j Hj. apply elem_of_seq in Hj. lia.
    + intros j sl pkt Hj _. left. apply elem_of_seq. apply lookup_lt_Some in Hj. lia.
  - simpl. intros acc' s' (Hp & Hf & _ & Hadm). split_and!; [done..|].
    intros j sl pkt Hj Hin. by destruct (Hadm j sl pkt Hj Hin) as [?%not_elem_of_nil|].
Qed.

(** ** The poll *)

Lemma poll_slot_fields now sl :
  id (poll_slot now sl) = id sl ∧ mtu (poll_slot now sl) = mtu sl ∧
  tcp_buffer_size (poll_slot now sl) = tcp_buffer_size sl ∧
  tcp_pool_max (poll_slot now sl) = tcp_pool_max sl ∧ tcp_pool (poll_slot now sl) = tcp_pool sl ∧
  device_steps (device sl) (device (poll_slot now sl)) ∧
  ∀ h, socket_kind <$> socket_get (sockets (poll_slot now sl)) h =
       socket_kind <$> socket_get (sockets sl) h.
Proof.
  unfold poll_slot. destruct (iface_poll _ _ _ _) as [[ifc dev] ss] eqn:Ep. simpl.
  split_and!; [done..|by eapply iface_poll_device|intros h; by eapply iface_poll_kind].
Qed.

Lemma find_slot_poll now l i :
  find_slot (poll_slot now <$> l) i = prod_map (λ n, n) (poll_slot now) <$> find_slot l i.
Proof.
  unfold find_slot. rewrite list_find_fmap. f_equal. apply list_find_ext.
  intros sl. simpl. by rewrite (proj1 (poll_slot_fields now sl)).
Qed.

Lemma kind_of_poll now l : kinds_eq (kind_of (poll_slot now <$> l)) (kind_of l).
Proof.
  intros i h. unfold kind_of, sock_of. rewrite find_slot_poll.
  destruct (find_slot l i) as [[n sl]|]; [|done]. simpl. apply poll_slot_fields.
Qed.

Lemma wp_poll_interfaces extra live s now :
  Inv extra live s →
  wp (poll_interfaces now) (λ _ s', Inv extra live s' ∧ manager (core s') = manager (core s) ∧
    queues s' = queues s ∧ slots (core s') = poll_slot now <$> slots (core s) ∧
    core_config (core s') = core_config (core s)) s.
Proof.
  intros HI. unfold poll_interfaces. wp_go. split_and!; [|done..].
  apply Inv_slots; [done| |apply kind_of_poll].
  destruct (inv_slots _ _ _ HI) as [Hnd HF]. constructor.
  - rewrite <- list_fmap_compose. erewrite list_fmap_ext; [exact Hnd|].
    intros n sl _. apply poll_slot_fields.
  - apply Forall_fmap. eapply Forall_impl; [done|]. intros sl Hok. simpl.
    destruct (poll_slot_fields now sl) as (? & ? & ? & ? & Hp & _).
    eapply slot_ok_ext; [done..|]. by rewrite Hp.
Qed.

(** ** The post-pass: TCP life cycle *)

Definition with_tcp (t : gmap SessionKey TcpEntry) (s : Shared) : Shared :=
  set_core (set_manager (set_tcp t (manager (core s))) (core s)) s.

(** The state of the socket behind an entry. *)
Definition entry_state (l : list InterfaceSlot) (k : SessionKey) (e : TcpEntry) : option State :=
  match sock_of l (interface k) (handle e) with
  | Some (Socket_Tcp sk) => Some (tcp_state sk)
  | _ => None
  end.

(** The reference description of the pass: what becomes of an entry, whether
    its session is accepted, whether it is reaped. *)
Definition entry_after (l : list InterfaceSlot) (k : SessionKey) (e : TcpEntry) : TcpEntry :=
  match entry_state l k e with
  | Some st => {| handle := handle e; state := (tcp_next_state (state e) st).1; orphaned := orphaned e |}
  | None => e
  end.

Definition entry_accepted (l : list InterfaceSlot) (k : SessionKey) (e : TcpEntry) : bool :=
  bool_decide (state e = TcpState_Pending ∧ entry_state l k e = Some State_Established).

Definition entry_reaped (l : list InterfaceSlot) (k : SessionKey) (e : TcpEntry) : bool :=
  orphaned e && bool_decide (entry_state l k e = Some State_Closed).

Definition accepted_of (l : list InterfaceSlot) (kv : SessionKey * TcpEntry) : option Session :=
  if entry_accepted l kv.1 kv.2 then Some (Session_Tcp (tcp_stream_of kv.1 kv.2)) else None.

Definition reaped_of (l : list InterfaceSlot) (kv : SessionKey * TcpEntry) : option SessionKey :=
  if entry_reaped l kv.1 kv.2 then Some kv.1 else None.

(** One entry, when its socket is there. *)
Lemma Inv_tcp_entry extra live s k e st :
  Inv extra live s → tcp (manager (core s)) !! k = Some e →
  entry_state (slots (core s)) k e = Some st →
  Inv extra (live ++ option_list (accepted_of (slots (core s)) (k, e)))
    (with_tcp (<[k := entry_after (slots (core s)) k e]> (tcp (manager (core s)))) s).
Proof.
  intros HI Hk Hst. pose proof HI as [C1 C2 C3 C4 C5 C6 C7 C8 C9 C10 C11].
  destruct (mgr_tcp _ _ C3 _ _ Hk) as (Hp & Hkind & Ho).
  assert (handle (entry_after (slots (core s)) k e) = handle e ∧
          orphaned (entry_after (slots (core s)) k e) = orphaned e) as [Hh Ho'].
  { unfold entry_after. by rewrite Hst. }
  assert (state e ≠ TcpState_Pending → state (entry_after (slots (core s)) k e) ≠ TcpState_Pending) as Hs.
  { unfold entry_after. rewrite Hst. unfold tcp_next_state. simpl. destruct (state e); [done| |done].
    by destruct (_ || _). }
  constructor; simpl; try done.
  - eapply mgr_ok_update_tcp; [done..|]. rewrite Ho'. auto.
  - unfold accepted_of, entry_accepted. simpl. case_bool_decide as Hacc; simpl.
    + destruct Hacc as [Hpend Hest]. unfold entry_after. rewrite Hest, Hpend. simpl.
      apply (live_ok_accept_tcp _ _ _ k e (tcp_stream_of k e)); try done.
      destruct (orphaned e) eqn:Eo; [|done]. by destruct (Ho eq_refl).
    + rewrite app_nil_r. eapply (live_ok_insert_tcp _ _ _ k e); [done|]. by rewrite Hk.
  - rewrite C7. unfold charged. simpl. by rewrite map_size_insert_Some by (by eexists).
  - by rewrite map_size_insert_Some by (by eexists).
Qed.

(** The entries of the tables have their sockets. *)
Lemma Inv_entry_state extra live s k e :
  Inv extra live s → tcp (manager (core s)) !! k = Some e →
  ∃ n sl sk, find_slot (slots (core s)) (interface k) = Some (n, sl) ∧
    slots (core s) !! n = Some sl ∧ id sl = interface k ∧
    socket_get (sockets sl) (handle e) = Some (Socket_Tcp sk) ∧
    entry_state (slots (core s)) k e = Some (tcp_state sk).
Proof.
  intros HI Hk. destruct (mgr_tcp _ _ (inv_mgr _ _ _ HI) _ _ Hk) as (_ & Hkind & _).
  destruct (kind_of_tcp _ _ _ Hkind) as (n & sl & sk & Hsl & Hn & Hid & Hg).
  exists n, sl, sk. split_and!; [done..|]. unfold entry_state, sock_of. rewrite Hsl. simpl. by rewrite Hg.
Qed.

Lemma wp_tcp_transition extra live s acc reap k e :
  Inv extra live s → tcp (manager (core s)) !! k = Some e →
  wp (tcp_transition (acc, reap) (k, e)) (λ r s',
    r = (acc ++ option_list (accepted_of (slots (core s)) (k, e)),
         reap ++ option_list (reaped_of (slots (core s)) (k, e))) ∧
    s' = with_tcp (<[k := entry_after (slots (core s)) k e]> (tcp (manager (core s)))) s ∧
    Inv extra (live ++ option_list (accepted_of (slots (core s)) (k, e))) s') s.
Proof.
  intros HI Hk. destruct (Inv_entry_state _ _ _ _ _ HI Hk) as (n & sl & sk & Hsl & Hn & Hid & Hg & Hst).
  pose proof (Inv_tcp_entry _ _ _ _ _ _ HI Hk Hst) as HI'.
  unfold tcp_transition. wp_go. rewrite Hsl. wp_go. eapply wp_get_tcp_socket; [done|].
  unfold accepted_of, reaped_of, entry_accepted, entry_reaped, entry_after in *. simpl in *.
  rewrite Hst in *. unfold on_manager, on_core.
  assert (bool_decide (state e = TcpState_Pending ∧ Some (tcp_state sk) = Some State_Established) =
    (tcp_next_state (state e) (tcp_state sk)).2) as Hacc.
  { unfold tcp_next_state. destruct (state e), (tcp_state sk); reflexivity. }
  rewrite Hacc in *. destruct (tcp_next_state _ _) as [st' accept]. simpl in *.
  replace (bool_decide (Some (tcp_state sk) = Some State_Closed)) with
    (bool_decide (tcp_state sk = State_Closed)) by (by destruct (tcp_state sk)).
  wp_go. split_and!; [|done|done].
  f_equal; [destruct accept; by rewrite ?app_nil_r|].
  by destruct (if orphaned e then _ else _); rewrite ?app_nil_r.
Qed.

(** The table after the pass: every entry is advanced once. *)
Definition tcp_after (l : list InterfaceSlot) (t : gmap SessionKey TcpEntry) : gmap SessionKey TcpEntry :=
  map_imap (λ k e, Some (entry_after l k e)) t.

(** The table after the entries of [visited] were advanced. *)
Definition partly_after (l : list InterfaceSlot) (t t' : gmap SessionKey TcpEntry)
    (visited : list SessionKey) : Prop :=
  ∀ k, t' !! k = if decide (k ∈ visited) then entry_after l k <$> t !! k else t !! k.

Lemma partly_after_step l t t' visited k e :
  partly_after l t t' visited → t !! k = Some e →
  partly_after l t (<[k := entry_after l k e]> t') (visited ++ [k]).
Proof.
  intros Hp Hk k'. destruct (decide (k = k')) as [<-|Hne].
  - rewrite lookup_insert_eq, decide_True by set_solver. by rewrite Hk.
  - rewrite lookup_insert_ne, Hp by done. repeat case_decide; set_solver.
Qed.

Lemma partly_after_all `{!HashOrder} l t t' :
  partly_after l t t' (hash_iter t).*1 → t' = tcp_after l t.
Proof.
  intros Hp. apply map_eq. intros k. rewrite Hp. unfold tcp_after. rewrite map_lookup_imap.
  case_decide as Hin; destruct (t !! k) as [e|] eqn:Ek; simpl; try done.
  exfalso. apply Hin. apply list_elem_of_fmap. exists (k, e). by rewrite elem_of_hash_iter.
Qed.

Lemma wp_tcp_transitions extra live s acc :
  Inv extra live s →
  wp (tcp_transitions acc) (λ r s',
    r = (acc ++ omap (accepted_of (slots (core s))) (hash_iter (tcp (manager (core s)))),
         omap (reaped_of (slots (core s))) (hash_iter (tcp (manager (core s))))) ∧
    s' = with_tcp (tcp_after (slots (core s)) (tcp (manager (core s)))) s ∧
    Inv extra (live ++ omap (accepted_of (slots (core s))) (hash_iter (tcp (manager (core s))))) s') s.
Proof.
  intros HI. unfold tcp_transitions. wp_go.
  set (l := slots (core s)). set (t := tcp (manager (core s))). set (kvs := hash_iter t).
  eapply wp_mono; [apply (wp_mfold _ (λ rest r s', ∃ visited t', kvs = visited ++ rest ∧
    r = (acc ++ omap (accepted_of l) visited, omap (reaped_of l) visited) ∧ s' = with_tcp t' s ∧
    Inv extra (live ++ omap (accepted_of l) visited) s' ∧ partly_after l t t' visited.*1))|].
  - intros [k e] rest r s1 (visited & t' & Hkvs & -> & -> & HI1 & Hpart).
    assert (t !! k = Some e) as Hk.
    { apply elem_of_hash_iter. fold kvs. rewrite Hkvs. set_solver. }
    assert (t' !! k = Some e) as Hk'.
    { rewrite Hpart, decide_False; [done|]. pose proof (hash_iter_NoDup_fst t) as Hnd.
      fold kvs in Hnd. rewrite Hkvs, fmap_app in Hnd. simpl in Hnd.
      apply NoDup_app in Hnd as (_ & Hnd & _). intros Hin. apply (Hnd k Hin). set_solver. }
    eapply wp_mono; [by eapply (wp_tcp_transition extra _ (with_tcp t' s))|]. simpl.
    intros r s2 (-> & -> & HI2). exists (visited ++ [(k, e)]), (<[k := entry_after l k e]> t').
    assert (∀ {B} (f : _ → option B), omap f (visited ++ [(k, e)]) = omap f visited ++ option_list (f (k, e))) as Homap.
    { intros B f. rewrite omap_app. simpl. by destruct (f (k, e)). }
    rewrite !Homap, <- !app_assoc in *. split_and!; [done..|]. rewrite fmap_app.
    by apply partly_after_step.
  - exists [], t. simpl. rewrite !app_nil_r. split_and!; [done..|by destruct s as [[? []]]| |].
    + unfold with_tcp. by destruct s as [[? []]].
    + intros k. by rewrite decide_False by set_solver.
  - intros r s' (visited & t' & Hkvs & -> & -> & HI' & Hpart). rewrite app_nil_r in Hkvs. subst visited.
    split_and!; [done| |done]. f_equal. by apply partly_after_all.
Qed.

(** *** Reaping *)

Lemma Inv_leave_tcp extra live s (n : nat) sl sl' k e :
  Inv extra live s → tcp (manager (core s)) !! k = Some e → orphaned e = true →
  slots (core s) !! n = Some sl → id sl = interface k →
  id sl' = id sl → slot_ok (core_config (core s)) sl' →
  (∀ h', socket_get (sockets sl') h' = if decide (h' = handle e) then None else socket_get (sockets sl) h') →
  Inv (extra + tcp_socket_cost (core_config (core s))) live
    (set_core {| slots := <[n := sl']> (slots (core s));
       manager := set_tcp (delete k (tcp (manager (core s)))) (manager (core s));
       core_config := core_config (core s); buffer_bytes := buffer_bytes (core s) |} s).
Proof.
  intros HI Hk Ho Hn Hi Hid Hok Hg. pose proof HI as [C1 C2 C3 C4 C5 C6 C7 C8 C9 C10 C11].
  pose proof (tcp_socket_cost_nonneg _ C1).
  assert (size (tcp (manager (core s))) ≠ 0)%nat.
  { apply map_size_non_empty_iff. intros He. by rewrite He in Hk. }
  constructor; simpl; try done.
  - by eapply slots_ok_insert.
  - eapply mgr_ok_proper; [|done|by eapply mgr_ok_leave_tcp]. rewrite <- Hi.
    eapply kind_of_remove; [apply C2|done..].
  - by eapply live_ok_leave_tcp.
  - lia.
  - rewrite C7. unfold charged. simpl. rewrite map_size_delete_Some by (by eexists).
    rewrite Nat2Z.inj_pred, <- Z.sub_1_r by lia. ring.
  - rewrite map_size_delete_Some by (by eexists). lia.
Qed.

(** The keys the reaper is given. *)
Definition reap_ok (s : Shared) (keys : list SessionKey) : Prop :=
  NoDup keys ∧ ∀ k, k ∈ keys → ∃ e, tcp (manager (core s)) !! k = Some e ∧ orphaned e = true ∧
    entry_state (slots (core s)) k e = Some State_Closed.

(** The UDP sockets are left alone. *)
Definition udp_kept : relation (list InterfaceSlot) := λ l l',
  ∀ i h sk, sock_of l i h = Some (Socket_Udp sk) → sock_of l' i h = Some (Socket_Udp sk).

#[global] Instance udp_kept_preorder : PreOrder udp_kept.
Proof. split; [by intros l i h sk|]. intros l1 l2 l3 H1 H2 i h sk Hs. by apply H2, H1. Qed.

Lemma wp_tcp_reap_one live s k rest released :
  Inv released live s → reap_ok s (k :: rest) →
  wp (tcp_reap_one released k) (λ released' s',
    released' = released + tcp_socket_cost (core_config (core s)) ∧
    Inv released' live s' ∧ reap_ok s' rest ∧ frame s s' ∧ queues s' = queues s ∧
    manager (core s') = set_tcp (delete k (tcp (manager (core s)))) (manager (core s)) ∧
    udp_kept (slots (core s)) (slots (core s'))) s.
Proof.
  intros HI [Hnd Hre]. destruct (Hre k) as (e & Hk & Ho & Hst0); [set_solver|].
  destruct (Inv_entry_state _ _ _ _ _ HI Hk) as (n & sl & sk & Hsl & Hn & Hid & Hg & Hst).
  pose proof HI as [C1 C2 C3 C4 C5 C6 C7 C8 C9 C10 C11].
  pose proof (slots_ok_lookup _ _ _ _ C2 Hn) as Hslok.
  destruct (socket_remove_some _ _ _ Hg) as (ss & Hrem & Hget).
  unfold tcp_reap_one, on_manager, on_core. wp_go. rewrite Hk. wp_go. rewrite Hsl. unfold remove_socket.
  rewrite Hrem. unfold put_slot. wp_go. unfold buffer_size. rewrite (slot_buffer _ _ Hslok).
  set (sl' := if bool_decide _ then _ else _).
  assert (id sl' = id sl ∧ sockets sl' = ss ∧ slot_shape sl' = slot_shape sl) as (Hid' & Hss & Hshape).
  { subst sl'. by case_bool_decide. }
  assert (slot_ok (core_config (core s)) sl') as Hok'.
  { subst sl'. case_bool_decide as Hlen; [|by eapply slot_ok_ext]. simpl in Hlen.
    destruct Hslok as [D1 D2 D3 D4 D5]. constructor; simpl; try done.
    - rewrite length_app. simpl. lia.
    - apply Forall_app. split; [done|]. constructor; [|done]. apply tcp_closed_not_open. congruence. }
  pose proof (Inv_leave_tcp released live s n sl sl' k e) as HI'.
  specialize (HI' HI Hk Ho Hn Hid Hid' Hok'). rewrite Hss in HI'. specialize (HI' Hget).
  pose proof (charged_nonneg _ (manager (core s)) C1) as Hc0.
  pose proof (inv_budget _ _ _ HI') as Hb'. simpl in Hb'.
  pose proof (charged_nonneg (core_config (core s)) (set_tcp (delete k (tcp (manager (core s)))) (manager (core s))) C1).
  apply wp_umul; [unfold tcp_socket_cost in *; lia|]. fold (tcp_socket_cost (core_config (core s))).
  apply wp_uadd; [lia|]. split_and!; [done|done| |split; [done|]|done|done|].
  - apply NoDup_cons in Hnd as [Hnotin Hnd]. split; [done|]. intros k' Hin.
    destruct (Hre k') as (e' & Hk' & Ho' & Hst'); [set_solver|]. exists e'.
    assert (k ≠ k') as Hne by (intros ->; done). simpl.
    split_and!; [by rewrite lookup_delete_ne|done|]. rewrite <- Hst'.
    unfold entry_state. rewrite (sock_of_insert _ n sl) by (done || apply C2).
    case_decide as Hii; [|done]. rewrite Hii, (sock_of_slot _ n) by (done || apply C2).
    rewrite Hss, Hget. case_decide as Hh; [|done]. destruct Hne.
    eapply (mgr_tcp_inj _ _ C3); [done..| |done]. congruence.
  - simpl. by eapply list_fmap_insert_same.
  - intros i h sku. simpl. rewrite (sock_of_insert _ n sl) by (done || apply C2).
    case_decide as Hi; [|done]. rewrite Hi, (sock_of_slot _ n), Hss, Hget by (done || apply C2).
    case_decide; [|done]. congruence.
Qed.

(** The keys that the pass over the table collects. *)
Lemma reap_ok_after `{!HashOrder} s :
  let l := slots (core s) in let t := tcp (manager (core s)) in
  reap_ok (with_tcp (tcp_after l t) s) (omap (reaped_of l) (hash_iter t)).
Proof.
  intros l t. split.
  - pose proof (hash_iter_NoDup_fst t) as Hnd. induction (hash_iter t) as [|[k e] kvs IH]; [constructor|].
    simpl in *. apply NoDup_cons in Hnd as [Hnotin Hnd]. unfold reaped_of at 1. simpl.
    destruct (entry_reaped l k e); [|by apply IH]. constructor; [|by apply IH].
    intros ([k' e'] & Hin & Hk')%list_elem_of_omap. unfold reaped_of in Hk'. simpl in Hk'.
    destruct (entry_reaped l k' e'); [|done]. injection Hk' as ->. apply Hnotin.
    apply list_elem_of_fmap. by exists (k, e').
  - intros k ([k' e] & Hin & Hk)%list_elem_of_omap. apply elem_of_hash_iter in Hin.
    unfold reaped_of, entry_reaped in Hk. simpl in Hk.
    destruct (orphaned e) eqn:Ho; [|done]. simpl in Hk. case_bool_decide as Hst; [|done].
    injection Hk as ->. exists (entry_after l k e). simpl. unfold tcp_after. rewrite map_lookup_imap, Hin.
    split_and!; [done|..]; unfold entry_after; by rewrite Hst.
Qed.

(** The loop: exactly the given keys go, and each gives back the cost of a
    socket. *)
Lemma wp_tcp_reap live s keys :
  Inv 0 live s → reap_ok s keys →
  wp (mfold tcp_reap_one keys 0) (λ released s',
    released = tcp_socket_cost (core_config (core s)) * Z.of_nat (length keys) ∧
    Inv released live s' ∧ frame s s' ∧ queues s' = queues s ∧
    manager (core s') = set_tcp (filter (λ kv, kv.1 ∉ keys) (tcp (manager (core s)))) (manager (core s)) ∧
    udp_kept (slots (core s)) (slots (core s'))) s.
Proof.
  intros HI Hre.
  eapply wp_mono; [apply (wp_mfold _ (λ rest released s', ∃ done_, keys = done_ ++ rest ∧
    released = tcp_socket_cost (core_config (core s)) * Z.of_nat (length done_) ∧
    Inv released live s' ∧ reap_ok s' rest ∧ frame s s' ∧ queues s' = queues s ∧
    manager (core s') = set_tcp (filter (λ kv, kv.1 ∉ done_) (tcp (manager (core s)))) (manager (core s)) ∧
    udp_kept (slots (core s)) (slots (core s'))))|].
  - intros k rest released s1 (done_ & Hkeys & Hrel & HI1 & Hre1 & Hf1 & Hq1 & Hm1 & Hu1).
    eapply wp_mono; [by apply wp_tcp_reap_one|]. simpl.
    intros released2 s2 (Hrel2 & HI2 & Hre2 & Hf2 & Hq2 & Hm2 & Hu2).
    exists (done_ ++ [k]). rewrite <- app_assoc. split_and!; [done| |done|done|by etrans|congruence| |by etrans].
    + rewrite Hrel2, Hrel, (proj1 Hf1), length_app. simpl. lia.
    + rewrite Hm2, Hm1. unfold set_tcp. simpl. f_equal. apply map_eq. intros k'.
      rewrite lookup_delete, !map_lookup_filter.
      destruct (tcp (manager (core s)) !! k') as [e|]; [|by case_decide].
      simpl. destruct (decide (k = k')) as [<-|Hne]; repeat case_guard; set_solver.
  - exists []. simpl. split_and!; [done|lia|done|done|done|done| |done].
    rewrite map_filter_id; [by destruct (manager (core s))|]. set_solver.
  - intros released s' (done_ & -> & ? & ? & _ & ? & ? & ? & ?). rewrite app_nil_r. done.
Qed.
End RunnerCorrect.
