(* ===== verification/UdpCorrect.v ===== *)
(** * UDP redistribution and expiry: correctness

    The post-pass drains every shared UDP socket, routes each datagram to the
    session of its (source, destination) pair, and removes the sessions that
    were idle for too long. Its abstract specification is a table of inboxes,
    one per registered session: [deliver] appends a datagram to the inbox of
    its key and drops it if there is none. *)
From stdpp Require Import base list gmap.
From S2P Require Import Prelude Types Device Smoltcp Config Manager Core Packet Session Invariant Streams StreamsCorrect Runner RunnerCorrect.

Local Open Scope Z_scope.

(** ** The abstract table *)

Abbreviation Inboxes := (gmap SessionKey (list Bytes)) (only parsing).

Definition deliver (boxes : Inboxes) (kd : SessionKey * Bytes) : Inboxes :=
  alter (λ box, box ++ [kd.2]) kd.1 boxes.

Definition deliver_all (boxes : Inboxes) (l : list (SessionKey * Bytes)) : Inboxes :=
  foldl deliver boxes l.

(** The datagrams of a list that carry a key. *)
Definition for_key (k : SessionKey) (l : list (SessionKey * Bytes)) : list Bytes :=
  (filter (λ kd, kd.1 = k) l).*2.

(** An inbox ends with the datagrams routed to its key, in order; no other
    inbox is touched and none is created. *)
Lemma lookup_deliver_all boxes l k :
  deliver_all boxes l !! k = (λ box, box ++ for_key k l) <$> boxes !! k.
Proof.
  revert boxes. unfold for_key. induction l as [|[k' d] l IH]; intros boxes; simpl.
  - destruct (boxes !! k); simpl; [by rewrite app_nil_r|done].
  - rewrite IH. unfold deliver. simpl. rewrite lookup_alter.
    destruct (decide (k' = k)) as [->|Hne].
    + rewrite filter_cons_True by done. destruct (boxes !! k); simpl; [|done].
      by rewrite <- app_assoc.
    + rewrite filter_cons_False by done. done.
Qed.

Section UdpCorrect.
Context `{T : Target, HO : HashOrder, W : Wire, E : Engine, K : Tokio, !EngineLaws, !WireLaws}.

(** The inboxes and the activity stamps of the registered sessions. *)
Definition inboxes (s : Shared) : Inboxes :=
  omap (λ e, inner <$> queues s !! queue e) (udp (manager (core s))).

Definition activity (s : Shared) : gmap SessionKey Instant := last_activity <$> udp (manager (core s)).

(** ** Draining a socket *)

Definition datagrams_of (ifc : InterfaceId) (bound : IpEndpoint)
    (rx : list (option (Bytes * IpEndpoint))) : list (SessionKey * Bytes) :=
  omap (fmap (λ m, (SessionKey_new ifc Proto_Udp m.2 bound, m.1))) rx.

(** The loop ends, and gives every datagram of the receive buffer. *)
Lemma drain_socket_all fuel ifc bound sock routed s :
  (length (udp_rx sock) < fuel)%nat →
  ∃ sock', drain_socket fuel ifc bound sock routed s =
    Done ((sock', routed ++ datagrams_of ifc bound (udp_rx sock)), s) ∧ udp_rx sock' = [].
Proof.
  revert sock routed. induction fuel as [|fuel IH]; intros sock routed Hlen; [lia|]. simpl.
  destruct (udp_rx sock) as [|[m|] q] eqn:Erx.
  - rewrite (udp_recv_nil _ Erx). exists sock. unfold datagrams_of. simpl. by rewrite app_nil_r.
  - destruct (udp_recv_some _ _ _ Erx) as (sock1 & Hr & Hrx). rewrite Hr. destruct m as [payload ep].
    destruct (IH sock1 (routed ++ [(SessionKey_new ifc Proto_Udp
      {| addr := addr ep; port := port ep |} bound, payload)])) as (sock' & Hd & Hnil).
    { rewrite Hrx. simpl in Hlen. lia. }
    exists sock'. split; [|done]. rewrite Hd, Hrx, <- app_assoc. by destruct ep.
  - destruct (udp_recv_truncated _ _ Erx) as (sock1 & Hr & Hrx). rewrite Hr.
    destruct (IH sock1 routed) as (sock' & Hd & Hnil).
    { rewrite Hrx. simpl in Hlen. lia. }
    exists sock'. split; [|done]. by rewrite Hd, Hrx.
Qed.

(** ** Draining the shared sockets *)

(** The datagrams that wait in the shared sockets of an interface, and of all
    of them. *)
Definition socket_pending (sl : InterfaceSlot) (hb : SocketHandle * IpEndpoint) : list (SessionKey * Bytes) :=
  match socket_get (sockets sl) hb.1 with
  | Some (Socket_Udp sk) => datagrams_of (id sl) hb.2 (udp_rx sk)
  | _ => []
  end.

Definition slot_pending (m : SessionManager) (sl : InterfaceSlot) : list (SessionKey * Bytes) :=
  dst_sockets_of m (id sl) ≫= socket_pending sl.

Definition pending (s : Shared) : list (SessionKey * Bytes) :=
  slots (core s) ≫= slot_pending (manager (core s)).

Definition with_slots (l : list InterfaceSlot) (s : Shared) : Shared :=
  set_core (set_slots l (core s)) s.

(** [sl'] is [sl] with the sockets of [hs] drained. *)
Record drained (hs : list SocketHandle) (sl sl' : InterfaceSlot) : Prop := {
  drained_shape : slot_shape sl' = slot_shape sl;
  drained_in h : h ∈ hs → ∃ sk, socket_get (sockets sl') h = Some (Socket_Udp sk) ∧ udp_rx sk = [];
  drained_out h : h ∉ hs → socket_get (sockets sl') h = socket_get (sockets sl) h;
}.

Lemma drained_nil sl : drained [] sl sl.
Proof. constructor; [done| |done]. intros h Hin. by apply not_elem_of_nil in Hin. Qed.

Lemma drained_step hs sl sl' h sk0 sk :
  drained hs sl sl' → socket_get (sockets sl') h = Some sk0 → udp_rx sk = [] →
  drained (hs ++ [h]) sl (set_sockets (socket_set (sockets sl') h (Socket_Udp sk)) sl').
Proof.
  intros [D1 D2 D3] Hg Hrx. constructor; simpl; [done|..].
  - intros h' Hin. rewrite socket_get_set by (by eexists). case_decide as Hh; [by exists sk|].
    apply D2. set_solver.
  - intros h' Hnin. rewrite socket_get_set by (by eexists). rewrite decide_False by set_solver.
    apply D3. set_solver.
Qed.

Lemma wp_drain_one live extra s (i : nat) sl h bound routed sk :
  Inv extra live s → slots (core s) !! i = Some sl →
  socket_get (sockets sl) h = Some (Socket_Udp sk) →
  wp (drain_one i routed (h, bound)) (λ r s',
    r = routed ++ datagrams_of (id sl) bound (udp_rx sk) ∧
    ∃ sk', udp_rx sk' = [] ∧ Inv extra live s' ∧
      s' = with_slots (<[i := set_sockets (socket_set (sockets sl) h (Socket_Udp sk')) sl]>
             (slots (core s))) s) s.
Proof.
  intros HI Hn Hg. unfold drain_one. wp_go. eapply wp_slot_at; [done|]. wp_go.
  eapply wp_get_udp_socket; [done|]. wp_go.
  destruct (drain_socket_all (S (length (udp_rx sk))) (id sl) bound sk routed s) as (sk' & Hd & Hnil); [lia|].
  apply wp_done. do 2 eexists. split; [exact Hd|]. cbv beta iota. unfold put_slot. wp_go.
  split; [done|]. exists sk'. split_and!; [done| |done]. by eapply Inv_put_socket.
Qed.

(** The handles of an interface's shared sockets are those of distinct UDP
    sockets. *)
Lemma dst_sockets_of_handles kinds m i :
  mgr_ok kinds m → NoDup (dst_sockets_of m i).*1 ∧
    ∀ h b, (h, b) ∈ dst_sockets_of m i ↔ ∃ c, udp_dst_sockets m !! (i, b) = Some (h, c).
Proof.
  intros Hok.
  assert (∀ h b, (h, b) ∈ dst_sockets_of m i ↔ ∃ c, udp_dst_sockets m !! (i, b) = Some (h, c)) as Hin.
  { intros h b. unfold dst_sockets_of. rewrite list_elem_of_fmap. split.
    - intros ([[i' b'] [h' c]] & [= -> ->] & [Hi Hin]%list_elem_of_filter). simpl in Hi. subst i'.
      apply elem_of_hash_iter in Hin. by exists c.
    - intros [c Hc]. exists (i, b, (h, c)). split; [done|]. apply list_elem_of_filter.
      by rewrite elem_of_hash_iter. }
  split; [|done]. unfold dst_sockets_of. rewrite <- list_fmap_compose.
  apply NoDup_fmap_2_strong; [|apply NoDup_filter; eapply NoDup_fmap_1, hash_iter_NoDup_fst].
  intros [[i1 d1] [h1 c1]] [[i2 d2] [h2 c2]] [Hi1 H1]%list_elem_of_filter [Hi2 H2]%list_elem_of_filter.
  simpl in *. intros ->. subst. rewrite elem_of_hash_iter in H1, H2.
  assert (d1 = d2) as -> by (by eapply (mgr_dst_inj _ _ Hok)). congruence.
Qed.

Lemma wp_drain_slot live extra s (i : nat) sl routed :
  Inv extra live s → slots (core s) !! i = Some sl →
  wp (drain_slot routed i) (λ r s', r = routed ++ slot_pending (manager (core s)) sl ∧
    Inv extra live s' ∧ ∃ sl', drained (dst_sockets_of (manager (core s)) (id sl)).*1 sl sl' ∧
      s' = with_slots (<[i := sl']> (slots (core s))) s) s.
Proof.
  intros HI Hn. unfold drain_slot. wp_go. eapply wp_slot_at; [done|].
  destruct (dst_sockets_of_handles _ _ (id sl) (inv_mgr _ _ _ HI)) as [Hnd Hdst].
  unfold slot_pending. set (hbs := dst_sockets_of (manager (core s)) (id sl)) in *.
  eapply wp_mono; [apply (wp_mfold _ (λ rest r s', ∃ done_ sl', hbs = done_ ++ rest ∧
    r = routed ++ (done_ ≫= socket_pending sl) ∧ Inv extra live s' ∧
    drained done_.*1 sl sl' ∧ s' = with_slots (<[i := sl']> (slots (core s))) s))|].
  - intros [h b] rest r s1 (done_ & sl' & Hhbs & -> & HI1 & Hdr & ->).
    assert (h ∉ done_.*1) as Hnin.
    { rewrite Hhbs, fmap_app in Hnd. apply NoDup_app in Hnd as (_ & Hnd & _).
      intros Hin. apply (Hnd h Hin). set_solver. }
    assert (∃ sk, socket_get (sockets sl) h = Some (Socket_Udp sk)) as [sk Hg].
    { destruct (Hdst h b) as [[c Hc] _]; [rewrite Hhbs; set_solver|].
      apply (mgr_dst _ _ (inv_mgr _ _ _ HI)) in Hc. rewrite (kind_of_slot _ i) in Hc
        by (done || apply (inv_slots _ _ _ HI)).
      apply fmap_Some in Hc as ([|sk] & Hsk & [=]). by exists sk. }
    pose proof (drained_out _ _ _ Hdr h Hnin) as Hg'. rewrite Hg in Hg'.
    assert (id sl' = id sl) as Hid by (pose proof (drained_shape _ _ _ Hdr); unfold slot_shape in *; congruence).
    eapply wp_mono; [eapply (wp_drain_one live extra _ i sl'); [done| |done]|].
    { simpl. apply list_lookup_insert_eq. by eapply lookup_lt_Some. }
    cbv beta. intros r s2 (-> & sk' & Hrx & HI2 & ->). eexists (done_ ++ [(h, b)]), _.
    split_and!; [by rewrite <- app_assoc| |done| |].
    + rewrite bind_app, <- app_assoc. f_equal. f_equal. simpl. unfold socket_pending. simpl.
      by rewrite Hg, Hid, app_nil_r.
    + rewrite fmap_app. by eapply drained_step.
    + unfold with_slots. simpl. by rewrite list_insert_insert_eq.
  - exists [], sl. simpl. rewrite app_nil_r. split_and!; [done|done|done|apply drained_nil|].
    unfold with_slots. rewrite list_insert_id by done. by destruct s as [[]].
  - intros r s' (done_ & sl' & -> & -> & HI' & Hdr & ->). rewrite app_nil_r. split_and!; [done..|].
    by exists sl'.
Qed.

(** Every slot of [l] is drained in [l'], but for the positions of [rest]. *)
Definition all_drained (m : SessionManager) (rest : list nat) (l l' : list InterfaceSlot) : Prop :=
  length l' = length l ∧ ∀ (j : nat) sl, l !! j = Some sl →
    ∃ sl', l' !! j = Some sl' ∧
      if decide (j ∈ rest) then sl' = sl else drained (dst_sockets_of m (id sl)).*1 sl sl'.

Lemma all_drained_step m (i : nat) rest l l' sl sl' :
  all_drained m (i :: rest) l l' → i ∉ rest → l !! i = Some sl →
  drained (dst_sockets_of m (id sl)).*1 sl sl' →
  all_drained m rest l (<[i := sl']> l').
Proof.
  intros [Hlen Hall] Hnin Hi Hdr. split; [by rewrite length_insert|]. intros j slj Hj.
  pose proof (lookup_lt_Some _ _ _ Hj) as Hlt.
  destruct (decide (i = j)) as [<-|Hne].
  - exists sl'. rewrite list_lookup_insert_eq by lia. rewrite decide_False by done. split; [done|].
    congruence.
  - rewrite list_lookup_insert_ne by done. destruct (Hall j slj Hj) as (slj' & Hj' & Hd).
    exists slj'. split; [done|].
    destruct (decide (j ∈ rest)); [by rewrite decide_True in Hd by set_solver|].
    by rewrite decide_False in Hd by set_solver.
Qed.

Lemma all_drained_shape m l l' : all_drained m [] l l' → slot_shape <$> l' = slot_shape <$> l.
Proof.
  intros [Hlen Hall]. apply list_eq. intros j. rewrite !list_lookup_fmap.
  destruct (l !! j) as [sl|] eqn:Hj.
  - destruct (Hall j sl Hj) as (sl' & -> & Hd). rewrite decide_False in Hd by set_solver.
    simpl. f_equal. apply Hd.
  - apply lookup_ge_None in Hj. rewrite <- Hlen in Hj. by apply lookup_ge_None in Hj as ->.
Qed.

Lemma bind_seq {A B} (f : A → list B) (l : list A) :
  seq 0 (length l) ≫= (λ j, from_option f [] (l !! j)) = l ≫= f.
Proof.
  induction l as [|x l IH]; [done|]. cbn [length seq]. rewrite !bind_cons. cbn. f_equal.
  rewrite <- IH, <- fmap_S_seq, list_fmap_bind. done.
Qed.

(** The drain of all interfaces gives exactly the pending datagrams and leaves
    every shared socket empty. *)
Lemma wp_drain_udp live extra s :
  Inv extra live s →
  wp drain_udp (λ r s', r = pending s ∧ Inv extra live s' ∧
    ∃ l', s' = with_slots l' s ∧ all_drained (manager (core s)) [] (slots (core s)) l') s.
Proof.
  intros HI. unfold drain_udp. wp_go. set (l := slots (core s)). set (m := manager (core s)).
  set (at_ := λ j : nat, from_option (slot_pending m) [] (l !! j)).
  assert (seq 0 (length l) ≫= at_ = pending s) as Htot.
  { unfold pending. fold l m. apply bind_seq. }
  eapply wp_mono; [apply (wp_mfold _ (λ rest r s', r ++ (rest ≫= at_) = pending s ∧ Inv extra live s' ∧
    NoDup rest ∧ Forall (λ j, j < length l)%nat rest ∧
    ∃ l', s' = with_slots l' s ∧ all_drained m rest l l'))|].
  - intros i rest r s1 (Hr & HI1 & Hnd & Hlt & l1 & -> & Hall).
    apply NoDup_cons in Hnd as [Hnin Hnd]. apply Forall_cons in Hlt as [Hi Hlt].
    destruct (lookup_lt_is_Some_2 _ _ Hi) as [sl Hn].
    pose proof (proj2 Hall i sl Hn) as (sl1 & Hn1 & Hd). rewrite decide_True in Hd by set_solver. subst sl1.
    eapply wp_mono; [by eapply (wp_drain_slot live extra _ i sl)|]. cbv beta.
    intros r2 s2 (-> & HI2 & sl2 & Hdr & ->). split_and!; [|done|done|done|].
    + rewrite <- Hr, bind_cons, <- app_assoc. f_equal. f_equal. unfold at_. by rewrite Hn.
    + exists (<[i := sl2]> l1). split; [done|]. by eapply all_drained_step.
  - simpl. split_and!; [done|done|apply NoDup_seq| |].
    + apply Forall_forall. intros j Hj. apply elem_of_seq in Hj. lia.
    + exists l. split; [by destruct s as [[]]|]. split; [done|]. intros j sl Hj. exists sl. split; [done|].
      rewrite decide_True; [done|]. apply elem_of_seq. apply lookup_lt_Some in Hj. lia.
  - intros r s' (Hr & HI' & _ & _ & l' & -> & Hall). simpl in Hr. rewrite app_nil_r in Hr.
    split_and!; [done..|]. by exists l'.
Qed.

(** In the drained slots every shared socket is empty. *)
Lemma all_drained_sock live extra s l' i d h n :
  Inv extra live s → all_drained (manager (core s)) [] (slots (core s)) l' →
  udp_dst_sockets (manager (core s)) !! (i, d) = Some (h, n) →
  ∃ sk, sock_of l' i h = Some (Socket_Udp sk) ∧ udp_rx sk = [].
Proof.
  intros HI Hall Hd. pose proof (inv_mgr _ _ _ HI) as Hok.
  destruct (kind_of_udp _ _ _ (mgr_dst _ _ Hok _ _ _ _ Hd)) as (j & sl & sk0 & _ & Hj & Hid & _).
  destruct (proj2 Hall j sl Hj) as (sl' & Hj' & Hdr). rewrite decide_False in Hdr by set_solver.
  pose proof (drained_shape _ _ _ Hdr) as Hs. injection Hs as Hid' _.
  destruct (drained_in _ _ _ Hdr h) as (sk & Hg & Hrx).
  { apply list_elem_of_fmap. exists (h, d). split; [done|].
    apply (dst_sockets_of_handles _ _ _ Hok). rewrite Hid. by exists n. }
  exists sk. split; [|done]. rewrite <- Hid, <- Hid', (sock_of_slot _ j); [done| |done].
  pose proof (all_drained_shape _ _ _ Hall) as Hshape. apply (f_equal (fmap fst)) in Hshape.
  rewrite <- !list_fmap_compose in Hshape. replace (id <$> l') with (id <$> slots (core s)) by done.
  apply (inv_slots _ _ _ HI).
Qed.

(** *** What waits for one session *)

(** The payloads of a receive buffer that come from a source. *)
Definition payloads_from (src : IpEndpoint) (rx : list (option (Bytes * IpEndpoint))) : list Bytes :=
  omap (λ o, m ← o; if decide (m.2 = src) then Some m.1 else None) rx.

Lemma for_key_bind {A} k (f : A → list (SessionKey * Bytes)) l :
  for_key k (l ≫= f) = l ≫= (λ x, for_key k (f x)).
Proof.
  unfold for_key. induction l as [|x l IH]; [done|]. by rewrite !bind_cons, filter_app, fmap_app, IH.
Qed.

Lemma bind_nothing {A B} (f : A → list B) (l : list A) : (∀ x, x ∈ l → f x = []) → l ≫= f = [].
Proof.
  intros Hf. induction l as [|x l IH]; [done|]. rewrite bind_cons, (Hf x), IH; [done| |by left].
  intros y Hy. apply Hf. by right.
Qed.

(** A bind in which one element alone contributes. *)
Lemma bind_unique {A B C} (g : A → C) (f : A → list B) (l : list A) x :
  NoDup (g <$> l) → x ∈ l → (∀ y, y ∈ l → g y ≠ g x → f y = []) → l ≫= f = f x.
Proof.
  intros Hnd Hin Hf. induction l as [|y l IH]; [by apply not_elem_of_nil in Hin|].
  apply NoDup_cons in Hnd as [Hnin Hnd]. rewrite bind_cons.
  apply elem_of_cons in Hin as [<-|Hin].
  - rewrite (bind_nothing f l); [by rewrite app_nil_r|]. intros z Hz. apply Hf; [by right|].
    intros Hg. apply Hnin. rewrite <- Hg. by apply list_elem_of_fmap_2.
  - rewrite (Hf y), IH; [done|done|done|intros z Hz; apply Hf; by right|by left|].
    intros Hg. apply Hnin. rewrite Hg. by apply list_elem_of_fmap_2.
Qed.

Lemma for_key_datagrams k ifc bound rx :
  proto k = Proto_Udp →
  for_key k (datagrams_of ifc bound rx) =
    if decide (ifc = interface k ∧ bound = dst k) then payloads_from (src k) rx else [].
Proof.
  intros Hp. induction rx as [|[[d ep]|] rx IH]; [by case_decide| |done].
  change (datagrams_of ifc bound (Some (d, ep) :: rx)) with
    ((SessionKey_new ifc Proto_Udp ep bound, d) :: datagrams_of ifc bound rx).
  assert (payloads_from (src k) (Some (d, ep) :: rx) =
    option_list (if decide (ep = src k) then Some d else None) ++ payloads_from (src k) rx) as ->.
  { unfold payloads_from. cbn. by destruct (decide (ep = src k)). }
  unfold for_key in *. destruct (decide (SessionKey_new ifc Proto_Udp ep bound = k)) as [<-|Hne].
  - rewrite filter_cons_True by done. rewrite fmap_cons, IH. by rewrite !decide_True by done.
  - rewrite filter_cons_False by done. rewrite IH. case_decide as Hib; [|done].
    destruct Hib as [-> ->]. rewrite decide_False; [done|]. intros ->. apply Hne.
    destruct k as [ki kp ks kd]; simpl in *. by rewrite Hp.
Qed.

(** For a registered session: what its shared socket holds from its source.
    The order in which the map of sockets is iterated plays no role. *)
Lemma pending_for extra live s k e :
  Inv extra live s → udp (manager (core s)) !! k = Some e →
  ∃ sk, sock_of (slots (core s)) (interface k) (socket e) = Some (Socket_Udp sk) ∧
    for_key k (pending s) = payloads_from (src k) (udp_rx sk).
Proof.
  intros HI Hk. pose proof (inv_mgr _ _ _ HI) as Hok. pose proof (mgr_udp _ _ Hok _ _ Hk) as Hp.
  destruct (refs_entry _ (mgr_refs _ _ Hok) _ _ Hk) as [c Hd].
  pose proof (mgr_dst _ _ Hok _ _ _ _ Hd) as Hkind.
  destruct (kind_of_udp _ _ _ Hkind) as (n & sl & sk & Hsl & Hn & Hid & Hg).
  exists sk. split; [unfold sock_of; by rewrite Hsl|].
  destruct (dst_sockets_of_handles _ _ (id sl) Hok) as [Hnd Hdst].
  unfold pending. rewrite for_key_bind.
  rewrite (bind_unique id _ _ sl); [|apply (inv_slots _ _ _ HI)|by eapply list_elem_of_lookup_2|].
  - unfold slot_pending. rewrite for_key_bind.
    rewrite (bind_unique fst _ _ (socket e, dst k)); [|done|apply Hdst; rewrite Hid; by exists c|].
    + unfold socket_pending. cbn. by rewrite Hg, for_key_datagrams, decide_True.
    + intros [h b] Hin Hne. unfold socket_pending. cbn in *.
      destruct (socket_get (sockets sl) h) as [[|sk']|]; [done| |done].
      rewrite for_key_datagrams by done. apply decide_False. intros [_ ->].
      apply Hdst in Hin as [c' Hc']. rewrite Hid in Hc'. congruence.
  - intros sl' _ Hne. unfold slot_pending. rewrite for_key_bind.
    apply bind_nothing. intros [h b] _. unfold socket_pending. cbn.
    destruct (socket_get (sockets sl') h) as [[|sk']|]; [done| |done].
    rewrite for_key_datagrams by done. apply decide_False. intros [Hi _]. congruence.
Qed.

(** ** Routing *)

Lemma inboxes_lookup extra live s k e :
  Inv extra live s → udp (manager (core s)) !! k = Some e →
  ∃ uq, queues s !! queue e = Some uq ∧ closed uq = false ∧ inboxes s !! k = Some (inner uq).
Proof.
  intros HI Hk. destruct (queues_open _ _ _ (inv_queues _ _ _ HI) _ _ Hk) as (uq & Hq & Hc).
  exists uq. split_and!; [done..|]. unfold inboxes. rewrite lookup_omap, Hk. simpl. by rewrite Hq.
Qed.

Lemma inboxes_lookup_None s k : udp (manager (core s)) !! k = None → inboxes s !! k = None.
Proof. intros Hk. unfold inboxes. by rewrite lookup_omap, Hk. Qed.

(** What routing leaves alone. *)
Definition udp_ids (s : Shared) : gmap SessionKey (SocketHandle * QueueId) :=
  (λ e, (socket e, queue e)) <$> udp (manager (core s)).

Definition route_frame : relation Shared := λ s s',
  slots (core s') = slots (core s) ∧ core_config (core s') = core_config (core s) ∧
  tcp (manager (core s')) = tcp (manager (core s)) ∧
  udp_dst_sockets (manager (core s')) = udp_dst_sockets (manager (core s)) ∧
  udp_ids s' = udp_ids s.

#[global] Instance route_frame_preorder : PreOrder route_frame.
Proof.
  split; [done|]. intros s1 s2 s3 (?&?&?&?&?) (?&?&?&?&?). unfold route_frame. split_and!; congruence.
Qed.

Lemma wp_route_one extra live s now k data :
  Inv extra live s →
  wp (route_one now tt (k, data)) (λ _ s', Inv extra live s' ∧
    inboxes s' = deliver (inboxes s) (k, data) ∧
    activity s' = alter (λ _, now) k (activity s) ∧ route_frame s s') s.
Proof.
  intros HI. unfold route_one. wp_go.
  destruct (udp (manager (core s)) !! k) as [e|] eqn:Hk; wp_go; last first.
  { unfold deliver, activity. simpl. split_and!; [done|..|done].
    - symmetry. apply map_eq. intros k'. rewrite lookup_alter. case_decide; [|done]. subst k'.
      by rewrite inboxes_lookup_None.
    - apply map_eq. intros k'. rewrite lookup_alter. case_decide; [|done]. subst k'.
      by rewrite lookup_fmap, Hk. }
  destruct (inboxes_lookup _ _ _ _ _ HI Hk) as (uq & Hq & Hc & Hbox).
  eapply wp_on_queue; [done|]. unfold push, on_manager, on_core. wp_go. simpl.
  set (uq' := {| inner := inner uq ++ [data]; notify := _; closed := _ |}).
  assert (Inv extra live (set_queues (<[queue e := uq']> (queues s)) s)) as HI1 by (by eapply Inv_queue).
  destruct HI1 as [C1 C2 C3 C4 C5 C6 C7 C8 C9 C10 C11]. simpl in *.
  split_and!; [| | |split_and!; [done..|]].
  - constructor; simpl; try done.
    + by eapply mgr_ok_touch_udp.
    + by eapply queues_ok_touch.
    + by eapply live_ok_touch_udp.
    + by rewrite map_size_insert_Some by (by eexists).
  - apply map_eq. intros k'. unfold inboxes, deliver. simpl. rewrite lookup_omap, lookup_alter.
    fold (inboxes s). case_decide as Hkk.
    + subst k'. rewrite lookup_insert_eq, Hbox. simpl. by rewrite lookup_insert_eq.
    + rewrite lookup_insert_ne by done. unfold inboxes. rewrite lookup_omap.
      destruct (udp (manager (core s)) !! k') as [e'|] eqn:Hk'; [|done]. simpl.
      rewrite lookup_insert_ne; [done|]. intros Heq. apply Hkk.
      by eapply (queues_inj _ _ _ (inv_queues _ _ _ HI)).
  - apply map_eq. intros k'. unfold activity. simpl. rewrite lookup_fmap, lookup_alter.
    rewrite lookup_insert. repeat case_decide; subst; try done; by rewrite lookup_fmap, ?Hk.
  - unfold udp_ids. simpl. rewrite fmap_insert. apply insert_id. by rewrite lookup_fmap, Hk.
Qed.

Lemma wp_route_all extra live s now routed :
  Inv extra live s →
  wp (mfold (route_one now) routed tt) (λ _ s', Inv extra live s' ∧
    inboxes s' = deliver_all (inboxes s) routed ∧
    activity s' = foldl (λ a kd, alter (λ _, now) kd.1 a) (activity s) routed ∧ route_frame s s') s.
Proof.
  intros HI. eapply wp_mono; [apply (wp_mfold _ (λ rest _ s', Inv extra live s' ∧
    deliver_all (inboxes s') rest = deliver_all (inboxes s) routed ∧
    foldl (λ a kd, alter (λ _, now) kd.1 a) (activity s') rest =
      foldl (λ a kd, alter (λ _, now) kd.1 a) (activity s) routed ∧ route_frame s s'))|].
  - intros [k d] rest [] s1 (HI1 & Hin & Hact & Hf).
    eapply wp_mono; [by apply (wp_route_one extra live)|]. simpl.
    intros _ s2 (HI2 & Hin2 & Hact2 & Hf2). split_and!; [done|..|by etrans].
    + rewrite Hin2. by rewrite <- Hin.
    + by rewrite Hact2, <- Hact.
  - done.
  - simpl. intros [] s' (? & ? & ? & ?). done.
Qed.

(** The stamps after routing: [now] for the sessions that got a datagram. *)
Lemma lookup_activity_routed (a : gmap SessionKey Instant) now (routed : list (SessionKey * Bytes)) k :
  foldl (λ a kd, alter (λ _, now) kd.1 a) a routed !! k =
    (λ t, if decide (k ∈ routed.*1) then now else t) <$> a !! k.
Proof.
  revert a. induction routed as [|[k' d] l IH]; intros a.
  - cbn [foldl]. destruct (a !! k); cbn; [|done]. by rewrite decide_False by set_solver.
  - cbn [foldl]. rewrite IH, lookup_alter. rewrite fmap_cons. cbn [fst].
    destruct (decide (k' = k)) as [->|Hne]; destruct (a !! k) as [t|]; cbn; try done; f_equal.
    + rewrite (decide_True (P := k ∈ k :: l.*1)) by set_solver. by case_decide.
    + destruct (decide (k ∈ l.*1)); [rewrite decide_True by set_solver|rewrite decide_False by set_solver]; done.
Qed.

(** ** Expiry *)

(** The queue is marked closed: its session reads what is left, then the end. *)
Definition queue_closed (s : Shared) (q : QueueId) : Prop :=
  ∃ uq, queues s !! q = Some uq ∧ closed uq = true.

(** The sessions of [keys] are gone: out of the table, their queues closed with
    their contents, nothing else touched. *)
Record sessions_left (keys : list SessionKey) (s s' : Shared) : Prop := {
  left_frame : frame s s';
  left_tcp : tcp (manager (core s')) = tcp (manager (core s));
  left_udp : udp (manager (core s')) = filter (λ kv, kv.1 ∉ keys) (udp (manager (core s)));
  left_inner : inner <$> queues s' = inner <$> queues s;
  left_closed k e : k ∈ keys → udp (manager (core s)) !! k = Some e → queue_closed s' (queue e);
  left_still q : queue_closed s q → queue_closed s' q;
}.

Lemma sessions_left_nil s : sessions_left [] s s.
Proof.
  constructor; try done; [|by intros k e ?%not_elem_of_nil].
  symmetry. apply map_filter_id. set_solver.
Qed.

Lemma sessions_left_absent k s : udp (manager (core s)) !! k = None → sessions_left [k] s s.
Proof.
  intros Hk. constructor; try done.
  - symmetry. apply map_filter_id. intros k' e Hk'. simpl. set_solver.
  - intros k' e ->%list_elem_of_singleton. congruence.
Qed.

Lemma sessions_left_app ks1 ks2 s1 s2 s3 :
  sessions_left ks1 s1 s2 → sessions_left ks2 s2 s3 → sessions_left (ks1 ++ ks2) s1 s3.
Proof.
  intros [A1 A2 A3 A4 A5 A6] [B1 B2 B3 B4 B5 B6]. constructor; [by etrans|congruence| |congruence| |auto].
  - rewrite B3, A3, map_filter_filter. apply map_filter_ext. intros k e _. simpl. set_solver.
  - intros k e [Hin|Hin]%elem_of_app Hk; [by eapply B6, A5|].
    destruct (decide (k ∈ ks1)) as [Hin1|Hnin]; [by eapply B6, A5|]. apply (B5 k e Hin).
    rewrite A3. by apply map_lookup_filter_Some.
Qed.

Lemma wp_udp_expire_one live s k released :
  Inv released live s →
  wp (udp_expire_one released k) (λ released' s', Inv released' live s' ∧ sessions_left [k] s s') s.
Proof.
  intros HI. unfold udp_expire_one. wp_go.
  destruct (udp (manager (core s)) !! k) as [e|] eqn:Hk; wp_go;
    [|split; [done|by apply sessions_left_absent]].
  eapply wp_mono; [by apply wp_leave_udp_session|]. cbv beta.
  intros r s1 (HI1 & Hf & Hu & Ht & (uq & uq' & Huq & Hin & Hcl & Hq) & Hx).
  assert (sessions_left [k] s s1) as Hleft.
  { constructor; [done|done| | | |].
    - rewrite Hu. apply map_eq. intros k'. rewrite lookup_delete, map_lookup_filter.
      destruct (udp (manager (core s)) !! k') as [e'|]; [|by case_decide]. simpl.
      destruct (decide (k = k')) as [<-|Hne]; repeat case_guard; set_solver.
    - rewrite Hq, fmap_insert, Hin. apply insert_id. by rewrite lookup_fmap, Huq.
    - intros k' e' ->%list_elem_of_singleton Hk'. exists uq'. rewrite Hq.
      assert (e' = e) as -> by congruence. by rewrite lookup_insert_eq.
    - intros q (uq0 & Hq0 & Hc0). unfold queue_closed. rewrite Hq.
      destruct (decide (queue e = q)) as [<-|Hne]; [rewrite lookup_insert_eq; by exists uq'|].
      rewrite lookup_insert_ne by done. by exists uq0. }
  pose proof (inv_budget _ _ _ HI1) as Hbud. pose proof (inv_bytes _ _ _ HI1).
  pose proof (charged_nonneg _ (manager (core s1)) (inv_sane _ _ _ HI1)).
  destruct r as [x|]; simpl in *; wp_go.
  - apply wp_uadd; [lia|]. done.
  - by rewrite Z.add_0_r in HI1.
Qed.

Lemma wp_udp_expire live s keys released :
  Inv released live s →
  wp (mfold udp_expire_one keys released) (λ released' s',
    Inv released' live s' ∧ sessions_left keys s s') s.
Proof.
  intros HI. eapply wp_mono; [apply (wp_mfold _ (λ rest released' s', ∃ done_, keys = done_ ++ rest ∧
    Inv released' live s' ∧ sessions_left done_ s s'))|].
  - intros k rest r s1 (done_ & -> & HI1 & Hl1). eapply wp_mono; [by apply wp_udp_expire_one|]. cbv beta.
    intros r2 s2 (HI2 & Hl2). exists (done_ ++ [k]). rewrite <- app_assoc.
    split_and!; [done..|]. by eapply sessions_left_app.
  - exists []. split_and!; [done..|]. apply sessions_left_nil.
  - intros r s' (done_ & -> & ? & ?). by rewrite app_nil_r.
Qed.

(** The inboxes of the sessions that stay are not touched. *)
Lemma sessions_left_inboxes keys s s' :
  sessions_left keys s s' → inboxes s' = filter (λ kv, kv.1 ∉ keys) (inboxes s).
Proof.
  intros [_ _ Hu Hi _ _]. apply map_eq. intros k. unfold inboxes.
  rewrite lookup_omap, Hu, !map_lookup_filter, lookup_omap.
  destruct (udp (manager (core s)) !! k) as [e|]; [|done]. simpl.
  assert (inner <$> queues s' !! queue e = inner <$> queues s !! queue e) as Hq.
  { by rewrite <- !lookup_fmap, Hi. }
  destruct (decide (k ∈ keys)) as [Hin|Hnin].
  - destruct (inner <$> queues s !! queue e); simpl; repeat case_guard; set_solver.
  - case_guard; [|set_solver]. simpl. rewrite Hq.
    by destruct (inner <$> queues s !! queue e).
Qed.

(** Which sessions expire: those that have been idle for longer than the
    timeout. *)
Lemma elem_of_expired_keys now timeout m k :
  k ∈ expired_keys now timeout m ↔
    ∃ e, udp m !! k = Some e ∧ timeout < instant_sub now (last_activity e).
Proof.
  unfold expired_keys. rewrite list_elem_of_fmap. split.
  - intros ([k' e] & -> & [Ht Hin]%list_elem_of_filter). apply elem_of_hash_iter in Hin. by exists e.
  - intros (e & He & Ht). exists (k, e). split; [done|]. apply list_elem_of_filter.
    by rewrite elem_of_hash_iter.
Qed.
End UdpCorrect.
