(* ===== verification/CycleCorrect.v ===== *)
(** * One poll cycle: correctness

    The post-pass and the whole critical section of [poll_once], put together
    from the rules for their parts: no step panics, every loop ends, the
    invariant holds again with the budget settled, and the fate of every UDP
    session is the one its socket and its idle time call for. *)
From stdpp Require Import base list gmap.
From S2P Require Import Prelude Types Device Smoltcp Config Manager Core Packet Session Invariant Streams StreamsCorrect Runner RunnerCorrect UdpCorrect.

Local Open Scope Z_scope.

Section CycleCorrect.
Context `{T : Target, HO : HashOrder, W : Wire, E : Engine, K : Tokio, !EngineLaws, !WireLaws}.

(** ** The fate of a UDP session *)

(** What a post-pass at [now] does to the session [k] with entry [e]: the
    payloads that its shared socket holds from its source are appended to its
    queue, in order; it leaves the table exactly if there were none and it has
    been idle for longer than the timeout, and then its queue is closed. *)
Definition session_fate (now : Instant) (timeout : Duration) (s s' : Shared)
    (k : SessionKey) (e : UdpEntry) : Prop :=
  ∃ sk uq uq', sock_of (slots (core s)) (interface k) (socket e) = Some (Socket_Udp sk) ∧
    queues s !! queue e = Some uq ∧ queues s' !! queue e = Some uq' ∧
    inner uq' = inner uq ++ payloads_from (src k) (udp_rx sk) ∧
    if decide (payloads_from (src k) (udp_rx sk) = [] ∧ timeout < instant_sub now (last_activity e))
    then udp (manager (core s')) !! k = None ∧ closed uq' = true
    else closed uq' = false ∧ udp (manager (core s')) !! k = Some
      {| socket := socket e; queue := queue e;
         last_activity := match payloads_from (src k) (udp_rx sk) with [] => last_activity e | _ => now end |}.

Lemma elem_of_routed k (l : list (SessionKey * Bytes)) : k ∈ l.*1 ↔ for_key k l ≠ [].
Proof.
  unfold for_key. split.
  - intros ([k' d] & -> & Hin)%list_elem_of_fmap Hnil.
    assert (d ∈ (filter (λ kd : SessionKey * Bytes, kd.1 = k') l).*2) as Hd.
    { apply list_elem_of_fmap. exists (k', d). split; [done|]. by apply list_elem_of_filter. }
    simpl in Hnil. rewrite Hnil in Hd. by apply not_elem_of_nil in Hd.
  - intros Hne. destruct (filter _ l) as [|[k' d] rest] eqn:Ef; [done|].
    assert ((k', d) ∈ filter (λ kd : SessionKey * Bytes, kd.1 = k) l) as Hin by (rewrite Ef; by left).
    apply list_elem_of_filter in Hin as [<- Hin]. by apply (list_elem_of_fmap_2 fst) in Hin.
Qed.

(** An entry after routing. *)
Lemma routed_entry (s s' : Shared) now routed k e :
  udp_ids s' = udp_ids s →
  activity s' = foldl (λ a kd, alter (λ _, now) kd.1 a) (activity s) routed →
  udp (manager (core s)) !! k = Some e →
  udp (manager (core s')) !! k = Some {| socket := socket e; queue := queue e;
    last_activity := match for_key k routed with [] => last_activity e | _ => now end |}.
Proof.
  intros Hids Hact Hk.
  assert (udp_ids s' !! k = Some (socket e, queue e)) as H1.
  { rewrite Hids. unfold udp_ids. by rewrite lookup_fmap, Hk. }
  assert (activity s' !! k = Some (match for_key k routed with [] => last_activity e | _ => now end)) as H2.
  { rewrite Hact, lookup_activity_routed. unfold activity. rewrite lookup_fmap, Hk. simpl. f_equal.
    pose proof (elem_of_routed k routed) as Hr. case_decide as Hin.
    - apply Hr in Hin. by destruct (for_key k routed).
    - destruct (for_key k routed) eqn:Ef; [done|]. destruct Hin. by apply Hr. }
  unfold udp_ids, activity in H1, H2. rewrite lookup_fmap in H1. rewrite lookup_fmap in H2.
  destruct (udp (manager (core s')) !! k) as [[so q la]|]; [|done]. simpl in *. congruence.
Qed.

(** The settling of one session by the routing and the sweep. *)
Lemma session_settled live extra s sr s' now timeout k e :
  0 ≤ timeout → Inv extra live s → Inv extra live sr → udp_ids sr = udp_ids s →
  activity sr = foldl (λ a kd, alter (λ _, now) kd.1 a) (activity s) (pending s) →
  inboxes sr = deliver_all (inboxes s) (pending s) →
  sessions_left (expired_keys now timeout (manager (core sr))) sr s' →
  queues_ok (queues s') (next_queue s') (udp (manager (core s'))) →
  udp (manager (core s)) !! k = Some e → session_fate now timeout s s' k e.
Proof.
  intros Hto HI HIr Hids Hact Hin Hleft Hq' Hk.
  destruct (pending_for _ _ _ _ _ HI Hk) as (sk & Hsk & Hpend).
  destruct (inboxes_lookup _ _ _ _ _ HI Hk) as (uq & Huq & Hopen & Hbox).
  pose proof (routed_entry _ _ _ _ _ _ Hids Hact Hk) as Hkr. rewrite Hpend in Hkr.
  destruct (inboxes_lookup _ _ _ _ _ HIr Hkr) as (uqr & Huqr & _ & Hboxr). simpl in Huqr.
  rewrite Hin, lookup_deliver_all, Hbox, Hpend in Hboxr. injection Hboxr as Hboxr.
  assert (∃ uq', queues s' !! queue e = Some uq' ∧ inner uq' = inner uqr) as (uq' & Huq' & Hinner).
  { pose proof (left_inner _ _ _ Hleft) as Hi. apply (f_equal (lookup (queue e))) in Hi.
    rewrite !lookup_fmap, Huqr in Hi. apply fmap_Some in Hi as (uq' & ? & ?). by exists uq'. }
  exists sk, uq, uq'. split_and!; [done..|congruence|].
  set (got := payloads_from (src k) (udp_rx sk)) in *.
  assert (k ∈ expired_keys now timeout (manager (core sr)) ↔
    got = [] ∧ timeout < instant_sub now (last_activity e)) as Hexp.
  { rewrite elem_of_expired_keys, Hkr. split.
    - intros (x & [= <-] & Ht). simpl in Ht. destruct got; [done|]. rewrite instant_sub_le in Ht; lia.
    - intros [Hg Ht]. eexists. split; [done|]. simpl. by rewrite Hg. }
  pose proof (left_udp _ _ _ Hleft) as Hu'. case_decide as Hd.
  - apply Hexp in Hd. split.
    + rewrite Hu'. apply map_lookup_filter_None. right. intros x _ Hx. by apply Hx.
    + destruct (left_closed _ _ _ Hleft k _ Hd Hkr) as (x & Hx & Hc). simpl in Hx. congruence.
  - assert (udp (manager (core s')) !! k = Some {| socket := socket e; queue := queue e;
      last_activity := match got with [] => last_activity e | _ => now end |}) as Hk'.
    { rewrite Hu'. apply map_lookup_filter_Some. split; [done|]. simpl. by rewrite Hexp. }
    split; [|done]. destruct (queues_open _ _ _ Hq' _ _ Hk') as (x & Hx & Hc). simpl in Hx. congruence.
Qed.

(** ** The post-pass *)

Record post_pass_post (now : Instant) (live acc : list Session) (s : Shared)
    (acc' : list Session) (s' : Shared) : Prop := {
  pp_accepted : acc' = acc ++ omap (accepted_of (slots (core s))) (hash_iter (tcp (manager (core s))));
  pp_inv : Inv 0 (live ++ omap (accepted_of (slots (core s))) (hash_iter (tcp (manager (core s))))) s';
  pp_frame : frame s s';
  pp_tcp k : tcp (manager (core s')) !! k =
    e ← tcp (manager (core s)) !! k;
    if entry_reaped (slots (core s)) k e then None else Some (entry_after (slots (core s)) k e);
  pp_udp k e : udp (manager (core s)) !! k = Some e →
    session_fate now (duration_from (cfg_udp_session_timeout (core_config (core s)))) s s' k e;
  pp_udp_none k : udp (manager (core s)) !! k = None → udp (manager (core s')) !! k = None;
}.

(** The fate of a session is stable under changes that spare its socket, its
    entry and the queues. *)
Lemma session_fate_ext now timeout s0 s s' s1 k e :
  session_fate now timeout s s' k e →
  (∀ sk, sock_of (slots (core s)) (interface k) (socket e) = Some (Socket_Udp sk) →
    sock_of (slots (core s0)) (interface k) (socket e) = Some (Socket_Udp sk)) →
  queues s0 = queues s → queues s1 = queues s' →
  udp (manager (core s1)) = udp (manager (core s')) → session_fate now timeout s0 s1 k e.
Proof.
  intros (sk & uq & uq' & Hsk & Hq & Hq' & Hi & Hrest) Hs H1 H2 H3. exists sk, uq, uq'.
  rewrite H1, H2, H3. split_and!; [by apply Hs|done..].
Qed.

Lemma reaped_lookup l (t : gmap SessionKey TcpEntry) k :
  filter (λ kv : SessionKey * TcpEntry, kv.1 ∉ omap (reaped_of l) (hash_iter t)) (tcp_after l t) !! k =
    e ← t !! k; if entry_reaped l k e then None else Some (entry_after l k e).
Proof.
  rewrite map_lookup_filter. unfold tcp_after. rewrite map_lookup_imap.
  destruct (t !! k) as [e|] eqn:Hk; [|done]. simpl.
  assert (k ∈ omap (reaped_of l) (hash_iter t) ↔ entry_reaped l k e = true) as Hin.
  { rewrite list_elem_of_omap. split.
    - intros ([k' e'] & Hin & Hre). unfold reaped_of in Hre. simpl in Hre.
      apply elem_of_hash_iter in Hin. destruct (entry_reaped l k' e') eqn:Er; [|done].
      injection Hre as ->. congruence.
    - intros Hre. exists (k, e). rewrite elem_of_hash_iter. unfold reaped_of. simpl. by rewrite Hre. }
  destruct (entry_reaped l k e); case_guard; naive_solver.
Qed.

Lemma wp_post_pass live s now acc :
  Inv 0 live s → wp (post_pass now acc) (post_pass_post now live acc s) s.
Proof.
  intros HI. unfold post_pass. wp_go. set (l := slots (core s)). set (t := tcp (manager (core s))).
  eapply wp_mono; [by apply (wp_tcp_transitions 0 live)|]. cbv beta. intros r s1 (-> & Hs1 & HI1).
  wp_go. eapply wp_mono; [apply wp_tcp_reap; [exact HI1|rewrite Hs1; apply reap_ok_after]|]. cbv beta.
  intros released s2 (_ & HI2 & Hf2 & Hq2 & Hm2 & Hkept). wp_go.
  eapply wp_mono; [by apply wp_drain_udp|]. cbv beta. intros routed s3 (-> & HI3 & l3 & Hs3 & Hall). wp_go.
  eapply wp_mono; [by apply wp_route_all|]. cbv beta.
  intros [] s4 (HI4 & Hin4 & Hact4 & Hf4). wp_go.
  apply wp_smoltcp_duration; [by apply sane_timeout_u64, (inv_sane _ _ _ HI)|]. wp_go.
  set (timeout := duration_from _).
  eapply wp_mono; [by apply wp_udp_expire|]. cbv beta. intros released5 s5 (HI5 & Hleft). wp_go.
  unfold on_core, release_buffer. wp_go.
  destruct Hf4 as (Hsl4 & Hcfg4 & Ht4 & _ & Hids4). subst s1 s3. simpl in *.
  assert (0 ≤ timeout) as Hto by apply duration_from_nonneg, (inv_sane _ _ _ HI).
  pose proof (inv_extra _ _ _ HI5) as Hrel.
  assert (udp (manager (core s2)) = udp (manager (core s))) as Hu2 by (by rewrite Hm2).
  constructor; simpl.
  - done.
  - by apply Inv_release.
  - etrans; [exact Hf2|]. etrans; [|exact (left_frame _ _ _ Hleft)].
    split; [done|]. rewrite Hsl4. by eapply all_drained_shape.
  - intros k. rewrite (left_tcp _ _ _ Hleft), Ht4, Hm2. simpl. apply reaped_lookup.
  - intros k e Hk. eapply (session_fate_ext _ _ s s2 s5).
    + eapply session_settled; [done|exact HI2|exact HI4|done|done|done|exact Hleft|apply HI5|by rewrite Hu2].
    + intros sk Hsk. pose proof (mgr_refs _ _ (inv_mgr _ _ _ HI)) as Hrefs.
      destruct (refs_entry _ Hrefs _ _ Hk) as [c Hd].
      apply (mgr_dst _ _ (inv_mgr _ _ _ HI)), kind_of_udp in Hd as (n & sl & sk0 & Hsl & _ & _ & Hg).
      assert (sock_of (slots (core s)) (interface k) (socket e) = Some (Socket_Udp sk0)) as Hs0.
      { unfold sock_of. by rewrite Hsl. }
      rewrite Hs0. apply Hkept in Hs0. congruence.
    + done.
    + done.
    + done.
  - intros k Hk. rewrite (left_udp _ _ _ Hleft). apply map_lookup_filter_None. left.
    assert (udp_ids s4 !! k = None) as Hn.
    { rewrite Hids4. unfold udp_ids. simpl. by rewrite lookup_fmap, Hu2, Hk. }
    unfold udp_ids in Hn. rewrite lookup_fmap in Hn. by apply fmap_None in Hn.
Qed.

(** ** Collecting the packets to send *)

(** The packets of a list that go to an interface, in order. *)
Definition sent_on (i : InterfaceId) (out : list EgressPacket) : list Bytes :=
  ep_data <$> filter (λ p, ep_interface_id p = i) out.

Lemma sent_on_bind {A} i (f : A → list EgressPacket) l : sent_on i (l ≫= f) = l ≫= (λ x, sent_on i (f x)).
Proof.
  unfold sent_on. induction l as [|x l IH]; [done|]. by rewrite !bind_cons, filter_app, fmap_app, IH.
Qed.

Lemma sent_on_same i j (l : list Bytes) :
  sent_on i (mkEgressPacket j <$> l) = if decide (j = i) then l else [].
Proof.
  unfold sent_on. induction l as [|d l IH]; [by case_decide|]. rewrite fmap_cons.
  case_decide as Hi.
  - rewrite filter_cons_True by done. by rewrite fmap_cons, IH.
  - by rewrite filter_cons_False by done.
Qed.

Definition take_egress (sl : InterfaceSlot) : InterfaceSlot := set_device (set_egress [] (device sl)) sl.

(** Every interface's packets are handed over, in the order in which they were
    sent and labelled with the interface, and its queue is emptied. *)
Lemma wp_collect_egress extra live s :
  Inv extra live s →
  wp collect_egress (λ out s', Inv extra live s' ∧ s' = with_slots (take_egress <$> slots (core s)) s ∧
    ∀ (n : nat) sl, slots (core s) !! n = Some sl → sent_on (id sl) out = egress (device sl)) s.
Proof.
  intros HI. unfold collect_egress. wp_go. destruct (inv_slots _ _ _ HI) as [Hnd HF].
  split_and!; [|done|].
  - apply Inv_slots; [done| |].
    + constructor; [by rewrite <- list_fmap_compose|]. apply Forall_fmap. eapply Forall_impl; [done|].
      intros sl Hok. by eapply slot_ok_ext.
    + intros i h. unfold kind_of, sock_of, find_slot. rewrite list_find_fmap. simpl.
      by destruct (list_find _ _) as [[m sl]|].
  - intros n sl Hn. rewrite list_join_bind, list_fmap_bind, sent_on_bind, (bind_unique id _ _ sl); [|done|by eapply list_elem_of_lookup_2|].
    + transitivity (sent_on (id sl) (mkEgressPacket (id sl) <$> egress (device sl))); [done|].
      by rewrite sent_on_same, decide_True.
    + intros sl' _ Hne.
      transitivity (sent_on (id sl) (mkEgressPacket (id sl') <$> egress (device sl'))); [done|].
      by rewrite sent_on_same, decide_False.
Qed.

(** ** The critical section of a cycle *)

(** What a cycle does with the device of an interface: the poll takes packets
    from the front of the ingress queue and appends packets to the egress
    queue, and all of the latter are handed over. *)
Definition device_cycle (out : list EgressPacket) (sl sl' : InterfaceSlot) : Prop :=
  id sl' = id sl ∧ ∃ d, device_steps (device sl) d ∧ device sl' = set_egress [] d ∧
    sent_on (id sl) out = egress d.

Lemma wp_poll_locked live s now :
  Inv 0 live s →
  wp (poll_locked now) (λ r s', Inv 0 (live ++ r.1) s' ∧
    core_config (core s') = core_config (core s) ∧
    Forall2 (device_cycle r.2) (slots (core s)) (slots (core s'))) s.
Proof.
  intros HI. unfold poll_locked. wp_go.
  eapply wp_mono; [by apply (wp_pre_pass live)|]. cbv beta.
  intros acc1 s1 ((new & -> & HI1 & _) & Hf1 & _). wp_go.
  eapply wp_mono; [by apply wp_poll_interfaces|]. cbv beta. intros _ s2 (HI2 & Hm2 & Hq2 & Hs2 & Hc2). wp_go.
  eapply wp_mono; [by apply wp_post_pass|]. cbv beta. intros acc3 s3 [Hacc HI3 Hf3 _ _ _]. wp_go.
  eapply wp_mono; [by apply wp_collect_egress|]. cbv beta. intros out s4 (HI4 & Hs4 & Hout). wp_go.
  split_and!.
  - simpl in *. subst acc3. by rewrite app_assoc.
  - subst s4. simpl. rewrite (proj1 Hf3), Hc2. apply Hf1.
  - subst s4. simpl. apply Forall2_fmap_r, Forall2_same_length_lookup. split.
    { apply (f_equal length) in Hs2. destruct Hf1 as [_ Hf1], Hf3 as [_ Hf3].
      apply (f_equal length) in Hf1, Hf3. rewrite !length_fmap in *. congruence. }
    intros n sl sl3 Hn Hn3. destruct (frame_lookup _ _ _ _ Hf1 Hn) as (sl1 & Hn1 & Hid1 & Hd1).
    assert (slots (core s2) !! n = Some (poll_slot now sl1)) as Hn2 by (by rewrite Hs2, list_lookup_fmap, Hn1).
    destruct (frame_lookup _ _ _ _ Hf3 Hn2) as (sl3' & Hn3' & Hid3 & Hd3).
    rewrite Hn3 in Hn3'. injection Hn3' as <-.
    destruct (poll_slot_fields now sl1) as (Hidp & _ & _ & _ & _ & Hsteps & _).
    assert (id sl3 = id sl) as Hid by congruence.
    split; [done|]. exists (device sl3). rewrite <- Hid. split_and!; [|done|by eapply Hout].
    rewrite Hd3, <- Hd1. exact Hsteps.
Qed.
End CycleCorrect.
