(* ===== verification/Handle.v ===== *)
(** * The handle

    [handle.rs]: the application's side of a running stack. The handle, the
    runner and the receiver of outgoing packets share [Shared] and the three
    channels that [build] creates; a [Netstack] is that shared part. *)
From stdpp Require Import base list gmap.
From S2P Require Import Prelude Types Device Smoltcp Config Manager Core Packet Session Streams Runner.

Local Open Scope Z_scope.

Section Handle.
Context `{T : Target, W : Wire, E : Engine, K : Tokio}.

Record Netstack : Type := mkNetstack {
  shared : Shared;
  ingress_chan : Chan IngressPacket;
  egress_chan : Chan EgressPacket;
  accept_chan : Chan Session;
}.

Definition set_shared (s : Shared) (n : Netstack) : Netstack :=
  {| shared := s; ingress_chan := ingress_chan n; egress_chan := egress_chan n; accept_chan := accept_chan n |}.
Definition set_ingress_chan (c : Chan IngressPacket) (n : Netstack) : Netstack :=
  {| shared := shared n; ingress_chan := c; egress_chan := egress_chan n; accept_chan := accept_chan n |}.
Definition set_egress_chan (c : Chan EgressPacket) (n : Netstack) : Netstack :=
  {| shared := shared n; ingress_chan := ingress_chan n; egress_chan := c; accept_chan := accept_chan n |}.
Definition set_accept_chan (c : Chan Session) (n : Netstack) : Netstack :=
  {| shared := shared n; ingress_chan := ingress_chan n; egress_chan := egress_chan n; accept_chan := c |}.

Definition on_shared {A} (m : M Shared A) : M Netstack A := zoom shared set_shared m.

Definition send_ip_packet (interface_id : InterfaceId) (packet : Bytes)
    : M Netstack (result unit NetstackError) :=
  n ← mget;
  match slot (core (shared n)) interface_id with
  | None => mret (Err (InterfaceNotFound interface_id))
  | Some _ =>
      let pkt := {| ip_interface := interface_id; ip_data := packet |} in
      match chan_try_send (ingress_chan n) pkt with
      | Ok c =>
          mmodify (set_ingress_chan c);;
          on_shared notify_poll;;
          mret (Ok tt)
      | Err TrySend_Full => mret (Err ChannelFull)
      | Err TrySend_Closed => mret (Err ChannelClosed)
      end
  end.

(** One poll of the future that [accept] returns. *)
Definition accept : M Netstack (Poll (option Session)) :=
  n ← mget;
  match chan_try_recv (accept_chan n) with
  | Ok (session, c) => mmodify (set_accept_chan c);; mret (Poll_Ready (Some session))
  | Err TryRecv_Empty => mret Poll_Pending
  | Err TryRecv_Disconnected => mret (Poll_Ready None)
  end.

Definition interface_ids : M Netstack (list InterfaceId) :=
  mgets (λ n, id <$> slots (core (shared n))).

(** ** The ingress path of the runner *)

(** [while let Ok(pkt) = self.ingress_rx.try_recv() { self.queue_ingress(pkt) }] *)
Fixpoint drain_ingress (fuel : nat) : M Netstack unit :=
  match fuel with
  | O => λ _, OutOfFuel
  | S fuel' =>
      n ← mget;
      match chan_try_recv (ingress_chan n) with
      | Ok (pkt, c) =>
          mmodify (set_ingress_chan c);;
          on_shared (queue_ingress pkt);;
          drain_ingress fuel'
      | Err _ => mret tt
      end
  end.
End Handle.
