(* ===== verification/HandleCorrect.v ===== *)
(** * The handle: correctness

    A packet that [send_ip_packet] accepts is at the end of the ingress
    channel, the runner's drain moves the packets of the channel to the
    devices of their interfaces in order, and every refusal leaves the stack
    unchanged. *)
From stdpp Require Import base list gmap.
From S2P Require Import Prelude Types Device Smoltcp Config Manager Core Packet Session Invariant Streams StreamsCorrect Runner Handle Flow.

Local Open Scope Z_scope.

Section HandleCorrect.
Context `{T : Target, W : Wire, E : Engine, K : Tokio, !EngineLaws, !TokioLaws}.

(** What [send_ip_packet] answers, and what it changes. *)
Definition send_ip_post (i : InterfaceId) (data : Bytes) (n : Netstack)
    (r : result unit NetstackError) (n' : Netstack) : Prop :=
  match r with
  | Ok _ => is_Some (slot (core (shared n)) i) ∧
      chan_items (ingress_chan n') = chan_items (ingress_chan n) ++ [mkIngressPacket i data] ∧
      egress_chan n' = egress_chan n ∧ accept_chan n' = accept_chan n ∧
      notify_poll (shared n) = Done (tt, shared n')
  | Err e => n' = n ∧
      e = match slot (core (shared n)) i, chan_try_send (ingress_chan n) (mkIngressPacket i data) with
          | None, _ => InterfaceNotFound i
          | _, Err TrySend_Full => ChannelFull
          | _, _ => ChannelClosed
          end
  end.

Lemma wp_send_ip_packet i data n : wp (send_ip_packet i data) (send_ip_post i data n) n.
Proof.
  unfold send_ip_packet. wp_go. destruct (slot (core (shared n)) i) as [sl|] eqn:Es; wp_go;
    [|unfold send_ip_post; by rewrite Es].
  destruct (chan_try_send _ _) as [c|[|]] eqn:Ec; wp_go.
  - unfold on_shared, notify_poll. wp_go. unfold send_ip_post. simpl.
    split_and!; [by rewrite Es|by apply chan_send_items|done..].
  - unfold send_ip_post. by rewrite Es, Ec.
  - unfold send_ip_post. by rewrite Es, Ec.
Qed.

(** *** Queueing a packet *)

Definition feed (pkts : list IngressPacket) (sl : InterfaceSlot) : InterfaceSlot :=
  set_device (set_ingress (ingress (device sl) ++ received_on (id sl) pkts) (device sl)) sl.

Lemma feed_nil sl : feed [] sl = sl.
Proof. unfold feed, received_on. simpl. rewrite app_nil_r. by destruct sl as [? ? []]. Qed.

Lemma feed_app p1 p2 sl : feed p2 (feed p1 sl) = feed (p1 ++ p2) sl.
Proof.
  unfold feed, received_on. simpl. rewrite filter_app, fmap_app, <- app_assoc. done.
Qed.

Lemma feed_other p sl : ip_interface p ≠ id sl → feed [p] sl = sl.
Proof.
  intros Hne. unfold feed, received_on. rewrite filter_cons_False by done. simpl.
  rewrite app_nil_r. by destruct sl as [? ? []].
Qed.

Lemma feed_own p sl : ip_interface p = id sl → feed [p] sl = set_device (push_ingress (ip_data p) (device sl)) sl.
Proof. intros He. unfold feed, received_on. by rewrite filter_cons_True by done. Qed.

Definition feed_all (pkts : list IngressPacket) (s : Shared) : Shared :=
  set_core (set_slots (feed pkts <$> slots (core s)) (core s)) s.

Lemma feed_all_nil s : feed_all [] s = s.
Proof.
  unfold feed_all. rewrite (list_fmap_ext _ (λ x, x)); [|intros; apply feed_nil].
  rewrite list_fmap_id. by destruct s as [[]].
Qed.

Lemma feed_all_app p1 p2 s : feed_all p2 (feed_all p1 s) = feed_all (p1 ++ p2) s.
Proof.
  unfold feed_all. simpl. rewrite <- list_fmap_compose. unfold set_core, set_slots. simpl.
  do 2 f_equal. apply list_fmap_ext. intros n sl _. simpl. apply feed_app.
Qed.

(** A packet goes to the device of its interface; one for an unknown interface
    is dropped. *)
Lemma queue_ingress_feed s pkt :
  NoDup (id <$> slots (core s)) → queue_ingress pkt s = Done (tt, feed_all [pkt] s).
Proof.
  intros Hnd. unfold queue_ingress, put_slot, mget, mmodify, mbind, M_bind, slot_mut. simpl.
  unfold feed_all. destruct (find_slot (slots (core s)) (ip_interface pkt)) as [[i sl]|] eqn:Ef.
  - apply find_slot_Some in Ef as [Hi Hid]. unfold mbind. do 2 f_equal. f_equal. f_equal.
    apply list_eq. intros j. rewrite list_lookup_fmap.
    destruct (decide (i = j)) as [<-|Hne].
    + rewrite list_lookup_insert_eq, Hi by (by eapply lookup_lt_Some). simpl. by rewrite feed_own.
    + rewrite list_lookup_insert_ne by done. destruct (slots (core s) !! j) as [slj|] eqn:Hj; [|done].
      simpl. rewrite feed_other; [done|]. intros He. apply Hne.
      apply (NoDup_lookup (id <$> slots (core s)) i j (id sl) Hnd); rewrite list_lookup_fmap;
        [rewrite Hi|rewrite Hj]; simpl; congruence.
  - unfold mret, M_ret. do 2 f_equal. unfold find_slot in Ef. apply list_find_None in Ef.
    rewrite (list_fmap_ext _ (λ x, x)); [rewrite list_fmap_id; by destruct s as [[]]|].
    intros j sl Hj. apply feed_other. rewrite Forall_lookup in Ef. intros He. by eapply Ef.
Qed.

Lemma feed_all_ids pkts s : id <$> slots (core (feed_all pkts s)) = id <$> slots (core s).
Proof. unfold feed_all. simpl. by rewrite <- list_fmap_compose. Qed.

Lemma Inv_feed_all extra live pkts s : Inv extra live s → Inv extra live (feed_all pkts s).
Proof.
  intros HI. destruct (inv_slots _ _ _ HI) as [Hnd HF]. apply Inv_slots; [done| |].
  - constructor; [by rewrite <- list_fmap_compose|]. apply Forall_fmap. eapply Forall_impl; [done|].
    intros sl Hok. by eapply slot_ok_ext.
  - intros i h. unfold kind_of, sock_of, find_slot. rewrite list_find_fmap. simpl.
    by destruct (list_find _ _) as [[m sl]|].
Qed.

(** The drain ends and moves every queued packet to its device. *)
Lemma drain_ingress_all fuel n :
  NoDup (id <$> slots (core (shared n))) → (length (chan_items (ingress_chan n)) < fuel)%nat →
  ∃ c, drain_ingress fuel n =
      Done (tt, set_ingress_chan c (set_shared (feed_all (chan_items (ingress_chan n)) (shared n)) n)) ∧
    chan_items c = [].
Proof.
  revert n. induction fuel as [|fuel IH]; intros n Hnd Hlen; [lia|]. simpl.
  unfold mbind, M_bind, mget, mmodify. pose proof (chan_recv_items _ (ingress_chan n)) as Hr.
  destruct (chan_try_recv (ingress_chan n)) as [[pkt c]|e].
  - rewrite Hr in Hlen |- *. unfold on_shared, zoom. simpl.
    rewrite queue_ingress_feed by done.
    destruct (IH (set_shared (feed_all [pkt] (shared n)) (set_ingress_chan c n))) as (c' & Hd & Hc').
    + cbn [shared set_shared]. by rewrite feed_all_ids.
    + simpl in *. lia.
    + exists c'. split; [|done]. rewrite Hd. simpl. rewrite feed_all_app. done.
  - exists (ingress_chan n). rewrite Hr, feed_all_nil. split; [by destruct n|done].
Qed.
End HandleCorrect.
