(* ===== verification/Builder.v ===== *)
(** * Building a stack

    [NetstackBuilder::build] and [build_interface] of [builder.rs]. The state
    of the computation is the list of allocator options written so far, the
    one effect that is not part of the result; the random seed and the clock
    are read once per interface. *)
From stdpp Require Import base list gmap.
From S2P Require Import Prelude Types Device Smoltcp Config Manager Core Packet Session Invariant Streams Runner Handle.

Local Open Scope Z_scope.

Section Builder.
Context `{T : Target, W : Wire, E : Engine, K : Tokio}.

Abbreviation Options := (list (mi_option_t * Z)) (only parsing).

(** [heapless::Vec::push] on the address table of an interface. *)
Definition addrs_push (addrs : list IpCidr) (c : IpCidr) : option (list IpCidr) :=
  if bool_decide (length addrs < iface_max_addr_count)%nat then Some (addrs ++ [c]) else None.

(** An address that does not fit is dropped with a warning. *)
Definition push_all_addrs (cidrs addrs : list IpCidr) : list IpCidr :=
  foldl (λ addrs c, default addrs (addrs_push addrs c)) addrs cidrs.

(** [IpCidr::new(addr.into(), prefix)] over a list of addresses. *)
Fixpoint cidrs_of (into : Z → IpAddress) (l : list (Z * Z)) : M Options (list IpCidr) :=
  match l with
  | [] => mret []
  | (a, prefix) :: rest =>
      match IpCidr_new (into a) prefix with
      | Some c => cs ← cidrs_of into rest; mret (c :: cs)
      | None => mpanic PrefixTooLong
      end
  end.

(** The default route of a family: the gateway, or the first address. *)
Definition install_route (add : Interface → Z → option Interface) (gateway : option Z)
    (addrs : list (Z * Z)) (ifc : Interface) : Interface :=
  match gateway with
  | Some gw => default ifc (add ifc gw)
  | None => match head addrs with
            | Some (first, _) => default ifc (add ifc first)
            | None => ifc
            end
  end.

Definition build_interface (id : InterfaceId) (spec : InterfaceConfig) (cfg : NetstackConfig)
    (random_seed : Z) (now : Instant) : M Options (result InterfaceSlot NetstackError) :=
  let device := VirtualDevice_new (cfg_mtu cfg) in
  let ifc := iface_new random_seed device now in
  let ifc := iface_set_any_ip ifc true in
  v4 ← cidrs_of Ipv4 (ipv4_addrs spec);
  v6 ← cidrs_of Ipv6 (ipv6_addrs spec);
  match iface_update_ip_addrs ifc (λ addrs, push_all_addrs v6 (push_all_addrs v4 addrs)) with
  | None => mpanic AddressNotUnicast
  | Some ifc =>
      let ifc := install_route iface_add_default_ipv4_route (ipv4_gateway spec) (ipv4_addrs spec) ifc in
      let ifc := install_route iface_add_default_ipv6_route (ipv6_gateway spec) (ipv6_addrs spec) ifc in
      mret (Ok (InterfaceSlot_new id ifc device socket_set_new
                  (cfg_tcp_pool_size cfg) (cfg_mtu cfg) (cfg_tcp_buffer_size cfg)))
  end.

(** The loop of [build] over the registered interfaces, with the [?]. *)
Fixpoint build_slots (l : list (InterfaceId * InterfaceConfig)) (cfg : NetstackConfig)
    (clock : InterfaceId → Z * Instant) (slots : list InterfaceSlot)
    : M Options (result (list InterfaceSlot) NetstackError) :=
  match l with
  | [] => mret (Ok slots)
  | (id, spec) :: rest =>
      r ← build_interface id spec cfg (clock id).1 (clock id).2;
      match r with
      | Ok slot => build_slots rest cfg clock (slots ++ [slot])
      | Err e => mret (Err e)
      end
  end.

Definition build (self : NetstackBuilder) (clock : InterfaceId → Z * Instant)
    : M Options (result Netstack NetstackError) :=
  mmodify (λ written, written ++ apply_mimalloc_tuning (config self));;
  r ← build_slots (interfaces self) (config self) clock [];
  match r with
  | Err e => mret (Err e)
  | Ok slots =>
      let core := {| slots := slots; manager := SessionManager_default;
                     core_config := config self; buffer_bytes := 0 |} in
      let shared := Shared_new core in
      let cap := Z.max (cfg_channel_capacity (config self)) 1 in
      ingress ← mpsc_channel cap;
      egress ← mpsc_channel cap;
      mret (Ok {| shared := shared; ingress_chan := ingress;
                  egress_chan := egress; accept_chan := chan_unbounded |})
  end.

(** ** Properties *)

(** What a specification must satisfy: prefixes no longer than the addresses,
    unicast addresses. *)
Definition spec_cidrs (spec : InterfaceConfig) : list IpCidr :=
  (prod_map Ipv4 (λ p, p) <$> ipv4_addrs spec) ++ (prod_map Ipv6 (λ p, p) <$> ipv6_addrs spec).

Record spec_ok (spec : InterfaceConfig) : Prop := {
  spec_v4 : Forall (λ ap, 0 ≤ ap.2 ≤ 32) (ipv4_addrs spec);
  spec_v6 : Forall (λ ap, 0 ≤ ap.2 ≤ 128) (ipv6_addrs spec);
  spec_unicast : Forall (λ c, ip_is_unicast c.1 = true) (spec_cidrs spec);
}.

Lemma push_all_addrs_take cidrs addrs :
  push_all_addrs cidrs addrs = addrs ++ take (iface_max_addr_count - length addrs) cidrs.
Proof.
  revert addrs. induction cidrs as [|c cidrs IH]; intros addrs; simpl.
  - by rewrite take_nil, app_nil_r.
  - unfold addrs_push at 1. case_bool_decide as Hlt; simpl.
    + fold (push_all_addrs cidrs (addrs ++ [c])). rewrite IH, length_app. simpl.
      destruct (iface_max_addr_count - length addrs)%nat as [|m] eqn:Em; [lia|].
      replace (iface_max_addr_count - (length addrs + 1))%nat with m by lia.
      simpl. by rewrite <- app_assoc.
    + fold (push_all_addrs cidrs addrs). rewrite IH.
      replace (iface_max_addr_count - length addrs)%nat with O by lia. done.
Qed.

(** Both families together: the table holds the first addresses that fit. *)
Lemma push_all_addrs_both v4 v6 :
  push_all_addrs v6 (push_all_addrs v4 []) = take iface_max_addr_count (v4 ++ v6).
Proof.
  rewrite !push_all_addrs_take, take_app, length_app, !length_take. simpl. rewrite Nat.sub_0_r. f_equal.
  destruct (decide (iface_max_addr_count ≤ length v4)%nat).
  - by rewrite !(proj2 (Nat.sub_0_le _ _)) by lia.
  - f_equal. lia.
Qed.

Section laws.
Context `{!EngineLaws, !TokioLaws}.

Lemma wp_cidrs_of into bits l Q o :
  (∀ a prefix, 0 ≤ prefix ≤ bits → IpCidr_new (into a) prefix = Some (into a, prefix)) →
  Forall (λ ap, 0 ≤ ap.2 ≤ bits) l → Q (prod_map into (λ p, p) <$> l) o → wp (cidrs_of into l) Q o.
Proof.
  intros Hnew. revert Q. induction l as [|[a prefix] l IH]; intros Q HF HQ; simpl; [by wp_go|].
  apply Forall_cons in HF as [Hp HF]. rewrite Hnew by done. wp_go. apply IH; [done|]. by wp_go.
Qed.

(** The default route of a family, by its specification. *)
Definition default_route (network : IpCidr) (into : Z → IpAddress) (gateway : option Z) (addrs : list (Z * Z))
    : list (IpCidr * IpAddress) :=
  match gateway, addrs with
  | Some gw, _ => [(network, into gw)]
  | None, (first, _) :: _ => [(network, into first)]
  | None, [] => []
  end.

Definition spec_routes (spec : InterfaceConfig) : list (IpCidr * IpAddress) :=
  default_route default_v4 Ipv4 (ipv4_gateway spec) (ipv4_addrs spec) ++
  default_route default_v6 Ipv6 (ipv6_gateway spec) (ipv6_addrs spec).

Lemma install_route_spec add network into gw addrs ifc :
  (∀ i x, network ∉ (iface_routes i).*1 →
    match add i x with
    | Some i' => (length (iface_routes i) < iface_max_route_count)%nat ∧
        iface_routes i' = iface_routes i ++ [(network, into x)] ∧
        iface_ip_addrs i' = iface_ip_addrs i ∧ iface_any_ip i' = iface_any_ip i
    | None => (iface_max_route_count ≤ length (iface_routes i))%nat
    end) →
  network ∉ (iface_routes ifc).*1 → (length (iface_routes ifc) ≤ iface_max_route_count)%nat →
  let ifc' := install_route add gw addrs ifc in
  iface_ip_addrs ifc' = iface_ip_addrs ifc ∧ iface_any_ip ifc' = iface_any_ip ifc ∧
  iface_routes ifc' = take iface_max_route_count (iface_routes ifc ++ default_route network into gw addrs).
Proof.
  intros Hadd Hn Hlen.
  assert (∀ x, let ifc' := default ifc (add ifc x) in
    iface_ip_addrs ifc' = iface_ip_addrs ifc ∧ iface_any_ip ifc' = iface_any_ip ifc ∧
    iface_routes ifc' = take iface_max_route_count (iface_routes ifc ++ [(network, into x)])) as Hone.
  { intros x. specialize (Hadd ifc x Hn). destruct (add ifc x) as [i'|]; simpl.
    - destruct Hadd as (Hlt & -> & -> & ->). split_and!; [done..|]. rewrite take_ge; [done|].
      rewrite length_app. simpl. lia.
    - split_and!; [done..|]. by rewrite take_app_length' by lia. }
  unfold install_route, default_route. destruct gw as [x|]; [apply Hone|].
  destruct addrs as [|[x p] addrs]; [|apply Hone]. simpl. by rewrite app_nil_r, take_ge.
Qed.

(** Both default routes on an interface without routes. *)
Lemma installed_routes spec ifc :
  iface_routes ifc = [] →
  let ifc' := install_route iface_add_default_ipv6_route (ipv6_gateway spec) (ipv6_addrs spec)
    (install_route iface_add_default_ipv4_route (ipv4_gateway spec) (ipv4_addrs spec) ifc) in
  iface_ip_addrs ifc' = iface_ip_addrs ifc ∧ iface_any_ip ifc' = iface_any_ip ifc ∧
  iface_routes ifc' = take iface_max_route_count (spec_routes spec).
Proof.
  intros Hr. set (r4 := default_route default_v4 Ipv4 (ipv4_gateway spec) (ipv4_addrs spec)).
  destruct (install_route_spec iface_add_default_ipv4_route default_v4 Ipv4 (ipv4_gateway spec) (ipv4_addrs spec) ifc)
    as (Ha4 & Hany4 & Hr4); [apply iface_route_v4|rewrite Hr; apply not_elem_of_nil|rewrite Hr; simpl; lia|].
  rewrite Hr in Hr4. simpl in Hr4. fold r4 in Hr4.
  edestruct (install_route_spec iface_add_default_ipv6_route default_v6 Ipv6 (ipv6_gateway spec) (ipv6_addrs spec))
    as (Ha6 & Hany6 & Hr6); [apply iface_route_v6| | |split_and!; [by rewrite Ha6|by rewrite Hany6|rewrite Hr6]].
  - rewrite Hr4. intros (r & Hd & Hin)%list_elem_of_fmap. apply elem_of_take in Hin as (n & Hin & _).
    apply list_elem_of_lookup_2 in Hin. unfold r4, default_route in Hin.
    destruct (ipv4_gateway spec), (ipv4_addrs spec) as [|[]]; set_solver.
  - rewrite Hr4, length_take. lia.
  - rewrite Hr4. unfold spec_routes. fold r4. rewrite !take_app, take_take, Nat.min_id, length_take. do 2 f_equal. lia.
Qed.

(** A built slot: fresh, configured, accepting packets to any address, with the
    addresses and the default routes that fit. *)
Record slot_built (cfg : NetstackConfig) (ic : InterfaceId * InterfaceConfig) (sl : InterfaceSlot) : Prop := {
  built_id : id sl = ic.1;
  built_device : device sl = VirtualDevice_new (cfg_mtu cfg);
  built_sockets : sockets sl = socket_set_new;
  built_pool : tcp_pool sl = [];
  built_mtu : mtu sl = cfg_mtu cfg;
  built_buffer : tcp_buffer_size sl = cfg_tcp_buffer_size cfg;
  built_pool_max : tcp_pool_max sl = cfg_tcp_pool_size cfg;
  built_addrs : iface_ip_addrs (iface sl) = take iface_max_addr_count (spec_cidrs ic.2);
  built_any_ip : iface_any_ip (iface sl) = true;
  built_routes : iface_routes (iface sl) = take iface_max_route_count (spec_routes ic.2);
}.

Lemma wp_build_interface i spec cfg seed now o :
  spec_ok spec →
  wp (build_interface i spec cfg seed now)
    (λ r o', o' = o ∧ ∃ sl, r = Ok sl ∧ slot_built cfg (i, spec) sl) o.
Proof.
  intros [H4 H6 Hu]. unfold build_interface. wp_go.
  eapply (wp_cidrs_of Ipv4 32); [apply IpCidr_new_v4|done|]. wp_go.
  eapply (wp_cidrs_of Ipv6 128); [apply IpCidr_new_v6|done|]. cbv beta.
  match goal with |- context [iface_update_ip_addrs ?i0 ?f] =>
    assert (f (iface_ip_addrs i0) = take iface_max_addr_count (spec_cidrs spec)) as Hf;
    [by rewrite iface_any_ip_addrs, iface_new_addrs, push_all_addrs_both|];
    destruct (iface_update_addrs i0 f) as (ifc & -> & Ha & Hany & Hr); [rewrite Hf; by apply Forall_take|]
  end.
  rewrite iface_any_ip_set in Hany. rewrite iface_any_ip_routes, iface_new_routes in Hr.
  destruct (installed_routes spec ifc Hr) as (Ha' & Hany' & Hr').
  wp_go. split; [done|]. eexists. split; [done|]. constructor; try done; simpl; congruence.
Qed.

Lemma wp_build_slots l cfg clock sls o :
  Forall (λ ic, spec_ok ic.2) l →
  wp (build_slots l cfg clock sls) (λ r o', o' = o ∧
    ∃ new, r = Ok (sls ++ new) ∧ Forall2 (slot_built cfg) l new) o.
Proof.
  revert sls o. induction l as [|[i spec] l IH]; intros sls o HF; simpl.
  - wp_go. split; [done|]. exists []. rewrite app_nil_r. done.
  - apply Forall_cons in HF as [Hs HF]. wp_go.
    eapply wp_mono; [by apply wp_build_interface|]. cbv beta. intros r o' (-> & sl & -> & Hb).
    eapply wp_mono; [by apply IH|]. cbv beta. intros r o' (-> & new & -> & Hn).
    split; [done|]. exists (sl :: new). rewrite <- app_assoc. split; [done|]. by constructor.
Qed.

Lemma slots_built_ids cfg l sls : Forall2 (slot_built cfg) l sls → id <$> sls = l.*1.
Proof. induction 1 as [|ic sl l sls Hb _ IH]; [done|]. rewrite !fmap_cons, IH. f_equal. apply Hb. Qed.

Lemma slots_built_ok cfg l sls :
  0 ≤ cfg_tcp_pool_size cfg → NoDup l.*1 → Forall2 (slot_built cfg) l sls → slots_ok cfg sls.
Proof.
  intros Hp Hnd Hb. constructor; [by rewrite (slots_built_ids cfg l)|].
  induction Hb as [|ic sl l sls Hb _ IH]; [done|]. apply NoDup_cons in Hnd as [_ Hnd].
  constructor; [|by apply IH]. destruct Hb as [? ? ? Hpool ? ? ? ?].
  constructor; try done; rewrite Hpool; [done|constructor].
Qed.

Lemma Inv_initial cfg sls :
  sane_config cfg → slots_ok cfg sls →
  Inv 0 [] (Shared_new {| slots := sls; manager := SessionManager_default;
                          core_config := cfg; buffer_bytes := 0 |}).
Proof.
  intros Hs Hsl. pose proof (sane_total _ Hs). pose proof (tcp_socket_cost_nonneg _ Hs).
  pose proof (udp_socket_cost_pos _ Hs). pose proof (sane_tcp_max _ Hs). pose proof (sane_udp_max _ Hs).
  constructor; simpl; try done; try lia.
  - apply live_ok_nil.
  - unfold charged. simpl. rewrite !map_size_empty. lia.
  - rewrite map_size_empty. lia.
  - pose proof (sane_limit _ Hs) as Hl. unfold within. destruct (cfg_max_buffer_bytes cfg); [|done].
    by apply bool_decide_eq_true.
Qed.

(** [build] on a builder with distinct interfaces. *)
Record built (b : NetstackBuilder) (n : Netstack) : Prop := {
  built_inv : Inv 0 [] (shared n);
  built_slots : Forall2 (slot_built (config b)) (interfaces b) (slots (core (shared n)));
  built_config : core_config (core (shared n)) = config b;
  built_ingress : chan_items (ingress_chan n) = [];
  built_egress : chan_items (egress_chan n) = [];
  built_accept : chan_items (accept_chan n) = [];
  built_ingress_ends :
    chan_ends (ingress_chan n) = (Some (Z.max (cfg_channel_capacity (config b)) 1), true, true);
  built_egress_ends :
    chan_ends (egress_chan n) = (Some (Z.max (cfg_channel_capacity (config b)) 1), true, true);
  built_accept_ends : chan_ends (accept_chan n) = (None, true, true);
}.

Lemma wp_build b clock o :
  sane_config (config b) → NoDup (interfaces b).*1 → Forall (λ ic, spec_ok ic.2) (interfaces b) →
  wp (build b clock) (λ r o', o' = o ++ apply_mimalloc_tuning (config b) ∧ ∃ n, r = Ok n ∧ built b n) o.
Proof.
  intros Hs Hnd HF. unfold build. wp_go. eapply wp_mono; [by apply wp_build_slots|]. cbv beta.
  intros r o' (-> & sls & -> & Hb). simpl. wp_go. pose proof (sane_channel _ Hs).
  do 2 (apply wp_mpsc_channel; [lia|]; wp_go). split; [done|]. eexists. split; [done|].
  constructor; simpl; try done.
  - apply Inv_initial; [done|]. eapply slots_built_ok; [apply Hs|done..].
  - apply chan_bounded_items.
  - apply chan_bounded_items.
  - apply chan_unbounded_items.
  - apply chan_bounded_ends.
  - apply chan_bounded_ends.
  - apply chan_unbounded_ends.
Qed.
End laws.
End Builder.
