(* ===== verification/System.v ===== *)
(** * The running system

    The runner task, the application and the channels between them, as a
    transition system. Every critical section of the crate, and every other
    step that other tasks can observe, is one [action]; [perform] executes it.
    The runner follows the control flow of [NetstackRunner::run] and
    [poll_once]; the application may call any method of the handle and of the
    sessions it holds at any time, and the steps of [recv] and [send] are
    taken at any point of their loops. *)
From stdpp Require Import base list gmap.
From S2P Require Import Prelude Types Device Smoltcp Config Manager Core Packet Session Streams Runner Handle Builder.

Local Open Scope Z_scope.

Section System.
Context `{T : Target, W : Wire, E : Engine, K : Tokio}.

(** ** The state *)

(** Where the runner is. *)
Inductive RunnerPc : Type :=
| R_Top                                                  (* head of the loop *)
| R_Select (sleep : StdDuration)                         (* the sleep is created *)
| R_Waiting (f : Notified) (sleep : StdDuration)         (* in select! *)
| R_Draining                                             (* while let Ok(pkt) = try_recv() *)
| R_Polling                                              (* head of poll_once *)
| R_Forwarding                                           (* the lock is released *)
| R_PollDone                                             (* poll_once has returned *)
| R_Stopped.                                             (* run has returned *)

Record World : Type := mkWorld {
  net : Netstack;
  pc : RunnerPc;
  scratch_accepted : list Session;
  scratch_egress : list EgressPacket;
  app : list Session;          (* the sessions the application holds *)
  has_handle : bool;           (* the application has not dropped the handle *)
}.

Definition set_net (n : Netstack) (w : World) : World :=
  {| net := n; pc := pc w; scratch_accepted := scratch_accepted w; scratch_egress := scratch_egress w;
     app := app w; has_handle := has_handle w |}.
Definition set_pc (p : RunnerPc) (w : World) : World :=
  {| net := net w; pc := p; scratch_accepted := scratch_accepted w; scratch_egress := scratch_egress w;
     app := app w; has_handle := has_handle w |}.
Definition set_scratch (acc : list Session) (out : list EgressPacket) (w : World) : World :=
  {| net := net w; pc := pc w; scratch_accepted := acc; scratch_egress := out;
     app := app w; has_handle := has_handle w |}.
Definition set_app (l : list Session) (w : World) : World :=
  {| net := net w; pc := pc w; scratch_accepted := scratch_accepted w; scratch_egress := scratch_egress w;
     app := l; has_handle := has_handle w |}.
Definition set_has_handle (b : bool) (w : World) : World :=
  {| net := net w; pc := pc w; scratch_accepted := scratch_accepted w; scratch_egress := scratch_egress w;
     app := app w; has_handle := b |}.

Definition on_net {A} (m : M Netstack A) : M World A := zoom net set_net m.
Definition in_shared {A} (m : M Shared A) : M World A := on_net (on_shared m).

(** The state right after [build]: the runner is spawned. *)
Definition world_of (n : Netstack) : World :=
  {| net := n; pc := R_Top; scratch_accepted := []; scratch_egress := []; app := []; has_handle := true |}.

(** ** The runner *)

(** Head of the loop: [next_poll_delay] and the sleep. *)
Definition run_top (now : Instant) : M World unit :=
  w ← mget;
  mmodify (set_pc (R_Select (sleep_duration (next_poll_delay now (shared (net w)))))).

(** [self.shared.poll_notify.notified()] *)
Definition run_subscribe (sleep : StdDuration) : M World unit :=
  w ← mget;
  mmodify (set_pc (R_Waiting (notified (poll_notify (shared (net w)))) sleep)).

(** [run] returns: the runner's ends of the channels and its scratch buffers
    are dropped. *)
Definition run_stop : M World unit :=
  w ← mget;
  on_net (mmodify (λ n, set_ingress_chan (chan_drop_rx (ingress_chan n)) n));;
  on_net (mmodify (λ n, set_egress_chan (chan_drop_tx (egress_chan n)) n));;
  on_net (mmodify (λ n, set_accept_chan (chan_drop_tx (accept_chan n)) n));;
  in_shared (drop_all (scratch_accepted w));;
  mmodify (λ w, set_pc R_Stopped (set_scratch [] [] w)).

(** The [biased] select: the notification first, then the channel, then the
    timer. [timer] tells whether the sleep has elapsed. [None]: every branch is
    pending. *)
Definition run_select (f : Notified) (timer : bool) (w : World) : option (M World unit) :=
  if notified_ready (poll_notify (shared (net w))) f then Some (mmodify (set_pc R_Draining))
  else match chan_try_recv (ingress_chan (net w)) with
       | Ok (pkt, c) => Some (
           on_net (mmodify (set_ingress_chan c));;
           in_shared (queue_ingress pkt);;
           mmodify (set_pc R_Draining))
       | Err TryRecv_Disconnected => Some run_stop
       | Err TryRecv_Empty => if timer then Some (mmodify (set_pc R_Draining)) else None
       end.

Definition run_drain : M World unit :=
  w ← mget;
  match chan_try_recv (ingress_chan (net w)) with
  | Ok (pkt, c) =>
      on_net (mmodify (set_ingress_chan c));;
      in_shared (queue_ingress pkt)
  | Err _ => mmodify (set_pc R_Polling)
  end.

(** [poll_once] up to the release of the lock; [clear] drops what an earlier
    cycle left in the scratch buffers. *)
Definition run_poll `{HO : HashOrder} (now : Instant) : M World unit :=
  w ← mget;
  in_shared (drop_all (scratch_accepted w));;
  '(accepted, out) ← in_shared (poll_locked now);
  mmodify (λ w, set_pc R_Forwarding (set_scratch accepted out w)).

(** One step of the forwarding loops of [poll_once]. [None]: the egress channel
    is full and the runner waits. *)
Definition run_forward (w : World) : option (M World unit) :=
  match scratch_egress w, scratch_accepted w with
  | pkt :: out, acc =>
      match chan_try_send (egress_chan (net w)) pkt with
      | Ok c => Some (on_net (mmodify (set_egress_chan c));; mmodify (set_scratch acc out))
      | Err TrySend_Full => None
      | Err TrySend_Closed => Some (mmodify (λ w, set_pc R_PollDone (set_scratch acc [] w)))
      end
  | [], session :: acc =>
      match chan_try_send (accept_chan (net w)) session with
      | Ok c => Some (on_net (mmodify (set_accept_chan c));; mmodify (set_scratch acc []))
      | Err _ => Some (mmodify (set_scratch acc []);; in_shared (session_drop session))
      end
  | [], [] => Some (mmodify (set_pc R_PollDone))
  end.

Definition run_done : M World unit :=
  in_shared notify_poll_done;;
  mmodify (set_pc R_Top).

(** ** The application *)

(** A method call on a session, or one step of one. *)
Inductive session_op : Type :=
| Op_Read (cx : Waker) (buf : ReadBuf)
| Op_Write (cx : Waker) (data : Bytes)
| Op_Flush (cx : Waker)
| Op_Shutdown (cx : Waker)
| Op_Recv (pc : RecvPc)
| Op_Send (payload : Bytes) (pc : SendPc).

(** The calls that the types admit: a stream is read and written, a UDP session
    receives and sends; a [ReadBuf] is never over-full. *)
Definition run_op (op : session_op) (session : Session) : option (M Shared unit) :=
  match op, session with
  | Op_Read cx buf, Session_Tcp t =>
      if bool_decide (0 ≤ rb_remaining buf) then Some (_ ← poll_read t cx buf; mret tt) else None
  | Op_Write cx data, Session_Tcp t => Some (_ ← poll_write t cx data; mret tt)
  | Op_Flush cx, Session_Tcp t => Some (_ ← poll_flush t cx; mret tt)
  | Op_Shutdown cx, Session_Tcp t => Some (_ ← poll_shutdown t cx; mret tt)
  | Op_Recv p, Session_Udp u => Some (_ ← recv_step u p; mret tt)
  | Op_Send payload p, Session_Udp u => Some (_ ← send_step u payload p; mret tt)
  | _, _ => None
  end.

(** [accept], when a session is there; it is the application's then. *)
Definition app_accept : M World unit :=
  r ← on_net accept;
  match r with
  | Poll_Ready (Some session) => mmodify (λ w, set_app (app w ++ [session]) w)
  | _ => mret tt
  end.

(** Dropping the handle: its sender, and its receiver with the sessions that
    were not accepted. *)
Definition app_drop_handle : M World unit :=
  w ← mget;
  let left := chan_items (accept_chan (net w)) in
  on_net (mmodify (λ n, set_ingress_chan (chan_drop_tx (ingress_chan n)) n));;
  on_net (mmodify (λ n, set_accept_chan (chan_drop_rx (accept_chan n)) n));;
  in_shared (drop_all left);;
  mmodify (set_has_handle false).

(** The application reads the egress receiver, or drops it. *)
Definition app_egress : M World unit :=
  on_net (
    n ← mget;
    match chan_try_recv (egress_chan n) with
    | Ok (_, c) => mmodify (set_egress_chan c)
    | Err _ => mret tt
    end).

Definition app_drop_egress : M World unit :=
  on_net (mmodify (λ n, set_egress_chan (chan_drop_rx (egress_chan n)) n)).

Definition app_drop_session (i : nat) (session : Session) : M World unit :=
  mmodify (λ w, set_app (delete i (app w)) w);;
  in_shared (session_drop session).

(** ** Steps *)

Inductive action : Type :=
| Run (now : Instant) (timer : bool)       (* the runner's next step *)
| Send_ip (i : InterfaceId) (data : Bytes)
| Accept
| Drop_handle
| Egress
| Drop_egress
| On_session (i : nat) (op : session_op)
| Drop_session (i : nat).

(** The computation of an action in a state; [None] if it is not enabled. *)
Definition perform `{HO : HashOrder} (a : action) (w : World) : option (M World unit) :=
  match a with
  | Run now timer =>
      match pc w with
      | R_Top => Some (run_top now)
      | R_Select sleep => Some (run_subscribe sleep)
      | R_Waiting f _ => run_select f timer w
      | R_Draining => Some run_drain
      | R_Polling => Some (run_poll now)
      | R_Forwarding => run_forward w
      | R_PollDone => Some run_done
      | R_Stopped => None
      end
  | Send_ip i data => if has_handle w then Some (_ ← on_net (send_ip_packet i data); mret tt) else None
  | Accept => if has_handle w then Some app_accept else None
  | Drop_handle => if has_handle w then Some app_drop_handle else None
  | Egress => Some app_egress
  | Drop_egress => Some app_drop_egress
  | On_session i op => session ← app w !! i; m ← run_op op session; Some (in_shared m)
  | Drop_session i => session ← app w !! i; Some (app_drop_session i session)
  end.

(** A step performs an enabled action, with the maps iterated in any order; a
    crash is an enabled action that panics or does not end. *)
Inductive step (w w' : World) : Prop :=
| step_intro (HO : HashOrder) (a : action) (m : M World unit) :
    perform a w = Some m → m w = Done (tt, w') → step w w'.

Inductive crashes (w : World) : Prop :=
| crash_panic (HO : HashOrder) (a : action) (m : M World unit) p :
    perform a w = Some m → m w = Panic p → crashes w
| crash_diverge (HO : HashOrder) (a : action) (m : M World unit) :
    perform a w = Some m → m w = OutOfFuel → crashes w.

(** The states of a stack built from [b]. *)
Inductive initial (b : NetstackBuilder) (w : World) : Prop :=
| initial_intro clock o o' n :
    build b clock o = Done (Ok n, o') → w = world_of n → initial b w.

Definition reachable (b : NetstackBuilder) (w : World) : Prop :=
  ∃ w0, initial b w0 ∧ rtc step w0 w.

(** Actions run one after the other; an action that is not enabled is skipped. *)
Fixpoint run_actions `{HO : HashOrder} (l : list action) (w : World) : outcome World :=
  match l with
  | [] => Done w
  | a :: rest =>
      match perform a w with
      | None => run_actions rest w
      | Some m =>
          match m w with
          | Done (_, w') => run_actions rest w'
          | Panic p => Panic p
          | OutOfFuel => OutOfFuel
          end
      end
  end.
End System.
