(* ===== verification/ConfigKept.v ===== *)
(** * What is never written

    Every computation of the crate on [Shared] leaves the configuration as
    [build] put it, so the limits of a reachable state are those of the builder;
    and only the end of a cycle signals [poll_done]. *)
From stdpp Require Import base list gmap.
From S2P Require Import Prelude Types Device Smoltcp Config Manager Core Packet Session Streams Runner Handle Builder System.

Section ConfigKept.
Context `{T : Target, W : Wire, E : Engine, K : Tokio}.

Definition shared_config (s : Shared) : NetstackConfig := core_config (core s).
Definition world_config (w : World) : NetstackConfig := shared_config (shared (net w)).

(** The configuration and the signal of the end of a cycle. *)
Definition stable (s : Shared) : NetstackConfig * Notify := (core_config (core s), poll_done s).

Lemma stable_config {A} (m : M Shared A) : keeps stable m → keeps shared_config m.
Proof. intros Hm s a s' Hs. by injection (Hm s a s' Hs). Qed.

Lemma stable_done {A} (m : M Shared A) : keeps stable m → keeps poll_done m.
Proof. intros Hm s a s' Hs. by injection (Hm s a s' Hs). Qed.

(** ** Accessors *)

Lemma keeps_on_core {A} (m : M Core A) : keeps core_config m → keeps stable (on_core m).
Proof. by apply (keeps_zoom _ _ _ _ _ (λ c s, (c, poll_done s))). Qed.

Lemma keeps_on_manager {A} (m : M SessionManager A) : keeps stable (on_manager m).
Proof. apply keeps_on_core, (keeps_zoom _ _ _ _ (λ _, tt) (λ _ c, core_config c)); done. Qed.

Lemma keeps_usize_of {S X} (obs : S → X) v : keeps obs (usize_of v).
Proof. unfold usize_of. keeps_go. Qed.

Lemma keeps_uadd {S X} (obs : S → X) a b : keeps obs (uadd a b).
Proof. apply keeps_usize_of. Qed.

Lemma keeps_umul {S X} (obs : S → X) a b : keeps obs (umul a b).
Proof. apply keeps_usize_of. Qed.

(** The library calls that may panic change no state. *)
Lemma keeps_vec_alloc {S X} (obs : S → X) n size : keeps obs (vec_alloc n size).
Proof. unfold vec_alloc. keeps_go. Qed.

Lemma keeps_tcp_socket_new {S X} (obs : S → X) rx tx : keeps obs (tcp_socket_new rx tx).
Proof. unfold tcp_socket_new. keeps_go. Qed.

Lemma keeps_smoltcp_duration {S X} (obs : S → X) d : keeps obs (smoltcp_duration d).
Proof. unfold smoltcp_duration. keeps_go. Qed.
#[local] Hint Resolve keeps_on_manager keeps_uadd keeps_umul keeps_vec_alloc keeps_tcp_socket_new
  keeps_smoltcp_duration : keeps.

Lemma keeps_reserve n : keeps stable (on_core (reserve_buffer n)).
Proof. apply keeps_on_core. unfold reserve_buffer. keeps_go. Qed.

Lemma keeps_release n : keeps stable (on_core (release_buffer n)).
Proof. apply keeps_on_core. unfold release_buffer. keeps_go. Qed.

Lemma keeps_slot_at i : keeps stable (slot_at i).
Proof. unfold slot_at. keeps_go. Qed.

Lemma keeps_put_slot i sl : keeps stable (put_slot i sl).
Proof. unfold put_slot. keeps_go. Qed.

Lemma keeps_get_tcp ss h : keeps stable (get_tcp_socket ss h).
Proof. unfold get_tcp_socket. keeps_go. Qed.

Lemma keeps_get_udp ss h : keeps stable (get_udp_socket ss h).
Proof. unfold get_udp_socket. keeps_go. Qed.

Lemma keeps_remove ss h : keeps stable (remove_socket ss h).
Proof. unfold remove_socket. keeps_go. Qed.

Lemma keeps_alloc_queue : keeps stable alloc_queue.
Proof. unfold alloc_queue. keeps_go. Qed.

Lemma keeps_on_queue {A} q (m : M UdpQueue A) : keeps stable (on_queue q m).
Proof. unfold on_queue. keeps_go. by intros ?. Qed.

Lemma keeps_notify_poll : keeps stable notify_poll.
Proof. unfold notify_poll. keeps_go. Qed.

Lemma keeps_notify_poll_done : keeps shared_config notify_poll_done.
Proof. unfold notify_poll_done. keeps_go. Qed.
#[local] Hint Resolve keeps_reserve keeps_release keeps_slot_at keeps_put_slot keeps_get_tcp keeps_get_udp
  keeps_remove keeps_alloc_queue keeps_on_queue keeps_notify_poll keeps_notify_poll_done : keeps.

(** ** Sessions *)

Lemma keeps_rb_advance b data : keeps stable (rb_advance b data).
Proof. unfold rb_advance. keeps_go. Qed.
#[local] Hint Resolve keeps_rb_advance : keeps.
#[local] Hint Unfold put_tcp_socket put_udp_socket : keeps.

Lemma keeps_run_op op x m : run_op op x = Some m → keeps stable m.
Proof.
  destruct op, x; simpl; try done; try case_bool_decide; try done; intros [= <-];
    unfold poll_read, poll_write, poll_flush, poll_shutdown, close_socket, recv_step, send_step, try_send,
      put_tcp_socket, put_udp_socket; keeps_go.
Qed.

Lemma keeps_leave i k e : keeps stable (leave_udp_session i k e).
Proof. unfold leave_udp_session. keeps_go. Qed.
#[local] Hint Resolve keeps_leave : keeps.

Lemma keeps_session_drop x : keeps stable (session_drop x).
Proof.
  destruct x; simpl; unfold tcp_drop, close_socket, put_tcp_socket, udp_drop; keeps_go.
Qed.
#[local] Hint Resolve keeps_session_drop : keeps.

Lemma keeps_drop_all l : keeps stable (drop_all l).
Proof. unfold drop_all. keeps_go. Qed.
#[local] Hint Resolve keeps_drop_all : keeps.

(** ** The runner *)

Lemma keeps_queue_ingress pkt : keeps stable (queue_ingress pkt).
Proof. unfold queue_ingress. keeps_go. Qed.
#[local] Hint Resolve keeps_queue_ingress : keeps.

Lemma keeps_pre_pass `{HO : HashOrder} now acc : keeps stable (pre_pass now acc).
Proof. unfold pre_pass, pre_pass_slot, pre_pass_packet, alloc_tcp, alloc_udp. keeps_go. Qed.

Lemma keeps_drain_socket fuel i b sk r : keeps stable (drain_socket fuel i b sk r).
Proof.
  revert sk r. induction fuel as [|fuel IH]; intros sk r; simpl; [by intros s a s'|].
  destruct (udp_recv sk) as [[[]|[]] ?]; keeps_go; apply IH.
Qed.
#[local] Hint Resolve keeps_pre_pass keeps_drain_socket : keeps.

Lemma keeps_post_pass `{HO : HashOrder} now acc : keeps stable (post_pass now acc).
Proof.
  unfold post_pass, tcp_transitions, tcp_transition, tcp_reap_one, drain_udp, drain_slot, drain_one,
    route_one, udp_expire_one. keeps_go.
Qed.
#[local] Hint Resolve keeps_post_pass : keeps.

Lemma keeps_poll_locked `{HO : HashOrder} now : keeps stable (poll_locked now).
Proof. unfold poll_locked, poll_interfaces, collect_egress. keeps_go. Qed.
#[local] Hint Resolve keeps_poll_locked : keeps.

(** ** The system *)

#[local] Hint Resolve stable_config : keeps.

Lemma keeps_on_net {A X} (obs : Netstack → X) (m : M Netstack A) :
  keeps obs m → keeps (λ w, obs (net w)) (on_net m).
Proof. by apply (keeps_zoom _ _ _ _ _ (λ c _, c)). Qed.

Lemma keeps_in_shared {A} (m : M Shared A) : keeps shared_config m → keeps world_config (in_shared m).
Proof.
  intros Hm. apply (keeps_on_net (λ n, shared_config (shared n))).
  by apply (keeps_zoom _ _ _ _ shared_config (λ c _, c)).
Qed.
#[local] Hint Resolve keeps_in_shared : keeps.

Lemma keeps_on_net_modify f :
  (∀ n, shared (f n) = shared n) → keeps world_config (on_net (mmodify f)).
Proof.
  intros Hf. apply (keeps_on_net (λ n, shared_config (shared n))), keeps_modify. intros n. by rewrite Hf.
Qed.
#[local] Hint Resolve keeps_on_net_modify : keeps.

Lemma keeps_send_ip i data : keeps world_config (on_net (send_ip_packet i data)).
Proof.
  apply (keeps_on_net (λ n, shared_config (shared n))). unfold send_ip_packet. keeps_go.
  by apply (keeps_zoom _ _ _ _ shared_config (λ c _, c)), stable_config, keeps_notify_poll.
Qed.

Lemma keeps_accept : keeps world_config app_accept.
Proof.
  unfold app_accept. apply keeps_bind; [|intros ?; keeps_go].
  apply (keeps_on_net (λ n, shared_config (shared n))). unfold accept. keeps_go.
Qed.

Lemma keeps_egress : keeps world_config app_egress.
Proof. apply (keeps_on_net (λ n, shared_config (shared n))). keeps_go. Qed.
#[local] Hint Resolve keeps_send_ip keeps_accept keeps_egress : keeps.

Lemma keeps_perform `{HO : HashOrder} a w m : perform a w = Some m → keeps world_config m.
Proof.
  destruct a as [now timer|i data| | | | |i op|i]; simpl.
  - destruct (pc w); try done; try (intros [= <-]).
    + unfold run_top. keeps_go.
    + unfold run_subscribe. keeps_go.
    + unfold run_select, run_stop. destruct (notified_ready _ _); [intros [= <-]; keeps_go|].
      destruct (chan_try_recv _) as [[]|[]]; [|destruct timer; [|done]|]; intros [= <-]; keeps_go.
    + unfold run_drain. keeps_go.
    + unfold run_poll. keeps_go.
    + unfold run_forward. destruct (scratch_egress w); [destruct (scratch_accepted w)|];
        try destruct (chan_try_send _ _) as [|[]]; try done; intros [= <-]; keeps_go.
    + unfold run_done. keeps_go.
  - destruct (has_handle w); [|done]. intros [= <-]. keeps_go.
  - destruct (has_handle w); [|done]. intros [= <-]. keeps_go.
  - destruct (has_handle w); [|done]. intros [= <-]. unfold app_drop_handle. keeps_go.
  - intros [= <-]. keeps_go.
  - intros [= <-]. unfold app_drop_egress. keeps_go.
  - intros (x & _ & (m' & Hm & [= <-])%bind_Some)%bind_Some. apply keeps_in_shared, stable_config. by eapply keeps_run_op.
  - intros (x & _ & [= <-])%bind_Some. unfold app_drop_session. keeps_go.
Qed.

Lemma step_config w w' : step w w' → world_config w' = world_config w.
Proof. intros [HO a m Hp Hm]. by apply (keeps_perform a w m Hp) in Hm. Qed.

Lemma steps_config w w' : rtc step w w' → world_config w' = world_config w.
Proof. induction 1 as [|w w1 w2 Hs _ IH]; [done|]. apply step_config in Hs. congruence. Qed.

(** The runner does not signal the end of a cycle before it is there. *)
Definition world_done (w : World) : Notify := poll_done (shared (net w)).

Lemma done_in_shared {A} (m : M Shared A) : keeps stable m → keeps world_done (in_shared m).
Proof.
  intros Hm. apply (keeps_on_net (λ n, poll_done (shared n))).
  by apply (keeps_zoom _ _ _ _ poll_done (λ c _, c)), stable_done.
Qed.

Lemma done_on_net_modify f :
  (∀ n, shared (f n) = shared n) → keeps world_done (on_net (mmodify f)).
Proof.
  intros Hf. apply (keeps_on_net (λ n, poll_done (shared n))), keeps_modify. intros n. by rewrite Hf.
Qed.
#[local] Hint Resolve done_in_shared done_on_net_modify : keeps.

Lemma done_run_poll `{HO : HashOrder} now : keeps world_done (run_poll now).
Proof. unfold run_poll. keeps_go. Qed.

Lemma done_run_forward w m : run_forward w = Some m → keeps world_done m.
Proof.
  unfold run_forward. destruct (scratch_egress w); [destruct (scratch_accepted w)|];
    try destruct (chan_try_send _ _) as [|[]]; try done; intros [= <-]; keeps_go.
Qed.
End ConfigKept.
