(* ===== verification/DevicesKept.v ===== *)
(** * Session operations leave the devices alone

    The devices of the interfaces are touched by the runner only: no method of
    a session, and no drop of one, adds, takes or reorders a packet. What the
    runner's own steps do to the devices is in [HandleCorrect.v] (packets that
    come in) and [CycleCorrect.v] (the poll cycle). *)
From stdpp Require Import base list gmap.
From S2P Require Import Prelude Types Device Smoltcp Config Manager Core Packet Session Invariant Streams Runner Handle System ConfigKept.

Section DevicesKept.
Context `{T : Target, W : Wire, E : Engine, K : Tokio}.

(** The identifiers and the devices of the interfaces, in order. *)
Definition shapes (s : Shared) : list (InterfaceId * VirtualDevice) := slot_shape <$> slots (core s).

(** A computation that borrows the slot of an interface and writes it back. *)
Definition borrows {A} (ifc : InterfaceId) (f : nat → InterfaceSlot → M Shared A) : Prop :=
  ∀ s i sl a s', find_slot (slots (core s)) ifc = Some (i, sl) →
    f i sl s = Done (a, s') → shapes s' = shapes s.

Lemma keeps_borrow {A} ifc (f : Shared → nat → InterfaceSlot → M Shared A) (g : M Shared A) :
  (∀ s, borrows ifc (f s)) → keeps shapes g →
  keeps shapes (s ← mget; match find_slot (slots (core s)) ifc with
                          | None => g
                          | Some (i, sl) => f s i sl
                          end).
Proof.
  intros Hf Hg s a s'. unfold mbind, M_bind, mget.
  destruct (find_slot _ _) as [[i sl]|] eqn:Ef; [by apply Hf|by apply Hg].
Qed.

(** Putting another socket set into the slot. *)
Lemma borrows_put ifc ss : borrows ifc (λ i sl, put_slot i (set_sockets (ss sl) sl)).
Proof.
  intros s i sl a s' [Hi _]%find_slot_Some [= _ <-]. unfold shapes. simpl.
  by apply list_fmap_insert_same with (x := sl).
Qed.

Lemma borrows_then {A B} ifc (f : nat → InterfaceSlot → M Shared A) (g : nat → InterfaceSlot → A → M Shared B) :
  borrows ifc f → (∀ i sl a, keeps shapes (g i sl a)) → borrows ifc (λ i sl, a ← f i sl; g i sl a).
Proof.
  intros Hf Hg s i sl b s' Hi. unfold mbind, M_bind. destruct (f i sl s) as [[a s1]| |] eqn:Ef; [|done..].
  intros Hb. apply Hg in Hb. apply (Hf _ _ _ _ _ Hi) in Ef. congruence.
Qed.

Lemma borrows_keeps {A} ifc (f : nat → InterfaceSlot → M Shared A) :
  (∀ i sl, keeps shapes (f i sl)) → borrows ifc f.
Proof. intros Hf s i sl a s' _. apply Hf. Qed.

(** Looking a socket up before the slot is written back. *)
Lemma borrows_tcp {A} ifc h (f : nat → InterfaceSlot → TcpSocket → M Shared A) :
  (∀ sk, borrows ifc (λ i sl, f i sl sk)) → borrows ifc (λ i sl, sk ← get_tcp_socket (sockets sl) h; f i sl sk).
Proof.
  intros Hf s i sl a s' Hi. unfold mbind, M_bind, get_tcp_socket.
  destruct (socket_get _ _) as [[sk|sk]|]; [|done..]. by apply (Hf sk s i sl).
Qed.

Lemma borrows_udp {A} ifc h (f : nat → InterfaceSlot → UdpSocket → M Shared A) :
  (∀ sk, borrows ifc (λ i sl, f i sl sk)) → borrows ifc (λ i sl, sk ← get_udp_socket (sockets sl) h; f i sl sk).
Proof.
  intros Hf s i sl a s' Hi. unfold mbind, M_bind, get_udp_socket.
  destruct (socket_get _ _) as [[sk|sk]|]; [done| |done]. by apply (Hf sk s i sl).
Qed.

Lemma borrows_remove {A} ifc h (f : nat → InterfaceSlot → Socket TcpSocket UdpSocket * SocketSet → M Shared A) :
  (∀ r, borrows ifc (λ i sl, f i sl r)) → borrows ifc (λ i sl, r ← remove_socket (sockets sl) h; f i sl r).
Proof.
  intros Hf s i sl a s' Hi. unfold mbind, M_bind, remove_socket.
  destruct (socket_remove _ _) as [r|]; [|done]. by apply (Hf r s i sl).
Qed.

(** ** Computations that do not look at the slots *)

Lemma shapes_on_manager {A} (m : M SessionManager A) : keeps shapes (on_manager m).
Proof.
  apply (keeps_zoom _ _ _ _ slots (λ l _, slot_shape <$> l)); [done..|].
  by apply (keeps_zoom _ _ _ _ (λ _, tt) (λ _ c, slots c)).
Qed.

Lemma shapes_release n : keeps shapes (on_core (release_buffer n)).
Proof.
  apply (keeps_zoom _ _ _ _ slots (λ l _, slot_shape <$> l)); [done..|]. unfold release_buffer. keeps_go.
Qed.

Lemma shapes_on_queue {A} q (m : M UdpQueue A) : keeps shapes (on_queue q m).
Proof. unfold on_queue. keeps_go. by intros ?. Qed.

Lemma shapes_notify_poll : keeps shapes notify_poll.
Proof. unfold notify_poll. keeps_go. Qed.

Lemma shapes_rb_advance b data : keeps shapes (rb_advance b data).
Proof. unfold rb_advance. keeps_go. Qed.
#[local] Hint Resolve shapes_on_manager shapes_release shapes_on_queue shapes_notify_poll shapes_rb_advance
  keeps_uadd keeps_umul : keeps.

(** [borrow_go] looks for the write-back of a borrowed slot; everything after
    it is left to [keeps_go]. *)
Ltac borrow_go :=
  repeat (cbv beta iota zeta;
    lazymatch goal with
    | |- borrows _ (λ i sl, put_slot i (set_sockets _ sl)) => apply borrows_put
    | |- borrows _ (λ i sl, get_tcp_socket (sockets sl) _ ≫= _) => apply borrows_tcp; intros ?
    | |- borrows _ (λ i sl, get_udp_socket (sockets sl) _ ≫= _) => apply borrows_udp; intros ?
    | |- borrows _ (λ i sl, remove_socket (sockets sl) _ ≫= _) => apply borrows_remove; intros ?
    | |- borrows _ (λ i sl, put_slot _ _ ≫= _) => apply (borrows_then _ (λ i sl, put_slot i _)); [|intros ? ? ?]
    | |- borrows _ (λ i sl, match ?x with _ => _ end) => destruct x
    | |- borrows _ (λ i sl, mret _) => apply borrows_keeps; intros ? ?
    | |- keeps _ _ => progress keeps_go
    end).

(** ** Sessions *)

Lemma shapes_poll_read t cx buf : keeps shapes (poll_read t cx buf).
Proof.
  unfold poll_read, put_tcp_socket, slot_mut. apply keeps_borrow; [intros s|keeps_go].
  apply borrows_tcp. intros sk. destruct (tcp_recv_slice sk _) as [[|[]] sk']; borrow_go.
Qed.

Lemma shapes_poll_write t cx data : keeps shapes (poll_write t cx data).
Proof.
  unfold poll_write, put_tcp_socket, slot_mut. apply keeps_borrow; [intros s|keeps_go].
  apply borrows_tcp. intros sk. destruct (tcp_send_slice sk data) as [[|[]] sk']; borrow_go.
Qed.

Lemma shapes_close_socket i h : keeps shapes (close_socket i h).
Proof.
  unfold close_socket, put_tcp_socket, slot_mut. apply keeps_borrow; [intros s|keeps_go]. borrow_go.
Qed.

Lemma shapes_try_send u payload target : keeps shapes (try_send u payload target).
Proof.
  unfold try_send. apply keeps_bind; [apply shapes_on_queue|]. intros [|]; [keeps_go|].
  unfold put_udp_socket, slot_mut. apply keeps_borrow; [intros s|keeps_go].
  apply borrows_udp. intros sk. destruct (udp_send_slice sk payload target) as [r sk'].
  apply (borrows_then _ _ (λ _ _ _, _)); [apply borrows_put|intros _ _ _]. destruct r as [|[]]; keeps_go.
Qed.
#[local] Hint Resolve shapes_poll_read shapes_poll_write shapes_close_socket shapes_try_send : keeps.

Lemma shapes_run_op op x m : run_op op x = Some m → keeps shapes m.
Proof.
  destruct op, x; simpl; try done; try case_bool_decide; try done; intros [= <-];
    unfold poll_flush, poll_shutdown, recv_step, send_step; keeps_go.
Qed.

Lemma shapes_leave i k e : keeps shapes (leave_udp_session i k e).
Proof.
  unfold leave_udp_session. apply keeps_bind; [keeps_go|intros _]. apply keeps_bind; [keeps_go|intros _].
  apply keeps_bind; [keeps_go|]. intros [|]; simpl; [|keeps_go].
  apply keeps_borrow; [intros s|keeps_go]. apply borrows_remove. intros [x ss]. borrow_go.
Qed.
#[local] Hint Resolve shapes_leave : keeps.

Lemma shapes_session_drop x : keeps shapes (session_drop x).
Proof. destruct x; simpl; unfold tcp_drop, udp_drop; keeps_go. Qed.
#[local] Hint Resolve shapes_session_drop : keeps.

Lemma shapes_drop_all l : keeps shapes (drop_all l).
Proof. unfold drop_all. keeps_go. Qed.
End DevicesKept.
