(* ===== verification/OrderFree.v ===== *)
(** * The iteration order of the hash maps

    The runner iterates over its [HashMap]s, whose order is unspecified and may
    differ from run to run. A cycle under two orders gives the same outgoing
    packets, the same tables, budget and inboxes, and the same new sessions up
    to their order. *)
From stdpp Require Import base list gmap.
From S2P Require Import Prelude Types Device Smoltcp Config Manager Core Packet Session Invariant Streams StreamsCorrect Runner RunnerCorrect UdpCorrect CycleCorrect DevicesKept.

Local Open Scope Z_scope.

Section OrderFree.
Context `{T : Target, W : Wire, E : Engine, K : Tokio, EL : !EngineLaws, WL : !WireLaws}.

(** What the two states have in common: everything but the sockets, the
    identities of closed queues and the pool. *)
Record same_tables (s1 s2 : Shared) : Prop := {
  same_tcp : tcp (manager (core s1)) = tcp (manager (core s2));
  same_udp : udp (manager (core s1)) = udp (manager (core s2));
  same_dst : udp_dst_sockets (manager (core s1)) = udp_dst_sockets (manager (core s2));
  same_budget : buffer_bytes (core s1) = buffer_bytes (core s2);
  same_config : core_config (core s1) = core_config (core s2);
  same_shapes : shapes s1 = shapes s2;
  same_inboxes : inboxes s1 = inboxes s2;
}.

#[global] Instance same_tables_equivalence : Equivalence same_tables.
Proof.
  split.
  - by constructor.
  - intros s1 s2 []. by constructor.
  - intros s1 s2 s3 [] []. constructor; congruence.
Qed.

(** A shared socket has a session that uses it. *)
Lemma refcount_user u i d :
  1 ≤ refcount u i d → ∃ k e, u !! k = Some e ∧ interface k = i ∧ dst k = d.
Proof.
  unfold refcount, count_keys. intros H.
  destruct (map_choose (filter (λ kv : SessionKey * UdpEntry, uses i d kv.1) u)) as (k & e & Hk).
  - intros He. rewrite He, map_size_empty in H. lia.
  - apply map_lookup_filter_Some in Hk as [Hk [? ?]]. by exists k, e.
Qed.

(** The shared sockets are determined by the sessions that use them. *)
Lemma refs_ok_sub m1 m2 x v :
  refs_ok m1 → refs_ok m2 → udp m1 = udp m2 →
  udp_dst_sockets m1 !! x = Some v → udp_dst_sockets m2 !! x = Some v.
Proof.
  intros H1 H2 Hu Hd. destruct x as [i d], v as [h n]. destruct (refs_count _ H1 _ _ _ _ Hd) as [Hn Hpos].
  rewrite Hn in Hpos. destruct (refcount_user _ _ _ Hpos) as (k & e & Hk & <- & <-).
  destruct (refs_entry _ H1 _ _ Hk) as [n1 Hd1]. rewrite Hd in Hd1. injection Hd1 as -> _.
  rewrite Hu in Hk, Hn. destruct (refs_entry _ H2 _ _ Hk) as [n2 Hd2]. rewrite Hd2.
  destruct (refs_count _ H2 _ _ _ _ Hd2) as [Hn2 _]. congruence.
Qed.

Lemma refs_ok_determined m1 m2 :
  refs_ok m1 → refs_ok m2 → udp m1 = udp m2 → udp_dst_sockets m1 = udp_dst_sockets m2.
Proof.
  intros H1 H2 Hu. apply map_eq. intros x.
  destruct (udp_dst_sockets m1 !! x) as [v|] eqn:E1.
  - symmetry. by apply (refs_ok_sub m1).
  - destruct (udp_dst_sockets m2 !! x) as [v|] eqn:E2; [|done].
    by rewrite (refs_ok_sub m2 m1 x v H2 H1 (eq_sym Hu) E2) in E1.
Qed.

(** What a closed or open queue holds. *)
Definition queue_view (s : Shared) (q : QueueId) : option (list Bytes * bool) :=
  (λ uq, (inner uq, closed uq)) <$> queues s !! q.

(** The fate of a session is determined by the state before the pass. *)
Lemma session_fate_fun now timeout s s1 s2 k e :
  session_fate now timeout s s1 k e → session_fate now timeout s s2 k e →
  udp (manager (core s1)) !! k = udp (manager (core s2)) !! k ∧
  queue_view s1 (queue e) = queue_view s2 (queue e).
Proof.
  intros (sk & uq & uq1 & Hsk & Hq & Hq1 & Hi1 & H1) (sk' & uq' & uq2 & Hsk' & Hq' & Hq2 & Hi2 & H2).
  unfold queue_view. rewrite Hsk in Hsk'. rewrite Hq in Hq'. simplify_eq. rewrite Hq1, Hq2. simpl.
  case_decide; destruct H1 as [H1a H1b], H2 as [H2a H2b]; split; congruence.
Qed.

Lemma post_pass_determined (HO1 HO2 : HashOrder) now live acc s acc1 s1 acc2 s2 :
  post_pass_post (HO := HO1) now live acc s acc1 s1 → post_pass_post (HO := HO2) now live acc s acc2 s2 →
  acc1 ≡ₚ acc2 ∧ same_tables s1 s2 ∧
  ∀ k e, udp (manager (core s)) !! k = Some e → queue_view s1 (queue e) = queue_view s2 (queue e).
Proof.
  intros [A1 I1 F1 T1 U1 N1] [A2 I2 F2 T2 U2 N2].
  assert (tcp (manager (core s1)) = tcp (manager (core s2))) as Ht by (apply map_eq; intros k; by rewrite T1, T2).
  assert (udp (manager (core s1)) = udp (manager (core s2))) as Hu.
  { apply map_eq. intros k. destruct (udp (manager (core s)) !! k) as [e|] eqn:Hk; [|by rewrite N1, N2].
    by eapply session_fate_fun; [apply U1|apply U2]. }
  assert (∀ k e, udp (manager (core s)) !! k = Some e → queue_view s1 (queue e) = queue_view s2 (queue e)) as Hq.
  { intros k e Hk. by eapply session_fate_fun; [apply U1|apply U2]. }
  assert (udp_dst_sockets (manager (core s1)) = udp_dst_sockets (manager (core s2))) as Hd.
  { apply refs_ok_determined; [apply (mgr_refs _ _ (inv_mgr _ _ _ I1))|apply (mgr_refs _ _ (inv_mgr _ _ _ I2))|done]. }
  assert (core_config (core s1) = core_config (core s2)) as Hc by (rewrite (proj1 F1), (proj1 F2); done).
  split_and!; [|constructor; try done|done].
  - subst. apply Permutation_app_head. apply omap_Permutation. by rewrite !hash_iter_perm.
  - rewrite (inv_budget _ _ _ I1), (inv_budget _ _ _ I2), Hc. unfold charged. by rewrite Ht, Hd.
  - unfold shapes. by rewrite (proj2 F1), (proj2 F2).
  - apply map_eq. intros k. unfold inboxes. rewrite !lookup_omap, <- Hu.
    destruct (udp (manager (core s1)) !! k) as [e1|] eqn:Hk1; [|done]. simpl.
    destruct (udp (manager (core s)) !! k) as [e|] eqn:Hk; [|by rewrite N1 in Hk1].
    assert (queue e1 = queue e) as ->.
    { destruct (U1 _ _ Hk) as (? & ? & ? & _ & _ & _ & _ & Hf).
      case_decide; destruct Hf as [Hf1 Hf2]; [congruence|]. rewrite Hf2 in Hk1. by injection Hk1 as <-. }
    specialize (Hq _ _ Hk). unfold queue_view in Hq.
    destruct (queues s1 !! queue e), (queues s2 !! queue e); simpl in *; congruence.
Qed.

(** ** A whole cycle *)

Lemma collect_egress_fun s : ∃ out s', collect_egress s = Done (out, s') ∧
  out = mjoin ((λ sh : InterfaceId * VirtualDevice, mkEgressPacket sh.1 <$> egress sh.2) <$> shapes s) ∧
  s' = with_slots (take_egress <$> slots (core s)) s.
Proof. do 2 eexists. split; [done|]. split; [|done]. unfold shapes. by rewrite <- list_fmap_compose. Qed.

Lemma shapes_take_egress s :
  shapes (with_slots (take_egress <$> slots (core s)) s) = prod_map (λ i, i) (set_egress []) <$> shapes s.
Proof. unfold shapes. simpl. by rewrite <- !list_fmap_compose. Qed.

Lemma same_tables_collect s1 s2 :
  same_tables s1 s2 →
  same_tables (with_slots (take_egress <$> slots (core s1)) s1) (with_slots (take_egress <$> slots (core s2)) s2).
Proof.
  intros []. constructor; try done. rewrite !shapes_take_egress. congruence.
Qed.

Lemma poll_locked_order_free (HO1 HO2 : HashOrder) live s now :
  Inv 0 live s →
  ∃ acc1 acc2 out s1 s2,
    poll_locked (HO := HO1) now s = Done ((acc1, out), s1) ∧
    poll_locked (HO := HO2) now s = Done ((acc2, out), s2) ∧
    acc1 ≡ₚ acc2 ∧ same_tables s1 s2 ∧
    ∀ k e, udp (manager (core s)) !! k = Some e → queue_view s1 (queue e) = queue_view s2 (queue e).
Proof.
  intros HI. destruct (proj1 (wp_done _ _ _) (wp_pre_pass live s now [] HI))
    as (acc & sa & Ha & (new & Hnew & HIa & Hg) & _ & _).
  destruct (proj1 (wp_done _ _ _) (wp_poll_interfaces 0 _ sa now HIa)) as ([] & sb & Hb & HIb & Hmb & Hqb & _ & _).
  destruct (proj1 (wp_done _ _ _) (wp_post_pass (HO := HO1) _ sb now acc HIb)) as (acc1 & sc1 & Hc1 & Hp1).
  destruct (proj1 (wp_done _ _ _) (wp_post_pass (HO := HO2) _ sb now acc HIb)) as (acc2 & sc2 & Hc2 & Hp2).
  destruct (post_pass_determined _ _ _ _ _ _ _ _ _ _ Hp1 Hp2) as (Hperm & Hsame & Hq).
  destruct (collect_egress_fun sc1) as (out1 & sd1 & Hd1 & Ho1 & Hs1).
  destruct (collect_egress_fun sc2) as (out2 & sd2 & Hd2 & Ho2 & Hs2).
  rewrite (same_shapes _ _ Hsame), <- Ho2 in Ho1. subst out1.
  exists acc1, acc2, out2, sd1, sd2. split_and!.
  - unfold poll_locked. erewrite bind_done by exact Ha. erewrite bind_done by exact Hb.
    erewrite bind_done by exact Hc1. by erewrite bind_done by exact Hd1.
  - unfold poll_locked. erewrite bind_done by exact Ha. erewrite bind_done by exact Hb.
    erewrite bind_done by exact Hc2. by erewrite bind_done by exact Hd2.
  - done.
  - subst. by apply same_tables_collect.
  - intros k e Hk. subst. unfold queue_view in *. simpl. apply (Hq k). rewrite Hmb. eapply lookup_weaken; [done|apply Hg].
Qed.
End OrderFree.
