(* ===== verification/SystemCorrect.v ===== *)
(** * The running system: safety

    The invariant holds in every reachable state, for every interleaving of the
    runner with the application and every iteration order of the maps; hence
    no reachable state crashes. *)
From stdpp Require Import base list gmap.
From S2P Require Import Prelude Types Device Smoltcp Config Manager Core Packet Session Invariant Streams StreamsCorrect Runner RunnerCorrect UdpCorrect CycleCorrect Handle HandleCorrect Builder System ConfigKept.

Local Open Scope Z_scope.

Section SystemCorrect.
Context `{T : Target, W : Wire, E : Engine, K : Tokio, !EngineLaws, !WireLaws, !TokioLaws}.

(** The session objects that exist: with the application, in the accept
    channel, in the runner's scratch buffer. *)
Definition live_sessions (w : World) : list Session :=
  app w ++ chan_items (accept_chan (net w)) ++ scratch_accepted w.

Definition sys_inv (w : World) : Prop := Inv 0 (live_sessions w) (shared (net w)).

(** ** Steps of the runner *)

Lemma wp_queue_ingress live s pkt :
  Inv 0 live s → wp (queue_ingress pkt) (λ _ s', Inv 0 live s') s.
Proof.
  intros HI. apply wp_done. do 2 eexists. split; [apply queue_ingress_feed, (inv_slots _ _ _ HI)|].
  by apply Inv_feed_all.
Qed.

Lemma wp_run_stop w : sys_inv w → wp run_stop (λ _ w', sys_inv w') w.
Proof.
  intros HI. unfold run_stop, in_shared, on_net, on_shared. wp_go. simpl.
  unfold sys_inv, live_sessions in *. rewrite <- (app_nil_r (scratch_accepted w)) in HI.
  rewrite app_assoc in HI. eapply wp_mono; [by apply wp_drop_all|]. cbv beta. intros _ s' HI'.
  wp_go. simpl. by rewrite chan_drop_tx_items, app_nil_r in *.
Qed.

Lemma wp_run_select w f timer m :
  sys_inv w → run_select f timer w = Some m → wp m (λ _ w', sys_inv w') w.
Proof.
  intros HI. unfold run_select, in_shared, on_net, on_shared. destruct (notified_ready _ _).
  { intros [= <-]. by wp_go. }
  destruct (chan_try_recv _) as [[pkt c]|[|]]; [|destruct timer; [|done]|]; intros [= <-]; wp_go; simpl.
  - eapply wp_mono; [by apply wp_queue_ingress|]. cbv beta. intros _ s' HI'. by wp_go.
  - done.
  - by apply wp_run_stop.
Qed.

Lemma wp_run_drain w : sys_inv w → wp run_drain (λ _ w', sys_inv w') w.
Proof.
  intros HI. unfold run_drain, in_shared, on_net, on_shared. wp_go.
  destruct (chan_try_recv _) as [[pkt c]|e]; wp_go; [|done]. simpl.
  eapply wp_mono; [by apply wp_queue_ingress|]. cbv beta. by intros _ s' HI'.
Qed.

Lemma wp_run_poll `{HO : HashOrder} w now : sys_inv w → wp (run_poll now) (λ _ w', sys_inv w') w.
Proof.
  intros HI. unfold run_poll, in_shared, on_net, on_shared. wp_go. simpl.
  unfold sys_inv, live_sessions in *. rewrite <- (app_nil_r (scratch_accepted w)) in HI.
  rewrite app_assoc in HI. eapply wp_mono; [by apply wp_drop_all|]. cbv beta. intros _ s1 HI1.
  rewrite app_nil_r in HI1. wp_go. simpl.
  eapply wp_mono; [by apply wp_poll_locked|]. cbv beta. intros [acc out] s2 (HI2 & _ & _).
  wp_go. simpl. by rewrite app_assoc.
Qed.

Lemma wp_run_forward w m :
  sys_inv w → run_forward w = Some m → wp m (λ _ w', sys_inv w') w.
Proof.
  unfold sys_inv, live_sessions. intros HI. unfold run_forward, in_shared, on_net, on_shared.
  destruct (scratch_egress w) as [|pkt out].
  - destruct (scratch_accepted w) as [|x acc] eqn:Ea.
    { intros [= <-]. wp_go. simpl. by rewrite Ea. }
    destruct (chan_try_send (accept_chan (net w)) x) as [c|e] eqn:Es; intros [= <-]; wp_go; simpl.
    + apply chan_send_items in Es. rewrite Es, <- app_assoc. done.
    + rewrite app_assoc in HI. eapply wp_mono; [by apply wp_session_drop|]. cbv beta.
      intros _ s' HI'. simpl. by rewrite app_assoc.
  - destruct (chan_try_send (egress_chan (net w)) pkt) as [c|[|]]; [|done|]; intros [= <-]; by wp_go.
Qed.

(** ** Steps of the application *)

Lemma wp_run_op live s op x m :
  Inv 0 live s → x ∈ live → run_op op x = Some m → wp m (λ _ s', Inv 0 live s') s.
Proof.
  intros HI Hin. destruct op, x as [t|u]; simpl; try done.
  - case_bool_decide as Hb; [|done]. intros [= <-].
    destruct (live_tcp_socket _ _ _ _ HI Hin) as (n & sl & sk & Hsl & Hn & _ & Hg). wp_go.
    eapply wp_mono; [by eapply wp_poll_read|]. cbv beta. intros r s' [HI' _]. by wp_go.
  - intros [= <-]. destruct (live_tcp_socket _ _ _ _ HI Hin) as (n & sl & sk & Hsl & Hn & _ & Hg). wp_go.
    eapply wp_mono; [by eapply wp_poll_write|]. cbv beta. intros r s' [HI' _]. by wp_go.
  - intros [= <-]. wp_go. unfold poll_flush. by wp_go.
  - intros [= <-]. destruct (live_tcp_socket _ _ _ _ HI Hin) as (n & sl & sk & Hsl & Hn & _ & Hg). wp_go.
    eapply wp_mono; [by eapply wp_poll_shutdown|]. cbv beta. intros r s' [HI' _]. by wp_go.
  - intros [= <-]. wp_go. eapply wp_mono; [by eapply wp_recv_step|]. cbv beta. intros r s' [HI' _]. by wp_go.
  - intros [= <-]. wp_go. eapply wp_mono; [by eapply wp_send_step|]. cbv beta. intros r s' [HI' _]. by wp_go.
Qed.

Lemma wp_app_accept w : sys_inv w → wp app_accept (λ _ w', sys_inv w') w.
Proof.
  intros HI. unfold app_accept, on_net, accept. wp_go.
  pose proof (chan_recv_items _ (accept_chan (net w))) as Hr.
  destruct (chan_try_recv _) as [[x c]|[|]]; wp_go; simpl; try done.
  unfold sys_inv, live_sessions in *. simpl. by rewrite Hr, <- app_assoc in *.
Qed.

Lemma wp_app_drop_handle w : sys_inv w → wp app_drop_handle (λ _ w', sys_inv w') w.
Proof.
  intros HI. unfold app_drop_handle, in_shared, on_net, on_shared. wp_go. simpl.
  unfold sys_inv, live_sessions in *. eapply wp_mono; [by apply wp_drop_all|]. cbv beta. intros _ s' HI'.
  wp_go. simpl. by rewrite chan_drop_rx_items.
Qed.

Lemma wp_app_drop_session w i x :
  sys_inv w → app w !! i = Some x → wp (app_drop_session i x) (λ _ w', sys_inv w') w.
Proof.
  intros HI Hi. unfold app_drop_session, in_shared, on_net, on_shared. wp_go. simpl.
  unfold sys_inv, live_sessions in *. simpl. rewrite <- (take_drop_middle _ _ _ Hi) in HI.
  rewrite <- app_assoc in HI. simpl in HI.
  eapply wp_mono; [by apply wp_session_drop|]. cbv beta. intros _ s' HI'. simpl.
  by rewrite delete_take_drop, <- app_assoc.
Qed.

(** ** Every step *)

Lemma wp_perform `{HO : HashOrder} a w m :
  sys_inv w → perform a w = Some m → wp m (λ _ w', sys_inv w') w.
Proof.
  intros HI. destruct a as [now timer|i data| | | | |i op|i]; simpl.
  - destruct (pc w); try done; try (intros [= <-]).
    + unfold run_top. by wp_go.
    + unfold run_subscribe. by wp_go.
    + by apply wp_run_select.
    + by apply wp_run_drain.
    + by apply wp_run_poll.
    + by apply wp_run_forward.
    + unfold run_done, in_shared, on_net, on_shared, notify_poll_done. wp_go. by apply Inv_notify.
  - destruct (has_handle w); [|done]. intros [= <-]. unfold on_net. wp_go.
    eapply wp_mono; [apply wp_send_ip_packet|]. cbv beta. intros r n' Hp. wp_go.
    unfold sys_inv, live_sessions in *. simpl. destruct r as [[]|e]; simpl in Hp.
    + destruct Hp as (_ & _ & _ & -> & Hn). injection Hn as <-. by apply Inv_notify.
    + by destruct Hp as [-> _].
  - destruct (has_handle w); [|done]. intros [= <-]. by apply wp_app_accept.
  - destruct (has_handle w); [|done]. intros [= <-]. by apply wp_app_drop_handle.
  - intros [= <-]. unfold app_egress, on_net. wp_go. destruct (chan_try_recv _) as [[]|]; by wp_go.
  - intros [= <-]. unfold app_drop_egress, on_net. by wp_go.
  - intros (x & Hx & (m' & Hm & [= <-])%bind_Some)%bind_Some. unfold in_shared, on_net, on_shared. wp_go.
    eapply wp_mono; [eapply (wp_run_op (live_sessions w)); [exact HI| |exact Hm]|by cbv beta].
    unfold live_sessions. apply elem_of_app. left. by eapply list_elem_of_lookup_2.
  - intros (x & Hx & [= <-])%bind_Some. by apply wp_app_drop_session.
Qed.

Lemma step_sys_inv w w' : sys_inv w → step w w' → sys_inv w'.
Proof.
  intros HI [HO a m Hp Hm]. by eapply (wp_elim _ (λ _, sys_inv)); [eapply wp_perform|].
Qed.

Lemma sys_inv_no_crash w : sys_inv w → ¬ crashes w.
Proof.
  intros HI Hc. destruct Hc as [HO a m p Hp Hm|HO a m Hp Hm];
    pose proof (wp_perform a w m HI Hp) as Hwp; unfold wp in Hwp; by rewrite Hm in Hwp.
Qed.

(** What the builder must be given. *)
Record builder_ok (b : NetstackBuilder) : Prop := {
  builder_sane : sane_config (config b);
  builder_ids : NoDup (interfaces b).*1;
  builder_specs : Forall (λ ic, spec_ok ic.2) (interfaces b);
}.

Lemma initial_built b w : builder_ok b → initial b w → ∃ n, w = world_of n ∧ built b n.
Proof.
  intros [Hs Hnd Hsp] [clock o o' n Hb ->]. exists n. split; [done|].
  pose proof (wp_build b clock o Hs Hnd Hsp) as Hwp.
  destruct (wp_elim _ _ _ _ _ Hwp Hb) as (_ & n' & [= <-] & Hbuilt). done.
Qed.

Lemma initial_sys_inv b w : builder_ok b → initial b w → sys_inv w.
Proof.
  intros Hb (n & -> & Hn)%initial_built; [|done]. unfold sys_inv, live_sessions. simpl.
  rewrite (built_accept _ _ Hn). simpl. apply Hn.
Qed.

Lemma reachable_sys_inv b w : builder_ok b → reachable b w → sys_inv w.
Proof.
  intros Hb (w0 & Hw0 & Hsteps). apply initial_sys_inv in Hw0; [|done].
  induction Hsteps as [w|w w1 w2 Hstep _ IH]; [done|]. by eapply IH, step_sys_inv.
Qed.

(** The configuration of a reachable state is the builder's. *)
Lemma reachable_config b w : builder_ok b → reachable b w → world_config w = config b.
Proof.
  intros Hb (w0 & Hw0 & Hsteps). rewrite (steps_config _ _ Hsteps).
  destruct (initial_built _ _ Hb Hw0) as (n & -> & Hn). by apply built_config.
Qed.
End SystemCorrect.
