(* ===== verification/FlowCorrect.v ===== *)
(** * The running system refines the packet pipeline

    Every action of the system, in a state that satisfies the invariant, is a
    step of the abstract pipeline of [Flow.v] with the events that its two ends
    observe; so the conservation properties of the pipeline hold of every
    execution. [wiring] is what the simulation needs to know about the ends of
    the channels and the runner's scratch buffers. *)
From stdpp Require Import base list gmap.
From S2P Require Import Prelude Types Device Smoltcp Config Manager Core Packet Session Flow Invariant Streams StreamsCorrect Runner RunnerCorrect UdpCorrect CycleCorrect Handle HandleCorrect Builder System ConfigKept DevicesKept SystemCorrect.

Local Open Scope Z_scope.

Section FlowCorrect.
Context `{T : Target, W : Wire, E : Engine, K : Tokio, EL : !EngineLaws, WL : !WireLaws, KL : !TokioLaws}.

(** ** The abstraction *)

Definition queue_of (sh : InterfaceId * VirtualDevice) : InterfaceId * list Bytes := (sh.1, ingress sh.2).

Definition abs (w : World) : Pipeline.state :=
  Pipeline.mkState
    (chan_items (ingress_chan (net w))) (queue_of <$> shapes (shared (net w)))
    (scratch_egress w) (chan_items (egress_chan (net w))) (chan_has_rx (egress_chan (net w)))
    (scratch_accepted w) (chan_items (accept_chan (net w))) (chan_has_rx (accept_chan (net w))).

(** What a cycle took from the queue of an interface: it is shorter at its
    front afterwards. *)
Definition taken_from (sh sh' : InterfaceId * VirtualDevice) : InterfaceId * list Bytes :=
  (sh.1, take (length (ingress sh.2) - length (ingress sh'.2)) (ingress sh.2)).

(** The events of an action that leads from [w] to [w']. *)
Definition events (a : action) (w w' : World) : list Pipeline.event :=
  match a with
  | Run _ _ =>
      match pc w with
      | R_Polling =>
          [Pipeline.Polled (zip_with taken_from (shapes (shared (net w))) (shapes (shared (net w'))))
             (scratch_egress w') (scratch_accepted w')]
      | _ => []
      end
  | Send_ip i data =>
      match send_ip_packet i data (net w) with
      | Done (Ok _, _) => [Pipeline.Sent (mkIngressPacket i data)]
      | _ => []
      end
  | Accept =>
      match accept (net w) with
      | Done (Poll_Ready (Some session), _) => [Pipeline.Handed session]
      | _ => []
      end
  | Drop_handle => [Pipeline.Handle_dropped]
  | Egress =>
      match chan_try_recv (egress_chan (net w)) with
      | Ok (pkt, _) => [Pipeline.Delivered pkt]
      | Err _ => []
      end
  | Drop_egress => [Pipeline.Egress_dropped]
  | On_session _ _ | Drop_session _ => []
  end.

(** The executions of a stack built from [b], with their events. *)
Inductive execution (b : NetstackBuilder) : list Pipeline.event → World → Prop :=
| execution_start w : initial b w → execution b [] w
| execution_step evs w HO a m w' :
    execution b evs w → perform (HO := HO) a w = Some m → m w = Done (tt, w') →
    execution b (evs ++ events a w w') w'.

Lemma execution_reachable b evs w : execution b evs w → reachable b w.
Proof.
  induction 1 as [w Hi|evs w HO a m w' _ (w0 & Hi & Hs) Hp Hm]; [by exists w|].
  exists w0. split; [done|]. eapply rtc_r; [done|]. by econstructor.
Qed.

Lemma reachable_execution b w : reachable b w → ∃ evs, execution b evs w.
Proof.
  intros (w0 & Hi & Hs). assert (∃ evs, execution b evs w0) as [evs He] by (eexists; by constructor).
  clear Hi. revert evs He. induction Hs as [w|w w1 w2 [HO a m Hp Hm] _ IH]; intros evs He; [by eexists|].
  eapply IH. by econstructor.
Qed.

(** ** Wiring *)

Definition running (p : RunnerPc) : bool := match p with R_Stopped => false | _ => true end.

Record wiring (w : World) : Prop := {
  wire_handle_tx : chan_has_tx (ingress_chan (net w)) = has_handle w;
  wire_handle_rx : chan_has_rx (accept_chan (net w)) = has_handle w;
  wire_runner_rx : chan_has_rx (ingress_chan (net w)) = running (pc w);
  wire_stopped : pc w = R_Stopped → has_handle w = false;
  wire_accept : chan_capacity (accept_chan (net w)) = None;
  wire_out : pc w ≠ R_Forwarding → scratch_egress w = [];
  wire_new : pc w ≠ R_Forwarding → chan_has_rx (egress_chan (net w)) = true → scratch_accepted w = [];
}.

(** The ends of a channel, one by one. *)
Lemma ends_proj {A} (c c' : Chan A) :
  chan_ends c' = chan_ends c →
  chan_capacity c' = chan_capacity c ∧ chan_has_rx c' = chan_has_rx c ∧ chan_has_tx c' = chan_has_tx c.
Proof. unfold chan_ends. by intros [= -> -> ->]. Qed.

Lemma drop_tx_proj {A} (c : Chan A) :
  chan_capacity (chan_drop_tx c) = chan_capacity c ∧ chan_has_rx (chan_drop_tx c) = chan_has_rx c ∧
  chan_has_tx (chan_drop_tx c) = false.
Proof. pose proof (chan_drop_tx_ends _ c) as He. unfold chan_ends in He. by injection He as -> -> ->. Qed.

Lemma drop_rx_proj {A} (c : Chan A) :
  chan_capacity (chan_drop_rx c) = chan_capacity c ∧ chan_has_rx (chan_drop_rx c) = false ∧
  chan_has_tx (chan_drop_rx c) = chan_has_tx c.
Proof. pose proof (chan_drop_rx_ends _ c) as He. unfold chan_ends in He. by injection He as -> -> ->. Qed.

(** The postcondition of an action. *)
Definition flows (a : action) (w : World) (_ : unit) (w' : World) : Prop :=
  wiring w' ∧ Pipeline.step (abs w) (events a w w') (abs w').

Lemma flows_idle a w w' :
  wiring w' → abs w' = abs w → events a w w' = [] → flows a w tt w'.
Proof. intros Hw Ha He. split; [done|]. rewrite Ha, He. constructor. Qed.

(** The runner moves on to a control point at which it holds nothing back. *)
Lemma wiring_pc w p :
  wiring w → pc w ≠ R_Forwarding → pc w ≠ R_Stopped → p ≠ R_Forwarding → p ≠ R_Stopped → wiring (set_pc p w).
Proof.
  intros [H1 H2 H3 H4 H5 H6 H7] Hf Hs Hf' Hs'. constructor; simpl; auto.
  - rewrite H3. by destruct (pc w), p.
  - done.
Qed.

(** Only the part behind the mutex changes, and not the devices. *)
Lemma wiring_shared w s' : wiring w → wiring (set_net (set_shared s' (net w)) w).
Proof. intros []. by constructor. Qed.

Lemma abs_shared w s' : shapes s' = shapes (shared (net w)) → abs (set_net (set_shared s' (net w)) w) = abs w.
Proof. intros Hs. unfold abs. simpl. by rewrite Hs. Qed.

(** ** Steps of the runner *)

Lemma shapes_feed pkt s :
  queue_of <$> shapes (feed_all [pkt] s) = Pipeline.feed pkt <$> (queue_of <$> shapes s).
Proof. unfold shapes, feed_all. simpl. by rewrite <- !list_fmap_compose. Qed.

(** Taking a packet from the channel and queueing it. *)
Definition fed (pkt : IngressPacket) (c : Chan IngressPacket) (w : World) : World :=
  set_net (set_shared (feed_all [pkt] (shared (net w))) (set_ingress_chan c (net w))) w.

Lemma wp_take pkt c (Q : unit → World → Prop) w :
  sys_inv w → Q tt (fed pkt c w) →
  wp (on_net (mmodify (set_ingress_chan c))) (λ _, wp (in_shared (queue_ingress pkt)) Q) w.
Proof.
  intros HI HQ. unfold in_shared, on_net, on_shared. wp_go. apply wp_done. do 2 eexists.
  split; [apply queue_ingress_feed, (inv_slots _ _ _ HI)|]. done.
Qed.

Lemma flows_take now timer w pkt c :
  wiring w → pc w ≠ R_Forwarding → pc w ≠ R_Stopped → pc w ≠ R_Polling →
  chan_try_recv (ingress_chan (net w)) = Ok (pkt, c) →
  flows (Run now timer) w tt (set_pc R_Draining (fed pkt c w)).
Proof.
  intros [H1 H2 H3 H4 H5 H6 H7] Hf Hs Hp Hr.
  pose proof (chan_recv_items _ (ingress_chan (net w))) as Hi. rewrite Hr in Hi.
  apply chan_recv_ends, ends_proj in Hr as (_ & Hrx & Htx). split.
  - constructor; simpl; auto; [congruence|rewrite Hrx, H3; by destruct (pc w)|done].
  - assert (events (Run now timer) w (set_pc R_Draining (fed pkt c w)) = []) as -> by (simpl; by destruct (pc w)).
    unfold abs. simpl. rewrite Hi, shapes_feed. constructor.
Qed.

Lemma flow_stop now timer w :
  sys_inv w → wiring w → pc w ≠ R_Forwarding → pc w ≠ R_Stopped → pc w ≠ R_Polling →
  chan_try_recv (ingress_chan (net w)) = Err TryRecv_Disconnected →
  wp run_stop (flows (Run now timer) w) w.
Proof.
  intros HI [H1 H2 H3 H4 H5 H6 H7] Hf Hs Hp Hr. unfold run_stop, in_shared, on_net, on_shared. wp_go. simpl.
  pose proof (chan_recv_items _ (ingress_chan (net w))) as Hi. rewrite Hr in Hi.
  apply chan_recv_answer in Hr. destruct (chan_has_tx (ingress_chan (net w))) eqn:Ht; [done|]. clear Hr.
  unfold sys_inv, live_sessions in HI. rewrite <- (app_nil_r (scratch_accepted w)), app_assoc in HI.
  eapply wp_mono; [apply (wp_keeps shapes); [apply shapes_drop_all|by apply wp_drop_all]|]. cbv beta.
  intros _ s' [_ Hsh]. wp_go. simpl in Hsh.
  destruct (drop_rx_proj (ingress_chan (net w))) as (_ & Erx & Etx).
  destruct (drop_tx_proj (accept_chan (net w))) as (Ecap & Earx & _).
  destruct (drop_tx_proj (egress_chan (net w))) as (_ & Eerx & _). split.
  - constructor; simpl; [congruence..|done|done].
  - assert (events (Run now timer) w (set_pc R_Stopped (set_scratch [] []
      (set_net (set_shared s' (set_accept_chan (chan_drop_tx (accept_chan (net w)))
        (set_egress_chan (chan_drop_tx (egress_chan (net w)))
        (set_ingress_chan (chan_drop_rx (ingress_chan (net w))) (net w))))) w))) = []) as He
      by (simpl; by destruct (pc w)).
    simpl in He |- *. rewrite He. unfold abs. simpl.
    rewrite Hsh, chan_drop_rx_items, !chan_drop_tx_items, Earx, Eerx, Hi, H6, H2, <- H1 by done. constructor.
Qed.

(** The runner moves on without touching anything. *)
Lemma flows_pc now timer w p :
  wiring w → pc w ≠ R_Forwarding → pc w ≠ R_Stopped → pc w ≠ R_Polling →
  p ≠ R_Forwarding → p ≠ R_Stopped → flows (Run now timer) w tt (set_pc p w).
Proof.
  intros Hw Hf Hs Hp Hf' Hs'. apply flows_idle; [by apply wiring_pc|done|]. simpl. by destruct (pc w).
Qed.

Lemma flow_select now timer w f d m :
  sys_inv w → wiring w → pc w = R_Waiting f d → run_select f timer w = Some m →
  wp m (flows (Run now timer) w) w.
Proof.
  intros HI Hw Hpc. unfold run_select. destruct (notified_ready _ _).
  { intros [= <-]. wp_go. apply flows_pc; by rewrite ?Hpc. }
  destruct (chan_try_recv _) as [[pkt c]|[|]] eqn:Hr; [|destruct timer; [|done]|]; intros [= <-].
  - apply wp_bind. eapply wp_mono; [apply (wp_take pkt c (λ _ w', w' = fed pkt c w)); done|]. cbv beta.
    intros _ w1 H1. apply wp_bind. eapply wp_mono; [done|]. cbv beta. intros _ w2 ->. wp_go.
    apply flows_take; by rewrite ?Hpc.
  - wp_go. apply flows_pc; by rewrite ?Hpc.
  - apply flow_stop; by rewrite ?Hpc.
Qed.

Lemma flow_drain now timer w :
  sys_inv w → wiring w → pc w = R_Draining → wp run_drain (flows (Run now timer) w) w.
Proof.
  intros HI Hw Hpc. unfold run_drain. wp_go. destruct (chan_try_recv _) as [[pkt c]|e] eqn:Hr.
  - apply wp_bind, wp_take; [done|].
    assert (fed pkt c w = set_pc R_Draining (fed pkt c w)) as -> by (unfold set_pc, fed; simpl; by rewrite <- Hpc).
    apply flows_take; by rewrite ?Hpc.
  - wp_go. apply flows_pc; by rewrite ?Hpc.
Qed.

(** A cycle takes a prefix of every queue. *)
Lemma cycle_takes out l l' :
  Forall2 (device_cycle out) l l' →
  Forall3 Pipeline.takes (queue_of <$> (slot_shape <$> l))
    (zip_with taken_from (slot_shape <$> l) (slot_shape <$> l')) (queue_of <$> (slot_shape <$> l')).
Proof.
  induction 1 as [|sl sl' l l' (Hid & d & Hd & Hdev & _) _ IH]; simpl; constructor; [|done].
  destruct (device_steps_queues _ _ Hd) as ([q Hq] & _ & _). unfold Pipeline.takes, taken_from. simpl.
  rewrite Hdev. simpl. split_and!; [done..|]. rewrite Hq, length_app. f_equal.
  by rewrite Nat.add_sub, take_app_length.
Qed.

Lemma flow_poll `{HO : HashOrder} now timer w :
  sys_inv w → wiring w → pc w = R_Polling → wp (run_poll now) (flows (Run now timer) w) w.
Proof.
  intros HI [H1 H2 H3 H4 H5 H6 H7] Hpc. unfold run_poll, in_shared, on_net, on_shared. wp_go. simpl.
  unfold sys_inv, live_sessions in HI. rewrite <- (app_nil_r (scratch_accepted w)), app_assoc in HI.
  eapply wp_mono; [apply (wp_keeps shapes); [apply shapes_drop_all|by apply wp_drop_all]|]. cbv beta.
  intros _ s1 [HI1 Hsh]. wp_go. simpl.
  eapply wp_mono; [by apply wp_poll_locked|]. cbv beta. intros [acc out] s2 (_ & _ & Hcyc). wp_go. simpl.
  split.
  - constructor; simpl; [done..| |done|done|done|done]. by rewrite H3, Hpc.
  - simpl. rewrite Hpc. unfold abs. simpl. rewrite H6 by (by rewrite Hpc).
    apply Pipeline.step_poll; [|intros Hrx; apply H7; by rewrite ?Hpc].
    rewrite <- Hsh. by apply cycle_takes in Hcyc.
Qed.

Lemma flow_forward now timer w m :
  sys_inv w → wiring w → pc w = R_Forwarding → run_forward w = Some m →
  wp m (flows (Run now timer) w) w.
Proof.
  intros HI [H1 H2 H3 H4 H5 H6 H7] Hpc. unfold run_forward, in_shared, on_net, on_shared.
  assert (∀ w', events (Run now timer) w w' = []) as He by (intros w'; simpl; by rewrite Hpc).
  rewrite Hpc in H3. destruct (scratch_egress w) as [|pkt o] eqn:Eo.
  - destruct (scratch_accepted w) as [|x acc] eqn:Ea.
    { intros [= <-]. wp_go. apply flows_idle; [constructor; simpl; by rewrite ?Eo, ?Ea|done|done]. }
    pose proof (chan_send_answer _ (accept_chan (net w)) x) as Hans.
    destruct (chan_try_send (accept_chan (net w)) x) as [c|e] eqn:Es; intros [= <-]; wp_go; simpl.
    + pose proof (chan_send_items _ _ _ _ Es) as Hi. apply chan_send_ends, ends_proj in Es as (Hcap & Hrx & _).
      split.
      * constructor; simpl; rewrite ?Hpc; try done; congruence.
      * rewrite He. unfold abs. simpl. rewrite Eo, Ea, Hi, Hrx, (proj1 Hans). constructor.
    + destruct e; [unfold chan_room in Hans; rewrite H5 in Hans; by destruct Hans|].
      unfold sys_inv, live_sessions in HI. rewrite Ea, app_assoc in HI.
      eapply wp_mono; [apply (wp_keeps shapes); [apply shapes_session_drop|by apply wp_session_drop]|].
      cbv beta. intros [] s' [_ Hsh]. simpl in Hsh. split.
      * by constructor; simpl; rewrite ?Hpc.
      * rewrite He. unfold abs. simpl. rewrite Hsh, Eo, Ea, Hans. constructor.
  - pose proof (chan_send_answer _ (egress_chan (net w)) pkt) as Hans.
    destruct (chan_try_send (egress_chan (net w)) pkt) as [c|[|]] eqn:Es; [|done|]; intros [= <-]; wp_go.
    + pose proof (chan_send_items _ _ _ _ Es) as Hi. apply chan_send_ends, ends_proj in Es as (Hcap & Hrx & _).
      split.
      * by constructor; simpl; rewrite ?Hpc.
      * rewrite He. unfold abs. simpl. rewrite Eo, Hi, Hrx, (proj1 Hans). constructor.
    + split.
      * constructor; simpl; try done. intros _. by rewrite Hans.
      * rewrite He. unfold abs. simpl. rewrite Hans. constructor.
Qed.

(** ** Steps of the application *)

Lemma set_net_id w : set_net (net w) w = w.
Proof. by destruct w. Qed.

Lemma flow_send_ip i data w :
  wiring w → has_handle w = true →
  wp (_ ← on_net (send_ip_packet i data); mret tt) (flows (Send_ip i data) w) w.
Proof.
  intros Hw Hh. pose proof Hw as [H1 H2 H3 H4 H5 H6 H7]. apply wp_bind.
  assert (∃ r n', send_ip_packet i data (net w) = Done (r, n')) as (r & n' & Hsend).
  { destruct (proj1 (wp_done _ _ _) (wp_send_ip_packet i data (net w))) as (r & n' & Hs & _). by exists r, n'. }
  assert (on_net (send_ip_packet i data) w = Done (r, set_net n' w)) as Hon by (unfold on_net, zoom; by rewrite Hsend).
  unfold wp at 1. rewrite Hon. wp_go.
  assert (events (Send_ip i data) w (set_net n' w) =
    match r with Ok _ => [Pipeline.Sent (mkIngressPacket i data)] | Err _ => [] end) as He
    by (simpl; rewrite Hsend; by destruct r).
  unfold send_ip_packet, mbind, M_bind, mget in Hsend.
  destruct (slot (core (shared (net w))) i) as [sl|] eqn:Es; 
    [|injection Hsend as <- <-; rewrite set_net_id in *; by apply flows_idle].
  destruct (chan_try_send _ _) as [c|[|]] eqn:Ec; 
    [|injection Hsend as <- <-; rewrite set_net_id in *; by apply flows_idle..].
  injection Hsend as <- <-.
  pose proof (chan_send_items _ _ _ _ Ec) as Hi. apply chan_send_ends, ends_proj in Ec as (_ & Hrx & Htx). split.
  - constructor; simpl; try done; congruence.
  - rewrite He. unfold abs. simpl. rewrite Hi. apply Pipeline.step_send. simpl.
    unfold slot in Es. apply fmap_Some in Es as ([n sl'] & [Hn Hid]%find_slot_Some & ->). simpl in *.
    rewrite <- list_fmap_compose. apply list_elem_of_fmap. exists (slot_shape sl'). split; [done|].
    unfold shapes. apply list_elem_of_fmap_2. by eapply list_elem_of_lookup_2.
Qed.

Lemma flow_accept w : wiring w → wp app_accept (flows Accept w) w.
Proof.
  intros Hw. pose proof Hw as [H1 H2 H3 H4 H5 H6 H7]. unfold app_accept, on_net, accept. wp_go.
  pose proof (chan_recv_items _ (accept_chan (net w))) as Hi.
  assert (∀ w', events Accept w w' = match chan_try_recv (accept_chan (net w)) with
    | Ok (x, _) => [Pipeline.Handed x] | Err _ => [] end) as He.
  { intros w'. simpl. unfold accept, mbind, M_bind, mget. by destruct (chan_try_recv _) as [[]|[]]. }
  destruct (chan_try_recv (accept_chan (net w))) as [[x c]|[|]] eqn:Er; wp_go; simpl;
    [|rewrite set_net_id; by apply flows_idle..].
  apply chan_recv_ends, ends_proj in Er as (Hcap & Hrx & _). split.
  - constructor; simpl; try done; congruence.
  - rewrite He. unfold abs. simpl. rewrite Hi, Hrx. constructor.
Qed.

Lemma flow_drop_handle w : sys_inv w → wiring w → wp app_drop_handle (flows Drop_handle w) w.
Proof.
  intros HI [H1 H2 H3 H4 H5 H6 H7]. unfold app_drop_handle, in_shared, on_net, on_shared. wp_go. simpl.
  eapply wp_mono; [apply (wp_keeps shapes); [apply shapes_drop_all|by apply wp_drop_all]|]. cbv beta.
  intros _ s' [_ Hsh]. wp_go. simpl in Hsh.
  destruct (drop_tx_proj (ingress_chan (net w))) as (_ & Erx & Etx).
  destruct (drop_rx_proj (accept_chan (net w))) as (Ecap & Earx & _). split.
  - constructor; simpl; try done; congruence.
  - unfold abs. simpl. rewrite Hsh, chan_drop_tx_items, chan_drop_rx_items, Earx. constructor.
Qed.

Lemma flow_egress w : wiring w → wp app_egress (flows Egress w) w.
Proof.
  intros Hw. pose proof Hw as [H1 H2 H3 H4 H5 H6 H7]. unfold app_egress, on_net. wp_go.
  pose proof (chan_recv_items _ (egress_chan (net w))) as Hi.
  destruct (chan_try_recv (egress_chan (net w))) as [[pkt c]|e] eqn:Er; wp_go.
  - pose proof (chan_recv_ends _ _ _ _ Er) as (Hcap & Hrx & _)%ends_proj. split.
    + constructor; simpl; try done. by rewrite Hrx.
    + simpl. rewrite Er. unfold abs. simpl. rewrite Hi, Hrx. constructor.
  - rewrite set_net_id. apply flows_idle; [done..|]. simpl. by rewrite Er.
Qed.

Lemma flow_drop_egress w : wiring w → wp app_drop_egress (flows Drop_egress w) w.
Proof.
  intros [H1 H2 H3 H4 H5 H6 H7]. unfold app_drop_egress, on_net. wp_go.
  destruct (drop_rx_proj (egress_chan (net w))) as (_ & Erx & _). split.
  - constructor; simpl; try done. by rewrite Erx.
  - unfold abs. simpl. rewrite chan_drop_rx_items, Erx. constructor.
Qed.

(** Every action that leaves the channels and the devices alone. *)
Lemma flow_in_shared {A} a w (m : M Shared A) (Q : A → Shared → Prop) :
  wiring w → keeps shapes m → (∀ w', events a w w' = []) → wp m Q (shared (net w)) →
  wp (in_shared m) (λ _ w', flows a w tt w') w.
Proof.
  intros Hw Hk He Hm. unfold in_shared, on_net, on_shared. wp_go.
  eapply wp_mono; [apply (wp_keeps shapes); [exact Hk|exact Hm]|]. cbv beta. intros x s' [_ Hsh].
  apply flows_idle; [by apply wiring_shared|by apply abs_shared|done].
Qed.

(** ** Every action *)

Lemma wp_flow `{HO : HashOrder} a w m :
  sys_inv w → wiring w → perform a w = Some m → wp m (flows a w) w.
Proof.
  intros HI Hw. destruct a as [now timer|i data| | | | |i op|i]; simpl.
  - destruct (pc w) as [|sleep|f d| | | | |] eqn:Hpc; try done; try (intros [= <-]).
    + unfold run_top. wp_go. apply flows_pc; by rewrite ?Hpc.
    + unfold run_subscribe. wp_go. apply flows_pc; by rewrite ?Hpc.
    + by apply (flow_select _ _ _ f d).
    + by apply flow_drain.
    + by apply flow_poll.
    + by apply flow_forward.
    + unfold run_done, in_shared, on_net, on_shared, notify_poll_done. wp_go.
      apply flows_idle; [|done|simpl; by rewrite Hpc]. destruct Hw as [H1 H2 H3 H4 H5 H6 H7]. rewrite Hpc in *.
      by constructor; simpl; auto.
  - destruct (has_handle w) eqn:Hh; [|done]. intros [= <-]. by apply flow_send_ip.
  - destruct (has_handle w) eqn:Hh; [|done]. intros [= <-]. by apply flow_accept.
  - destruct (has_handle w) eqn:Hh; [|done]. intros [= <-]. by apply flow_drop_handle.
  - intros [= <-]. by apply flow_egress.
  - intros [= <-]. by apply flow_drop_egress.
  - intros (x & Hx & (m' & Hm & [= <-])%bind_Some)%bind_Some.
    eapply wp_mono; [eapply (flow_in_shared (On_session i op)); [done|by eapply shapes_run_op|done|]|].
    + eapply (wp_run_op (live_sessions w)); [exact HI| |exact Hm].
      unfold live_sessions. apply elem_of_app. left. by eapply list_elem_of_lookup_2.
    + by intros [] ?.
  - intros (x & Hx & [= <-])%bind_Some. unfold app_drop_session. wp_go.
    unfold sys_inv, live_sessions in HI. rewrite <- (take_drop_middle _ _ _ Hx), <- app_assoc in HI. simpl in HI.
    eapply wp_mono; [eapply (flow_in_shared (Drop_session i)); [|apply shapes_session_drop|done|]|].
    + destruct Hw. by constructor.
    + by apply wp_session_drop in HI.
    + by intros [] ? [].
Qed.

Lemma step_flow `{HO : HashOrder} a w m w' :
  sys_inv w → wiring w → perform a w = Some m → m w = Done (tt, w') → flows a w tt w'.
Proof. intros HI Hw Hp Hm. by eapply (wp_elim _ (flows a w)); [eapply wp_flow|]. Qed.

Lemma initial_wiring b w : builder_ok b → initial b w →
  wiring w ∧ abs w = Pipeline.start (interfaces b).*1.
Proof.
  intros Hb (n & -> & Hn)%initial_built; [|done]. destruct Hn as [_ Hs _ Hi He Ha Ei Ee Ea].
  unfold chan_ends in Ei, Ee, Ea. injection Ei as _ Ei1 Ei2. injection Ee as _ Ee1 _. injection Ea as Ea0 Ea1 _.
  split; [by constructor|]. unfold abs, Pipeline.start. simpl. rewrite Hi, He, Ha, Ee1, Ea1. f_equal.
  unfold shapes. rewrite <- list_fmap_compose, <- list_fmap_compose.
  clear -Hs. induction Hs as [|[i spec] sl l l' [Hid Hd _ _ _ _ _ _] _ IH]; [done|].
  rewrite !fmap_cons, IH. unfold queue_of, slot_shape. simpl. by rewrite Hid, Hd.
Qed.

(** ** Executions *)

Lemma execution_flow b evs w :
  builder_ok b → execution b evs w → sys_inv w ∧ wiring w ∧ Pipeline.exec (interfaces b).*1 evs (abs w).
Proof.
  intros Hb. induction 1 as [w Hi|evs w HO a m w' _ (HI & Hw & He) Hp Hm].
  - destruct (initial_wiring _ _ Hb Hi) as [Hw ->]. split_and!; [by eapply initial_sys_inv|done|constructor].
  - destruct (step_flow _ _ _ _ HI Hw Hp Hm) as [Hw' Hs]. split_and!; [|done|by econstructor].
    eapply step_sys_inv; [done|]. by econstructor.
Qed.

Lemma reachable_wiring b w : builder_ok b → reachable b w → wiring w.
Proof. intros Hb [evs He]%reachable_execution. by eapply execution_flow. Qed.

(** The interfaces are those of the builder, in its order. *)
Lemma reachable_ids b w :
  builder_ok b → reachable b w → id <$> slots (core (shared (net w))) = (interfaces b).*1.
Proof.
  intros Hb [evs He]%reachable_execution. destruct (execution_flow _ _ _ Hb He) as (_ & _ & Hx).
  apply Pipeline.exec_ids in Hx. rewrite <- Hx. unfold abs, shapes. simpl. by rewrite <- !list_fmap_compose.
Qed.

Lemma elem_of_abs_devices w (n : nat) sl :
  slots (core (shared (net w))) !! n = Some sl → (id sl, ingress (device sl)) ∈ Pipeline.devices (abs w).
Proof.
  intros Hn. unfold abs, shapes. simpl. rewrite <- list_fmap_compose.
  apply list_elem_of_fmap. exists sl. split; [done|]. by eapply list_elem_of_lookup_2.
Qed.
End FlowCorrect.
