(* ===== verification/Progress.v ===== *)
(** * Progress of the runner

    What the runner does when it is scheduled and nothing else happens: where
    it can block, that its drain of the ingress channel is the loop
    [drain_ingress], and that a cycle that has begun ends unless the egress
    channel is full. *)
From stdpp Require Import base list gmap.
From S2P Require Import Prelude Types Device Smoltcp Config Manager Core Packet Session Flow Invariant Streams StreamsCorrect Runner RunnerCorrect UdpCorrect CycleCorrect Handle HandleCorrect Builder System ConfigKept DevicesKept SystemCorrect FlowCorrect.

Local Open Scope Z_scope.

Section Progress.
Context `{T : Target, HO : HashOrder, W : Wire, E : Engine, K : Tokio, EL : !EngineLaws, WL : !WireLaws, KL : !TokioLaws}.

(** [n] steps of the runner and of nobody else. *)
Definition run_alone (n : nat) (now : Instant) (w : World) : outcome World :=
  run_actions (replicate n (Run now false)) w.

Lemma run_actions_app l1 l2 w w1 :
  run_actions l1 w = Done w1 → run_actions (l1 ++ l2) w = run_actions l2 w1.
Proof.
  revert w. induction l1 as [|a l1 IH]; intros w; simpl; [by intros [= ->]|].
  destruct (perform a w) as [m|]; [|by apply IH].
  destruct (m w) as [[[] w']| |]; [by apply IH|done..].
Qed.

Lemma run_alone_app n1 n2 now w w1 :
  run_alone n1 now w = Done w1 → run_alone (n1 + n2) now w = run_alone n2 now w1.
Proof. unfold run_alone. rewrite replicate_add. apply run_actions_app. Qed.

Lemma run_alone_step n now w m w1 :
  perform (Run now false) w = Some m → m w = Done (tt, w1) →
  run_alone (S n) now w = run_alone n now w1.
Proof. intros Hp Hm. unfold run_alone. simpl in *. by rewrite Hp, Hm. Qed.

(** A step of the runner that is enabled is taken, and keeps what the theorems
    of the system need. *)
Lemma run_enabled now w m :
  sys_inv w → wiring w → perform (Run now false) w = Some m →
  ∃ w', m w = Done (tt, w') ∧ sys_inv w' ∧ wiring w'.
Proof.
  intros HI Hw Hp. pose proof (wp_flow _ _ _ HI Hw Hp) as Hf. pose proof (wp_perform _ _ _ HI Hp) as Hi.
  destruct (proj1 (wp_done _ _ _) (wp_conj _ _ _ _ Hf Hi)) as ([] & w' & Hm & [Hw' _] & HI'). by exists w'.
Qed.

Lemma run_alone_inv n now w w' :
  run_alone n now w = Done w' → sys_inv w → wiring w → sys_inv w' ∧ wiring w'.
Proof.
  revert w. induction n as [|n IH]; intros w Hr HI Hw; [by injection Hr as <-|].
  unfold run_alone in Hr. cbn [replicate run_actions] in Hr.
  destruct (perform (Run now false) w) as [m|] eqn:Hp; [|by eapply IH].
  destruct (run_enabled now w m HI Hw Hp) as (w1 & Hm & HI1 & Hw1). rewrite Hm in Hr. by eapply IH.
Qed.

(** ** Where the runner can block *)

Inductive blocked (w : World) : Prop :=
| blocked_waiting f d : pc w = R_Waiting f d → notified_ready (poll_notify (shared (net w))) f = false →
    chan_items (ingress_chan (net w)) = [] → has_handle w = true → blocked w
| blocked_full : pc w = R_Forwarding → scratch_egress w ≠ [] →
    chan_has_rx (egress_chan (net w)) = true → chan_room (egress_chan (net w)) = false → blocked w
| blocked_stopped : pc w = R_Stopped → blocked w.

Lemma run_blocked now w : wiring w → perform (Run now false) w = None ↔ blocked w.
Proof.
  intros Hw. simpl. split.
  - destruct (pc w) as [|sleep|f d| | | | |] eqn:Hpc; try done.
    + unfold run_select. destruct (notified_ready _ _) eqn:En; [done|].
      pose proof (chan_recv_items _ (ingress_chan (net w))) as Hi.
      pose proof (chan_recv_answer _ (ingress_chan (net w))) as Ha.
      destruct (chan_try_recv _) as [[]|e]; [done|]. specialize (Ha e eq_refl).
      rewrite (wire_handle_tx _ Hw) in Ha. destruct (has_handle w) eqn:Hh; subst e; [|done].
      intros _. by eapply blocked_waiting.
    + unfold run_forward. destruct (scratch_egress w) as [|pkt o] eqn:Eo.
      { destruct (scratch_accepted w); [done|]. by destruct (chan_try_send _ _). }
      pose proof (chan_send_answer _ (egress_chan (net w)) pkt) as Ha.
      destruct (chan_try_send _ _) as [|[]]; [done| |done]. intros _. destruct Ha. apply blocked_full; congruence.
    + intros _. by apply blocked_stopped.
  - intros [f d Hpc Hn Hi Hh|Hpc Ho Hrx Hr|Hpc]; rewrite Hpc; [| |done].
    + unfold run_select. rewrite Hn. pose proof (chan_recv_items _ (ingress_chan (net w))) as Hr.
      pose proof (chan_recv_answer _ (ingress_chan (net w))) as Ha.
      destruct (chan_try_recv _) as [[]|e]; [congruence|]. specialize (Ha e eq_refl).
      rewrite (wire_handle_tx _ Hw), Hh in Ha. by subst e.
    + unfold run_forward. destruct (scratch_egress w) as [|pkt o]; [done|].
      pose proof (chan_send_answer _ (egress_chan (net w)) pkt) as Ha.
      destruct (chan_try_send _ _) as [|[]]; [|done|congruence]. destruct Ha. congruence.
Qed.

(** ** The drain *)

Lemma set_net_net n n' w : set_net n (set_net n' w) = set_net n w.
Proof. done. Qed.

(** Step by step the runner does what the loop [drain_ingress] does. *)
Lemma drain_steps now k w :
  NoDup (id <$> slots (core (shared (net w)))) → pc w = R_Draining →
  length (chan_items (ingress_chan (net w))) = k →
  ∃ n, drain_ingress (S k) (net w) = Done (tt, n) ∧
    run_alone (S k) now w = Done (set_pc R_Polling (set_net n w)).
Proof.
  revert w. induction k as [|k IH]; intros w Hnd Hpc Hlen.
  - apply length_zero_iff_nil in Hlen. pose proof (chan_recv_items _ (ingress_chan (net w))) as Hr.
    simpl. unfold mbind, M_bind, mget. destruct (chan_try_recv _) as [[]|e] eqn:Er; [congruence|].
    exists (net w). split; [done|]. erewrite run_alone_step; [|simpl; by rewrite Hpc|]; [done|].
    unfold run_drain, mbind, M_bind, mget. by rewrite Er, set_net_id.
  - pose proof (chan_recv_items _ (ingress_chan (net w))) as Hr.
    destruct (chan_try_recv (ingress_chan (net w))) as [[pkt c]|e] eqn:Er; [|by rewrite Hr in Hlen].
    assert (run_drain w = Done (tt, fed pkt c w)) as Hstep.
    { unfold run_drain, mbind, M_bind, mget. rewrite Er. unfold in_shared, on_net, on_shared, zoom, mmodify. simpl.
      by rewrite queue_ingress_feed. }
    destruct (IH (fed pkt c w)) as (n & Hd & Ha).
    + cbn [net fed set_net shared set_shared]. by rewrite feed_all_ids.
    + done.
    + simpl. rewrite Hr in Hlen. simpl in Hlen. lia.
    + exists n. split.
      * rewrite <- Hd. simpl. unfold mbind at 1, M_bind at 1, mget at 1. rewrite Er.
        unfold on_shared, zoom, mbind, M_bind, mmodify. simpl. by rewrite queue_ingress_feed.
      * erewrite run_alone_step; [exact Ha|simpl; by rewrite Hpc|done].
Qed.

(** ** The end of a cycle *)

(** Forwarding ends at the end of [poll_once], or waits for room; the end of the
    cycle is not signalled before. *)
Lemma forward_ends now k w :
  sys_inv w → wiring w → pc w = R_Forwarding →
  (length (scratch_egress w) + length (scratch_accepted w) = k)%nat →
  ∃ n w', run_alone n now w = Done w' ∧ sys_inv w' ∧ wiring w' ∧ world_done w' = world_done w ∧
    (pc w' = R_PollDone ∨ (pc w' = R_Forwarding ∧ blocked w')).
Proof.
  revert w. induction k as [k IH] using lt_wf_ind. intros w HI Hw Hpc Hk.
  destruct (perform (Run now false) w) as [m|] eqn:Hp.
  2: { exists O, w. split_and!; [done..|]. right. split; [done|]. by apply (run_blocked now). }
  destruct (run_enabled now w m HI Hw Hp) as (w1 & Hm & HI1 & Hw1).
  assert (world_done w1 = world_done w) as Hdone.
  { simpl in Hp. rewrite Hpc in Hp. by eapply done_run_forward. }
  assert (pc w1 = R_PollDone ∨ (pc w1 = R_Forwarding ∧
    (length (scratch_egress w1) + length (scratch_accepted w1) < k)%nat)) as [Hd|[Hf Hlt]].
  { simpl in Hp. rewrite Hpc in Hp. unfold run_forward in Hp.
    destruct (scratch_egress w) as [|pkt o] eqn:Eo.
    - destruct (scratch_accepted w) as [|x acc] eqn:Ea; [injection Hp as <-; injection Hm as <-; by left|].
      destruct (chan_try_send (accept_chan (net w)) x) as [c|e]; injection Hp as <-.
      + injection Hm as <-. right. simpl in *. split; [done|lia].
      + revert Hm. unfold mbind, M_bind, mmodify, in_shared, on_net, on_shared, zoom. simpl.
        destruct (session_drop x _) as [[[] s']| |]; [|done..]. intros [= <-]. right. simpl in *. split; [done|lia].
    - destruct (chan_try_send (egress_chan (net w)) pkt) as [c|[|]]; [|done|]; injection Hp as <-; injection Hm as <-.
      + right. simpl in *. split; [done|lia].
      + by left. }
  - exists 1%nat, w1. split_and!; [|done|done|done|by left]. by erewrite run_alone_step.
  - destruct (IH _ Hlt w1 HI1 Hw1 Hf eq_refl) as (n & w2 & Hr & ? & ? & ? & ?).
    exists (S n), w2. split_and!; [|done|done|congruence|done]. by erewrite run_alone_step.
Qed.

(** From the poll to the head of the loop, with the signal at the end. *)
Lemma poll_ends now w :
  sys_inv w → wiring w → pc w = R_Polling →
  ∃ n w', run_alone n now w = Done w' ∧
    ((pc w' = R_Top ∧ world_done w' = notify_waiters (world_done w)) ∨ (pc w' = R_Forwarding ∧ blocked w')).
Proof.
  intros HI Hw Hpc.
  destruct (run_enabled now w (run_poll now) HI Hw) as (w1 & Hm1 & HI1 & Hw1); [simpl; by rewrite Hpc|].
  assert (pc w1 = R_Forwarding) as Hpc1.
  { revert Hm1. unfold run_poll, in_shared, on_net, on_shared, mbind, M_bind, mget, zoom, mmodify.
    destruct (drop_all _ _) as [[[] s1]| |]; [|done..]. simpl.
    destruct (poll_locked now s1) as [[[acc o] s2]| |]; [|done..]. by intros [= <-]. }
  destruct (forward_ends now _ w1 HI1 Hw1 Hpc1 eq_refl) as (n & w2 & Hr & HI2 & Hw2 & Hdone2 & Hend).
  pose proof (done_run_poll now w _ w1 Hm1) as Hdone1.
  assert (run_alone (S n) now w = Done w2) as Hr2.
  { erewrite run_alone_step; [exact Hr|simpl; by rewrite Hpc|done]. }
  destruct Hend as [Hd|Hb].
  - destruct (run_enabled now w2 run_done HI2 Hw2) as (w3 & Hm3 & _ & _); [simpl; by rewrite Hd|].
    exists (S n + 1)%nat, w3. split.
    + rewrite (run_alone_app _ _ _ _ _ Hr2). erewrite run_alone_step; [done|simpl; by rewrite Hd|done].
    + left. revert Hm3. unfold run_done, in_shared, on_net, on_shared, notify_poll_done, mbind, M_bind, zoom, mmodify.
      intros [= <-]. split; [done|]. rewrite <- Hdone1, <- Hdone2. done.
  - exists (S n), w2. split; [done|by right].
Qed.

(** ** A waiting runner serves the packets that come in *)

Lemma drain_serves now w :
  sys_inv w → pc w = R_Draining →
  ∃ n w', run_alone n now w = Done w' ∧ pc w' = R_Polling ∧ chan_items (ingress_chan (net w')) = [] ∧
    shared (net w') = feed_all (chan_items (ingress_chan (net w))) (shared (net w)).
Proof.
  intros HI Hpc. pose proof (slots_ids _ _ (inv_slots _ _ _ HI)) as Hnd.
  destruct (drain_steps now _ w Hnd Hpc eq_refl) as (n & Hd & Hr).
  destruct (drain_ingress_all _ (net w) Hnd (Nat.lt_succ_diag_r _)) as (c & Hd' & Hc).
  rewrite Hd in Hd'. injection Hd' as ->. by do 2 eexists.
Qed.

Lemma waiting_serves now w f d :
  sys_inv w → wiring w → pc w = R_Waiting f d → chan_items (ingress_chan (net w)) ≠ [] →
  ∃ n w', run_alone n now w = Done w' ∧ pc w' = R_Polling ∧ chan_items (ingress_chan (net w')) = [] ∧
    shared (net w') = feed_all (chan_items (ingress_chan (net w))) (shared (net w)).
Proof.
  intros HI Hw Hpc Hne. pose proof (chan_recv_items _ (ingress_chan (net w))) as Hi.
  destruct (perform (Run now false) w) as [m|] eqn:Hp.
  2: { apply (run_blocked now w Hw) in Hp. destruct Hp; congruence. }
  destruct (run_enabled now w m HI Hw Hp) as (w1 & Hm & HI1 & Hw1).
  simpl in Hp. rewrite Hpc in Hp. unfold run_select in Hp.
  assert (pc w1 = R_Draining ∧ ∃ l, chan_items (ingress_chan (net w)) = l ++ chan_items (ingress_chan (net w1)) ∧
    shared (net w1) = feed_all l (shared (net w))) as (Hpc1 & l & Hl & Hs1).
  { destruct (notified_ready _ _).
    { injection Hp as <-. injection Hm as <-. split; [done|]. exists []. by rewrite feed_all_nil. }
    destruct (chan_try_recv _) as [[pkt c]|e]; [|congruence]. injection Hp as <-. revert Hm.
    unfold mbind, M_bind, in_shared, on_net, on_shared, zoom, mmodify. simpl.
    rewrite queue_ingress_feed by apply (inv_slots _ _ _ HI). intros [= <-]. split; [done|]. by exists [pkt]. }
  destruct (drain_serves now w1 HI1 Hpc1) as (n & w2 & Hr & Hpc2 & Hc2 & Hs2).
  exists (S n), w2. split_and!; [|done..|].
  - erewrite run_alone_step; [exact Hr|simpl; rewrite Hpc; exact Hp|done].
  - by rewrite Hs2, Hs1, Hl, feed_all_app.
Qed.
End Progress.
