(* ===== verification/Addresses.v ===== *)
(** * Sessions carry the addresses of their flow

    A session object is well typed when its protocol is the one of its key and
    its addresses and its interface are those of its flow. The sessions that a
    cycle opens are, and the application only ever holds sessions that a cycle
    opened; so the accessors [src_addr], [dst_addr] and [interface_id] can be
    relied upon, for instance to choose where to relay a session to. *)
From stdpp Require Import base list gmap.
From S2P Require Import Prelude Types Device Smoltcp Config Manager Core Packet Session Flow Invariant Streams StreamsCorrect Runner RunnerCorrect UdpCorrect CycleCorrect Handle HandleCorrect Builder System ConfigKept DevicesKept SystemCorrect FlowCorrect.

Section Addresses.
Context `{T : Target, W : Wire, E : Engine, K : Tokio}.

Definition typed (x : Session) : Prop :=
  match x with
  | Session_Tcp t => proto (ts_key t) = Proto_Tcp ∧ tcp_interface_id t = interface (ts_key t) ∧
      tcp_src_addr t = to_socket_addr (src (ts_key t)) ∧ tcp_dst_addr t = to_socket_addr (dst (ts_key t))
  | Session_Udp u => proto (us_key u) = Proto_Udp ∧ udp_interface_id u = interface (us_key u) ∧
      udp_src_addr u = to_socket_addr (src (us_key u)) ∧ udp_dst_addr u = to_socket_addr (dst (us_key u))
  end.

(** ** Results of computations *)

(** [returns P m]: whenever [m] returns, its result satisfies [P]. *)
Definition returns {S A} (P : A → Prop) (m : M S A) : Prop := ∀ s a s', m s = Done (a, s') → P a.

Lemma returns_bind {S A B} (P : B → Prop) (m : M S A) (f : A → M S B) :
  (∀ a, returns P (f a)) → returns P (m ≫= f).
Proof.
  intros Hf s b s'. unfold mbind, M_bind. destruct (m s) as [[a s1]| |]; [|done..]. apply Hf.
Qed.

Lemma returns_then {S A B} (P : A → Prop) (Q : B → Prop) (m : M S A) (f : A → M S B) :
  returns P m → (∀ a, P a → returns Q (f a)) → returns Q (m ≫= f).
Proof.
  intros Hm Hf s b s'. unfold mbind, M_bind. destruct (m s) as [[a s1]| |] eqn:Em; [|done..].
  apply Hf. by eapply Hm.
Qed.

Lemma returns_ret {S A} (P : A → Prop) (a : A) : P a → returns (S := S) P (mret a).
Proof. by intros HP s a' s' [= <- <-]. Qed.

Lemma returns_mfold {S A B} (P : B → Prop) (f : B → A → M S B) l b :
  (∀ b x, P b → returns P (f b x)) → P b → returns P (mfold f l b).
Proof.
  intros Hf. revert b. induction l as [|x l IH]; intros b Hb; simpl; [by apply returns_ret|].
  eapply returns_then; [by apply Hf|done].
Qed.

Lemma wp_returns {S A} (P : A → Prop) (m : M S A) Q s :
  returns P m → wp m Q s → wp m (λ a s', Q a s' ∧ P a) s.
Proof.
  intros Hr. unfold wp. destruct (m s) as [[a s']| |] eqn:Em; [|done..]. intros HQ. split; [done|].
  by eapply Hr.
Qed.

(** ** Sessions that a cycle opens *)

Lemma alloc_udp_typed i key now :
  proto key = Proto_Udp → returns (from_option typed True) (alloc_udp i key now).
Proof.
  intros Hp. unfold alloc_udp. repeat (apply returns_bind; intros ?).
  destruct (_ && _); [by apply returns_ret|]. apply returns_bind. intros sl. apply returns_bind. intros [created ss].
  apply returns_bind. intros _. destruct created; [|by apply returns_ret].
  repeat (apply returns_bind; intros ?). by apply returns_ret.
Qed.

Lemma pre_pass_typed now acc : Forall typed acc → returns (Forall typed) (pre_pass now acc).
Proof.
  intros Hacc. unfold pre_pass. apply returns_bind. intros s. apply returns_mfold; [|done].
  clear. intros acc i Hacc. unfold pre_pass_slot. do 2 (apply returns_bind; intros ?).
  apply (returns_then (Forall typed)).
  2: { intros acc' Hacc'. do 2 (apply returns_bind; intros ?). by apply returns_ret. }
  apply returns_mfold; [|done]. clear. intros acc pkt Hacc. unfold pre_pass_packet.
  apply returns_bind. intros s. destruct (parse_l4 pkt) as [[[sr ds] [[]|]]|]; [| | |by apply returns_ret].
  - apply returns_bind. intros sl. do 2 (case_bool_decide; [by apply returns_ret|]).
    apply returns_bind. intros _. by apply returns_ret.
  - by apply returns_ret.
  - apply returns_bind. intros sl. do 2 (case_bool_decide; [by apply returns_ret|]).
    eapply returns_then; [by apply alloc_udp_typed|].
    intros [x|] Hx; apply returns_ret; [|done]. apply Forall_app. by repeat constructor.
Qed.

Context `{EL : !EngineLaws, WL : !WireLaws, KL : !TokioLaws}.

Lemma accepted_typed `{HO : HashOrder} extra live s :
  Inv extra live s → Forall typed (omap (accepted_of (slots (core s))) (hash_iter (tcp (manager (core s))))).
Proof.
  intros HI. apply Forall_forall. intros x ([k e] & Hin & Hx)%list_elem_of_omap.
  apply elem_of_hash_iter in Hin. unfold accepted_of in Hx. destruct (entry_accepted _ _ _); [|done].
  injection Hx as <-. apply (mgr_tcp _ _ (inv_mgr _ _ _ HI)) in Hin as (Hp & _). done.
Qed.

Lemma poll_locked_typed `{HO : HashOrder} live s now :
  Inv 0 live s → wp (poll_locked now) (λ r _, Forall typed r.1) s.
Proof.
  intros HI. unfold poll_locked. wp_go.
  eapply wp_mono; [apply wp_returns; [by apply pre_pass_typed|by apply (wp_pre_pass live)]|]. cbv beta.
  intros acc1 s1 [((new & -> & HI1 & _) & _ & _) Ht]. wp_go.
  eapply wp_mono; [by apply wp_poll_interfaces|]. cbv beta. intros _ s2 (HI2 & _). wp_go.
  eapply wp_mono; [by apply wp_post_pass|]. cbv beta. intros acc3 s3 [Hacc HI3 _ _ _ _]. wp_go.
  eapply wp_mono; [by apply wp_collect_egress|]. cbv beta. intros out s4 _. wp_go. simpl. subst acc3.
  apply Forall_app. split; [done|]. by eapply accepted_typed.
Qed.

Lemma run_poll_typed `{HO : HashOrder} w now w' :
  sys_inv w → run_poll now w = Done (tt, w') → Forall typed (scratch_accepted w').
Proof.
  intros HI Hr. apply (wp_elim (run_poll now) (λ _ w', Forall typed (scratch_accepted w')) w tt w'); [|done].
  unfold run_poll, in_shared, on_net, on_shared. wp_go. simpl.
  unfold sys_inv, live_sessions in HI. rewrite <- (app_nil_r (scratch_accepted w)), app_assoc in HI.
  eapply wp_mono; [by apply wp_drop_all|]. cbv beta. intros _ s1 HI1. wp_go. simpl.
  eapply wp_mono; [by eapply poll_locked_typed|]. cbv beta. intros [acc out] s2 Ht. by wp_go.
Qed.

Lemma opened_typed b evs w : builder_ok b → execution b evs w → Forall typed (Pipeline.opened evs).
Proof.
  intros Hb. induction 1 as [|evs w HO a m w' He IH Hp Hm]; [constructor|].
  rewrite Pipeline.opened_app. apply Forall_app. split; [done|].
  destruct (execution_flow _ _ _ Hb He) as (HI & _ & _).
  destruct a as [now timer|i data| | | | |i op|i]; simpl; try constructor.
  - destruct (pc w) eqn:Hpc; try constructor. simpl. rewrite app_nil_r.
    simpl in Hp. rewrite Hpc in Hp. injection Hp as <-. by eapply run_poll_typed.
  - destruct (send_ip_packet i data (net w)) as [[[] ?]| |]; constructor.
  - destruct (accept (net w)) as [[[[]|] ?]| |]; constructor.
  - destruct (chan_try_recv _) as [[]|]; constructor.
Qed.

(** ** What the application holds *)

(** What belongs to the application alone. *)
Definition app_side (w : World) : list Session * bool := (app w, has_handle w).

Lemma app_on_net {A} (m : M Netstack A) : keeps app_side (on_net m).
Proof. by apply (keeps_zoom _ _ _ _ (λ _, tt) (λ _ w, app_side w)). Qed.

Lemma app_in_shared {A} (m : M Shared A) : keeps app_side (in_shared m).
Proof. apply app_on_net. Qed.
#[local] Hint Resolve app_on_net app_in_shared : keeps.

Lemma app_runner `{HO : HashOrder} now timer w m :
  perform (Run now timer) w = Some m → keeps app_side m.
Proof.
  simpl. destruct (pc w); try done; try (intros [= <-]).
  - unfold run_top. keeps_go.
  - unfold run_subscribe. keeps_go.
  - unfold run_select. destruct (notified_ready _ _); [intros [= <-]; keeps_go|].
    destruct (chan_try_recv _) as [[]|[]]; [|destruct timer; [|done]|]; intros [= <-]; unfold run_stop; keeps_go.
  - unfold run_drain. keeps_go.
  - unfold run_poll. keeps_go.
  - unfold run_forward. destruct (scratch_egress w); [destruct (scratch_accepted w)|];
      [|destruct (chan_try_send _ _)|destruct (chan_try_send _ _) as [|[]]; [|done|]]; intros [= <-]; keeps_go.
  - unfold run_done. keeps_go.
Qed.

(** What the application holds was handed to it, in that order. *)
Lemma app_handed b evs w : execution b evs w → app w `sublist_of` Pipeline.handed evs.
Proof.
  induction 1 as [w [clock o o' n _ ->]|evs w HO a m w' _ IH Hp Hm]; [done|].
  assert (app_side w' = app_side w → app w' `sublist_of` Pipeline.handed (evs ++ events a w w')) as Hsame.
  { intros [= -> _]. rewrite Pipeline.handed_app. by apply sublist_inserts_r. }
  destruct a as [now timer|i data| | | | |i op|i]; simpl in Hp.
  - apply Hsame. by eapply app_runner.
  - destruct (has_handle w); [|done]. injection Hp as <-. apply Hsame.
    assert (keeps app_side (_ ← on_net (send_ip_packet i data); mret tt)) as Hk by keeps_go. by eapply Hk.
  - destruct (has_handle w); [|done]. injection Hp as <-. clear Hsame. revert Hm.
    unfold app_accept, on_net, zoom, mbind, M_bind. rewrite Pipeline.handed_app. cbn [events].
    destruct (accept (net w)) as [[[[x|]|] n']| |]; [| | |done..]; intros [= <-]; simpl.
    + by apply sublist_app.
    + by rewrite app_nil_r.
    + by rewrite app_nil_r.
  - destruct (has_handle w); [|done]. injection Hp as <-. revert Hm.
    unfold app_drop_handle, in_shared, on_net, on_shared, zoom, mbind, M_bind, mget, mmodify. simpl.
    destruct (drop_all _ _) as [[[] s']| |]; [|done..]. intros [= <-]. simpl.
    rewrite Pipeline.handed_app. simpl. by rewrite app_nil_r.
  - injection Hp as <-. apply Hsame. by eapply app_on_net.
  - injection Hp as <-. apply Hsame. by eapply app_on_net.
  - apply bind_Some in Hp as (x & _ & (m' & _ & [= <-])%bind_Some). apply Hsame. by eapply app_in_shared.
  - apply bind_Some in Hp as (x & Hx & [= <-]). revert Hm. unfold app_drop_session.
    unfold mbind, M_bind, mmodify. intros [= Hm _]%app_in_shared. rewrite Pipeline.handed_app, Hm. simpl.
    rewrite app_nil_r. etrans; [apply sublist_delete|done].
Qed.

Lemma reachable_typed_sessions b w x : builder_ok b → reachable b w → x ∈ app w → typed x.
Proof.
  intros Hb [evs He]%reachable_execution Hx.
  pose proof (opened_typed _ _ _ Hb He) as Ht. rewrite Forall_forall in Ht. apply Ht.
  destruct (execution_flow _ _ _ Hb He) as (_ & _ & [Hsub _]%Pipeline.exec_sessions).
  eapply elem_of_sublist; [|exact Hsub]. apply elem_of_app. left.
  eapply elem_of_sublist; [done|]. by eapply app_handed.
Qed.
End Addresses.
