(* ===== verification/Waiting.v ===== *)
(** * Waiting for the runner

    What a task that waits can rely on, in the running system: how long the
    entry of a handshake stays, when a sender that found its buffer full tries
    again, and what a write does for a runner that waits. *)
From stdpp Require Import base list gmap.
From S2P Require Import Prelude Types Device Smoltcp Config Manager Core Packet Session Flow Invariant Streams StreamsCorrect Wakeup Runner RunnerCorrect UdpCorrect CycleCorrect Handle HandleCorrect Builder System ConfigKept DevicesKept SystemCorrect FlowCorrect Progress.

Local Open Scope Z_scope.

Section Waiting.
Context `{T : Target, W : Wire, E : Engine, K : Tokio, EL : !EngineLaws, WL : !WireLaws, KL : !TokioLaws}.

(** ** Traces *)

(** The runs between two states, with their events. *)
Inductive trace : World → list Pipeline.event → World → Prop :=
| trace_nil w : trace w [] w
| trace_step w HO a m w1 evs w2 :
    perform (HO := HO) a w = Some m → m w = Done (tt, w1) → trace w1 evs w2 →
    trace w (events a w w1 ++ evs) w2.

Lemma trace_steps w evs w' : trace w evs w' → rtc step w w'.
Proof. induction 1 as [|w HO a m w1 evs w2 Hp Hm _ IH]; [done|]. eapply rtc_l; [by econstructor|done]. Qed.

(** ** Operations that leave the tables alone *)

Definition tables (s : Shared) : SessionManager := manager (core s).

Lemma tables_put_slot i sl : keeps tables (put_slot i sl).
Proof. unfold put_slot. keeps_go. Qed.

Lemma tables_get_tcp ss h : keeps tables (get_tcp_socket ss h).
Proof. unfold get_tcp_socket. keeps_go. Qed.

Lemma tables_get_udp ss h : keeps tables (get_udp_socket ss h).
Proof. unfold get_udp_socket. keeps_go. Qed.

Lemma tables_on_queue {A} q (m : M UdpQueue A) : keeps tables (on_queue q m).
Proof. unfold on_queue. keeps_go. by intros ?. Qed.

Lemma tables_notify_poll : keeps tables notify_poll.
Proof. unfold notify_poll. keeps_go. Qed.

Lemma tables_rb_advance b data : keeps tables (rb_advance b data).
Proof. unfold rb_advance. keeps_go. Qed.
#[local] Hint Resolve tables_put_slot tables_get_tcp tables_get_udp tables_on_queue tables_notify_poll
  tables_rb_advance : keeps.

Lemma tables_run_op op x m : run_op op x = Some m → keeps tables m.
Proof.
  destruct op, x; simpl; try done; try case_bool_decide; try done; intros [= <-];
    unfold poll_read, poll_write, poll_flush, poll_shutdown, close_socket, recv_step, send_step, try_send,
      put_tcp_socket, put_udp_socket; keeps_go.
Qed.

Lemma tables_queue_ingress pkt : keeps tables (queue_ingress pkt).
Proof. unfold queue_ingress. keeps_go. Qed.

(** Sending stamps nothing: the activity of a session is what it receives. *)
Lemma tables_send u payload : keeps tables (send u payload).
Proof. unfold send, try_send, put_udp_socket. keeps_go. Qed.

(** ** Pending entries *)

(** The entry of a connection whose handshake has not been completed. *)
Definition pending_at (k : SessionKey) (e : TcpEntry) (s : Shared) : Prop :=
  tcp (manager (core s)) !! k = Some e ∧ state e = TcpState_Pending.

Lemma pending_tables k e s s' : tables s' = tables s → pending_at k e s → pending_at k e s'.
Proof. unfold tables, pending_at. by intros ->. Qed.

(** A session that is dropped has left the pending state. *)
Lemma drop_pending extra l1 x l2 s k e :
  Inv extra (l1 ++ x :: l2) s → pending_at k e s →
  wp (session_drop x) (λ _ s', Inv extra (l1 ++ l2) s' ∧ pending_at k e s') s.
Proof.
  intros HI [Hk Hp]. destruct x as [t|u]; simpl.
  - assert (Session_Tcp t ∈ l1 ++ Session_Tcp t :: l2) as Hin by set_solver.
    destruct (live_tcp _ _ _ (inv_live _ _ _ HI) _ Hin) as (_ & e1 & He1 & _ & _ & Hs1).
    eapply wp_mono; [by apply wp_tcp_drop|]. cbv beta. intros _ s' (HI' & e2 & sk & He2 & Hm & _).
    split; [done|]. split; [|done]. rewrite Hm. simpl. rewrite lookup_insert_ne; [done|]. intros <-. congruence.
  - eapply wp_mono; [by apply wp_udp_drop|]. cbv beta. intros _ s' (HI' & _ & Ht).
    split; [done|]. split; [by rewrite Ht|done].
Qed.

Lemma drop_all_pending extra l1 l l2 s k e :
  Inv extra (l1 ++ l ++ l2) s → pending_at k e s →
  wp (drop_all l) (λ _ s', Inv extra (l1 ++ l2) s' ∧ pending_at k e s') s.
Proof.
  intros HI Hk. unfold drop_all.
  eapply wp_mono; [apply (wp_mfold _ (λ rest _ s', Inv extra (l1 ++ rest ++ l2) s' ∧ pending_at k e s'))|].
  - intros x rest [] s1 [HI1 Hk1]. by apply drop_pending.
  - done.
  - by intros [] s'.
Qed.

(** A cycle leaves a pending entry as it is, or opens its session. *)
Lemma poll_locked_pending `{HO : HashOrder} live s now k e :
  Inv 0 live s → pending_at k e s →
  wp (poll_locked now) (λ r s', pending_at k e s' ∨ k ∈ omap session_tcp_key r.1) s.
Proof.
  intros HI [Hk Hp]. unfold poll_locked. wp_go.
  eapply wp_mono; [by apply (wp_pre_pass live)|]. cbv beta.
  intros acc1 s1 ((new & -> & HI1 & Hg & _) & Hf1 & _). wp_go.
  eapply wp_mono; [by apply wp_poll_interfaces|]. cbv beta. intros _ s2 (HI2 & Hm2 & Hq2 & Hs2 & Hc2). wp_go.
  assert (tcp (manager (core s2)) !! k = Some e) as Hk2.
  { rewrite Hm2. destruct Hg as (_ & Ht & _). by eapply lookup_weaken. }
  eapply wp_mono; [by apply wp_post_pass|]. cbv beta. intros acc3 s3 [Hacc _ _ Ht3 _ _].
  wp_go. unfold collect_egress. wp_go. simpl.
  destruct (mgr_tcp _ _ (inv_mgr _ _ _ HI2) _ _ Hk2) as (_ & _ & Ho).
  assert (orphaned e = false) as Hno by (destruct (orphaned e); [by destruct Ho|done]).
  specialize (Ht3 k). rewrite Hk2 in Ht3. simpl in Ht3. unfold entry_reaped in Ht3. rewrite Hno in Ht3. simpl in Ht3.
  destruct (decide (entry_state (slots (core s2)) k e = Some State_Established)) as [Hest|Hest].
  - right. rewrite Hacc. simpl. rewrite omap_app. apply elem_of_app. right.
    apply list_elem_of_omap. exists (Session_Tcp (tcp_stream_of k e)). split; [|done].
    apply list_elem_of_omap. exists (k, e). split; [by apply elem_of_hash_iter|].
    unfold accepted_of, entry_accepted. simpl. by rewrite bool_decide_eq_true_2.
  - left. split; [|done]. simpl. rewrite Ht3. unfold entry_after.
    destruct (entry_state _ k e) as [st|]; [|done]. destruct e as [h st0 o]. simpl in *. subst.
    unfold tcp_next_state. simpl. rewrite bool_decide_eq_false_2 by congruence. done.
Qed.

(** The same for every action of the system. *)
Definition stays_pending (k : SessionKey) (e : TcpEntry) (a : action) (w : World) (_ : unit) (w' : World) : Prop :=
  pending_at k e (shared (net w')) ∨ k ∈ omap session_tcp_key (Pipeline.opened (events a w w')).

Lemma pending_run `{HO : HashOrder} now timer w m k e :
  sys_inv w → pending_at k e (shared (net w)) → perform (Run now timer) w = Some m →
  wp m (stays_pending k e (Run now timer) w) w.
Proof.
  intros HI Hk. simpl. destruct (pc w) eqn:Hpc; try done; try (intros [= <-]).
  - unfold run_top. wp_go. by left.
  - unfold run_subscribe. wp_go. by left.
  - unfold run_select. destruct (notified_ready _ _); [intros [= <-]; wp_go; by left|].
    destruct (chan_try_recv _) as [[pkt c]|[|]]; [|destruct timer; [|done]|]; intros [= <-].
    + unfold in_shared, on_net, on_shared. wp_go. simpl.
      eapply wp_mono; [apply (wp_keeps tables); [apply tables_queue_ingress|by apply (wp_queue_ingress (live_sessions w))]|].
      cbv beta. intros [] s' [_ Hs]. wp_go. left. by eapply pending_tables.
    + wp_go. by left.
    + unfold run_stop, in_shared, on_net, on_shared. wp_go. simpl.
      unfold sys_inv, live_sessions in HI. rewrite <- (app_nil_r (scratch_accepted w)), app_assoc in HI.
      eapply wp_mono; [by apply drop_all_pending|]. cbv beta. intros [] s' [_ Hs]. wp_go. by left.
  - unfold run_drain. wp_go. destruct (chan_try_recv _) as [[pkt c]|]; wp_go; [|by left].
    unfold in_shared, on_net, on_shared. wp_go. simpl.
    eapply wp_mono; [apply (wp_keeps tables); [apply tables_queue_ingress|by apply (wp_queue_ingress (live_sessions w))]|].
    cbv beta. intros [] s' [_ Hs]. left. by eapply pending_tables.
  - unfold run_poll, in_shared, on_net, on_shared. wp_go. simpl.
    unfold sys_inv, live_sessions in HI. rewrite <- (app_nil_r (scratch_accepted w)), app_assoc in HI.
    eapply wp_mono; [by apply drop_all_pending|]. cbv beta. intros _ s1 [HI1 Hk1]. wp_go. simpl.
    eapply wp_mono; [by eapply poll_locked_pending|]. cbv beta. intros [acc out] s2 Hr. wp_go.
    unfold stays_pending, events. rewrite Hpc. simpl in *. by rewrite app_nil_r.
  - intros Hf. unfold run_forward in Hf. destruct (scratch_egress w) as [|pkt out].
    + destruct (scratch_accepted w) as [|x acc] eqn:Ea; [injection Hf as <-; wp_go; by left|].
      destruct (chan_try_send _ _) as [c|err]; injection Hf as <-; [wp_go; unfold on_net; wp_go; by left|].
      unfold in_shared, on_net, on_shared. wp_go. simpl.
      unfold sys_inv, live_sessions in HI. rewrite Ea, app_assoc in HI.
      eapply wp_mono; [by apply drop_pending|]. cbv beta. intros [] s' [_ Hs]. by left.
    + destruct (chan_try_send _ _) as [c|[|]]; [|done|]; injection Hf as <-; wp_go; unfold on_net; wp_go; by left.
  - unfold run_done, in_shared, on_net, on_shared, notify_poll_done. wp_go. by left.
Qed.

Lemma pending_perform `{HO : HashOrder} a w m k e :
  sys_inv w → pending_at k e (shared (net w)) → perform a w = Some m → wp m (stays_pending k e a w) w.
Proof.
  intros HI Hk Hp. destruct a as [now timer|i data| | | | |i op|i]; [by apply pending_run|..]; simpl in Hp.
  - destruct (has_handle w); [|done]. injection Hp as <-. unfold on_net. wp_go.
    eapply wp_mono; [apply wp_send_ip_packet|]. cbv beta. intros r n' Hr. wp_go. left. simpl.
    destruct r as [[]|err]; simpl in Hr; [|by destruct Hr as [-> _]].
    destruct Hr as (_ & _ & _ & _ & Hn). injection Hn as <-. done.
  - destruct (has_handle w); [|done]. injection Hp as <-. unfold app_accept, on_net, accept. wp_go.
    destruct (chan_try_recv _) as [[x c]|[|]]; wp_go; by left.
  - destruct (has_handle w); [|done]. injection Hp as <-.
    unfold app_drop_handle, in_shared, on_net, on_shared. wp_go. simpl. unfold sys_inv, live_sessions in HI.
    eapply wp_mono; [by apply drop_all_pending|]. cbv beta. intros [] s' [_ Hs]. wp_go. by left.
  - injection Hp as <-. unfold app_egress, on_net. wp_go. destruct (chan_try_recv _) as [[]|]; wp_go; by left.
  - injection Hp as <-. unfold app_drop_egress, on_net. wp_go. by left.
  - apply bind_Some in Hp as (x & Hx & (m' & Hm & [= <-])%bind_Some). unfold in_shared, on_net, on_shared. wp_go.
    assert (x ∈ live_sessions w) as Hin by (apply elem_of_app; left; by eapply list_elem_of_lookup_2).
    eapply wp_mono; [apply (wp_keeps tables); [by eapply tables_run_op|by eapply wp_run_op]|].
    cbv beta. intros [] s' [_ Hs]. left. by eapply pending_tables.
  - apply bind_Some in Hp as (x & Hx & [= <-]). unfold app_drop_session, in_shared, on_net, on_shared. wp_go. simpl.
    unfold sys_inv, live_sessions in HI. rewrite <- (take_drop_middle _ _ _ Hx), <- app_assoc in HI.
    eapply wp_mono; [by apply drop_pending|]. cbv beta. intros [] s' [_ Hs]. by left.
Qed.

(** An entry stays pending as long as its session is not opened. *)
Lemma trace_pending w evs w' k e :
  trace w evs w' → sys_inv w → pending_at k e (shared (net w)) →
  k ∉ omap session_tcp_key (Pipeline.opened evs) →
  sys_inv w' ∧ pending_at k e (shared (net w')).
Proof.
  induction 1 as [w|w HO a m w1 evs w2 Hp Hm _ IH]; intros HI Hk Hn; [done|].
  rewrite Pipeline.opened_app, omap_app, not_elem_of_app in Hn. destruct Hn as [Hn1 Hn2].
  pose proof (wp_elim _ _ _ _ _ (pending_perform _ _ _ _ _ HI Hk Hp) Hm) as [Hk1|?]; [|done].
  apply IH; [|done..]. eapply step_sys_inv; [exact HI|]. by econstructor.
Qed.

(** ** Senders *)

(** The cycle that begins releases a sender that waits for its end. *)
Lemma cycle_wakes_sender `{HO : HashOrder} now w u payload :
  sys_inv w → wiring w → pc w = R_Polling →
  ∃ n w', run_alone n now w = Done w' ∧
    ((pc w' = R_Top ∧ send_step u payload (Send_Wait (notified (world_done w))) (shared (net w')) =
        Done (Send_Try, shared (net w'))) ∨ (pc w' = R_Forwarding ∧ blocked w')).
Proof.
  intros HI Hw Hpc. destruct (poll_ends now w HI Hw Hpc) as (n & w' & Hr & [[Ht Hd]|Hb]);
    exists n, w'; (split; [done|]); [left|by right].
  split; [done|]. simpl. unfold mbind, M_bind, mgets, mret, M_ret. unfold world_done in Hd. rewrite Hd.
  by rewrite notified_woken.
Qed.

Lemma run_actions_cons `{HO : HashOrder} a l w m w1 :
  perform a w = Some m → m w = Done (tt, w1) → run_actions (a :: l) w = run_actions l w1.
Proof. intros Hp Hm. simpl. by rewrite Hp, Hm. Qed.

Lemma perform_op `{HO : HashOrder} w (i : nat) x op m :
  app w !! i = Some x → run_op op x = Some m → perform (On_session i op) w = Some (in_shared m).
Proof. intros Hi Hm. simpl. rewrite Hi. simpl. by rewrite Hm. Qed.

Lemma in_shared_done {A} (m : M Shared A) w a s' :
  m (shared (net w)) = Done (a, s') → in_shared m w = Done (a, set_net (set_shared s' (net w)) w).
Proof. intros Hm. unfold in_shared, on_net, on_shared, zoom. by rewrite Hm. Qed.

Lemma op_send_done u payload p s p' s' :
  send_step u payload p s = Done (p', s') → (_ ← send_step u payload p; mret tt) s = Done (tt, s').
Proof. intros Hs. unfold mbind, M_bind. by rewrite Hs. Qed.

(** A sender that finds the buffer full while a cycle ends: it nudges a runner
    that does not wait, the cycle ends, the runner comes back to [select!], and
    only then the sender asks for the end of a cycle. *)
Definition gap_run (i : nat) (payload : Bytes) (now : Instant) : list action :=
  [On_session i (Op_Send payload Send_Try); On_session i (Op_Send payload Send_Nudge);
   Run now false; Run now false; Run now false; On_session i (Op_Send payload Send_Subscribe)].

Lemma gap_run_stuck `{HO : HashOrder} now w (i : nat) u payload s1 :
  pc w = R_PollDone → app w !! i = Some (Session_Udp u) →
  chan_try_recv (ingress_chan (net w)) = Err TryRecv_Empty →
  send_step u payload Send_Try (shared (net w)) = Done (Send_Nudge, s1) →
  ∃ w' f g d, run_actions (gap_run i payload now) w = Done w' ∧
    send_step u payload Send_Subscribe (shared (net w')) = Done (Send_Wait f, shared (net w')) ∧
    pc w' = R_Waiting g d ∧ perform (Run now false) w' = None ∧
    ∀ n, send_steps n u payload (Send_Wait f) (shared (net w')) = Done (Send_Wait f, shared (net w')).
Proof.
  intros Hpc Hi Hc Ht. do 4 eexists. split_and!.
  - unfold gap_run.
    erewrite run_actions_cons; [|by apply (perform_op w i (Session_Udp u))|by rewrite (in_shared_done _ _ _ _ (op_send_done _ _ _ _ _ _ Ht))].
    erewrite run_actions_cons; [|by apply (perform_op _ i (Session_Udp u))|done].
    erewrite run_actions_cons; [|simpl; rewrite Hpc; done|done].
    erewrite run_actions_cons; [|done|done]. erewrite run_actions_cons; [|done|done].
    erewrite run_actions_cons; [|by apply (perform_op _ i (Session_Udp u))|done]. done.
  - done.
  - done.
  - cbn. unfold run_select. cbn. by rewrite notified_fresh, Hc.
  - intros n. apply send_stuck. apply notified_fresh.
Qed.

Lemma ingress_empty w :
  wiring w → has_handle w = true → chan_items (ingress_chan (net w)) = [] →
  chan_try_recv (ingress_chan (net w)) = Err TryRecv_Empty.
Proof.
  intros Hw Hh Hc. pose proof (chan_recv_items _ (ingress_chan (net w))) as Hi.
  pose proof (chan_recv_answer _ (ingress_chan (net w))) as Ha.
  destruct (chan_try_recv _) as [[]|e]; [congruence|]. specialize (Ha e eq_refl).
  rewrite (wire_handle_tx _ Hw), Hh in Ha. by subst e.
Qed.

(** ** Writers *)

(** What a write has taken is in the transmit buffer of the socket. *)
Lemma write_queues extra live s t cx data n s' :
  Inv extra live s → Session_Tcp t ∈ live → poll_write t cx data s = Done (Poll_Ready (Ok n), s') →
  ∃ sk, sock_of (slots (core s')) (ts_interface t) (ts_handle t) = Some (Socket_Tcp sk) ∧ 0 < tcp_send_queue sk.
Proof.
  intros HI Hin Hp. destruct (live_tcp_socket _ _ _ _ HI Hin) as (i & sl & sk & Hsl & Hn & _ & Hg).
  destruct (wp_elim _ _ _ _ _ (wp_poll_write extra live s t cx data i sl sk HI Hsl Hn Hg) Hp)
    as (_ & _ & Hsk & Hspec). eexists. split; [exact Hsk|]. simpl.
  destruct (tcp_send_slice sk data) as [[n'|[]] sk'] eqn:Es; simpl in *; [|by destruct (tcp_is_open sk')].
  pose proof (tcp_send_queue_nonneg sk). pose proof (tcp_send_slice_queue _ _ _ _ Es).
  case_bool_decide; [lia|done].
Qed.

Lemma pending_budget w k e :
  sys_inv w → pending_at k e (shared (net w)) →
  tcp_socket_cost (core_config (core (shared (net w)))) ≤ buffer_bytes (core (shared (net w))).
Proof.
  intros HI [Hk _]. pose proof (inv_sane _ _ _ HI) as Hs. rewrite (inv_budget _ _ _ HI). unfold charged.
  pose proof (tcp_socket_cost_nonneg _ Hs). pose proof (udp_socket_cost_pos _ Hs).
  assert (size (tcp (manager (core (shared (net w))))) ≠ 0%nat) by (apply map_size_ne_0_lookup; by exists k, e).
  nia.
Qed.
End Waiting.
