(* ===== verification/TunProxy.v ===== *)
(** * The transparent proxy

    [examples/tun_proxy.rs]: the program that embeds the stack. It creates a
    TUN device, routes the IPv4 space into it, feeds what it reads from the
    device to the stack, writes what the stack sends back to the device, and
    relays every accepted session to its destination through a socket that is
    bound to the physical interface.

    The operating system (tun-rs, net-route, getifaddrs, tokio's sockets) is a
    parameter: [os_answer] gives the answer to a call, as any function of the
    calls and answers before it, and the program's state has the log of both.
    Data that arrives is an argument of the action that receives it. A call that
    the program awaits ([send], [connect], [send_to], [delete]) is one step with
    the code that leads to it. The tasks
    that the program spawns are the list [p_relays]; the [k]-th of them owns the
    [k]-th session that the application holds. *)
From stdpp Require Import base list gmap strings.
From S2P Require Import Prelude Types Device Smoltcp Config Manager Core Packet Session Streams Runner Handle Builder System.

Local Open Scope Z_scope.

(** ** Constants *)

(** [Ipv4Addr::new] and [Ipv6Addr::new], as the address's value. *)
Definition Ipv4Addr_new (a b c d : Z) : Z :=
  Z.lor (Z.shiftl a 24) (Z.lor (Z.shiftl b 16) (Z.lor (Z.shiftl c 8) d)).
Definition Ipv6Addr_new (segments : list Z) : Z :=
  foldl (λ v s, Z.lor (Z.shiftl v 16) s) 0 segments.

Definition TUN_NAME : string := "tun0".
Definition TUN_IP : Z := Ipv4Addr_new 10 0 0 2.
Definition TUN_PREFIX : Z := 24.
Definition TUN_MTU : Z := 1500.
Definition PHYSICAL_IFACE : string := "wlan0".
Definition PHYSICAL_IP : Z := Ipv4Addr_new 192 168 0 105.

(** ** The operating system *)

(** [Route::new(destination, prefix).with_ifindex(index)] *)
Record Route : Type := mkRoute { route_dst : IpAddr; route_prefix : Z; route_ifindex : Z }.

#[global] Instance IpAddr_eq_dec : EqDecision IpAddr.
Proof. solve_decision. Defined.
#[global] Instance Route_eq_dec : EqDecision Route.
Proof. solve_decision. Defined.

(** The calls, with their arguments; a socket is named by the answer to the
    call that created it. *)
Inductive os_call : Type :=
| Tun_build (name : string) (mtu ip prefix : Z)
| Tun_send (data : Bytes)
| If_nametoindex (name : string)
| RouteHandle_new
| Route_add (r : Route)
| Route_delete (r : Route)
| Tcp_new_v4
| Tcp_bind_device (fd : Z) (dev : string)
| Tcp_bind (fd : Z) (a : SocketAddr)
| Tcp_set_keepalive (fd : Z) (on : bool)
| Tcp_connect (fd : Z) (a : SocketAddr)
| Udp_bind (a : SocketAddr)
| Udp_bind_device (fd : Z) (dev : string)
| Udp_send_to (fd : Z) (data : Bytes) (a : SocketAddr).

Class Os : Type := {
  os_error : Type;
  os_answer : list (os_call * result Z os_error) → os_call → result Z os_error;
}.

Section TunProxy.
Context `{T : Target, W : Wire, E : Engine, K : Tokio, O : Os}.

Abbreviation Log := (list (os_call * result Z os_error)) (only parsing).

Definition os_do (c : os_call) : M Log (result Z os_error) :=
  log ← mget;
  mmodify (λ log, log ++ [(c, os_answer log c)]);;
  mret (os_answer log c).

(** ** Setting up *)

Definition capture_low (tun_index : Z) : Route := mkRoute (V4 (Ipv4Addr_new 0 0 0 0)) 1 tun_index.
Definition capture_high (tun_index : Z) : Route := mkRoute (V4 (Ipv4Addr_new 128 0 0 0)) 1 tun_index.

(** Steps 1 to 3 of [main]: the device, its index, the two routes. *)
Definition proxy_setup : M Log (result (Route * Route) os_error) :=
  dev ←? os_do (Tun_build TUN_NAME TUN_MTU TUN_IP TUN_PREFIX);
  tun_index ←? os_do (If_nametoindex TUN_NAME);
  routes ←? os_do RouteHandle_new;
  let r0 := capture_low tun_index in
  let r1 := capture_high tun_index in
  _ ←? os_do (Route_add r0);
  _ ←? os_do (Route_add r1);
  mret (Ok (r0, r1)).

(** Step 4: the builder, up to [build]. *)
Definition proxy_interface : InterfaceConfig :=
  let c := InterfaceConfig_new TUN_IP TUN_PREFIX in
  let c := InterfaceConfig_ipv4 c (Ipv4Addr_new 10 0 0 3) 24 in
  let c := InterfaceConfig_ipv6 c (Ipv6Addr_new [253; 0; 0; 0; 0; 0; 0; 1]) 64 in
  let c := InterfaceConfig_gateway_ipv4 c TUN_IP in
  InterfaceConfig_gateway_ipv6 c (Ipv6Addr_new [253; 0; 0; 0; 0; 0; 0; 255]).

Definition proxy_options : NetstackBuilder :=
  let b := NetstackBuilder_new in
  let b := NetstackBuilder_mtu TUN_MTU b in
  let b := NetstackBuilder_tcp_buffer_size (16 * 1024) b in
  let b := NetstackBuilder_tcp_max_connections 4096 b in
  let b := NetstackBuilder_udp_session_timeout (from_secs 30) b in
  let b := NetstackBuilder_udp_max_sessions 4096 b in
  let b := NetstackBuilder_channel_capacity 2048 b in
  let b := NetstackBuilder_log_level LogLevel_Debug b in
  let b := NetstackBuilder_udp_buffer 16 (16 * 1024) b in
  let b := NetstackBuilder_max_buffer_bytes None b in
  NetstackBuilder_mimalloc_purge_delay (from_millis 100) b.

Definition proxy_builder : outcome NetstackBuilder :=
  match InterfaceId_new 0 with
  | None => Panic ExpectFailed
  | Some i =>
      match add_interface i proxy_interface proxy_options with
      | Ok b => Done b
      | Err _ => Panic ExpectFailed
      end
  end.

(** [InterfaceId::new(0).unwrap()] *)
Definition tun_iface : InterfaceId := mkInterfaceId 0.

(** ** The relays *)

(** Where a relay task is. *)
Inductive RelayPc : Type :=
| Relay_Start
| Relay_Tcp_Copy (remote : Z)                                  (* in copy_bidirectional *)
| Relay_Udp_Loop (out : Z) (pc : RecvPc)                       (* in select!, recv at [pc] *)
| Relay_Udp_Send (out : Z) (payload : Bytes) (pc : SendPc).    (* in sess.send(payload) *)

(** [relay_tcp] up to the copy loop; [None] is the early [return Ok(())]. *)
Definition relay_tcp_open (stream : WayTcpStream) : M Log (result (option Z) os_error) :=
  let dst := tcp_dst_addr stream in
  match sa_ip dst with
  | V6 _ => mret (Ok None)
  | V4 _ =>
      outbound ←? os_do Tcp_new_v4;
      _ ←? os_do (Tcp_bind_device outbound PHYSICAL_IFACE);
      _ ←? os_do (Tcp_bind outbound (mkSocketAddr (V4 PHYSICAL_IP) 0));
      _ ←? os_do (Tcp_set_keepalive outbound true);
      _ ←? os_do (Tcp_connect outbound dst);
      mret (Ok (Some outbound))
  end.

(** [relay_udp] up to its loop. *)
Definition relay_udp_open (sess : WayUdpSession) : M Log (result (option Z) os_error) :=
  let dst := udp_dst_addr sess in
  match sa_ip dst with
  | V6 _ => mret (Ok None)
  | V4 _ =>
      out ←? os_do (Udp_bind (mkSocketAddr (V4 PHYSICAL_IP) 0));
      _ ←? os_do (Udp_bind_device out PHYSICAL_IFACE);
      mret (Ok (Some out))
  end.

(** ** The state of the program *)

Record Proxy : Type := mkProxy {
  p_world : World;
  p_relays : list RelayPc;
  p_log : Log;
  p_looping : bool;       (* the event loop has not been left *)
}.

Definition set_world (w : World) (p : Proxy) : Proxy :=
  {| p_world := w; p_relays := p_relays p; p_log := p_log p; p_looping := p_looping p |}.
Definition set_relays (l : list RelayPc) (p : Proxy) : Proxy :=
  {| p_world := p_world p; p_relays := l; p_log := p_log p; p_looping := p_looping p |}.
Definition set_log (l : Log) (p : Proxy) : Proxy :=
  {| p_world := p_world p; p_relays := p_relays p; p_log := l; p_looping := p_looping p |}.

Definition on_world {A} (m : M World A) : M Proxy A := zoom p_world set_world m.
Definition on_os {A} (m : M Log A) : M Proxy A := zoom p_log set_log m.

(** [break] *)
Definition proxy_break : M Proxy unit :=
  mmodify (λ p, {| p_world := p_world p; p_relays := p_relays p; p_log := p_log p; p_looping := false |}).

(** A relay moves on, or returns; its session is dropped when it returns. *)
Definition relay_at (k : nat) (pc : RelayPc) : M Proxy unit :=
  mmodify (λ p, set_relays (<[k := pc]> (p_relays p)) p).

Definition relay_return (k : nat) (session : Session) : M Proxy unit :=
  mmodify (λ p, set_relays (delete k (p_relays p)) p);;
  on_world (app_drop_session k session).

(** The first part of both relays. *)
Definition relay_start (k : nat) (session : Session) : M Proxy unit :=
  r ← on_os (match session with
             | Session_Tcp stream => relay_tcp_open stream
             | Session_Udp sess => relay_udp_open sess
             end);
  match r, session with
  | Ok (Some fd), Session_Tcp _ => relay_at k (Relay_Tcp_Copy fd)
  | Ok (Some fd), Session_Udp _ => relay_at k (Relay_Udp_Loop fd Recv_Pop)
  | _, _ => relay_return k session
  end.

(** A step of [sess.recv()] inside the [select!] of [relay_udp], and what
    follows when it is ready. *)
Definition relay_udp_recv (k : nat) (sess : WayUdpSession) (out : Z) (pc : RecvPc) : M Proxy unit :=
  pc' ← on_world (in_shared (recv_step sess pc));
  match pc' with
  | Recv_Return (Some dgram) =>
      r ← on_os (os_do (Udp_send_to out dgram (udp_dst_addr sess)));
      match r with
      | Ok _ => relay_at k (Relay_Udp_Loop out Recv_Pop)
      | Err _ => relay_return k (Session_Udp sess)
      end
  | Recv_Return None => relay_return k (Session_Udp sess)
  | pc' => relay_at k (Relay_Udp_Loop out pc')
  end.

(** The other branch: [out.recv_from(&mut buf)] is ready; the pending [recv] is
    dropped. The buffer holds [TUN_MTU] bytes. *)
Definition relay_udp_reply (k : nat) (sess : WayUdpSession) (out : Z) (r : result Bytes os_error)
    : M Proxy unit :=
  match r with
  | Ok data => relay_at k (Relay_Udp_Send out (take (Z.to_nat TUN_MTU) data) Send_Try)
  | Err _ => relay_return k (Session_Udp sess)
  end.

(** A step of [sess.send(payload)]. *)
Definition relay_udp_send (k : nat) (sess : WayUdpSession) (out : Z) (payload : Bytes) (pc : SendPc)
    : M Proxy unit :=
  pc' ← on_world (in_shared (send_step sess payload pc));
  match pc' with
  | Send_Return (Ok _) => relay_at k (Relay_Udp_Loop out Recv_Pop)
  | Send_Return (Err _) => relay_return k (Session_Udp sess)
  | pc' => relay_at k (Relay_Udp_Send out payload pc')
  end.

(** ** The event loop *)

(** [stack.send_ip_packet(..).expect(..)] *)
Definition tun_read (r : result Bytes os_error) : M Proxy unit :=
  match r with
  | Ok data =>
      sent ← on_world (on_net (send_ip_packet tun_iface (take (Z.to_nat TUN_MTU) data)));
      match sent with
      | Ok _ => mret tt
      | Err _ => mpanic ExpectFailed
      end
  | Err _ => proxy_break
  end.

(** [egress.recv()]; [None] while it is pending. *)
Definition egress_ready (p : Proxy) : option (M Proxy unit) :=
  match chan_try_recv (egress_chan (net (p_world p))) with
  | Ok (pkt, _) => Some (
      on_world app_egress;;
      r ← on_os (os_do (Tun_send (ep_data pkt)));
      match r with Ok _ => mret tt | Err _ => proxy_break end)
  | Err TryRecv_Disconnected => Some proxy_break
  | Err TryRecv_Empty => None
  end.

(** [stack.accept()] *)
Definition accept_ready (p : Proxy) : option (M Proxy unit) :=
  match chan_try_recv (accept_chan (net (p_world p))) with
  | Ok _ => Some (on_world app_accept;; mmodify (λ p, set_relays (p_relays p ++ [Relay_Start]) p))
  | Err TryRecv_Disconnected => Some proxy_break
  | Err TryRecv_Empty => None
  end.

(** Steps of the stack's runner, of the event loop and of the relay tasks. *)
Inductive proxy_action : Type :=
| P_Stack (now : Instant) (timer : bool)
| P_Tun (r : result Bytes os_error)
| P_Egress
| P_Accept
| P_Ctrl_c
| P_Relay_Start (k : nat)
| P_Relay_Copy (k : nat) (op : session_op)    (* a call of copy_bidirectional on the stream *)
| P_Relay_Copied (k : nat)                    (* copy_bidirectional returns *)
| P_Relay_Recv (k : nat)
| P_Relay_Reply (k : nat) (r : result Bytes os_error)
| P_Relay_Send (k : nat).

Definition relay (p : Proxy) (k : nat) : option (RelayPc * Session) :=
  pc ← p_relays p !! k; session ← app (p_world p) !! k; Some (pc, session).

Definition proxy_perform `{HO : HashOrder} (a : proxy_action) (p : Proxy) : option (M Proxy unit) :=
  match a with
  | P_Stack now timer => m ← perform (Run now timer) (p_world p); Some (on_world m)
  | P_Tun r => if p_looping p then Some (tun_read r) else None
  | P_Egress => if p_looping p then egress_ready p else None
  | P_Accept => if p_looping p then accept_ready p else None
  | P_Ctrl_c => if p_looping p then Some proxy_break else None
  | P_Relay_Start k =>
      match relay p k with
      | Some (Relay_Start, session) => Some (relay_start k session)
      | _ => None
      end
  | P_Relay_Copy k op =>
      match relay p k with
      | Some (Relay_Tcp_Copy _, Session_Tcp t) => m ← run_op op (Session_Tcp t); Some (on_world (in_shared m))
      | _ => None
      end
  | P_Relay_Copied k =>
      match relay p k with
      | Some (Relay_Tcp_Copy _, Session_Tcp t) => Some (relay_return k (Session_Tcp t))
      | _ => None
      end
  | P_Relay_Recv k =>
      match relay p k with
      | Some (Relay_Udp_Loop out pc, Session_Udp sess) => Some (relay_udp_recv k sess out pc)
      | _ => None
      end
  | P_Relay_Reply k r =>
      match relay p k with
      | Some (Relay_Udp_Loop out _, Session_Udp sess) => Some (relay_udp_reply k sess out r)
      | _ => None
      end
  | P_Relay_Send k =>
      match relay p k with
      | Some (Relay_Udp_Send out payload pc, Session_Udp sess) => Some (relay_udp_send k sess out payload pc)
      | _ => None
      end
  end.

(** ** Shutting down *)

(** [relays.abort_all()] cancels the tasks, which drops their sessions (here at
    once; the runtime cancels a task at its next suspension); then the routes
    are deleted. *)
Definition proxy_shutdown (r0 r1 : Route) : M Proxy (result unit os_error) :=
  p ← mget;
  on_world (in_shared (drop_all (app (p_world p)));; mmodify (set_app []));;
  mmodify (set_relays []);;
  _ ←? on_os (os_do (Route_delete r0));
  _ ←? on_os (os_do (Route_delete r1));
  mret (Ok tt).

(** ** Runs *)

(** The state at the head of the event loop. *)
Inductive proxy_initial (r0 r1 : Route) (p : Proxy) : Prop :=
| proxy_initial_intro log b clock o o' n :
    proxy_setup [] = Done (Ok (r0, r1), log) → proxy_builder = Done b →
    build b clock o = Done (Ok n, o') →
    p = mkProxy (world_of n) [] log true → proxy_initial r0 r1 p.

Inductive proxy_step (p p' : Proxy) : Prop :=
| proxy_step_intro (HO : HashOrder) (a : proxy_action) (m : M Proxy unit) :
    proxy_perform a p = Some m → m p = Done (tt, p') → proxy_step p p'.

Definition proxy_reachable (r0 r1 : Route) (p : Proxy) : Prop :=
  ∃ p0, proxy_initial r0 r1 p0 ∧ rtc proxy_step p0 p.

(** Actions run one after the other; an action that is not enabled is skipped. *)
Fixpoint proxy_run `{HO : HashOrder} (l : list proxy_action) (p : Proxy) : outcome Proxy :=
  match l with
  | [] => Done p
  | a :: rest =>
      match proxy_perform a p with
      | None => proxy_run rest p
      | Some m =>
          match m p with
          | Done (_, p') => proxy_run rest p'
          | Panic why => Panic why
          | OutOfFuel => OutOfFuel
          end
      end
  end.
End TunProxy.
