(* ===== verification/TunProxyCorrect.v ===== *)
(** * The transparent proxy: correctness

    The proxy is a client of the stack: each of its steps is matched by steps of
    the application in [System.v], so everything that is proved of the running
    system holds of the stack inside the proxy. On top of that: which call can
    make the proxy panic, that outbound traffic uses sockets bound to the
    physical interface, and what becomes of the routes. *)
From stdpp Require Import base list gmap strings.
From S2P Require Import Prelude Types Device Smoltcp Config Manager Core Packet Session Flow Invariant Streams StreamsCorrect Runner RunnerCorrect UdpCorrect CycleCorrect Handle HandleCorrect Builder System ConfigKept DevicesKept SystemCorrect FlowCorrect Addresses TunProxy.

Local Open Scope Z_scope.

Section TunProxyCorrect.
Context `{T : Target, W : Wire, E : Engine, K : Tokio, O : Os, EL : !EngineLaws, WL : !WireLaws, KL : !TokioLaws}.

Abbreviation Log := (list (os_call * result Z os_error)) (only parsing).

(** ** The builder *)

Lemma proxy_unicast : Forall (λ c, ip_is_unicast c.1 = true) (spec_cidrs proxy_interface).
Proof.
  unfold spec_cidrs, proxy_interface. simpl.
  assert (0 < TUN_IP < 224 * 2 ^ 24) as H1 by (vm_compute; by split).
  assert (0 < Ipv4Addr_new 10 0 0 3 < 224 * 2 ^ 24) as H2 by (vm_compute; by split).
  assert (0 < Ipv6Addr_new [253; 0; 0; 0; 0; 0; 0; 1] < 255 * 2 ^ 120) as H3 by (vm_compute; by split).
  do 2 (apply Forall_cons; split; [by apply ip_unicast_v4|]). apply Forall_singleton. by apply ip_unicast_v6.
Qed.

Lemma proxy_spec_ok : spec_ok proxy_interface.
Proof.
  constructor; [| |apply proxy_unicast]; unfold proxy_interface, TUN_PREFIX; simpl.
  - do 2 (apply Forall_cons; split; [simpl; lia|]). apply Forall_nil_2.
  - apply Forall_singleton. simpl. lia.
Qed.

(** The builder that [main] builds the stack from. *)
Definition proxy_stack : NetstackBuilder :=
  {| config := config proxy_options; interfaces := [(tun_iface, proxy_interface)] |}.

Lemma proxy_builder_stack : proxy_builder = Done proxy_stack.
Proof. reflexivity. Qed.

Lemma proxy_options_sane : 32 ≤ usize_bits → sane_config (config proxy_options).
Proof.
  intros Hbits. assert (2 ^ 32 ≤ 2 ^ usize_bits) as Hp by (apply Z.pow_le_mono_r; lia).
  assert (2 ^ 31 ≤ 2 ^ (usize_bits - 1)) as Hi by (apply Z.pow_le_mono_r; lia).
  assert (2 ^ 28 ≤ max_permits) as Hm.
  { unfold max_permits, usize_max. rewrite Z.shiftr_div_pow2 by lia. apply Z.div_le_lower_bound; lia. }
  constructor; simpl; try done;
    unfold tcp_socket_cost, udp_socket_cost, usize_max, isize_max, TUN_MTU in *; simpl; lia.
Qed.

(** On a target with a [usize] of at least 32 bits the configuration is
    accepted and the addresses are valid. *)
Lemma proxy_stack_ok : 32 ≤ usize_bits → builder_ok proxy_stack.
Proof.
  intros Hbits. constructor; [by apply proxy_options_sane|apply NoDup_singleton|].
  apply Forall_singleton, proxy_spec_ok.
Qed.

(** ** The log of calls *)

(** The routes of the proxy that are installed, by the answers to its calls. *)
Definition installed (log : Log) : list Route :=
  foldl (λ rs e, match e with
                 | (Route_add r, Ok _) => rs ++ [r]
                 | (Route_delete r, Ok _) => filter (λ r', r' ≠ r) rs
                 | _ => rs
                 end) [] log.

Definition is_v4 (a : SocketAddr) : Prop := ∃ v, sa_ip a = V4 v.

(** The source address and the interface that outbound sockets are bound to. *)
Definition local_addr : SocketAddr := mkSocketAddr (V4 PHYSICAL_IP) 0.
Definition tcp_bound (log : Log) (fd : Z) : Prop :=
  (∃ v, (Tcp_bind_device fd PHYSICAL_IFACE, Ok v) ∈ log) ∧ ∃ v, (Tcp_bind fd local_addr, Ok v) ∈ log.
Definition udp_bound (log : Log) (fd : Z) : Prop :=
  (∃ v, (Udp_bind_device fd PHYSICAL_IFACE, Ok v) ∈ log) ∧ (Udp_bind local_addr, Ok fd) ∈ log.

(** A call that sends something out is made on a bound socket. *)
Definition call_ok (log : Log) (c : os_call) : Prop :=
  match c with
  | Tcp_connect fd a => tcp_bound log fd ∧ is_v4 a
  | Udp_send_to fd _ a => udp_bound log fd ∧ is_v4 a
  | _ => True
  end.

Definition calls_ok (log : Log) : Prop :=
  ∀ (i : nat) c r, log !! i = Some (c, r) → call_ok (take i log) c.

Lemma calls_ok_snoc log c r : calls_ok log → call_ok log c → calls_ok (log ++ [(c, r)]).
Proof.
  intros Hl Hc i c' r' Hi. apply lookup_app_Some in Hi as [Hi|[Hlen Hi]].
  - rewrite take_app_le by (apply lookup_lt_Some in Hi; lia). by eapply Hl.
  - apply list_lookup_singleton_Some in Hi as [Hi [= <- <-]].
    by rewrite take_app_length' by lia.
Qed.

Lemma tcp_bound_mono log log' fd : log `prefix_of` log' → tcp_bound log fd → tcp_bound log' fd.
Proof.
  intros [l ->] [[v Hv] [v' Hv']]. split; [exists v|exists v']; apply elem_of_app; by left.
Qed.

Lemma udp_bound_mono log log' fd : log `prefix_of` log' → udp_bound log fd → udp_bound log' fd.
Proof. intros [l ->] [[v Hv] Hv']. split; [exists v|]; apply elem_of_app; by left. Qed.

Definition route_call (c : os_call) : bool :=
  match c with Route_add _ | Route_delete _ => true | _ => false end.

(** What the calls of the event loop and the relays do to the log. *)
Definition logs_on : relation Log := λ log log',
  log `prefix_of` log' ∧ installed log' = installed log ∧ (calls_ok log → calls_ok log').

#[local] Instance logs_on_preorder : PreOrder logs_on.
Proof.
  split; [by intros log|]. intros l1 l2 l3 (H1 & H2 & H3) (H4 & H5 & H6).
  split_and!; [by etrans|congruence|auto].
Qed.

Lemma logs_on_call log c r : route_call c = false → call_ok log c → logs_on log (log ++ [(c, r)]).
Proof.
  intros Hr Hc. split_and!; [by apply prefix_app_r| |].
  - unfold installed. rewrite foldl_snoc. by destruct c.
  - intros Hl. by apply calls_ok_snoc.
Qed.

Lemma wp_os_do c (Q : result Z os_error → Log → Prop) log :
  route_call c = false → call_ok log c →
  (∀ log', logs_on log log' → log' = log ++ [(c, os_answer log c)] → Q (os_answer log c) log') →
  wp (os_do c) Q log.
Proof. intros Hr Hc HQ. unfold os_do. wp_go. apply HQ; [by apply logs_on_call|done]. Qed.

Lemma wp_mtry {S A B Er} (m : M S (result A Er)) (f : A → M S (result B Er)) Q s :
  wp m (λ r s', match r with Ok a => wp (f a) Q s' | Err e => Q (Err e) s' end) s → wp (mtry m f) Q s.
Proof.
  intros Hm. apply wp_bind. eapply wp_mono; [exact Hm|]. by intros [a|e] s'.
Qed.

(** One call under [?]; the continuation knows the answer. *)
Lemma wp_try_call {B} c (f : Z → M Log (result B os_error)) (Q : result B os_error → Log → Prop) log :
  route_call c = false → call_ok log c →
  (∀ e log', logs_on log log' → Q (Err e) log') →
  (∀ v log', logs_on log log' → log' = log ++ [(c, Ok v)] → wp (f v) Q log') →
  wp (mtry (os_do c) f) Q log.
Proof.
  intros Hr Hc He Hok. apply wp_mtry, wp_os_do; [done..|]. intros log' Hl ->.
  destruct (os_answer log c) as [v|e]; [by apply Hok|by apply He].
Qed.

(** ** Opening the outbound sockets *)

Lemma elem_of_snoc {A} (x : A) l : x ∈ l ++ [x].
Proof. apply elem_of_app. right. by apply list_elem_of_singleton. Qed.

Lemma wp_relay_tcp_open t log :
  wp (relay_tcp_open t) (λ _ log', logs_on log log') log.
Proof.
  unfold relay_tcp_open. destruct (sa_ip (tcp_dst_addr t)) as [a|a] eqn:Ea; [|by wp_go].
  apply wp_try_call; [done..|]. intros fd l1 H1 _. apply wp_try_call; [done|done|intros; by etrans|].
  intros v2 l2 H2 E2. apply wp_try_call; [done|done|intros; by do 2 (etrans; [done|])|].
  intros v3 l3 H3 E3. apply wp_try_call; [done|done|intros; by do 3 (etrans; [done|])|].
  intros v4 l4 H4 _. apply wp_try_call; [done| |intros; by do 4 (etrans; [done|])|].
  - split; [|by exists a]. apply (tcp_bound_mono l3); [apply H4|]. split.
    + exists v2. destruct H3 as [[l ->] _]. apply elem_of_app. left. rewrite E2. apply elem_of_snoc.
    + exists v3. rewrite E3. apply elem_of_snoc.
  - intros v5 l5 H5 _. wp_go. by do 4 (etrans; [done|]).
Qed.

Lemma wp_relay_udp_open u log :
  wp (relay_udp_open u) (λ r log', logs_on log log' ∧
    ∀ fd, r = Ok (Some fd) → udp_bound log' fd ∧ is_v4 (udp_dst_addr u)) log.
Proof.
  unfold relay_udp_open. destruct (sa_ip (udp_dst_addr u)) as [a|a] eqn:Ea; [|by wp_go].
  apply wp_try_call; [done..|]. intros fd l1 H1 E1. apply wp_try_call; [done|done|intros; split; [by etrans|done]|].
  intros v2 l2 H2 E2. wp_go. split; [by etrans|]. intros fd' [= <-]. split; [|by exists a]. split.
  - exists v2. rewrite E2. apply elem_of_snoc.
  - destruct H2 as [[l ->] _]. apply elem_of_app. left. rewrite E1. apply elem_of_snoc.
Qed.

(** ** The invariant of the proxy *)

(** The state of a relay fits the session it owns. *)
Definition relay_fits (log : Log) (pc : RelayPc) (x : Session) : Prop :=
  match pc, x with
  | Relay_Start, _ => True
  | Relay_Tcp_Copy _, Session_Tcp _ => True
  | Relay_Udp_Loop out _, Session_Udp u | Relay_Udp_Send out _ _, Session_Udp u =>
      udp_bound log out ∧ is_v4 (udp_dst_addr u)
  | _, _ => False
  end.

Lemma relay_fits_mono log log' pc x : log `prefix_of` log' → relay_fits log pc x → relay_fits log' pc x.
Proof.
  intros Hl. destruct pc, x; simpl; try done; intros [? ?]; (split; [by eapply udp_bound_mono|done]).
Qed.

Record proxy_inv (r0 r1 : Route) (p : Proxy) : Prop := {
  pi_reach : reachable proxy_stack (p_world p);
  pi_handle : has_handle (p_world p) = true;
  pi_relays : Forall2 (relay_fits (p_log p)) (p_relays p) (app (p_world p));
  pi_installed : installed (p_log p) = [r0; r1];
  pi_calls : calls_ok (p_log p);
}.

(** A step of the proxy: the stack takes steps of its own, the log grows. *)
Definition proxy_post (r0 r1 : Route) (p : Proxy) (_ : unit) (p' : Proxy) : Prop :=
  proxy_inv r0 r1 p' ∧ rtc step (p_world p) (p_world p').

Lemma reachable_steps b w w' : reachable b w → rtc step w w' → reachable b w'.
Proof. intros (w0 & Hi & Hs) Hs'. exists w0. split; [done|]. by etrans. Qed.

Lemma proxy_post_intro r0 r1 p p' :
  proxy_inv r0 r1 p → rtc step (p_world p) (p_world p') → has_handle (p_world p') = true →
  logs_on (p_log p) (p_log p') → Forall2 (relay_fits (p_log p')) (p_relays p') (app (p_world p')) →
  proxy_post r0 r1 p tt p'.
Proof.
  intros [H1 H2 H3 H4 H5] Hs Hh (Hp & Hi & Hc) HF. split; [|done].
  constructor; [by eapply reachable_steps|done|done|congruence|auto].
Qed.

Lemma relays_kept log log' l x : log `prefix_of` log' → Forall2 (relay_fits log) l x → Forall2 (relay_fits log') l x.
Proof. intros Hl HF. eapply Forall2_impl; [done|]. intros pc y. by apply relay_fits_mono. Qed.

(** ** Steps of the stack inside the proxy *)

Context (Hbits : 32 ≤ usize_bits).

Lemma proxy_sys_inv r0 r1 p : proxy_inv r0 r1 p → sys_inv (p_world p) ∧ wiring (p_world p).
Proof.
  intros [H1 _ _ _ _]. split; [by eapply reachable_sys_inv, H1; apply proxy_stack_ok|].
  by eapply reachable_wiring, H1; apply proxy_stack_ok.
Qed.

(** An action of the application on the stack. *)
Lemma wp_stack_action `{HO : HashOrder} r0 r1 p a m (Q : unit → Proxy → Prop) :
  proxy_inv r0 r1 p → perform a (p_world p) = Some m →
  (∀ w', step (p_world p) w' → m (p_world p) = Done (tt, w') → Q tt (set_world w' p)) →
  wp (on_world m) Q p.
Proof.
  intros HI Hp HQ. destruct (proxy_sys_inv _ _ _ HI) as [Hs _]. unfold on_world. wp_go.
  destruct (proj1 (wp_done _ _ _) (wp_perform _ _ _ Hs Hp)) as ([] & w' & Hm & _).
  apply wp_done. exists tt, w'. split; [done|]. apply HQ; [by econstructor|done].
Qed.

(** A step of a method of the session that the [k]-th relay owns. *)
Lemma wp_session_step {A} r0 r1 p k op x (f : M Shared A) (Q : A → Proxy → Prop) :
  proxy_inv r0 r1 p → app (p_world p) !! k = Some x → run_op op x = Some (_ ← f; mret tt) →
  (∀ a w', step (p_world p) w' → app_side w' = app_side (p_world p) → Q a (set_world w' p)) →
  wp (on_world (in_shared f)) Q p.
Proof.
  intros HI Hk Hop HQ. destruct (proxy_sys_inv _ _ _ HI) as [Hs _].
  assert (perform (HO := std_order) (On_session k op) (p_world p) = Some (in_shared (_ ← f; mret tt))) as Hp
    by (simpl; by rewrite Hk; simpl; rewrite Hop).
  destruct (proj1 (wp_done _ _ _) (wp_perform _ _ _ Hs Hp)) as ([] & w' & Hm & _).
  unfold on_world. wp_go. pose proof (app_in_shared f (p_world p)) as Hside.
  assert (∃ a, in_shared f (p_world p) = Done (a, w')) as [a Ha].
  { revert Hm. unfold in_shared, on_net, on_shared, zoom, mbind, M_bind.
    destruct (f _) as [[a s']| |]; [|done..]. intros [= <-]. by exists a. }
  apply wp_done. exists a, w'. split; [done|]. apply HQ; [by econstructor|by eapply Hside].
Qed.

(** A relay returns: its session is dropped. *)
Lemma wp_relay_return r0 r1 p0 p k x pc :
  proxy_inv r0 r1 p → rtc step (p_world p0) (p_world p) → p_relays p !! k = Some pc →
  app (p_world p) !! k = Some x → wp (relay_return k x) (proxy_post r0 r1 p0) p.
Proof.
  intros HI Hs0 Hk Hx. destruct (proxy_sys_inv _ _ _ HI) as [Hs _]. unfold relay_return, on_world. wp_go. simpl.
  assert (perform (HO := std_order) (Drop_session k) (p_world p) = Some (app_drop_session k x)) as Hp
    by (simpl; by rewrite Hx).
  destruct (proj1 (wp_done _ _ _) (wp_perform _ _ _ Hs Hp)) as ([] & w' & Hm & _).
  apply wp_done. exists tt, w'. split; [done|].
  assert (app_side w' = (delete k (app (p_world p)), has_handle (p_world p))) as Hside.
  { unfold app_drop_session, mbind, M_bind, mmodify in Hm. by apply app_in_shared in Hm. }
  injection Hside as Happ Hh.
  assert (rtc step (p_world p) w') as Hw by (apply rtc_once; by econstructor).
  destruct HI as [H1 H2 H3 H4 H5]. split; simpl; [|by etrans].
  constructor; simpl; [by eapply reachable_steps|congruence| |done|done].
  rewrite Happ. by apply Forall2_delete.
Qed.

(** A relay moves on. *)
Lemma wp_relay_at r0 r1 p0 p k x pc :
  proxy_inv r0 r1 p → rtc step (p_world p0) (p_world p) → app (p_world p) !! k = Some x →
  relay_fits (p_log p) pc x → wp (relay_at k pc) (proxy_post r0 r1 p0) p.
Proof.
  intros [H1 H2 H3 H4 H5] Hs0 Hx Hf. unfold relay_at. wp_go. split; [|done].
  constructor; simpl; [done|done| |done|done].
  rewrite <- (list_insert_id (app (p_world p)) k x) by done. by apply Forall2_insert.
Qed.

Lemma wp_proxy_break r0 r1 p0 p :
  proxy_inv r0 r1 p → rtc step (p_world p0) (p_world p) → wp proxy_break (proxy_post r0 r1 p0) p.
Proof. intros [] Hs. unfold proxy_break. wp_go. split; [by constructor|done]. Qed.

(** ** Feeding the stack *)

(** The interface of the tun is always registered, and the runner does not stop
    while the handle exists: [send_ip_packet] fails only if the channel is
    full. *)
Lemma proxy_send_answer r0 r1 p data :
  proxy_inv r0 r1 p →
  ∃ r n', send_ip_packet tun_iface data (net (p_world p)) = Done (r, n') ∧
    (if chan_room (ingress_chan (net (p_world p))) then r = Ok tt else r = Err ChannelFull).
Proof.
  intros HI. destruct (proxy_sys_inv _ _ _ HI) as [_ Hw].
  pose proof (reachable_ids _ _ (proxy_stack_ok Hbits) (pi_reach _ _ _ HI)) as Hids.
  assert (∃ sl, slot (core (shared (net (p_world p)))) tun_iface = Some sl) as [sl Hsl].
  { destruct (slots (core (shared (net (p_world p))))) as [|sl rest] eqn:Es; [done|]. injection Hids as Hid _.
    exists sl. unfold slot, find_slot. rewrite Es. simpl. by rewrite decide_True. }
  assert (chan_has_rx (ingress_chan (net (p_world p))) = true) as Hrx.
  { rewrite (wire_runner_rx _ Hw). pose proof (wire_stopped _ Hw) as Hst.
    rewrite (pi_handle _ _ _ HI) in Hst. destruct (pc (p_world p)); try done. by discriminate Hst. }
  unfold send_ip_packet, mbind, M_bind, mget. rewrite Hsl.
  pose proof (chan_send_answer _ (ingress_chan (net (p_world p))) (mkIngressPacket tun_iface data)) as Ha.
  destruct (chan_try_send _ _) as [c|[|]]; [destruct Ha as [_ ->]|destruct Ha as [_ ->]|congruence];
    by do 2 eexists.
Qed.

Lemma wp_tun_read `{HO : HashOrder} r0 r1 p r :
  proxy_inv r0 r1 p → (∀ data, r = Ok data → chan_room (ingress_chan (net (p_world p))) = true) →
  wp (tun_read r) (proxy_post r0 r1 p) p.
Proof.
  intros HI Hroom. unfold tun_read. destruct r as [data|e].
  - specialize (Hroom data eq_refl). set (d := take _ data).
    destruct (proxy_send_answer r0 r1 p d HI) as (r & n' & Hs & Hr). rewrite Hroom in Hr. subst r.
    unfold on_world, on_net. wp_go. unfold wp at 1. rewrite Hs. wp_go.
    apply proxy_post_intro; simpl; [done| |apply HI|done|apply HI].
    apply rtc_once. apply (step_intro _ _ HO (Send_ip tun_iface d) (_ ← on_net (send_ip_packet tun_iface d); mret tt)).
    + simpl. by rewrite (pi_handle _ _ _ HI).
    + unfold on_net, zoom, mbind, M_bind. by rewrite Hs.
  - by apply wp_proxy_break.
Qed.

Lemma tun_read_full r0 r1 p data :
  proxy_inv r0 r1 p → chan_room (ingress_chan (net (p_world p))) = false →
  tun_read (Ok data) p = Panic ExpectFailed.
Proof.
  intros HI Hroom. set (d := take (Z.to_nat TUN_MTU) data).
  destruct (proxy_send_answer r0 r1 p d HI) as (r & n' & Hs & Hr). rewrite Hroom in Hr. subst r.
  unfold tun_read, on_world, on_net, zoom, mbind, M_bind. fold d. by rewrite Hs.
Qed.

(** ** The other branches of the event loop *)

Lemma proxy_inv_log r0 r1 p log' :
  proxy_inv r0 r1 p → logs_on (p_log p) log' → proxy_inv r0 r1 (set_log log' p).
Proof.
  intros [H1 H2 H3 H4 H5] (Hp & Hi & Hc).
  constructor; simpl; [done|done|by eapply relays_kept|congruence|auto].
Qed.

Lemma proxy_inv_world r0 r1 p w' :
  proxy_inv r0 r1 p → step (p_world p) w' → app_side w' = app_side (p_world p) →
  proxy_inv r0 r1 (set_world w' p).
Proof.
  intros [H1 H2 H3 H4 H5] Hs [= Ha Hh].
  constructor; simpl; [by eapply reachable_steps, rtc_once|congruence|by rewrite Ha|done|done].
Qed.

Lemma wp_egress_ready r0 r1 p m :
  proxy_inv r0 r1 p → egress_ready p = Some m → wp m (proxy_post r0 r1 p) p.
Proof.
  intros HI. unfold egress_ready. destruct (chan_try_recv _) as [[pkt c]|[|]] eqn:Er; [|done|].
  - intros [= <-]. apply wp_bind.
    eapply (wp_stack_action (HO := std_order) _ _ _ Egress); [done|done|]. intros w' Hs Hm.
    assert (app_side w' = app_side (p_world p)) as Ha by (by eapply app_on_net).
    pose proof (proxy_inv_world _ _ _ _ HI Hs Ha) as HI1.
    unfold on_os. wp_go. apply wp_os_do; [done..|]. intros log' Hl _. cbn [p_log set_world] in *.
    pose proof (proxy_inv_log _ _ (set_world w' p) log' HI1 Hl) as HI2.
    destruct (os_answer _ _); wp_go.
    + split; [done|]. by apply rtc_once.
    + apply wp_proxy_break; [done|]. by apply rtc_once.
  - intros [= <-]. by apply wp_proxy_break.
Qed.

Lemma wp_accept_ready r0 r1 p m :
  proxy_inv r0 r1 p → accept_ready p = Some m → wp m (proxy_post r0 r1 p) p.
Proof.
  intros HI. unfold accept_ready. destruct (chan_try_recv _) as [[x c]|[|]] eqn:Er; [|done|].
  - intros [= <-]. apply wp_bind.
    eapply (wp_stack_action (HO := std_order) _ _ _ Accept); [done|simpl; by rewrite (pi_handle _ _ _ HI)|].
    intros w' Hs Hm. wp_go.
    assert (app_side w' = (app (p_world p) ++ [x], has_handle (p_world p))) as Ha.
    { revert Hm. unfold app_accept, on_net, accept, zoom, mbind, M_bind, mget. rewrite Er.
      unfold mmodify, mret, M_ret. by intros [= <-]. }
    injection Ha as Ha Hh. apply proxy_post_intro; simpl; [done|by apply rtc_once| |done|].
    + rewrite Hh. apply HI.
    + rewrite Ha. apply Forall2_app; [apply HI|]. by repeat constructor.
  - intros [= <-]. by apply wp_proxy_break.
Qed.

(** ** The relays *)

Lemma relay_lookup p k pc x :
  relay p k = Some (pc, x) → p_relays p !! k = Some pc ∧ app (p_world p) !! k = Some x.
Proof. unfold relay. intros (? & ? & (? & ? & [= <- <-])%bind_Some)%bind_Some. done. Qed.

Lemma relay_fits_lookup r0 r1 p k pc x :
  proxy_inv r0 r1 p → relay p k = Some (pc, x) → relay_fits (p_log p) pc x.
Proof.
  intros HI [H1 H2]%relay_lookup. by eapply Forall2_lookup_lr; [apply HI|..].
Qed.

Lemma wp_relay_start r0 r1 p k x :
  proxy_inv r0 r1 p → relay p k = Some (Relay_Start, x) → wp (relay_start k x) (proxy_post r0 r1 p) p.
Proof.
  intros HI [Hk Hx]%relay_lookup. unfold relay_start, on_os. wp_go.
  assert (wp (match x with Session_Tcp t => relay_tcp_open t | Session_Udp u => relay_udp_open u end)
    (λ r log', logs_on (p_log p) log' ∧ ∀ fd u, r = Ok (Some fd) → x = Session_Udp u →
      udp_bound log' fd ∧ is_v4 (udp_dst_addr u)) (p_log p)) as Hopen.
  { destruct x as [t|u].
    - eapply wp_mono; [apply wp_relay_tcp_open|]. cbv beta. intros r log' Hl. split; [done|]. by intros.
    - eapply wp_mono; [apply wp_relay_udp_open|]. cbv beta. intros r log' [Hl Hb]. split; [done|].
      intros fd u' -> [= <-]. by apply Hb. }
  eapply wp_mono; [exact Hopen|]. cbv beta. intros r log' [Hl Hb].
  pose proof (proxy_inv_log _ _ _ _ HI Hl) as HI'.
  destruct r as [[fd|]|e], x as [t|u]; try (by eapply wp_relay_return);
    (eapply wp_relay_at; [done|done|exact Hx|]); simpl; [done|]. by eapply Hb.
Qed.

Lemma wp_relay_udp_recv r0 r1 p k u out pc :
  proxy_inv r0 r1 p → relay p k = Some (Relay_Udp_Loop out pc, Session_Udp u) →
  wp (relay_udp_recv k u out pc) (proxy_post r0 r1 p) p.
Proof.
  intros HI Hrel. pose proof (relay_fits_lookup _ _ _ _ _ _ HI Hrel) as Hfit.
  apply relay_lookup in Hrel as [Hk Hx]. unfold relay_udp_recv. apply wp_bind.
  eapply (wp_session_step _ _ _ k (Op_Recv pc)); [done|done|done|]. intros pc' w' Hs Ha.
  pose proof (proxy_inv_world _ _ _ _ HI Hs Ha) as HI1. injection Ha as Ha _.
  assert (rtc step (p_world p) (p_world (set_world w' p))) as Hs' by (by apply rtc_once).
  assert (app (p_world (set_world w' p)) !! k = Some (Session_Udp u)) as Hx1 by (simpl; by rewrite Ha).
  destruct pc' as [| | |f|[d|]]; [by eapply wp_relay_at..| |by eapply wp_relay_return].
  unfold on_os. wp_go. apply wp_os_do; [done|by split; apply Hfit|]. intros log' Hl _.
  pose proof (proxy_inv_log _ _ _ _ HI1 Hl) as HI2.
  destruct (os_answer _ _); [|by eapply wp_relay_return].
  eapply wp_relay_at; [done|done|exact Hx1|]. destruct Hfit as [Hb Hv].
  split; [by eapply udp_bound_mono; [apply Hl|]|done].
Qed.

Lemma wp_relay_udp_send r0 r1 p k u out payload pc :
  proxy_inv r0 r1 p → relay p k = Some (Relay_Udp_Send out payload pc, Session_Udp u) →
  wp (relay_udp_send k u out payload pc) (proxy_post r0 r1 p) p.
Proof.
  intros HI Hrel. pose proof (relay_fits_lookup _ _ _ _ _ _ HI Hrel) as Hfit.
  apply relay_lookup in Hrel as [Hk Hx]. unfold relay_udp_send. apply wp_bind.
  eapply (wp_session_step _ _ _ k (Op_Send payload pc)); [done|done|done|]. intros pc' w' Hs Ha.
  pose proof (proxy_inv_world _ _ _ _ HI Hs Ha) as HI1. injection Ha as Ha _.
  assert (rtc step (p_world p) (p_world (set_world w' p))) as Hs' by (by apply rtc_once).
  assert (app (p_world (set_world w' p)) !! k = Some (Session_Udp u)) as Hx1 by (simpl; by rewrite Ha).
  destruct pc' as [| | | |f|[|e]]; try (by eapply wp_relay_at). by eapply wp_relay_return.
Qed.

(** ** Every action *)

Lemma wp_proxy `{HO : HashOrder} r0 r1 a p m :
  proxy_inv r0 r1 p → proxy_perform a p = Some m →
  (∀ data, a = P_Tun (Ok data) → chan_room (ingress_chan (net (p_world p))) = true) →
  wp m (proxy_post r0 r1 p) p.
Proof.
  intros HI Hp Hroom. destruct a as [now timer|r| | | |k|k op|k|k|k r|k]; simpl in Hp.
  - apply bind_Some in Hp as (m' & Hm' & [= <-]).
    eapply (wp_stack_action _ _ _ (Run now timer)); [done|done|]. intros w' Hs Hm.
    apply app_runner in Hm'. split; [|by apply rtc_once].
    apply proxy_inv_world; [done|done|by eapply Hm'].
  - destruct (p_looping p); [|done]. injection Hp as <-. apply wp_tun_read; [done|]. intros data ->. by eapply Hroom.
  - destruct (p_looping p); [|done]. by apply wp_egress_ready.
  - destruct (p_looping p); [|done]. by apply wp_accept_ready.
  - destruct (p_looping p); [|done]. injection Hp as <-. by apply wp_proxy_break.
  - destruct (relay p k) as [[[] x]|] eqn:Hr; try done. injection Hp as <-. by apply wp_relay_start.
  - destruct (relay p k) as [[[|remote| |] [t|]]|] eqn:Hr; try done. apply bind_Some in Hp as (m' & Hm' & [= <-]).
    apply relay_lookup in Hr as [_ Hx].
    eapply (wp_stack_action (HO := std_order) _ _ _ (On_session k op)); [done|simpl; rewrite Hx; simpl; by rewrite Hm'|].
    intros w' Hs Hm. split; [|by apply rtc_once]. apply proxy_inv_world; [done|done|by eapply app_in_shared].
  - destruct (relay p k) as [[[|remote| |] [t|]]|] eqn:Hr; try done. injection Hp as <-.
    apply relay_lookup in Hr as [Hk Hx]. by eapply wp_relay_return.
  - destruct (relay p k) as [[[| |out pc|] [|u]]|] eqn:Hr; try done. injection Hp as <-. by apply wp_relay_udp_recv.
  - destruct (relay p k) as [[[| |out pc|] [|u]]|] eqn:Hr; try done. injection Hp as <-.
    pose proof (relay_fits_lookup _ _ _ _ _ _ HI Hr) as Hfit. apply relay_lookup in Hr as [Hk Hx].
    destruct r; [by eapply wp_relay_at|by eapply wp_relay_return].
  - destruct (relay p k) as [[[| | |out payload pc] [|u]]|] eqn:Hr; try done. injection Hp as <-.
    by apply wp_relay_udp_send.
Qed.

(** ** From the start *)

Lemma wp_proxy_setup :
  wp proxy_setup (λ r log, calls_ok log ∧
    match r with
    | Ok (r0, r1) => installed log = [r0; r1] ∧ ∃ i, r0 = capture_low i ∧ r1 = capture_high i
    | Err _ => installed log = [] ∨ ∃ i e l, installed log = [capture_low i] ∧
        log = l ++ [(Route_add (capture_high i), Err e)]
    end) [].
Proof.
  assert (calls_ok []) as H0 by (intros i c r Hi; by rewrite lookup_nil in Hi).
  unfold proxy_setup. apply wp_try_call; [done..|intros e l (_ & Hi & Hc); split; [auto|by left]|].
  intros dev l1 (_ & Hi1 & Hc1) _. specialize (Hc1 H0). change (installed []) with (@nil Route) in Hi1.
  apply wp_try_call; [done..|intros e l (_ & Hi & Hc); split; [auto|left; congruence]|].
  intros ix l2 (_ & Hi2 & Hc2) _. specialize (Hc2 Hc1). rewrite Hi1 in Hi2.
  apply wp_try_call; [done..|intros e l (_ & Hi & Hc); split; [auto|left; congruence]|].
  intros rh l3 (_ & Hi3 & Hc3) _. specialize (Hc3 Hc2). rewrite Hi2 in Hi3. cbv zeta.
  assert (∀ l c r, calls_ok l → route_call c = true → calls_ok (l ++ [(c, r)])) as Hroute
    by (intros l c r Hl Hr; apply calls_ok_snoc; [done|by destruct c]).
  apply wp_mtry. unfold os_do at 1. wp_go.
  set (l4 := l3 ++ _). assert (calls_ok l4) as Hc4 by (by apply Hroute).
  assert (installed l4 = match os_answer l3 (Route_add (capture_low ix)) with Ok _ => [capture_low ix] | Err _ => [] end)
    as Hi4 by (unfold l4, installed; rewrite foldl_snoc; fold (installed l3); rewrite Hi3; by destruct (os_answer _ _)).
  destruct (os_answer l3 (Route_add (capture_low ix))) as [v4|e4]; [|split; [done|by left]].
  apply wp_mtry. unfold os_do at 1. wp_go.
  set (l5 := l4 ++ _). assert (calls_ok l5) as Hc5 by (by apply Hroute).
  assert (installed l5 = match os_answer l4 (Route_add (capture_high ix)) with
    Ok _ => [capture_low ix; capture_high ix] | Err _ => [capture_low ix] end)
    as Hi5 by (unfold l5, installed; rewrite foldl_snoc; fold (installed l4); rewrite Hi4; by destruct (os_answer _ _)).
  destruct (os_answer l4 (Route_add (capture_high ix))) as [v5|e5] eqn:E5; wp_go.
  - split; [done|]. split; [done|]. by exists ix.
  - split; [done|]. right. exists ix, e5, l4. done.
Qed.

Lemma proxy_initial_inv r0 r1 p : proxy_initial r0 r1 p → proxy_inv r0 r1 p ∧ ∃ i, r0 = capture_low i ∧ r1 = capture_high i.
Proof.
  intros [log b clock o o' n Hset Hb Hn ->]. rewrite proxy_builder_stack in Hb. injection Hb as <-.
  destruct (wp_elim _ _ _ _ _ wp_proxy_setup Hset) as (Hc & Hi & Hr). split; [|done].
  constructor; simpl; [|done|constructor|done|done].
  exists (world_of n). split; [by econstructor|done].
Qed.

(** The one call whose failure the program does not handle: a packet is read
    from the tun while the ingress channel has no room. *)
Definition overflows (a : proxy_action) (p : Proxy) : bool :=
  match a with
  | P_Tun (Ok _) => negb (chan_room (ingress_chan (net (p_world p))))
  | _ => false
  end.

Lemma overflows_false a p data :
  overflows a p = false → a = P_Tun (Ok data) → chan_room (ingress_chan (net (p_world p))) = true.
Proof. intros Ho ->. by apply negb_false_iff. Qed.

Lemma proxy_overflow `{HO : HashOrder} r0 r1 a p m :
  proxy_inv r0 r1 p → proxy_perform a p = Some m → overflows a p = true → m p = Panic ExpectFailed.
Proof.
  intros HI Hp Ho. destruct a as [|[data|]| | | | | | | | |]; try done.
  unfold proxy_perform in Hp. destruct (p_looping p); [|done]. apply (inj Some) in Hp as <-.
  apply (tun_read_full r0 r1); [done|]. by apply negb_true_iff.
Qed.

Lemma proxy_perform_answer `{HO : HashOrder} r0 r1 a p m :
  proxy_inv r0 r1 p → proxy_perform a p = Some m →
  if overflows a p then m p = Panic ExpectFailed else ∃ p', m p = Done (tt, p').
Proof.
  intros HI Hp. destruct (overflows a p) eqn:Ho; [by eapply proxy_overflow|].
  pose proof (wp_proxy r0 r1 a p m HI Hp (λ data, overflows_false a p data Ho)) as Hw.
  apply wp_done in Hw as ([] & p' & ? & _).
  by exists p'.
Qed.

Lemma proxy_step_inv r0 r1 p p' :
  proxy_inv r0 r1 p → proxy_step p p' → proxy_post r0 r1 p tt p'.
Proof.
  intros HI [HO a m Hp Hm].
  destruct (overflows a p) eqn:Ho; [by rewrite (proxy_overflow r0 r1 a p m HI Hp Ho) in Hm|].
  eapply (wp_elim _ (proxy_post r0 r1 p)); [|done]. eapply wp_proxy; [done|done|].
  intros data. by apply overflows_false.
Qed.

Lemma proxy_reachable_inv r0 r1 p :
  proxy_reachable r0 r1 p → proxy_inv r0 r1 p ∧ ∃ i, r0 = capture_low i ∧ r1 = capture_high i.
Proof.
  intros (p0 & [H0 Hi]%proxy_initial_inv & Hs). split; [|done]. clear Hi.
  induction Hs as [p|p p1 p2 Hstep _ IH]; [done|]. apply IH. by apply (proxy_step_inv r0 r1 p p1).
Qed.

(** ** The destination of a relay *)

Lemma relay_tcp_open_connects t r log log' :
  relay_tcp_open t log = Done (r, log') →
  match sa_ip (tcp_dst_addr t) with
  | V6 _ => r = Ok None ∧ log' = log
  | V4 _ => ∀ o, r = Ok o → ∃ fd v l, o = Some fd ∧ log' = l ++ [(Tcp_connect fd (tcp_dst_addr t), Ok v)]
  end.
Proof.
  unfold relay_tcp_open, mtry, os_do, mbind, M_bind, mget, mmodify, mret, M_ret.
  destruct (sa_ip (tcp_dst_addr t)); [|by intros [= <- <-]].
  repeat match goal with |- context [match ?x with Ok _ => _ | Err _ => _ end] => destruct x eqn:? end;
    intros [= <- <-] o [= <-]. do 3 eexists. split; [done|]. reflexivity.
Qed.

(** ** Shutting down *)

Lemma installed_snoc log c r :
  installed (log ++ [(c, r)]) =
    match c, r with
    | Route_add x, Ok _ => installed log ++ [x]
    | Route_delete x, Ok _ => filter (λ y, y ≠ x) (installed log)
    | _, _ => installed log
    end.
Proof. unfold installed. rewrite foldl_snoc. by destruct c, r. Qed.

(** The deletion of the routes, by the answers: both go, or the first failure
    leaves the rest installed. *)
Lemma wp_proxy_shutdown r0 r1 p :
  proxy_inv r0 r1 p → r0 ≠ r1 →
  wp (proxy_shutdown r0 r1) (λ r p', p_relays p' = [] ∧ app (p_world p') = [] ∧
    match r with
    | Ok _ => installed (p_log p') = []
    | Err _ => installed (p_log p') = [r0; r1] ∨ installed (p_log p') = [r1]
    end) p.
Proof.
  intros HI Hne. destruct (proxy_sys_inv _ _ _ HI) as [Hs _]. unfold proxy_shutdown, on_world. wp_go.
  unfold in_shared, on_net, on_shared. wp_go.
  eapply wp_mono; [apply (wp_drop_all 0 [] (app (p_world p))); exact Hs|]. cbv beta. intros _ s' _. wp_go.
  unfold on_os. apply wp_mtry. wp_go. unfold os_do. wp_go. cbn [p_log set_log set_relays set_world].
  destruct (os_answer (p_log p) (Route_delete r0)) as [v0|e0]; [|split_and!; [done..|left; simpl; by rewrite installed_snoc, (pi_installed _ _ _ HI)]].
  apply wp_mtry. wp_go. cbn [p_log set_log set_relays set_world].
  set (l1 := p_log p ++ _). assert (installed l1 = [r1]) as H1.
  { unfold l1. rewrite installed_snoc, (pi_installed _ _ _ HI), filter_cons_False, filter_cons_True by naive_solver. done. }
  destruct (os_answer l1 (Route_delete r1)) as [v1|e1]; wp_go; (split_and!; [done..|]); simpl.
  - rewrite installed_snoc, H1, filter_cons_False by naive_solver. done.
  - right. by rewrite installed_snoc.
Qed.

(** ** The captured addresses *)

(** An IPv4 address is in the network of a route. *)
Definition covers (r : Route) (a : Z) : Prop :=
  match route_dst r with
  | V4 d => Z.shiftr a (32 - route_prefix r) = Z.shiftr d (32 - route_prefix r)
  | V6 _ => False
  end.

Lemma capture_all i a : 0 ≤ a < 2 ^ 32 → covers (capture_low i) a ∨ covers (capture_high i) a.
Proof.
  intros Ha. unfold covers, capture_low, capture_high. cbn [route_dst route_prefix].
  change (32 - 1) with 31. rewrite !Z.shiftr_div_pow2 by lia.
  change (Ipv4Addr_new 0 0 0 0 / 2 ^ 31) with 0. change (Ipv4Addr_new 128 0 0 0 / 2 ^ 31) with 1.
  assert (0 ≤ a / 2 ^ 31 < 2); [|lia]. split; [apply Z.div_pos; lia|]. apply Z.div_lt_upper_bound; lia.
Qed.
End TunProxyCorrect.
