(* ===== verification/Components.v ===== *)
(** * Further results on the components

    What single operations do, stated on their own: the loops of the post-pass,
    the device, the classifier, identifiers, the builder and the reference
    counts; and what becomes of new sessions once the egress receiver is gone. *)
From stdpp Require Import base list gmap.
From S2P Require Import Prelude Types Device Smoltcp Config Manager Core Packet Session Flow Invariant Streams StreamsCorrect Wakeup Runner RunnerCorrect UdpCorrect CycleCorrect Handle HandleCorrect Builder System ConfigKept DevicesKept OrderFree SystemCorrect FlowCorrect Progress Addresses.

Local Open Scope Z_scope.

(** ** The parts of a cycle *)

Section Cycle_parts.
Context `{T : Target, HO : HashOrder, W : Wire, E : Engine, K : Tokio, EL : !EngineLaws, WL : !WireLaws}.

(** Reaping removes exactly the given entries and gives back the cost of a
    TCP socket for each of them; UDP sockets and queues are not touched. *)
Theorem reap_releases live s keys :
  Inv 0 live s → reap_ok s keys →
  ∃ s', mfold tcp_reap_one keys 0 s =
      Done (tcp_socket_cost (core_config (core s)) * Z.of_nat (length keys), s') ∧
    tcp (manager (core s')) = filter (λ kv, kv.1 ∉ keys) (tcp (manager (core s))) ∧
    Inv (tcp_socket_cost (core_config (core s)) * Z.of_nat (length keys)) live s' ∧
    udp_kept (slots (core s)) (slots (core s')) ∧ queues s' = queues s.
Proof.
  intros HI Hre. destruct (proj1 (wp_done _ _ _) (wp_tcp_reap live s keys HI Hre))
    as (r & s' & Hr & -> & HI' & _ & Hq & Hm & Hk).
  exists s'. split_and!; [done|by rewrite Hm|done..].
Qed.

(** The drain of the shared UDP sockets ends, returns every datagram that
    waits in them, and leaves all of them empty. *)
Theorem drain_complete live s :
  Inv 0 live s →
  ∃ s', drain_udp s = Done (pending s, s') ∧ manager (core s') = manager (core s) ∧
    ∀ i d h n, udp_dst_sockets (manager (core s)) !! (i, d) = Some (h, n) →
      ∃ sk, sock_of (slots (core s')) i h = Some (Socket_Udp sk) ∧ udp_rx sk = [].
Proof.
  intros HI. destruct (proj1 (wp_done _ _ _) (wp_drain_udp live 0 s HI))
    as (r & s' & Hr & -> & HI' & l' & -> & Hall).
  eexists. split_and!; [done..|]. intros i d h n Hd. exact (all_drained_sock live 0 s l' i d h n HI Hall Hd).
Qed.

(** The timeout sweep removes exactly the given sessions, closes their
    queues without losing what is in them, keeps the other inboxes, and
    accounts for the budget of every shared socket that goes. *)
Theorem expiry live s keys :
  Inv 0 live s →
  ∃ released s', mfold udp_expire_one keys 0 s = Done (released, s') ∧ Inv released live s' ∧
    sessions_left keys s s' ∧ inboxes s' = filter (λ kv, kv.1 ∉ keys) (inboxes s).
Proof.
  intros HI. destruct (proj1 (wp_done _ _ _) (wp_udp_expire live s keys 0 HI))
    as (released & s' & Hr & HI' & Hl).
  exists released, s'. split_and!; [done..|]. by apply sessions_left_inboxes.
Qed.
End Cycle_parts.

(** ** Device, classifier, waiting, identifiers, builder *)

Section Parts.
Context `{T : Target, W : Wire, E : Engine, K : Tokio}.

(** Whatever a client of the device does through the trait, it takes a
    prefix of the ingress queue in order, appends to the egress queue, and
    leaves the MTU. *)
Theorem device_client d d' :
  device_steps d d' →
  (∃ taken, ingress d = taken ++ ingress d') ∧ (∃ sent, egress d' = egress d ++ sent) ∧
  device_mtu d' = device_mtu d.
Proof. apply device_steps_queues. Qed.

(** A packet that is classified has a destination port, and both endpoints
    are of the address family that its first nibble announces; so the sockets
    opened for it can listen and bind. *)
Theorem parse_l4_sound `{WL : !WireLaws} pkt src dst l4 :
  parse_l4 pkt = Some (src, dst, l4) →
  port dst ≠ 0 ∧
  ∃ b, head pkt = Some b ∧ family (addr src) = Z.shiftr b 4 ∧ family (addr dst) = Z.shiftr b 4.
Proof. intros Hp. split; [by eapply parse_l4_dst_port|by eapply parse_l4_family]. Qed.

(** The delay until the next poll is the smallest one that an interface
    asks for. *)
Theorem next_poll_delay_least now s d :
  next_poll_delay now s = Some d →
  (∃ (i : nat) sl x, slots (core s) !! i = Some sl ∧
    iface_poll_delay (iface sl) now (sockets sl) = Some x ∧ duration_into x = d) ∧
  ∀ (i : nat) sl x, slots (core s) !! i = Some sl →
    iface_poll_delay (iface sl) now (sockets sl) = Some x → d ≤ duration_into x.
Proof.
  unfold next_poll_delay. intros [Hin Hle]%list_min_Some. split.
  - apply list_elem_of_fmap in Hin as (x & -> & (sl & Hsl & Hx)%list_elem_of_omap).
    apply list_elem_of_lookup in Hsl as [i Hi]. by exists i, sl, x.
  - intros i sl x Hi Hx. apply Hle. apply list_elem_of_fmap. exists x. split; [done|].
    apply list_elem_of_omap. exists sl. split; [by eapply list_elem_of_lookup_2|done].
Qed.

(** Interface identifiers are told apart by what is displayed, and socket
    addresses by the endpoints they come from. *)
Theorem identifiers_injective `{WL : !WireLaws} i j e1 e2 :
  (InterfaceId_fmt i = InterfaceId_fmt j → i = j) ∧
  (to_socket_addr e1 = to_socket_addr e2 → e1 = e2).
Proof. split; [apply InterfaceId_fmt_inj|apply to_socket_addr_inj]. Qed.

(** Registering an interface: a used identifier is refused (with the error
    that names it as not registered), a new one is appended, and the
    identifiers stay distinct. *)
Theorem add_interface_result i spec b :
  NoDup (interfaces b).*1 →
  match add_interface i spec b with
  | Err e => i ∈ (interfaces b).*1 ∧ e = InterfaceNotFound i
  | Ok b' => i ∉ (interfaces b).*1 ∧ interfaces b' = interfaces b ++ [(i, spec)] ∧
      config b' = config b ∧ NoDup (interfaces b').*1
  end.
Proof.
  intros Hnd. destruct (add_interface i spec b) as [b'|e] eqn:Ea.
  - pose proof (add_interface_NoDup _ _ _ _ Hnd Ea) as Hnd'. unfold add_interface in Ea.
    destruct (has_interface i (interfaces b)) eqn:Eh; [done|]. injection Ea as <-.
    split_and!; [|done..]. intros Hin%has_interface_spec. congruence.
  - unfold add_interface in Ea. destruct (has_interface i (interfaces b)) eqn:Eh; [|done].
    injection Ea as <-. split; [by apply has_interface_spec|done].
Qed.
End Parts.

(** A reference on a shared socket that is taken and given up again leaves
    the tables as they were; giving up the last one removes the socket's entry
    and reports it. *)
Theorem retain_release `{T : Target, K : Tokio} i d h c m :
  udp_dst_sockets m !! (i, d) = Some (h, c) → 1 ≤ c < usize_max →
  (∃ m1, udp_socket_retain i d m = Done (tt, m1) ∧ udp_socket_release i d m1 = Done (false, m)) ∧
  (c = 1 → udp_socket_release i d m =
    Done (true, set_udp_dst_sockets (delete (i, d) (udp_dst_sockets m)) m)).
Proof.
  intros Hd Hc. split.
  - set (m1 := set_udp_dst_sockets (<[(i, d) := (h, c + 1)]> (udp_dst_sockets m)) m). exists m1.
    assert (set_udp_dst_sockets (<[(i, d) := (h, c + 1 - 1)]> (udp_dst_sockets m1)) m1 = m) as Hm.
    { unfold m1, set_udp_dst_sockets. simpl. rewrite insert_insert_eq, Z.add_simpl_r, insert_id by done.
      by destruct m. }
    split.
    + apply wp_eq, (wp_udp_socket_retain i d h c); [done|lia|done].
    + apply wp_eq, (wp_udp_socket_release i d h (c + 1)); [apply lookup_insert_eq|lia|].
      by rewrite !bool_decide_eq_false_2, Hm by lia.
  - intros ->. apply wp_eq, (wp_udp_socket_release i d h 1); [done|lia|].
    by rewrite !bool_decide_eq_true_2.
Qed.

(** Shutting a live stream down closes its socket and succeeds at once. *)
Theorem poll_shutdown_result
    `{T : Target, W : Wire, E : Engine, K : Tokio, EL : !EngineLaws} extra live s t cx :
  Inv extra live s → Session_Tcp t ∈ live →
  ∃ sk s', sock_of (slots (core s)) (ts_interface t) (ts_handle t) = Some (Socket_Tcp sk) ∧
    poll_shutdown t cx s = Done (Poll_Ready (Ok tt), s') ∧ Inv extra live s' ∧
    manager (core s') = manager (core s) ∧
    sock_of (slots (core s')) (ts_interface t) (ts_handle t) = Some (Socket_Tcp (closed_socket sk)).
Proof.
  intros HI Hin. destruct (live_tcp_socket _ _ _ _ HI Hin) as (n & sl & sk & Hsl & Hn & _ & Hg).
  destruct (proj1 (wp_done _ _ _) (wp_poll_shutdown extra live s t cx n sl sk HI Hsl Hn Hg))
    as (r & s' & Hp & HI' & Hm & -> & Hk).
  exists sk, s'. split_and!; [unfold sock_of, slot_mut in *; by rewrite Hsl|done..].
Qed.

(** When the application has dropped the egress receiver, a cycle that has a
    packet to send returns to the head of the loop with the sessions it opened
    still in the runner's buffer: they are not handed over, and the next cycle
    begins by dropping them ([run_poll]). *)
Theorem egress_closed_keeps_sessions
    `{T : Target, HO : HashOrder, W : Wire, E : Engine, K : Tokio, KL : !TokioLaws} now w :
  pc w = R_Forwarding → scratch_egress w ≠ [] → chan_has_rx (egress_chan (net w)) = false →
  ∃ w', run_alone 2 now w = Done w' ∧ pc w' = R_Top ∧
    scratch_accepted w' = scratch_accepted w ∧ accept_chan (net w') = accept_chan (net w).
Proof.
  intros Hpc Ho Hrx. unfold run_alone. simpl. rewrite Hpc. unfold run_forward.
  destruct (scratch_egress w) as [|pkt o]; [done|].
  pose proof (chan_send_answer _ (egress_chan (net w)) pkt) as Ha.
  destruct (chan_try_send (egress_chan (net w)) pkt) as [c|[|]]; [destruct Ha; congruence..|].
  eexists. by split_and!.
Qed.
