(* ===== verification/Traces.v ===== *)
(** * Concrete runs

    Runs of the whole system on the reference engine: a client behind one
    interface opens a TCP connection, sends UDP datagrams, and so on. They are
    the inputs of the witnesses and of the theorems about single runs. *)
From stdpp Require Import base list gmap.
From S2P Require Import Prelude Types Device Smoltcp Reference Config Manager Core Packet Session Flow Invariant Streams StreamsCorrect Runner RunnerCorrect UdpCorrect CycleCorrect Handle HandleCorrect Builder System SystemCorrect FlowCorrect Progress Waiting TunProxy TunProxyCorrect.

Local Open Scope Z_scope.

#[export] Existing Instance debug64.
#[export] Existing Instance std_order.

(** ** Packets *)

Definition be (n : nat) (v : Z) : Bytes :=
  (λ i : nat, Z.land (Z.shiftr v (8 * (Z.of_nat n - 1 - Z.of_nat i))) 255) <$> seq 0 n.

Definition ipv4 (proto src dst : Z) (payload : Bytes) : Bytes :=
  [69; 0] ++ be 2 (20 + Z.of_nat (length payload)) ++ [0; 0; 0; 0; 64; proto; 0; 0] ++
  be 4 src ++ be 4 dst ++ payload.

Definition tcp_segment (sport dport flags : Z) (payload : Bytes) : Bytes :=
  be 2 sport ++ be 2 dport ++ be 4 0 ++ be 4 0 ++ [80; flags] ++ be 2 4096 ++ [0; 0; 0; 0] ++ payload.

Definition udp_datagram (sport dport : Z) (payload : Bytes) : Bytes :=
  be 2 sport ++ be 2 dport ++ be 2 (8 + Z.of_nat (length payload)) ++ [0; 0] ++ payload.

(** 10.0.0.2, the client; 8.8.8.8 and 93.184.216.34, where it connects to. *)
Definition client : Z := 167772162.
Definition resolver : Z := 134744072.
Definition server : Z := 1572395042.

Definition syn_packet : Bytes := ipv4 6 client server (tcp_segment 4000 80 2 []).
Definition ack_packet : Bytes := ipv4 6 client server (tcp_segment 4000 80 16 []).
Definition data_packet : Bytes := ipv4 6 client server (tcp_segment 4000 80 24 [71; 69; 84]).
Definition fin_packet : Bytes := ipv4 6 client server (tcp_segment 4000 80 17 []).
Definition query_packet : Bytes := ipv4 17 client resolver (udp_datagram 5000 53 [1; 2; 3]).

Definition tcp_key : SessionKey :=
  SessionKey_new (mkInterfaceId 1) Proto_Tcp (mkIpEndpoint (Ipv4 client) 4000) (mkIpEndpoint (Ipv4 server) 80).
Definition udp_key : SessionKey :=
  SessionKey_new (mkInterfaceId 1) Proto_Udp (mkIpEndpoint (Ipv4 client) 5000) (mkIpEndpoint (Ipv4 resolver) 53).

(** ** The stack *)

Definition if1 : InterfaceId := mkInterfaceId 1.

(** The default configuration with one interface, 10.0.0.1/24. *)
Definition demo_builder : NetstackBuilder :=
  {| config := NetstackConfig_default;
     interfaces := [(if1, InterfaceConfig_new 167772161 24)] |}.

Definition demo_clock : InterfaceId → Z * Z := λ _, (7, 0).

Definition demo_net : Netstack :=
  match build demo_builder demo_clock [] with
  | Done (Ok n, _) => n
  | _ => mkNetstack (Shared_new (mkCore [] SessionManager_default NetstackConfig_default 0))
           chan_unbounded chan_unbounded chan_unbounded
  end.

Definition demo_world : World := world_of demo_net.

Lemma demo_builder_ok : builder_ok demo_builder.
Proof.
  constructor.
  - apply default_config_sane.
  - simpl. apply NoDup_singleton.
  - constructor; [|constructor]. constructor; simpl.
    + constructor; [simpl; lia|constructor].
    + constructor.
    + constructor; [done|constructor].
Qed.

Lemma demo_build : ∃ o, build demo_builder demo_clock [] = Done (Ok demo_net, o).
Proof.
  destruct demo_builder_ok as [H1 H2 H3].
  destruct (proj1 (wp_done _ _ _) (wp_build demo_builder demo_clock [] H1 H2 H3))
    as (r & o & Hb & _ & n & -> & _).
  exists o. unfold demo_net. by rewrite Hb.
Qed.

(** One action of the runner at a time, until it waits: a cycle of at most a
    dozen steps. *)
Definition cycle (now : Instant) : list action := replicate 14 (Run now false).

Definition run_from (w : World) (l : list action) : World :=
  match run_actions l w with Done w' => w' | _ => w end.

(** Where a run leads is reachable. *)
Lemma run_actions_steps l w w' : run_actions l w = Done w' → rtc step w w'.
Proof.
  revert w. induction l as [|a l IH]; intros w; simpl; [by intros [= <-]|].
  destruct (perform a w) as [m|] eqn:Hp; [|apply IH].
  destruct (m w) as [[[] w1]| |] eqn:Hm; [|done..]. intros Hr.
  eapply rtc_l; [|by apply IH]. by econstructor.
Qed.

Lemma run_from_steps l w : rtc step w (run_from w l).
Proof.
  unfold run_from. destruct (run_actions l w) eqn:Hr; [|done..]. by apply run_actions_steps in Hr.
Qed.

Lemma demo_reachable l : reachable demo_builder (run_from demo_world l).
Proof.
  exists demo_world. split; [|apply run_from_steps].
  destruct demo_build as [o Ho]. by eapply initial_intro.
Qed.

Lemma demo_inv l : sys_inv (run_from demo_world l).
Proof. eapply reachable_sys_inv; [apply demo_builder_ok|apply demo_reachable]. Qed.

(** The events of a run, and the execution that it is. *)
Fixpoint run_events (l : list action) (w : World) : list Pipeline.event :=
  match l with
  | [] => []
  | a :: rest =>
      match perform a w with
      | None => run_events rest w
      | Some m => match m w with Done (_, w') => events a w w' ++ run_events rest w' | _ => [] end
      end
  end.

Lemma run_actions_execution b l evs w w' :
  execution b evs w → run_actions l w = Done w' → execution b (evs ++ run_events l w) w'.
Proof.
  revert evs w. induction l as [|a l IH]; intros evs w He; simpl.
  { intros [= <-]. by rewrite app_nil_r. }
  destruct (perform a w) as [m|] eqn:Hp; [|by apply IH].
  destruct (m w) as [[[] w1]| |] eqn:Hm; [|done..].
  rewrite app_assoc. apply IH. by econstructor.
Qed.

Lemma run_actions_trace l w w' : run_actions l w = Done w' → trace w (run_events l w) w'.
Proof.
  revert w. induction l as [|a l IH]; intros w; simpl; [intros [= <-]; constructor|].
  destruct (perform a w) as [m|] eqn:Hp; [|by apply IH].
  destruct (m w) as [[[] w1]| |] eqn:Hm; [|done..]. intros Hr. econstructor; [done..|]. by apply IH.
Qed.

Definition is_done {A} (o : outcome A) : bool := match o with Done _ => true | _ => false end.

Lemma demo_execution l :
  is_done (run_actions l demo_world) = true →
  execution demo_builder (run_events l demo_world) (run_from demo_world l).
Proof.
  unfold run_from. destruct (run_actions l demo_world) as [w'| |] eqn:Hr; [|done..]. intros _.
  apply (run_actions_execution demo_builder l [] demo_world); [|done].
  constructor. destruct demo_build as [o Ho]. by eapply initial_intro.
Qed.

Lemma run_from_trace l w :
  is_done (run_actions l w) = true → trace w (run_events l w) (run_from w l).
Proof.
  unfold run_from. destruct (run_actions l w) as [w'| |] eqn:Hr; [|done..]. intros _. by apply run_actions_trace.
Qed.

(** ** The runs *)

Definition handshake : list action :=
  cycle 10 ++ [Send_ip if1 syn_packet] ++ cycle 20 ++ [Send_ip if1 ack_packet] ++ cycle 30.

Definition open_tcp : list action := handshake ++ [Accept].
Definition open_udp : list action := cycle 10 ++ [Send_ip if1 query_packet] ++ cycle 20 ++ [Accept].

Definition w_tcp : World := run_from demo_world open_tcp.
Definition w_udp : World := run_from demo_world open_udp.

(** The handshake is half done: the socket has seen the first packet only. *)
Definition w_half : World := run_from demo_world (cycle 10 ++ [Send_ip if1 syn_packet] ++ cycle 20).

(** The client resets the connection, then the application drops the stream. *)
Definition rst_packet : Bytes := ipv4 6 client server (tcp_segment 4000 80 4 []).
Definition w_reset : World :=
  run_from demo_world (open_tcp ++ [Send_ip if1 rst_packet] ++ cycle 40 ++ [Drop_session 0]).

(** A packet waits in the channel, with the stack otherwise empty. *)
Definition w_queued : World := run_from demo_world (cycle 10 ++ [Send_ip if1 query_packet]).

(** The packet is in the device, the poll is next. *)
Definition w_polling : World :=
  run_from demo_world (cycle 10 ++ [Send_ip if1 query_packet] ++ replicate 3 (Run 20 false)).

(** The application has read the datagram of its session. *)
Definition w_read : World := run_from demo_world (open_udp ++ [On_session 0 (Op_Recv Recv_Pop)]).

(** The application writes while the runner forwards the results of a poll. *)
Definition w_due : World :=
  run_from demo_world (open_tcp ++ [Send_ip if1 data_packet] ++ replicate 4 (Run 40 false) ++
    [On_session 0 (Op_Write 0 [1; 2])] ++ replicate 2 (Run 40 false)).

(** A UDP session times out, the flow comes back and gets a second session;
    the application still holds the first. *)
Definition w_stale : World :=
  run_from demo_world (open_udp ++ [Run 40000000 true] ++ cycle 40000000 ++
    [Send_ip if1 query_packet] ++ cycle 50000000 ++ [Accept]).

(** The objects in these states. *)
Definition demo_slot : InterfaceSlot :=
  InterfaceSlot_new if1 (mkRefIface [(Ipv4 167772161, 24)] true [(default_v4, Ipv4 167772161)]) (VirtualDevice_new 1500) [] 4096 1500 16384.
Definition demo_stream : WayTcpStream := tcp_stream_of tcp_key (pending_entry 0).
Definition demo_session (h : SocketHandle) (q : QueueId) : WayUdpSession := udp_session_of udp_key h q.

(** The runner has been woken by a packet and drains the channel. *)
Definition w_draining : World :=
  run_from demo_world (cycle 10 ++ [Send_ip if1 query_packet; Send_ip if1 syn_packet] ++ replicate 1 (Run 20 false)).

(** The client resets a half-open connection, and an hour goes by. *)
Definition abandon : list action :=
  [Send_ip if1 rst_packet] ++ cycle 40 ++ [Run 3600000000 true] ++ cycle 3600000000.

(** A cycle is about to poll while the application holds a UDP session; and a
    cycle is over when the application has filled the send buffer. *)
Definition w_cycle : World :=
  run_from demo_world (open_udp ++ [Send_ip if1 query_packet] ++ replicate 3 (Run 40 false)).
Definition w_full : World :=
  run_from demo_world (open_udp ++ [Send_ip if1 query_packet] ++ replicate 5 (Run 40 false) ++
    replicate 16 (On_session 0 (Op_Send [7] Send_Try))).

(** ** The proxy *)

(** An operating system that never refuses; a call is answered by its number. *)
#[export] Instance demo_os : Os := {| os_error := unit; os_answer := λ log _, Ok (Z.of_nat (length log)) |}.

Definition demo_r0 : Route := capture_low 1.
Definition demo_r1 : Route := capture_high 1.

Definition demo_setup_log : list (os_call * result Z (os_error (Os := demo_os))) :=
  match proxy_setup [] with Done (_, log) => log | _ => [] end.

Definition demo_proxy : Proxy :=
  match build proxy_stack demo_clock [] with
  | Done (Ok n, _) => mkProxy (world_of n) [] demo_setup_log true
  | _ => mkProxy demo_world [] [] true
  end.

Lemma demo_proxy_initial : proxy_initial demo_r0 demo_r1 demo_proxy.
Proof.
  assert (builder_ok proxy_stack) as [H1 H2 H3] by (apply proxy_stack_ok; simpl; lia).
  destruct (proj1 (wp_done _ _ _) (wp_build proxy_stack demo_clock [] H1 H2 H3))
    as (r & o & Hb & _ & n & -> & _).
  apply (proxy_initial_intro _ _ _ demo_setup_log proxy_stack demo_clock [] o n);
    [done|apply proxy_builder_stack|done|].
  unfold demo_proxy. by rewrite Hb.
Qed.

Definition proxy_from (l : list proxy_action) : Proxy :=
  match proxy_run l demo_proxy with Done p => p | _ => demo_proxy end.

Lemma proxy_run_steps l p p' : proxy_run l p = Done p' → rtc proxy_step p p'.
Proof.
  revert p. induction l as [|a l IH]; intros p; simpl; [by intros [= <-]|].
  destruct (proxy_perform a p) as [m|] eqn:Hp; [|apply IH].
  destruct (m p) as [[[] p1]| |] eqn:Hm; [|done..]. intros Hr.
  eapply rtc_l; [|by apply IH]. by econstructor.
Qed.

Lemma proxy_from_reachable l : proxy_reachable demo_r0 demo_r1 (proxy_from l).
Proof.
  exists demo_proxy. split; [apply demo_proxy_initial|]. unfold proxy_from.
  destruct (proxy_run l demo_proxy) eqn:Hr; [by apply proxy_run_steps in Hr|done..].
Qed.

Definition proxy_cycle (now : Instant) : list proxy_action := replicate 14 (P_Stack now false).

(** The client connects through the proxy, and the relay connects on. *)
Definition p_relayed : Proxy :=
  proxy_from (proxy_cycle 10 ++ [P_Tun (Ok syn_packet)] ++ proxy_cycle 20 ++ [P_Tun (Ok ack_packet)] ++
    proxy_cycle 30 ++ [P_Accept; P_Relay_Start 0]).

(** The tun delivers faster than the runner is scheduled: the channel is full. *)
Definition p_full : Proxy := proxy_from (replicate 2048 (P_Tun (Ok [69]))).
