(* ===== verification/Theorems.v ===== *)
(** * The theorems

    The properties of the crate, one theorem each, from the whole system down
    to the single operations. They are stated for every [Target], every
    iteration order of the hash maps and every engine that satisfies the laws
    of [Smoltcp.v]; the lemmas that witness that their hypotheses can hold run
    the reference engine. *)
From stdpp Require Import base list gmap.
From S2P Require Import Prelude Types Device Smoltcp Config Manager Core Packet Session Flow Invariant Streams StreamsCorrect Wakeup Runner RunnerCorrect UdpCorrect CycleCorrect Handle HandleCorrect Builder System ConfigKept DevicesKept OrderFree SystemCorrect FlowCorrect Progress Addresses Waiting TunProxy TunProxyCorrect.

Local Open Scope Z_scope.

Section System_theorems.
Context `{T : Target, W : Wire, E : Engine, K : Tokio, EL : !EngineLaws, WL : !WireLaws, KL : !TokioLaws}.

(** C1. No state of the running system that can be reached from a well-formed
    builder crashes: whatever the application does with the handle and its
    sessions, in whatever order its steps interleave with the runner's, no
    action panics and none fails to end. The panics are those of the crate's own
    code (a stale socket handle, a socket of the wrong kind, arithmetic overflow,
    ...) and the documented ones of the libraries (a receive buffer over 1 GiB, an
    allocation over [isize::MAX], ...), which the bounds of [sane_config]
    exclude. *)
Theorem reachable_never_crashes b w : builder_ok b → reachable b w → ¬ crashes w.
Proof. intros Hb Hr. by eapply sys_inv_no_crash, reachable_sys_inv. Qed.

(** C2. In every reachable state the buffer budget is exact (the registered TCP
    sockets and the shared UDP sockets, each at its cost), it respects the
    configured cap, and the session tables respect their limits. *)
Theorem reachable_budget b w :
  builder_ok b → reachable b w →
  let c := core (shared (net w)) in
  buffer_bytes c = tcp_socket_cost (config b) * Z.of_nat (size (tcp (manager c))) +
                   udp_socket_cost (config b) * Z.of_nat (size (udp_dst_sockets (manager c))) ∧
  (∀ limit, cfg_max_buffer_bytes (config b) = Some limit → buffer_bytes c ≤ limit) ∧
  Z.of_nat (size (tcp (manager c))) ≤ cfg_tcp_max_connections (config b) ∧
  Z.of_nat (size (udp (manager c))) ≤ cfg_udp_max_sessions (config b).
Proof.
  intros Hb Hr c. pose proof (reachable_sys_inv _ _ Hb Hr) as HI.
  pose proof (reachable_config _ _ Hb Hr) as Hc. unfold world_config, shared_config in Hc. fold c in Hc.
  rewrite <- Hc. destruct HI as [_ _ _ _ _ _ Hbud Ht Hu Hlim _]. split_and!; [|..|done|done].
  - fold c in Hbud. unfold charged in Hbud. lia.
  - intros limit Hl. fold c in Hlim. rewrite Hl in Hlim. simpl in Hlim. by apply bool_decide_eq_true in Hlim.
Qed.

(** C3. In every reachable state a shared UDP socket exists exactly while
    sessions use it: its count is their number, at least one, its handle
    denotes a UDP socket of the interface, and every session's socket is the
    shared one of its destination. *)
Theorem reachable_refcounts b w :
  builder_ok b → reachable b w →
  let c := core (shared (net w)) in
  (∀ i d h n, udp_dst_sockets (manager c) !! (i, d) = Some (h, n) →
    n = refcount (udp (manager c)) i d ∧ 1 ≤ n ∧ ∃ sk, sock_of (slots c) i h = Some (Socket_Udp sk)) ∧
  (∀ k e, udp (manager c) !! k = Some e →
    ∃ n, udp_dst_sockets (manager c) !! (interface k, dst k) = Some (socket e, n)).
Proof.
  intros Hb Hr c. pose proof (inv_mgr _ _ _ (reachable_sys_inv _ _ Hb Hr)) as Hm. fold c in Hm.
  split; [|apply (mgr_refs _ _ Hm)]. intros i d h n Hd.
  destruct (refs_count _ (mgr_refs _ _ Hm) _ _ _ _ Hd) as [Hn H1]. split_and!; [done..|].
  apply (mgr_dst _ _ Hm), kind_of_udp in Hd as (? & ? & sk & Hsl & _ & _ & Hg).
  exists sk. unfold sock_of. by rewrite Hsl.
Qed.

(** C4. The TCP streams that the application holds in a reachable state are
    distinct connections, and each has its entry, not orphaned and past the
    pending state, and its socket. *)
Theorem reachable_streams b w :
  builder_ok b → reachable b w →
  NoDup (omap session_tcp_key (app w)) ∧
  ∀ t, Session_Tcp t ∈ app w → ∃ e sk,
    tcp (manager (core (shared (net w)))) !! ts_key t = Some e ∧ handle e = ts_handle t ∧
    orphaned e = false ∧ state e ≠ TcpState_Pending ∧
    sock_of (slots (core (shared (net w)))) (ts_interface t) (ts_handle t) = Some (Socket_Tcp sk).
Proof.
  intros Hb Hr. pose proof (reachable_sys_inv _ _ Hb Hr) as HI. unfold sys_inv, live_sessions in HI.
  pose proof (inv_live _ _ _ HI) as [H1 H2 _]. split.
  - rewrite omap_app in H2. by apply NoDup_app in H2 as [? _].
  - intros t Hin. assert (Session_Tcp t ∈ app w ++ chan_items (accept_chan (net w)) ++ scratch_accepted w) as Hl
      by set_solver.
    destruct (live_tcp_socket _ _ _ _ HI Hl) as (n & sl & sk & Hsl & _ & _ & Hg).
    destruct (H1 _ Hl) as (_ & e & He & Hh & Ho & Hs). exists e, sk. split_and!; [done..|].
    unfold sock_of, slot_mut in *. by rewrite Hsl.
Qed.

(** C5. A UDP session that the application holds in a reachable state always has
    its queue, and while the queue is open the session is the one registered
    under its key, with the same queue and socket. *)
Theorem reachable_udp_sessions b w :
  builder_ok b → reachable b w →
  ∀ u, Session_Udp u ∈ app w → ∃ uq, queues (shared (net w)) !! us_queue u = Some uq ∧
    (closed uq = false → ∃ e, udp (manager (core (shared (net w)))) !! us_key u = Some e ∧
      queue e = us_queue u ∧ socket e = us_socket u).
Proof.
  intros Hb Hr u Hin. pose proof (inv_live _ _ _ (reachable_sys_inv _ _ Hb Hr)) as Hl.
  destruct (live_udp _ _ _ Hl u) as (_ & uq & Hq & Hopen); [|by exists uq].
  unfold live_sessions. set_solver.
Qed.

(** C6. Building, inside a Tokio runtime: for distinct interfaces with valid
    addresses and a configuration within the limits of the libraries the stack is
    built without panicking, the allocator options are written once and in order,
    every interface is fresh, accepts packets to any address, and carries the
    addresses and the default routes (to the gateway, or else to the first
    address of the family) that fit in its tables, and the channels are empty,
    open and of the configured capacity. *)
Theorem build_result b clock written :
  builder_ok b → ∃ n, build b clock written = Done (Ok n, written ++ apply_mimalloc_tuning (config b)) ∧ built b n.
Proof.
  intros [H1 H2 H3]. destruct (proj1 (wp_done _ _ _) (wp_build b clock written H1 H2 H3))
    as (r & o & Hb & -> & n & -> & Hn). by exists n.
Qed.
End System_theorems.

(** ** One cycle of the runner *)

Section Cycle_theorems.
Context `{T : Target, HO : HashOrder, W : Wire, E : Engine, K : Tokio, EL : !EngineLaws, WL : !WireLaws}.

(** C7. The critical section of a poll cycle runs to its end from every state
    that satisfies the invariant, restores it with the new sessions, and moves
    the packets of every interface in order: it takes a prefix of the ingress
    queue, and every packet sent on the interface is handed over, labelled with
    the interface, in the order in which it was sent. *)
Theorem poll_cycle live s now :
  Inv 0 live s →
  ∃ accepted out s', poll_locked now s = Done ((accepted, out), s') ∧ Inv 0 (live ++ accepted) s' ∧
    core_config (core s') = core_config (core s) ∧
    Forall2 (device_cycle out) (slots (core s)) (slots (core s')).
Proof.
  intros HI. destruct (proj1 (wp_done _ _ _) (wp_poll_locked live s now HI)) as ([acc out] & s' & H1 & H2).
  by exists acc, out, s'.
Qed.

(** C8. The post-pass advances every TCP entry exactly once, by the state of its
    socket: a pending entry whose socket is established is accepted (and only
    such), an orphaned entry whose socket is closed leaves the table, every
    other entry stays. *)
Theorem post_pass_tcp live s now acc :
  Inv 0 live s →
  ∃ acc' s', post_pass now acc s = Done (acc', s') ∧
    acc' = acc ++ omap (accepted_of (slots (core s))) (hash_iter (tcp (manager (core s)))) ∧
    ∀ k, tcp (manager (core s')) !! k =
      e ← tcp (manager (core s)) !! k;
      if entry_reaped (slots (core s)) k e then None else Some (entry_after (slots (core s)) k e).
Proof.
  intros HI. destruct (proj1 (wp_done _ _ _) (wp_post_pass live s now acc HI)) as (acc' & s' & Hp & []).
  by exists acc', s'.
Qed.

(** C9. The post-pass settles every UDP session: what its shared socket holds
    from its source is appended to its queue in order, a session that received
    something is stamped and kept, and one that has received nothing for longer
    than the timeout is removed and its queue closed with its contents. No session
    is created. Only what a session receives counts: sending does not stamp it,
    so one that only sends is removed all the same. *)
Theorem post_pass_udp live s now acc :
  Inv 0 live s →
  (∃ acc' s', post_pass now acc s = Done (acc', s') ∧
    (∀ k e, udp (manager (core s)) !! k = Some e →
      session_fate now (duration_from (cfg_udp_session_timeout (core_config (core s)))) s s' k e) ∧
    (∀ k, udp (manager (core s)) !! k = None → udp (manager (core s')) !! k = None)) ∧
  (∀ u payload r s0, send u payload s = Done (r, s0) → manager (core s0) = manager (core s)).
Proof.
  intros HI. split; [|intros u payload r s0; apply tables_send].
  destruct (proj1 (wp_done _ _ _) (wp_post_pass live s now acc HI)) as (acc' & s' & Hp & []).
  by exists acc', s'.
Qed.

(** C10. The pre-pass registers every flow that a queued packet opens, unless a
    limit is reached: a SYN gets a pending TCP entry, a datagram a UDP entry. For
    every UDP entry that is new exactly one session is handed over, with the
    socket and the queue of the entry, and no other session. The pre-pass takes
    no packet away and keeps the entries that were there. *)
Theorem pre_pass_admits live s now acc :
  Inv 0 live s →
  ∃ new s', pre_pass now acc s = Done (acc ++ new, s') ∧ Inv 0 (live ++ new) s' ∧ grows s s' ∧
    sessions_opened (udp (manager (core s))) (udp (manager (core s'))) new ∧
    (device <$> slots (core s')) = (device <$> slots (core s)) ∧
    ∀ (i : nat) sl pkt, slots (core s) !! i = Some sl → pkt ∈ ingress (device sl) →
      flow_admitted s' (id sl) pkt.
Proof.
  intros HI. destruct (proj1 (wp_done _ _ _) (wp_pre_pass live s now acc HI))
    as (acc' & s' & Hp & (new & -> & HI' & Hg & Ho) & Hf & Hadm).
  exists new, s'. split_and!; [done..| |done].
  destruct Hf as [_ Hf]. apply (f_equal (fmap snd)) in Hf. by rewrite <- !list_fmap_compose in Hf.
Qed.
End Cycle_theorems.

(** ** Packets and sessions from end to end *)

Section Flow_theorems.
Context `{T : Target, W : Wire, E : Engine, K : Tokio, EL : !EngineLaws, WL : !WireLaws, KL : !TokioLaws}.

(** C11. The running system refines the packet pipeline: the events of every
    execution are those of an execution of the abstract queues that ends in the
    abstraction of its last state; and every reachable state has such an
    execution. *)
Theorem pipeline_refines b :
  builder_ok b →
  (∀ evs w, execution b evs w → Pipeline.exec (interfaces b).*1 evs (abs w)) ∧
  (∀ w, reachable b w → ∃ evs, execution b evs w).
Proof.
  intros Hb. split; [|apply reachable_execution]. intros evs w He.
  by destruct (execution_flow _ _ _ Hb He) as (_ & _ & ?).
Qed.


(** C13. In every execution the application reads a prefix of the packets that the
    cycles produced; and as long as it keeps the egress receiver, all of them
    are read, in the channel, or in the runner's buffer, in order. *)
Theorem egress_exactly_once b evs w :
  builder_ok b → execution b evs w →
  Pipeline.delivered evs `prefix_of` Pipeline.emitted evs ∧
  (Pipeline.Egress_dropped ∉ evs → Pipeline.emitted evs =
    Pipeline.delivered evs ++ chan_items (egress_chan (net w)) ++ scratch_egress w).
Proof.
  intros Hb He. destruct (execution_flow _ _ _ Hb He) as (_ & _ & Hx).
  pose proof (Pipeline.exec_egress _ _ _ Hx) as Hok. pose proof (Pipeline.exec_egress_open _ _ _ Hx) as Hopen.
  unfold Pipeline.egress_ok in Hok. destruct (Pipeline.egress_open (abs w)).
  - split; [|done]. rewrite Hok. by apply prefix_app_r.
  - split; [apply Hok|]. by intros Hn%Hopen.
Qed.

(** C14. In every execution the sessions that [accept] returned, those in the
    accept channel and those in the runner's buffer are, in this order, among
    the sessions that the cycles opened, each at most once; and as long as the
    application keeps the handle and the egress receiver, they are all of
    them. *)
Theorem sessions_exactly_once b evs w :
  builder_ok b → execution b evs w →
  Pipeline.handed evs ++ chan_items (accept_chan (net w)) ++ scratch_accepted w
    `sublist_of` Pipeline.opened evs ∧
  (Pipeline.Egress_dropped ∉ evs → Pipeline.Handle_dropped ∉ evs → Pipeline.opened evs =
    Pipeline.handed evs ++ chan_items (accept_chan (net w)) ++ scratch_accepted w).
Proof.
  intros Hb He. destruct (execution_flow _ _ _ Hb He) as (_ & _ & Hx).
  pose proof (Pipeline.exec_sessions _ _ _ Hx) as [H1 H2]. split; [done|]. intros Hn1 Hn2.
  apply H2; [by eapply Pipeline.exec_egress_open|by eapply Pipeline.exec_accept_open].
Qed.

(** C15. The sessions that the application holds are well typed: a TCP stream has
    the key of a TCP flow and a UDP session that of a UDP flow, and
    [src_addr], [dst_addr] and [interface_id] are those of the flow. *)
Theorem reachable_typed b w x : builder_ok b → reachable b w → x ∈ app w → typed x.
Proof. apply reachable_typed_sessions. Qed.

(** C16. The iteration order of the hash maps does not matter: a cycle under two
    orders sends the same packets, opens the same sessions up to their order,
    and leaves the same tables, reference counts, budget and inboxes, and the
    same contents in the queue of every session. *)
Theorem cycle_order_free (HO1 HO2 : HashOrder) live s now :
  Inv 0 live s →
  ∃ acc1 acc2 out s1 s2,
    poll_locked (HO := HO1) now s = Done ((acc1, out), s1) ∧
    poll_locked (HO := HO2) now s = Done ((acc2, out), s2) ∧
    acc1 ≡ₚ acc2 ∧ same_tables s1 s2 ∧
    ∀ k e, udp (manager (core s)) !! k = Some e → queue_view s1 (queue e) = queue_view s2 (queue e).
Proof. apply poll_locked_order_free. Qed.

(** C17. Where the runner blocks, and that it serves what is queued. Without its
    timer it blocks exactly in these states: it waits, it has not been notified,
    no packet is in the ingress channel and the handle is alive (a poll may be due
    all the same, see C36); it has a packet to send and the egress channel is full;
    it has stopped. And if packets are in the ingress channel while it waits, then,
    scheduled alone, it moves all of them to their devices in order, polls, and
    comes back to the head of its loop unless the egress channel fills up. *)
Theorem runner_serves `{HO : HashOrder} b w now :
  builder_ok b → reachable b w →
  (perform (Run now false) w = None ↔ blocked w) ∧
  (∀ f d, pc w = R_Waiting f d → chan_items (ingress_chan (net w)) ≠ [] →
    ∃ n1 w1 n2 w2, run_alone n1 now w = Done w1 ∧ pc w1 = R_Polling ∧
      chan_items (ingress_chan (net w1)) = [] ∧
      shared (net w1) = feed_all (chan_items (ingress_chan (net w))) (shared (net w)) ∧
      run_alone n2 now w1 = Done w2 ∧ (pc w2 = R_Top ∨ (pc w2 = R_Forwarding ∧ blocked w2))).
Proof.
  intros Hb Hr. pose proof (reachable_sys_inv _ _ Hb Hr) as HI. pose proof (reachable_wiring _ _ Hb Hr) as Hw.
  split; [by apply run_blocked|]. intros f d Hpc Hne.
  destruct (waiting_serves now w f d HI Hw Hpc Hne) as (n1 & w1 & Hr1 & Hpc1 & Hc1 & Hs1).
  destruct (run_alone_inv _ _ _ _ Hr1 HI Hw) as [HI1 Hw1].
  destruct (poll_ends now w1 HI1 Hw1 Hpc1) as (n2 & w2 & Hr2 & Hend).
  exists n1, w1, n2, w2. split_and!; [done..|]. destruct Hend as [[? _]|?]; auto.
Qed.

(** C18. The runner's drain of the ingress channel, taken step by step in the
    transition system, is the loop [drain_ingress]: both end, in the same state
    of the stack, with the channel empty and its packets appended to the devices
    of their interfaces in order. *)
Theorem drain_equivalent `{HO : HashOrder} now w :
  NoDup (id <$> slots (core (shared (net w)))) → pc w = R_Draining →
  let k := length (chan_items (ingress_chan (net w))) in
  ∃ c, let n := set_ingress_chan c
         (set_shared (feed_all (chan_items (ingress_chan (net w))) (shared (net w))) (net w)) in
    drain_ingress (S k) (net w) = Done (tt, n) ∧
    run_alone (S k) now w = Done (set_pc R_Polling (set_net n w)) ∧ chan_items c = [].
Proof.
  intros Hnd Hpc k. destruct (drain_steps now k w Hnd Hpc eq_refl) as (n & Hd & Hr).
  destruct (drain_ingress_all (S k) (net w) Hnd (Nat.lt_succ_diag_r _)) as (c & Hd' & Hc).
  exists c. cbv zeta. rewrite Hd in Hd'. injection Hd' as ->. done.
Qed.
End Flow_theorems.

(** ** The transparent proxy *)

Section Proxy_theorems.
Context `{T : Target, W : Wire, E : Engine, K : Tokio, O : Os, EL : !EngineLaws, WL : !WireLaws, KL : !TokioLaws}.

(** C19. The proxy is a client of the stack: the stack inside a reachable proxy is
    a reachable state of the running system, so all its properties hold there;
    every step of the proxy is matched by steps of the application and the
    runner; and every session that was accepted has its relay. *)
Theorem proxy_refines r0 r1 p :
  32 ≤ usize_bits → proxy_reachable r0 r1 p →
  reachable proxy_stack (p_world p) ∧ builder_ok proxy_stack ∧
  length (p_relays p) = length (app (p_world p)) ∧
  ∀ p', proxy_step p p' → rtc step (p_world p) (p_world p').
Proof.
  intros Hbits Hr. destruct (proxy_reachable_inv Hbits _ _ _ Hr) as [HI _]. split_and!.
  - apply HI.
  - by apply proxy_stack_ok.
  - by eapply Forall2_length, HI.
  - intros p' Hs. by apply (proxy_step_inv Hbits r0 r1 p p').
Qed.

(** C20. The proxy panics exactly when it reads a packet from the tun while the
    ingress channel of the stack is full: [send_ip_packet] then reports
    backpressure, and the program expects success. No other step of the event
    loop, of a relay or of the stack panics or fails to end. *)
Theorem proxy_panics `{HO : HashOrder} r0 r1 p a m :
  32 ≤ usize_bits → proxy_reachable r0 r1 p → proxy_perform a p = Some m →
  if overflows a p then m p = Panic ExpectFailed else ∃ p', m p = Done (tt, p').
Proof. intros Hbits Hr. apply (proxy_perform_answer Hbits r0 r1). by apply (proxy_reachable_inv Hbits). Qed.

(** C21. Outbound traffic does not come back into the tun: in a reachable proxy,
    every TCP connection and every datagram was sent on a socket that had been
    bound before to the physical interface and its address, and to an IPv4
    destination. A relay that opens its connection connects to the destination
    of its flow, and a flow to an IPv6 destination makes no call at all. *)
Theorem proxy_outbound r0 r1 p :
  32 ≤ usize_bits → proxy_reachable r0 r1 p →
  (∀ (i : nat) fd a r, p_log p !! i = Some (Tcp_connect fd a, r) →
    tcp_bound (take i (p_log p)) fd ∧ is_v4 a) ∧
  (∀ (i : nat) fd data a r, p_log p !! i = Some (Udp_send_to fd data a, r) →
    udp_bound (take i (p_log p)) fd ∧ is_v4 a) ∧
  (∀ t r log log', relay_tcp_open t log = Done (r, log') →
    match sa_ip (tcp_dst_addr t) with
    | V6 _ => r = Ok None ∧ log' = log
    | V4 _ => ∀ o, r = Ok o → ∃ fd v l, o = Some fd ∧ log' = l ++ [(Tcp_connect fd (tcp_dst_addr t), Ok v)]
    end).
Proof.
  intros Hbits Hr. destruct (proxy_reachable_inv Hbits _ _ _ Hr) as [HI _].
  split_and!; [intros i fd a r; apply (pi_calls _ _ _ HI)|intros i fd data a r; apply (pi_calls _ _ _ HI)|].
  apply relay_tcp_open_connects.
Qed.

(** C22. The routes: while the proxy runs, exactly its two routes are installed,
    and they cover every IPv4 address. The shutdown stops all relays; if both
    deletions succeed no route is left, and if one fails the remaining ones stay
    installed. *)
Theorem proxy_routes r0 r1 p :
  32 ≤ usize_bits → proxy_reachable r0 r1 p →
  installed (p_log p) = [r0; r1] ∧
  (∀ a, 0 ≤ a < 2 ^ 32 → covers r0 a ∨ covers r1 a) ∧
  ∃ r p', proxy_shutdown r0 r1 p = Done (r, p') ∧ p_relays p' = [] ∧ app (p_world p') = [] ∧
    match r with
    | Ok _ => installed (p_log p') = []
    | Err _ => installed (p_log p') = [r0; r1] ∨ installed (p_log p') = [r1]
    end.
Proof.
  intros Hbits Hr. destruct (proxy_reachable_inv Hbits _ _ _ Hr) as (HI & i & -> & ->). split_and!.
  - apply HI.
  - intros a. apply capture_all.
  - apply wp_done, (wp_proxy_shutdown Hbits); [done|]. unfold capture_low, capture_high. by intros [=].
Qed.
End Proxy_theorems.

(** ** Routing and allocation *)

Section Allocation_theorems.
Context `{T : Target, HO : HashOrder, W : Wire, E : Engine, K : Tokio, EL : !EngineLaws, WL : !WireLaws}.

(** C23. Routing refines the table of inboxes: delivering the routed datagrams
    one by one to the queues has the effect of the abstract [deliver_all], in
    which a datagram whose flow is not registered disappears. *)
Theorem routing_refines live s now routed :
  Inv 0 live s →
  ∃ s', mfold (route_one now) routed tt s = Done (tt, s') ∧ Inv 0 live s' ∧
    inboxes s' = deliver_all (inboxes s) routed ∧
    ∀ k, activity s' !! k = (λ t, if decide (k ∈ routed.*1) then now else t) <$> activity s !! k.
Proof.
  intros HI. destruct (proj1 (wp_done _ _ _) (wp_route_all 0 live s now routed HI))
    as ([] & s' & Hr & HI' & Hin & Hact & _).
  exists s'. split_and!; [done..|]. intros k. by rewrite Hact, lookup_activity_routed.
Qed.

(** C24. [alloc_tcp] for a new flow: if the budget allows it, the flow is
    registered as pending, on a fresh socket, and charged; otherwise nothing
    changes. *)
Theorem alloc_tcp_result live s (i : nat) sl key :
  Inv 0 live s → slots (core s) !! i = Some sl → interface key = id sl → proto key = Proto_Tcp →
  tcp (manager (core s)) !! key = None → port (dst key) ≠ 0 →
  Z.of_nat (size (tcp (manager (core s)))) < cfg_tcp_max_connections (core_config (core s)) →
  ∃ s', alloc_tcp i key s = Done (tt, s') ∧ alloc_tcp_post s key live s'.
Proof.
  intros. destruct (proj1 (wp_done _ _ _) (wp_alloc_tcp live s i sl key ltac:(done) ltac:(done)
    ltac:(done) ltac:(done) ltac:(done) ltac:(done) ltac:(done))) as ([] & s' & Hp & Hpost).
  by exists s'.
Qed.

(** C25. [alloc_udp] for a new flow: the session object and the entry share a
    fresh open queue; without budget for a new shared socket there is no
    session and nothing is registered. *)
Theorem alloc_udp_result live s (i : nat) sl key now :
  Inv 0 live s → slots (core s) !! i = Some sl → interface key = id sl → proto key = Proto_Udp →
  udp (manager (core s)) !! key = None → port (dst key) ≠ 0 →
  Z.of_nat (size (udp (manager (core s)))) < cfg_udp_max_sessions (core_config (core s)) →
  ∃ r s', alloc_udp i key now s = Done (r, s') ∧ alloc_udp_post s key now live r s'.
Proof.
  intros. destruct (proj1 (wp_done _ _ _) (wp_alloc_udp live s i sl key now ltac:(done) ltac:(done)
    ltac:(done) ltac:(done) ltac:(done) ltac:(done) ltac:(done))) as (r & s' & Hp & Hpost).
  by exists r, s'.
Qed.
End Allocation_theorems.

(** ** Sessions *)

Section Session_theorems.
Context `{T : Target, W : Wire, E : Engine, K : Tokio, EL : !EngineLaws}.

(** C26. Reading from a live stream never panics and answers as the socket does:
    the bytes it has, in order and within the buffer; the end of the stream
    once the peer has finished or the socket is closed; pending otherwise, and
    then the task's waker is registered with the socket. *)
Theorem poll_read_result extra live s t cx buf :
  Inv extra live s → Session_Tcp t ∈ live → 0 ≤ rb_remaining buf →
  ∃ sk r buf' s', sock_of (slots (core s)) (ts_interface t) (ts_handle t) = Some (Socket_Tcp sk) ∧
    poll_read t cx buf s = Done ((r, buf'), s') ∧ Inv extra live s' ∧
    manager (core s') = manager (core s) ∧ 0 ≤ rb_remaining buf' ∧
    read_spec (tcp_recv_slice sk (rb_remaining buf)).1
      (tcp_is_open (tcp_recv_slice sk (rb_remaining buf)).2) buf r buf' ∧
    sock_of (slots (core s')) (ts_interface t) (ts_handle t) = Some (Socket_Tcp
      (parked r (λ sk, tcp_register_recv_waker sk cx) (tcp_recv_slice sk (rb_remaining buf)).2)).
Proof.
  intros HI Hin Hbuf. destruct (live_tcp_socket _ _ _ _ HI Hin) as (n & sl & sk & Hsl & Hn & _ & Hg).
  destruct (proj1 (wp_done _ _ _) (wp_poll_read extra live s t cx buf n sl sk HI Hsl Hn Hg Hbuf))
    as ([r buf'] & s' & Hp & HI' & Hm & Hk & Hs).
  exists sk, r, buf', s'. split_and!; [unfold sock_of, slot_mut in *; by rewrite Hsl|done..| |done|done].
  by eapply read_spec_fits.
Qed.

(** C27. Writing to a live stream: the number of bytes the socket took, if any;
    an error once the connection is closed; pending otherwise, and then the
    task's waker is registered with the socket. *)
Theorem poll_write_result extra live s t cx data :
  Inv extra live s → Session_Tcp t ∈ live →
  ∃ sk r s', sock_of (slots (core s)) (ts_interface t) (ts_handle t) = Some (Socket_Tcp sk) ∧
    poll_write t cx data s = Done (r, s') ∧ Inv extra live s' ∧ manager (core s') = manager (core s) ∧
    write_spec (tcp_send_slice sk data).1 (tcp_is_open (tcp_send_slice sk data).2) r ∧
    (∀ k, r = Poll_Ready (Ok k) → 0 < k ≤ Z.of_nat (length data)) ∧
    sock_of (slots (core s')) (ts_interface t) (ts_handle t) = Some (Socket_Tcp
      (parked r (λ sk, tcp_register_send_waker sk cx) (tcp_send_slice sk data).2)).
Proof.
  intros HI Hin. destruct (live_tcp_socket _ _ _ _ HI Hin) as (n & sl & sk & Hsl & Hn & _ & Hg).
  destruct (proj1 (wp_done _ _ _) (wp_poll_write extra live s t cx data n sl sk HI Hsl Hn Hg))
    as (r & s' & Hp & HI' & Hm & Hk & Hs).
  exists sk, r, s'. split_and!; [unfold sock_of, slot_mut in *; by rewrite Hsl|done..| |done].
  intros k ->. destruct (tcp_send_slice sk data) as [[m|[]] sk'] eqn:Er; simpl in Hs.
  - apply tcp_send_slice_len in Er. case_bool_decide; [|done]. injection Hs as <-. lia.
  - by destruct (tcp_is_open sk').
Qed.

(** C28. Dropping a stream closes its socket and orphans its entry, and touches
    no other entry: this one stays until the post-pass sees the socket closed. *)
Theorem tcp_drop_result extra l1 t l2 s :
  Inv extra (l1 ++ Session_Tcp t :: l2) s →
  ∃ e sk s', tcp (manager (core s)) !! ts_key t = Some e ∧
    sock_of (slots (core s)) (ts_interface t) (ts_handle t) = Some (Socket_Tcp sk) ∧
    tcp_drop t s = Done (tt, s') ∧ Inv extra (l1 ++ l2) s' ∧
    manager (core s') = set_tcp (<[ts_key t := {| handle := handle e; state := state e; orphaned := true |}]>
      (tcp (manager (core s)))) (manager (core s)) ∧
    sock_of (slots (core s')) (ts_interface t) (ts_handle t) = Some (Socket_Tcp (closed_socket sk)).
Proof.
  intros HI. destruct (proj1 (wp_done _ _ _) (wp_tcp_drop extra l1 t l2 s HI))
    as ([] & s' & Hp & HI' & e & sk & He & Hm & Hk & Hk'). by exists e, sk, s'.
Qed.

(** C29. Receiving on a live UDP session takes the oldest datagram; on an empty
    queue it waits while the session is registered and reports the end
    afterwards. *)
Theorem recv_result extra live s u :
  Inv extra live s → Session_Udp u ∈ live →
  ∃ uq uq' r s', queues s !! us_queue u = Some uq ∧ recv u s = Done (r, s') ∧ Inv extra live s' ∧
    core s' = core s ∧ queues s' = <[us_queue u := uq']> (queues s) ∧ recv_spec uq r uq'.
Proof.
  intros HI Hin. destruct (live_udp_queue _ _ _ _ HI Hin) as (uq & Hq).
  destruct (proj1 (wp_done _ _ _) (wp_recv extra live s u uq HI Hq))
    as (r & s' & Hp & HI' & Hc & uq' & Hq' & Hs). by exists uq, uq', r, s'.
Qed.

(** C30. Sending on a live UDP session: an error exactly if the session is gone
    or the socket refuses the target, pending exactly if the buffer is full. *)
Theorem send_result extra live s u payload :
  Inv extra live s → Session_Udp u ∈ live →
  ∃ uq r s', queues s !! us_queue u = Some uq ∧ send u payload s = Done (r, s') ∧ Inv extra live s' ∧
    manager (core s') = manager (core s) ∧
    if closed uq then r = Poll_Ready (Err UdpNotOpen)
    else ∃ sk, sock_of (slots (core s)) (us_interface u) (us_socket u) = Some (Socket_Udp sk) ∧
      send_spec (send_outcome false (udp_send_slice sk payload (src (us_key u))).1) r.
Proof.
  intros HI Hin. destruct (proj1 (wp_done _ _ _) (wp_send extra live s u payload HI Hin))
    as (r & s' & Hp & HI' & Hm & uq & Hq & Hs). by exists uq, r, s'.
Qed.

(** C31. Dropping a UDP session removes the entry under its key and settles the
    budget at once: afterwards the budget is exact again. *)
Theorem udp_drop_result l1 u l2 s :
  Inv 0 (l1 ++ Session_Udp u :: l2) s →
  ∃ s', udp_drop u s = Done (tt, s') ∧ Inv 0 (l1 ++ l2) s' ∧
    udp (manager (core s')) = delete (us_key u) (udp (manager (core s))) ∧
    tcp (manager (core s')) = tcp (manager (core s)) ∧
    buffer_bytes (core s') = charged (core_config (core s')) (manager (core s')).
Proof.
  intros HI. destruct (proj1 (wp_done _ _ _) (wp_udp_drop 0 l1 u l2 s HI))
    as ([] & s' & Hp & HI' & Hu & Ht). exists s'. split_and!; [done..|].
  by rewrite (inv_budget _ _ _ HI'), Z.add_0_r.
Qed.

(** C32. The entry is looked up by key alone: dropping a session that was reaped
    earlier takes a newer session of the same flow out of the table and closes
    its queue, although that session is still in use. *)
Theorem stale_drop_closes_successor l1 u l2 s u2 uq :
  Inv 0 (l1 ++ Session_Udp u :: l2) s → Session_Udp u2 ∈ l1 ++ l2 → us_key u2 = us_key u →
  queues s !! us_queue u2 = Some uq → closed uq = false →
  ∃ s' uq', udp_drop u s = Done (tt, s') ∧ udp (manager (core s')) !! us_key u2 = None ∧
    queues s' !! us_queue u2 = Some uq' ∧ closed uq' = true.
Proof.
  intros HI Hin Hk _ _. destruct (proj1 (wp_done _ _ _) (wp_udp_drop 0 l1 u l2 s HI))
    as ([] & s' & Hp & HI' & Hu & _).
  destruct (live_udp _ _ _ (inv_live _ _ _ HI') _ Hin) as (_ & uq' & Hq' & Hopen).
  exists s', uq'. rewrite Hk in *. rewrite Hu, lookup_delete_eq in *. split_and!; [done..|].
  destruct (closed uq'); [done|]. by destruct Hopen as (? & ? & _).
Qed.
End Session_theorems.

(** ** The handle and the components *)

Section Component_theorems.
Context `{T : Target, W : Wire, E : Engine, K : Tokio}.

(** C33. [send_ip_packet] queues the packet behind the earlier ones and notifies
    the runner, or refuses it and changes nothing: for an unknown interface,
    on a full channel, after the runner has stopped. *)
Theorem send_ip_packet_result `{EL : !EngineLaws, KL : !TokioLaws} i data n :
  ∃ r n', send_ip_packet i data n = Done (r, n') ∧ send_ip_post i data n r n'.
Proof. apply wp_done, wp_send_ip_packet. Qed.

(** C34. A queue is first-in first-out and closing it loses nothing: after any
    pushes and a close, the receiver gets what was there before, then the
    pushed datagrams in order, then the end. *)
Theorem queue_fifo l q :
  ∃ q1 q2 q3, push_all l q = Done (tt, q1) ∧ mark_closed q1 = Done (tt, q2) ∧
    pop_n (length (inner q) + length l) q2 = Done (Some <$> (inner q ++ l), q3) ∧
    pop q3 = Done (None, q3) ∧ is_closed q3 = Done (true, q3).
Proof.
  destruct (proj1 (wp_done _ _ _) (push_all_inner l q)) as ([] & q1 & Hp & Hi & Hc).
  set (q2 := {| inner := inner q1; notify := notify_waiters (notify q1); closed := true |}).
  destruct (proj1 (wp_done _ _ _) (pop_n_inner (length (inner q) + length l) q2 ltac:(simpl; by rewrite Hi, length_app)))
    as (r & q3 & Hn & -> & Hnil & Hcl).
  exists q1, q2, q3. split_and!; [done|done|by rewrite Hn; simpl; rewrite Hi| |].
  - unfold pop, mbind, M_bind, mget. by rewrite Hnil.
  - unfold is_closed, mgets. by rewrite Hcl.
Qed.

(** C35. The budget: a reservation is granted exactly if the total stays within
    the cap (a total equal to the cap is granted), and releasing it restores
    the budget. *)
Theorem reserve_release bytes c :
  0 ≤ bytes → 0 ≤ buffer_bytes c → buffer_bytes c + bytes ≤ usize_max →
  ∃ c', reserve_buffer bytes c =
      Done (within (cfg_max_buffer_bytes (core_config c)) (buffer_bytes c + bytes), c') ∧
    if within (cfg_max_buffer_bytes (core_config c)) (buffer_bytes c + bytes)
    then buffer_bytes c' = buffer_bytes c + bytes ∧ release_buffer bytes c' = Done (tt, c)
    else c' = c.
Proof.
  intros Hb Hc Hov.
  destruct (proj1 (wp_done _ _ _) (wp_reserve_buffer bytes (λ r c',
    r = within (cfg_max_buffer_bytes (core_config c)) (buffer_bytes c + bytes) ∧
    c' = if r then set_buffer_bytes (buffer_bytes c + bytes) c else c) c Hov
    ltac:(destruct (within _ _); done))) as (r & c' & Hr & -> & ->).
  eexists. split; [done|]. destruct (within _ _); [|done]. split; [done|].
  unfold release_buffer, mmodify, saturating_sub. simpl. do 2 f_equal.
  destruct c. unfold set_buffer_bytes. simpl in *. f_equal. lia.
Qed.

(** C36. A due poll is not taken at once: a delay of zero becomes a sleep of one
    hour, so a runner that comes to its loop when a poll is due and no packet
    is queued blocks until something else wakes it. *)
Theorem due_poll_oversleeps `{HO : HashOrder, KL : !TokioLaws} now w :
  pc w = R_Top → next_poll_delay now (shared (net w)) = Some 0 →
  chan_try_recv (ingress_chan (net w)) = Err TryRecv_Empty →
  ∃ f w', run_actions [Run now false; Run now false] w = Done w' ∧
    pc w' = R_Waiting f (from_secs 3600) ∧ next_poll_delay now (shared (net w')) = Some 0 ∧
    perform (Run now false) w' = None.
Proof.
  intros Hpc Hd Hc. do 2 eexists. unfold run_actions, perform. rewrite Hpc. simpl. rewrite Hd. simpl.
  split_and!; [done|done|done|]. simpl. unfold run_select. simpl. by rewrite notified_fresh, Hc.
Qed.

(** C37. A receiver that already waits is woken: a datagram pushed to its queue is
    returned, and closing the queue ends the wait. But a datagram pushed after
    the receiver has found its queue empty and open and before it has created
    its future is not noticed: the receiver waits with the datagram in its
    queue, however often it is polled. *)
Theorem recv_waits `{KL : !TokioLaws} u uq d s :
  queues s !! us_queue u = Some uq → inner uq = [] →
  (∃ s1 s2, push_step u d s = Done (tt, s1) ∧
    recv_steps 2 u (Recv_Wait (notified (notify uq))) s1 = Done (Recv_Return (Some d), s2)) ∧
  (∃ s1 s2, close_step u s = Done (tt, s1) ∧
    recv_steps 3 u (Recv_Wait (notified (notify uq))) s1 = Done (Recv_Return None, s2)) ∧
  (closed uq = false → ∃ f s' uq', gap_schedule u d s = Done (Recv_Wait f, s') ∧
    queues s' !! us_queue u = Some uq' ∧ inner uq' = [d] ∧
    ∀ n, recv_steps n u (Recv_Wait f) s' = Done (Recv_Wait f, s')).
Proof.
  intros Hq Hi. split_and!; [by apply recv_woken_push|by apply recv_woken_close|].
  intros Hc. by apply (recv_gap _ uq).
Qed.
End Component_theorems.

(** ** Waiting for the runner *)

Section Waiting_theorems.
Context `{T : Target, W : Wire, E : Engine, K : Tokio, EL : !EngineLaws, WL : !WireLaws, KL : !TokioLaws}.

(** C38. The entry of a handshake that is not completed is never reclaimed: on
    every run from a reachable state, for however long and whatever happens to
    the socket, a pending entry whose session is not opened is still in the
    table at the end, unchanged, and its share of the budget is still taken. *)
Theorem pending_entry_stays b w evs w' k e :
  builder_ok b → reachable b w →
  tcp (manager (core (shared (net w)))) !! k = Some e → state e = TcpState_Pending →
  trace w evs w' → k ∉ omap session_tcp_key (Pipeline.opened evs) →
  tcp (manager (core (shared (net w')))) !! k = Some e ∧
  tcp_socket_cost (config b) ≤ buffer_bytes (core (shared (net w'))).
Proof.
  intros Hb Hr Hk Hp Ht Hn. pose proof (reachable_sys_inv _ _ Hb Hr) as HI.
  destruct (trace_pending _ _ _ k e Ht HI (conj Hk Hp) Hn) as [HI' Hk'].
  split; [apply Hk'|]. rewrite <- (reachable_config b w Hb Hr), <- (steps_config w w' (trace_steps _ _ _ Ht)).
  by apply (pending_budget w' k e).
Qed.

(** C39. A sender that waits for the end of a cycle before the cycle begins to
    poll tries again when the runner is back at the head of its loop (unless the
    egress channel is full). But a sender that finds the buffer full at the end
    of a cycle can miss it: it nudges a runner that does not wait yet, the cycle
    ends and the runner waits again before the sender has asked for the end of a
    cycle; then, with no packet queued, the sender and the runner both wait,
    however often they are polled. *)
Theorem send_waits `{HO : HashOrder} b w (i : nat) u payload now :
  builder_ok b → reachable b w → app w !! i = Some (Session_Udp u) →
  (pc w = R_Polling → ∃ n w', run_alone n now w = Done w' ∧
    ((pc w' = R_Top ∧ send_step u payload (Send_Wait (notified (world_done w))) (shared (net w')) =
        Done (Send_Try, shared (net w'))) ∨ (pc w' = R_Forwarding ∧ blocked w'))) ∧
  (∀ s1, pc w = R_PollDone → has_handle w = true → chan_items (ingress_chan (net w)) = [] →
    send_step u payload Send_Try (shared (net w)) = Done (Send_Nudge, s1) →
    ∃ w' f g d, run_actions (gap_run i payload now) w = Done w' ∧
      send_step u payload Send_Subscribe (shared (net w')) = Done (Send_Wait f, shared (net w')) ∧
      pc w' = R_Waiting g d ∧ perform (Run now false) w' = None ∧
      ∀ n, send_steps n u payload (Send_Wait f) (shared (net w')) = Done (Send_Wait f, shared (net w'))).
Proof.
  intros Hb Hr Hi. pose proof (reachable_wiring _ _ Hb Hr) as Hw. split.
  - intros Hpc. apply cycle_wakes_sender; [by eapply reachable_sys_inv|done..].
  - intros s1 Hpc Hh Hc Ht. eapply gap_run_stuck; [done..| |exact Ht]. by apply ingress_empty.
Qed.

(** C40. A write that succeeds does not wake the runner, nor does a flush: if the
    runner waits, it goes on waiting although the socket now has octets in its
    transmit buffer. *)
Theorem write_leaves_runner_waiting `{HO : HashOrder} b w (i : nat) t cx data n s' f d now :
  builder_ok b → reachable b w →
  pc w = R_Waiting f d → perform (Run now false) w = None → app w !! i = Some (Session_Tcp t) →
  poll_write t cx data (shared (net w)) = Done (Poll_Ready (Ok n), s') →
  ∃ w' sk, run_actions [On_session i (Op_Write cx data); On_session i (Op_Flush cx)] w = Done w' ∧
    shared (net w') = s' ∧
    sock_of (slots (core s')) (ts_interface t) (ts_handle t) = Some (Socket_Tcp sk) ∧ 0 < tcp_send_queue sk ∧
    pc w' = R_Waiting f d ∧ perform (Run now false) w' = None.
Proof.
  intros Hb Hr Hpc Hrun Hi Hw. pose proof (poll_write_quiet _ _ _ _ _ _ Hw) as Hq.
  assert (Session_Tcp t ∈ live_sessions w) as Hin by (apply elem_of_app; left; by eapply list_elem_of_lookup_2).
  destruct (write_queues _ _ _ _ _ _ _ _ (reachable_sys_inv _ _ Hb Hr) Hin Hw) as (sk & Hsk & Hpos).
  exists (set_net (set_shared s' (net w)) w), sk. split_and!; [|done|done|done|done|].
  - erewrite run_actions_cons; [|by apply (perform_op w i (Session_Tcp t))|].
    2: { apply in_shared_done. unfold mbind, M_bind. by rewrite Hw. }
    erewrite run_actions_cons; [|by apply (perform_op _ i (Session_Tcp t))|done]. done.
  - revert Hrun. simpl. rewrite Hpc. unfold run_select. simpl. rewrite Hq. done.
Qed.
End Waiting_theorems.
