(* ===== verification/Witnesses.v ===== *)
(** * Witnesses

    For every theorem of [Theorems.v] with hypotheses, an application at a
    concrete state of the reference engine, most of them states of the runs of
    [Traces.v]: the hypotheses can hold together, and the conclusions say
    something there. *)
From stdpp Require Import base list gmap.
From S2P Require Import Prelude Types Device Smoltcp Reference Config Manager Core Packet Session Flow Invariant Streams StreamsCorrect Wakeup Runner RunnerCorrect UdpCorrect CycleCorrect Handle HandleCorrect Builder System ConfigKept OrderFree SystemCorrect FlowCorrect Progress Addresses Waiting TunProxy TunProxyCorrect Traces Theorems.

Local Open Scope Z_scope.

(** The shared state of a run. *)
Definition sh (w : World) : Shared := shared (net w).

(** An open queue that was notified once. *)
Definition demo_queue (items : list Bytes) : UdpQueue (K := ref_tokio) :=
  mkUdpQueue items (1%nat : Notify (Tokio := ref_tokio)) false.

(** Decidable facts about concrete states. *)
Ltac compute_true := apply (bool_decide_unpack _); vm_compute; exact I.

(** Equations between concrete values. *)
Ltac vm_eq := lazymatch goal with |- _ = ?b => vm_cast_no_check (@eq_refl _ b) end.

(** ** The system *)

Lemma reachable_never_crashes_witness : reachable demo_builder w_stale ∧ ¬ crashes w_stale.
Proof.
  split; [apply demo_reachable|].
  apply (reachable_never_crashes demo_builder w_stale demo_builder_ok (demo_reachable _)).
Defined.

Lemma reachable_budget_witness :
  buffer_bytes (core (sh w_tcp)) = 32768 ∧
  buffer_bytes (core (sh w_tcp)) =
    tcp_socket_cost (config demo_builder) * Z.of_nat (size (tcp (manager (core (sh w_tcp))))) +
    udp_socket_cost (config demo_builder) * Z.of_nat (size (udp_dst_sockets (manager (core (sh w_tcp))))).
Proof.
  split; [vm_eq|].
  apply (reachable_budget demo_builder w_tcp demo_builder_ok (demo_reachable _)).
Defined.

Lemma reachable_refcounts_witness :
  ∃ sk, sock_of (slots (core (sh w_udp))) if1 0 = Some (Socket_Udp sk).
Proof.
  apply (proj1 (reachable_refcounts demo_builder w_udp demo_builder_ok (demo_reachable _))
    if1 (mkIpEndpoint (Ipv4 resolver) 53) 0%nat 1).
  vm_eq.
Defined.

Lemma reachable_streams_witness :
  ∃ e sk, tcp (manager (core (sh w_tcp))) !! tcp_key = Some e ∧
    sock_of (slots (core (sh w_tcp))) if1 0 = Some (Socket_Tcp sk).
Proof.
  destruct (proj2 (reachable_streams demo_builder w_tcp demo_builder_ok (demo_reachable _)) demo_stream)
    as (e & sk & He & _ & _ & _ & Hsk); [compute_true|].
  exists e, sk. split; [exact He|exact Hsk].
Defined.

Lemma reachable_udp_sessions_witness :
  ∃ uq, queues (sh w_udp) !! 0%nat = Some uq.
Proof.
  destruct (reachable_udp_sessions demo_builder w_udp demo_builder_ok (demo_reachable _) (demo_session 0 0))
    as (uq & Hq & _); [compute_true|]. exists uq. exact Hq.
Defined.

Lemma build_result_witness :
  ∃ n, build demo_builder demo_clock [] = Done (Ok n, [(mi_option_allow_large_os_pages, 0); (mi_option_allow_thp, 1)]) ∧
    built demo_builder n.
Proof. apply (build_result demo_builder demo_clock [] demo_builder_ok). Defined.

(** ** The cycle *)

Lemma poll_cycle_witness :
  ∃ accepted out s', poll_locked 20 (sh w_polling) = Done ((accepted, out), s') ∧
    Inv 0 (live_sessions w_polling ++ accepted) s'.
Proof.
  destruct (poll_cycle (live_sessions w_polling) (sh w_polling) 20 (demo_inv _))
    as (accepted & out & s' & H1 & H2 & _). exists accepted, out, s'. split; [exact H1|exact H2].
Defined.

Lemma post_pass_tcp_witness :
  ∃ acc' s', post_pass 50 [] (sh w_tcp) = Done (acc', s') ∧
    is_Some (tcp (manager (core (sh w_tcp))) !! tcp_key).
Proof.
  destruct (post_pass_tcp (live_sessions w_tcp) (sh w_tcp) 50 [] (demo_inv _)) as (acc' & s' & Hp & _).
  exists acc', s'. split; [exact Hp|]. compute_true.
Defined.

Lemma post_pass_udp_witness :
  ∃ acc' s', post_pass 40000000 [] (sh w_udp) = Done (acc', s') ∧
    session_fate 40000000 30000000 (sh w_udp) s' udp_key {| socket := 0; queue := 0; last_activity := 20 |}.
Proof.
  destruct (post_pass_udp (live_sessions w_udp) (sh w_udp) 40000000 [] (demo_inv _)) as [(acc' & s' & Hp & Hf & _) _].
  exists acc', s'. split; [exact Hp|]. apply Hf. vm_eq.
Defined.

Lemma pre_pass_admits_witness :
  ∃ new s', pre_pass 20 [] (sh w_polling) = Done (new, s') ∧ flow_admitted s' if1 query_packet ∧
    sessions_opened (udp (manager (core (sh w_polling)))) (udp (manager (core s'))) new.
Proof.
  destruct (pre_pass_admits (live_sessions w_polling) (sh w_polling) 20 [] (demo_inv _))
    as (new & s' & Hp & _ & _ & Ho & _ & Ha). exists new, s'. split; [exact Hp|]. split; [|exact Ho].
  set (sl := set_device (mkVirtualDevice 1500 [query_packet] []) demo_slot).
  assert (slots (core (sh w_polling)) !! 0%nat = Some sl) as Hsl by (vm_eq).
  assert (query_packet ∈ ingress (device sl)) as Hin by (left).
  exact (Ha 0%nat sl query_packet Hsl Hin).
Defined.

(** ** Packets and sessions from end to end *)

(** The application keeps both its ends in a run. *)
Definition keeps_ends (evs : list Pipeline.event) : bool :=
  forallb (λ e, match e with Pipeline.Egress_dropped | Pipeline.Handle_dropped => false | _ => true end) evs.

Lemma ends_egress evs : keeps_ends evs = true → Pipeline.Egress_dropped ∉ evs.
Proof. intros Hk Hin. apply list_elem_of_In in Hin. apply (proj1 (forallb_forall _ _) Hk) in Hin. done. Qed.

Lemma ends_handle evs : keeps_ends evs = true → Pipeline.Handle_dropped ∉ evs.
Proof. intros Hk Hin. apply list_elem_of_In in Hin. apply (proj1 (forallb_forall _ _) Hk) in Hin. done. Qed.

Lemma pipeline_refines_witness :
  length (run_events open_tcp demo_world) = 5%nat ∧
  Pipeline.exec [if1] (run_events open_tcp demo_world) (abs w_tcp).
Proof.
  split; [vm_eq|]. apply (proj1 (pipeline_refines demo_builder demo_builder_ok)).
  apply (demo_execution open_tcp). vm_eq.
Defined.




(** The answer to the first packet has been read. *)
Definition tcp_egress : list action := open_tcp ++ [Egress; Send_ip if1 syn_packet] ++ cycle 40.

Lemma egress_exactly_once_witness :
  length (Pipeline.delivered (run_events tcp_egress demo_world)) = 1%nat ∧
  Pipeline.emitted (run_events tcp_egress demo_world) =
    Pipeline.delivered (run_events tcp_egress demo_world) ++
    chan_items (egress_chan (net (run_from demo_world tcp_egress))) ++
    scratch_egress (run_from demo_world tcp_egress).
Proof.
  split; [vm_eq|].
  apply (egress_exactly_once demo_builder (run_events tcp_egress demo_world) (run_from demo_world tcp_egress)
    demo_builder_ok); [apply demo_execution; vm_eq|].
  apply ends_egress. vm_eq.
Defined.

Lemma sessions_exactly_once_witness :
  Pipeline.handed (run_events open_udp demo_world) = [Session_Udp (demo_session 0 0)] ∧
  Pipeline.opened (run_events open_udp demo_world) =
    Pipeline.handed (run_events open_udp demo_world) ++ chan_items (accept_chan (net w_udp)) ++ scratch_accepted w_udp.
Proof.
  split; [vm_eq|].
  apply (sessions_exactly_once demo_builder (run_events open_udp demo_world) w_udp demo_builder_ok);
    [apply (demo_execution open_udp); vm_eq|apply ends_egress; vm_eq|apply ends_handle; vm_eq].
Defined.

Lemma reachable_typed_witness : typed (Session_Tcp demo_stream).
Proof.
  apply (reachable_typed demo_builder w_tcp (Session_Tcp demo_stream) demo_builder_ok (demo_reachable _)).
  compute_true.
Defined.

(** The other order of every map. *)
Definition rev_order : HashOrder :=
  {| hash_iter := λ K V _ _ m, reverse (map_to_list m);
     hash_iter_perm := λ K V _ _ m, reverse_Permutation _ |}.

Lemma cycle_order_free_witness :
  ∃ acc1 acc2 out s1 s2,
    poll_locked (HO := std_order) 20 (sh w_polling) = Done ((acc1, out), s1) ∧
    poll_locked (HO := rev_order) 20 (sh w_polling) = Done ((acc2, out), s2) ∧
    acc1 ≡ₚ acc2.
Proof.
  destruct (cycle_order_free std_order rev_order (live_sessions w_polling) (sh w_polling) 20 (demo_inv _))
    as (acc1 & acc2 & out & s1 & s2 & H1 & H2 & Hp & _).
  exists acc1, acc2, out, s1, s2. split_and!; [exact H1|exact H2|exact Hp].
Defined.

Lemma runner_serves_witness :
  ∃ n1 w1, run_alone n1 20 w_queued = Done w1 ∧ pc w1 = R_Polling ∧
    shared (net w1) = feed_all [mkIngressPacket if1 query_packet] (sh w_queued).
Proof.
  assert (chan_items (ingress_chan (net w_queued)) = [mkIngressPacket if1 query_packet]) as Hc by vm_eq.
  destruct (proj2 (runner_serves demo_builder w_queued 20 demo_builder_ok (demo_reachable _))
    0%nat (from_secs 3600)) as (n1 & w1 & _ & _ & H1 & H2 & _ & H3 & _).
  - vm_eq.
  - rewrite Hc. discriminate.
  - rewrite Hc in H3. exists n1, w1. split_and!; [exact H1|exact H2|exact H3].
Defined.

Lemma drain_equivalent_witness :
  ∃ n, drain_ingress 3 (net w_draining) = Done (tt, n) ∧
    run_alone 3 20 w_draining = Done (set_pc R_Polling (set_net n w_draining)).
Proof.
  assert (length (chan_items (ingress_chan (net w_draining))) = 2%nat) as Hl by vm_eq.
  destruct (drain_equivalent 20 w_draining) as (c & H1 & H2 & _); [compute_true|vm_eq|].
  rewrite Hl in H1, H2. eexists. split; [exact H1|exact H2].
Defined.

(** ** The proxy *)

Lemma wide_enough : 32 ≤ usize_bits.
Proof. vm_compute. discriminate. Qed.

Lemma proxy_refines_witness :
  p_relays p_relayed = [Relay_Tcp_Copy 5] ∧ reachable proxy_stack (p_world p_relayed).
Proof.
  split; [vm_eq|].
  apply (proxy_refines demo_r0 demo_r1 p_relayed wide_enough (proxy_from_reachable _)).
Defined.

Lemma proxy_panics_witness : tun_read (Ok [69]) p_full = Panic ExpectFailed.
Proof.
  pose proof (proxy_panics demo_r0 demo_r1 p_full (P_Tun (Ok [69])) (tun_read (Ok [69])) wide_enough
    (proxy_from_reachable _)) as Hp.
  assert (p_looping p_full = true) as Hl by vm_eq.
  assert (overflows (P_Tun (Ok [69])) p_full = true) as Ho by vm_eq.
  rewrite Ho in Hp. apply Hp. unfold proxy_perform. rewrite Hl. reflexivity.
Defined.

Lemma proxy_outbound_witness :
  tcp_bound (take 9 (p_log p_relayed)) 5 ∧ is_v4 (mkSocketAddr (V4 server) 80).
Proof.
  apply (proj1 (proxy_outbound demo_r0 demo_r1 p_relayed wide_enough (proxy_from_reachable _))
    9%nat 5 (mkSocketAddr (V4 server) 80) (Ok 9)). vm_eq.
Defined.

Lemma proxy_routes_witness :
  installed (p_log p_relayed) = [demo_r0; demo_r1] ∧
  ∃ r p', proxy_shutdown demo_r0 demo_r1 p_relayed = Done (r, p') ∧ p_relays p' = [].
Proof.
  destruct (proxy_routes demo_r0 demo_r1 p_relayed wide_enough (proxy_from_reachable _))
    as (Hi & _ & r & p' & Hs & Hr & _).
  split; [exact Hi|]. exists r, p'. split; [exact Hs|exact Hr].
Defined.

(** ** Routing and allocation *)

Lemma routing_refines_witness :
  ∃ s', mfold (route_one 60) [(udp_key, [9]); (tcp_key, [8])] tt (sh w_udp) = Done (tt, s') ∧
    inboxes s' !! udp_key = Some [[1; 2; 3]; [9]].
Proof.
  destruct (routing_refines (live_sessions w_udp) (sh w_udp) 60 [(udp_key, [9]); (tcp_key, [8])] (demo_inv _))
    as (s' & Hp & _ & Hi & _). exists s'. split; [exact Hp|]. rewrite Hi. vm_eq.
Defined.

Lemma alloc_tcp_result_witness :
  ∃ s', alloc_tcp 0 tcp_key (sh demo_world) = Done (tt, s') ∧
    alloc_tcp_post (sh demo_world) tcp_key (live_sessions demo_world) s'.
Proof.
  apply (alloc_tcp_result (live_sessions demo_world) (sh demo_world) 0 demo_slot tcp_key).
  - apply (demo_inv []).
  - vm_eq.
  - reflexivity.
  - reflexivity.
  - vm_eq.
  - discriminate.
  - vm_compute. reflexivity.
Defined.

Lemma alloc_udp_result_witness :
  ∃ r s', alloc_udp 0 udp_key 20 (sh demo_world) = Done (r, s') ∧
    alloc_udp_post (sh demo_world) udp_key 20 (live_sessions demo_world) r s'.
Proof.
  apply (alloc_udp_result (live_sessions demo_world) (sh demo_world) 0 demo_slot udp_key 20).
  - apply (demo_inv []).
  - vm_eq.
  - reflexivity.
  - reflexivity.
  - vm_eq.
  - discriminate.
  - vm_compute. reflexivity.
Defined.

(** ** Sessions *)

Lemma poll_read_result_witness :
  ∃ r buf' s', poll_read demo_stream 0 (mkReadBuf [] 16) (sh w_tcp) = Done ((r, buf'), s') ∧ 0 ≤ rb_remaining buf'.
Proof.
  destruct (poll_read_result 0 (live_sessions w_tcp) (sh w_tcp) demo_stream 0 (mkReadBuf [] 16))
    as (sk & r & buf' & s' & _ & Hp & _ & _ & Hb & _ & _).
  - apply (demo_inv _).
  - compute_true.
  - vm_compute. discriminate.
  - exists r, buf', s'. split; [exact Hp|exact Hb].
Defined.

Lemma poll_write_result_witness :
  ∃ r s', poll_write demo_stream 0 [1; 2; 3] (sh w_tcp) = Done (r, s') ∧
    (∀ k, r = Poll_Ready (Ok k) → 0 < k ≤ 3).
Proof.
  destruct (poll_write_result 0 (live_sessions w_tcp) (sh w_tcp) demo_stream 0 [1; 2; 3])
    as (sk & r & s' & _ & Hp & _ & _ & _ & Hb & _).
  - apply (demo_inv _).
  - compute_true.
  - exists r, s'. split; [exact Hp|exact Hb].
Defined.

Lemma tcp_drop_result_witness :
  ∃ e s', tcp (manager (core (sh w_tcp))) !! tcp_key = Some e ∧ tcp_drop demo_stream (sh w_tcp) = Done (tt, s').
Proof.
  destruct (tcp_drop_result 0 [] demo_stream [] (sh w_tcp)) as (e & sk & s' & He & _ & Hp & _).
  - assert (live_sessions w_tcp = [Session_Tcp demo_stream]) as Hl by (vm_eq).
    pose proof (demo_inv open_tcp) as HI. unfold sys_inv in HI. fold w_tcp in HI. rewrite Hl in HI. exact HI.
  - exists e, s'. split; [exact He|exact Hp].
Defined.

Lemma recv_result_witness :
  ∃ r s', recv (demo_session 0 0) (sh w_udp) = Done (r, s') ∧ r = Poll_Ready (Some [1; 2; 3]).
Proof.
  destruct (recv_result 0 (live_sessions w_udp) (sh w_udp) (demo_session 0 0))
    as (uq & uq' & r & s' & Hq & Hp & _ & _ & _ & _ & Hs).
  - apply (demo_inv _).
  - compute_true.
  - exists r, s'. split; [exact Hp|].
    assert (queues (sh w_udp) !! 0%nat = Some (demo_queue [[1; 2; 3]])) as Hq'
      by (vm_eq).
    change (us_queue (demo_session 0 0)) with 0%nat in Hq. rewrite Hq' in Hq. injection Hq as <-. apply Hs.
Defined.

Lemma send_result_witness :
  ∃ r s', send (demo_session 0 0) [7; 7] (sh w_udp) = Done (r, s') ∧ Inv 0 (live_sessions w_udp) s'.
Proof.
  destruct (send_result 0 (live_sessions w_udp) (sh w_udp) (demo_session 0 0) [7; 7])
    as (uq & r & s' & _ & Hp & HI & _).
  - apply (demo_inv _).
  - compute_true.
  - exists r, s'. split; [exact Hp|exact HI].
Defined.

Lemma udp_live : live_sessions w_udp = [Session_Udp (demo_session 0 0)].
Proof. vm_eq. Qed.

Lemma stale_live : live_sessions w_stale = [Session_Udp (demo_session 0 0); Session_Udp (demo_session 1 1)].
Proof. vm_eq. Qed.

Lemma udp_drop_result_witness :
  ∃ s', udp_drop (demo_session 0 0) (sh w_udp) = Done (tt, s') ∧ Inv 0 [] s'.
Proof.
  destruct (udp_drop_result [] (demo_session 0 0) [] (sh w_udp)) as (s' & Hp & HI & _).
  - pose proof (demo_inv open_udp) as HI. unfold sys_inv in HI. fold w_udp in HI. rewrite udp_live in HI. exact HI.
  - exists s'. split; [exact Hp|exact HI].
Defined.

Lemma stale_drop_closes_successor_witness :
  ∃ s' uq', udp_drop (demo_session 0 0) (sh w_stale) = Done (tt, s') ∧
    udp (manager (core s')) !! udp_key = None ∧ queues s' !! 1%nat = Some uq' ∧ closed uq' = true.
Proof.
  apply (stale_drop_closes_successor [] (demo_session 0 0) [Session_Udp (demo_session 1 1)] (sh w_stale)
    (demo_session 1 1) (demo_queue [[1; 2; 3]])).
  - simpl. rewrite <- stale_live. apply (demo_inv _).
  - compute_true.
  - reflexivity.
  - vm_eq.
  - reflexivity.
Defined.

(** ** The handle and the components *)

Lemma send_ip_packet_result_witness :
  ∃ r n', send_ip_packet if1 query_packet demo_net = Done (r, n') ∧ send_ip_post if1 query_packet demo_net r n'.
Proof. apply (send_ip_packet_result if1 query_packet demo_net). Defined.

Lemma reserve_release_witness :
  ∃ c', reserve_buffer 32768 (core (sh demo_world)) = Done (true, c') ∧
    release_buffer 32768 c' = Done (tt, core (sh demo_world)).
Proof.
  destruct (reserve_release 32768 (core (sh demo_world))) as (c' & Hr & Hc);
    [vm_compute; discriminate..|]. exists c'.
  assert (within (cfg_max_buffer_bytes (core_config (core (sh demo_world))))
    (buffer_bytes (core (sh demo_world)) + 32768) = true) as Hw by (vm_eq).
  rewrite Hw in Hr, Hc. split; [exact Hr|exact (proj2 Hc)].
Defined.

Lemma due_poll_oversleeps_witness :
  reachable demo_builder w_due ∧
  ∃ f w', run_actions [Run 40 false; Run 40 false] w_due = Done w' ∧
    pc w' = R_Waiting f (from_secs 3600) ∧ next_poll_delay 40 (shared (net w')) = Some 0 ∧
    perform (Run 40 false) w' = None.
Proof.
  split; [apply demo_reachable|].
  apply (due_poll_oversleeps 40 w_due); vm_eq.
Defined.

Lemma recv_waits_witness :
  (∃ s1 s2, push_step (demo_session 0 0) [5] (sh w_read) = Done (tt, s1) ∧
    recv_steps 2 (demo_session 0 0) (Recv_Wait 1%nat) s1 = Done (Recv_Return (Some [5]), s2)) ∧
  (∃ f s' uq', gap_schedule (demo_session 0 0) [5] (sh w_read) = Done (Recv_Wait f, s') ∧
    queues s' !! 0%nat = Some uq' ∧ inner uq' = [[5]] ∧
    ∀ n, recv_steps n (demo_session 0 0) (Recv_Wait f) s' = Done (Recv_Wait f, s')).
Proof.
  destruct (recv_waits (demo_session 0 0) (demo_queue []) [5] (sh w_read)) as (H1 & _ & H3); [vm_eq|reflexivity|].
  split; [exact H1|]. apply H3. reflexivity.
Defined.

Lemma pending_entry_stays_witness :
  tcp (manager (core (sh (run_from w_half abandon)))) !! tcp_key = Some (pending_entry 0) ∧
  32768 ≤ buffer_bytes (core (sh (run_from w_half abandon))).
Proof.
  apply (pending_entry_stays demo_builder w_half (run_events abandon w_half) (run_from w_half abandon)
    tcp_key (pending_entry 0) demo_builder_ok (demo_reachable _)).
  - vm_eq.
  - reflexivity.
  - apply run_from_trace. vm_eq.
  - assert (omap session_tcp_key (Pipeline.opened (run_events abandon w_half)) = []) as Ho by vm_eq.
    rewrite Ho. apply not_elem_of_nil.
Defined.

(** The buffer of the session is full in [w_full]. *)
Definition send_answer : option SendPc :=
  match send_step (demo_session 0 0) [1] Send_Try (sh w_full) with Done (p, _) => Some p | _ => None end.

Lemma send_waits_witness :
  (∃ n w', run_alone n 40 w_cycle = Done w' ∧
    ((pc w' = R_Top ∧ send_step (demo_session 0 0) [1] (Send_Wait (notified (world_done w_cycle))) (sh w') =
        Done (Send_Try, sh w')) ∨ (pc w' = R_Forwarding ∧ blocked w'))) ∧
  (∃ w' f g d, run_actions (gap_run 0 [1] 40) w_full = Done w' ∧
    send_step (demo_session 0 0) [1] Send_Subscribe (sh w') = Done (Send_Wait f, sh w') ∧
    pc w' = R_Waiting g d ∧ perform (Run 40 false) w' = None ∧
    ∀ n, send_steps n (demo_session 0 0) [1] (Send_Wait f) (sh w') = Done (Send_Wait f, sh w')).
Proof.
  split.
  - apply (proj1 (send_waits demo_builder w_cycle 0 (demo_session 0 0) [1] 40 demo_builder_ok
      (demo_reachable _) ltac:(vm_eq))). vm_eq.
  - assert (send_answer = Some Send_Nudge) as Ha by vm_eq. unfold send_answer in Ha.
    destruct (send_step (demo_session 0 0) [1] Send_Try (sh w_full)) as [[p s1]| |] eqn:Hs; [|discriminate..].
    injection Ha as ->.
    apply (proj2 (send_waits demo_builder w_full 0 (demo_session 0 0) [1] 40 demo_builder_ok
      (demo_reachable _) ltac:(vm_eq)) s1); [vm_eq|vm_eq|vm_eq|exact Hs].
Defined.

(** The runner has nothing to do in [w_tcp]. *)
Definition write_answer : option (Poll (result Z io_Error)) :=
  match poll_write demo_stream 0 [1; 2] (sh w_tcp) with Done (r, _) => Some r | _ => None end.

Lemma write_leaves_runner_waiting_witness :
  ∃ w' sk, run_actions [On_session 0 (Op_Write 0 [1; 2]); On_session 0 (Op_Flush 0)] w_tcp = Done w' ∧
    sock_of (slots (core (sh w'))) if1 0 = Some (Socket_Tcp sk) ∧ 0 < tcp_send_queue sk ∧
    perform (Run 50 false) w' = None.
Proof.
  assert (write_answer = Some (Poll_Ready (Ok 2))) as Ha by vm_eq. unfold write_answer in Ha.
  destruct (poll_write demo_stream 0 [1; 2] (sh w_tcp)) as [[r s']| |] eqn:Hw; [|discriminate..].
  injection Ha as ->.
  destruct (write_leaves_runner_waiting demo_builder w_tcp 0 demo_stream 0 [1; 2] 2 s' 2%nat (from_secs 3600) 50
    demo_builder_ok (demo_reachable _)) as (w' & sk & Hr & Hs & Hsk & Hq & _ & Hp).
  - vm_eq.
  - vm_eq.
  - vm_eq.
  - exact Hw.
  - exists w', sk. unfold sh. rewrite Hs. split_and!; [exact Hr|exact Hsk|exact Hq|exact Hp].
Defined.
